(* ===== verification/_CoqProject ===== *)
-Q . S2P
Prelude.v
Rlist.v
Iface.v
Lists.v
Sched.v
SchedInv.v
SchedSys.v
CondVar.v
Mutex.v
Monitor.v
TimedTests.v
Bios.v
VmLife.v
Host.v
Kernel.v
Dev.v
Streams.v
Proc.v
ProcInv.v
ProcOps.v
ProcExit.v
ProcSpec.v
Boot.v
Sys.v
SysInv.v
SysOps.v
Instances.v
SysProps.v
Executor.v
Prog.v
Argv.v
UnitTest.v
TestRunner.v
ApiTests.v
Exceptions.v
Symposium.v
Philosophers.v
Utilities.v
Party.v
Shell.v
Terminal.v
UtilTests.v
Remote.v
ExerciseTests.v
ClockTests.v
BiosExamples.v
Console.v
