(* ===== verification/Prelude.v ===== *)
(** * TinyOS v.3: a verification development

  TinyOS is a small operating system for teaching: a simulated multicore machine, a kernel with processes, streams
  and devices on it, and user programs with a shell.  This library models its C code as functions and step
  relations and proves what makes them correct.

  ** The parts of the program and the files that model them

  From the bottom up, with the sources under src/:

  - [Rlist] (util.h): the intrusive circular lists that all of the kernel is built of, as code over a store of
    nodes.  [ring] and [rlist] describe the store; each operation has a lemma that says which rings it makes of
    which, and [queue_refinement] that sequences of them behave as sequences on lists.  [Lists] holds
    families of lists in one store.
  - [Iface]: what the components promise to each other, as classes of operations with classes of laws: [BiosOps]
    and [SerialOps] (the machine), [WakeOps], [SleepOps] and [SpawnOps] (the scheduler).  The clients are modelled
    and proved against these; [Bios], [Sched] and [Instances] give the instances.
  - [Bios] (bios.h, bios.c): cores with interrupts, halting and timers, serial ports, and the interrupt controller
    thread.  What the host answers is an argument of the operations.  [VmLife]: the threads of the machine from
    [vm_boot] to its end, with the two barriers.  [Host]: the system calls of the host, with the loops over those that
    are interrupted.  [BiosExamples] (bios_example1.c to bios_example5.c): programs on the bare machine.
  - [Sched], [SchedInv], [SchedSys] (kernel_sched.h, kernel_sched.c): threads, the ready queue, the timeout list,
    yielding and gaining a core; the invariant that its operations keep; and all cores together as a
    transition system.  An operation is one critical section of the scheduler's spinlock.
  - [Mutex], [CondVar] (kernel_cc.h, kernel_cc.c): the spinning mutex as a machine of its atomic accesses, the kernel
    lock as the monitor that it is, and condition variables over the interface of the scheduler.  [Monitor]: programs on
    mutexes and condition variables, an instruction at a time, for [Philosophers] and [TimedTests].
  - [Kernel] (kernel_proc.h, kernel_streams.h, kernel_dev.h): the tables as one state.  [Dev] (kernel_dev.c), [Streams]
    (kernel_streams.c) and [Proc] (kernel_proc.c) are the operations and the system calls on it.  [ProcInv],
    [ProcOps] and [ProcExit] prove that they keep the tables well formed ([kernel_ok]) and say what
    they do; [ProcSpec] is an abstract specification of processes (a tree with exit statuses) that they refine.
  - [Boot] (kernel_init.c): from the tables as the loader leaves them to a well-formed kernel with two processes.
  - [Sys] (kernel_sys.c, kernel_init.c, and the calls of kernel_threads.c, kernel_socket.c and kernel_pipe.c, which are
    not implemented): programs are trees of instructions and system calls; the system is the kernel, a thread
    for each process, and the memory.  A system call runs under the kernel lock to its end or to the
    [kernel_wait] in which it sleeps, so it is one step.  The interrupt handler of the terminals, the terminals and
    the scheduler take steps of their own.  [SysInv] and [SysOps] prove the invariant, [SysProps] the properties.
  - [Executor]: the executor of [Sys], which picks the next thread and runs the system as far as it goes, takes
    steps of the system only; the tests and the sessions at the shell are run by it.
  - [Prog]: statements of programs in sequence, and what they use of the C library.  [Argv] (util.h, tinyoslib.c):
    vectors of arguments and the execution of programs, with the lengths that the code keeps in an [int].  [Exceptions]
    (util.h, util.c): TRY-blocks and unwinding; a frame has its jump target, and code falls through or jumps to one.
  - [Utilities], [Shell] and [Remote] (tinyos_shell.c, tinyoslib.c): the filters and other programs, the shell and the
    initial task, the remote client and its server with the log of the server.  [Terminal] (terminal.c): the
    emulator of a terminal, between the pipes of the machine and a user.
  - [Symposium] and [Party] (symposium.c): the dining philosophers, whose steps are critical sections and, between them,
    the thoughts, which may divide by zero; the process that starts them and frees their table.  [Philosophers]: their
    instructions on [Monitor], which refine [Symposium].
  - [Console] (console.c, mtask.c, tinyoslib.c): the pseudo console, C streams on file ids, and the programs that boot.
  - [UnitTest] (unit_testing.h, unit_testing.c): the test library with its command line and messages.  [TestRunner]: the
    processes in which it executes tests, with their signals, and the daemons of the terminals.  [ApiTests],
    [ExerciseTests], [TimedTests] and [ClockTests] (validate_api.c): the test suite as programs that the modelled kernel
    runs; those of timed waits are programs on [Monitor], and those that measure time have the clock as an argument.
    [UtilTests] (test_util.c): the tests of the lists, of the vectors of arguments and of the exceptions.

  Functions, records and constructors have the names of the C code where these are free in Rocq.  A pointer is a key
  of a map (or an offset in a buffer); an access through a bad pointer is the outcome [Err BadAccess], an [assert] that
  fails [Err AssertFail], [FATAL] and [abort] [Err Fatal], as is what ends the program at once (a division by zero, a signal).  Machine integers are in [Z], with [wrap] where the
  code can overflow.

  ** What is proved

  - Of the system ([SysProps]), in every state that it reaches from boot, whatever its programs do and in whichever
    order: no system call faults (a [Write] to a terminal that refuses its first byte polls it, and
    is the one call that neither returns nor sleeps); the lists of children are exactly the children, and everybody descends from the
    initial process; reference counts are exact and the free list holds exactly the unused blocks; no exit
    of a child is missed; there is no deadlock (whoever waits for good waits for a terminal, or for a child that was made
    without a task); the initial process ends last; [Exec], [WaitChild], [Exit],
    [Dup2], [OpenTerminal] and [Read] do what they promise on every branch; the steps refine [ProcSpec].
  - Of the scheduler ([SchedSys]): it never faults, a thread is on one core at most, the ready queue and the timeout
    list hold exactly whom they should, no wakeup is lost, and what each operation does.
  - Of synchronisation ([CondVar], [Mutex]): the rings of the condition variables hold exactly the waiters, signals wake the first waiter and broadcasts all, mutual exclusion of
    the mutexes and of the kernel lock.
  - Of the machine ([Bios]): it never faults, and dispatching loses no interrupt; [halt_misses_interrupt] shows
    an interleaving in which a core sleeps with an interrupt pending.  Of its life ([VmLife]): no core enters the boot
    code before all are set up, and none ends before all have left it and the interrupt controller has stopped; and
    [vm_boot] returns if the boot code does and no core sleeps for ever.  Of the programs on it ([BiosExamples]): nobody says farewell before all have greeted, and the dialogue on a port is what it
    should be, however slow the port.
  - Of the lists ([Rlist]): refinement of sequences, the ring surgery of [rl_splice]; [pop_back_empties_list] shows
    that [rlist_pop_back] empties its list.
  - Of the user level: packing arguments and executing programs round-trip, also over a connection to the remote
    server if the request has at most 2048 bytes; its log prints what was logged in order; a TRY-block runs every handler
    of its frame once, and leaves the stack as it was or by a jump to a block around it; philosophers exclude their
    neighbours, those who sleep are the hungry ones, and the process that runs them frees their table when nobody uses it
    any more, unless they have no number to think of; their instructions on the condition variables refine their steps;
    the filters and [hanoi] are correct; the shell splits command lines rightly; the emulator loses, doubles and reorders
    nothing, and moves a byte when both sides are ready; the library that runs the tests answers the verdict of the test,
    and its daemons serve every pattern ([TestRunner]).  Evaluated on small instances: the test suites, the tests of timed
    waits under all schedules, and a session at the shell.

  A theorem with hypotheses comes with a witness, a concrete instance of it.

  ** Bounds and fuel

  A loop whose end is not structural takes fuel and yields [OutOfFuel] without it; callers give a number that is
  proved to be enough (the size of the store for walks of lists, of the table for waits, the number of handlers
  for unwinding), so that the theorems say that the calls return.  The sizes of the process table and of the table of
  file control blocks are parameters ([config] in [SysProps]): at least two processes, and few enough that reference
  counts fit in 32 bits; MAX_PROC is 65536 and satisfies this.  A [Write] polls its terminal without bound; a
  step of the model follows as many polls as the terminal's [patience], a number of any size, and is [Err Stalled] when the
  call has not returned by then ([serial_write_loop] in [Dev]); the call is tried again when the terminal has changed.  Programs that read without end (filters, the shell)
  have fuel of their own, more than what they are given to read.

  ** What is not modelled, and why

  - The bodies of the context switch (swapcontext), signals and threads of the host: they are steps and arguments.
  - Accesses of the memory by user programs beyond one shared state: programs are arbitrary functions of it.
  - Threads inside a process, pipes, sockets and information streams: this kernel has stubs for them, which are
    modelled, with what their tests and the remote server do when the calls fail.  [Remote] also gives the answers of
    a connection that works, as the partner of the server's threads.
  - Timed waits in programs of [Sys]: condition variables are modelled at the level of threads ([CondVar], [Monitor]),
    and a philosopher is a process of steps of its own, not a program of [Sys].
  - The pseudo console as a call of a program of [Sys]: [Console] has what it does to the tables, which it changes without
    the kernel lock; the programs that boot with it have its call as a parameter.
  - The setting up of signals and threads in bios.c, the statistics that it does not print, and what argp does besides
    calling [parse_options]; EINTR at the console of the remote server.
  - test_example.c, which tests nothing of the program. *)

From stdpp Require Export base tactics option list gmap countable finite.
From Stdlib Require Export ZArith Lia.

#[export] Set Warnings "-clear-no-such-hyp,-register-all".

Declare Scope tinyos_scope.
Delimit Scope tinyos_scope with tinyos.

(** ** Outcomes of C code

  A C function either returns or stops the machine: it dereferences memory that is not there,
  fails an [assert], or calls [FATAL] / [abort].  [OutOfFuel] marks a loop that was not given
  enough iterations; the theorems about loops show that it does not arise.  [Stalled] marks the one loop whose
  end is up to a device: it still polls. *)

Inductive fault :=
  | BadAccess
  | AssertFail
  | Fatal
  | OutOfFuel
  | Stalled.

Inductive outcome (A : Type) :=
  | Ret (a : A)
  | Err (f : fault).
Arguments Ret {A} a.
Arguments Err {A} f.

#[export] Instance fault_eq_dec : EqDecision fault.
Proof. solve_decision. Defined.

#[export] Instance outcome_ret : MRet outcome := fun A a => Ret a.

#[export] Instance outcome_bind : MBind outcome :=
  fun A B k m => match m with Ret a => k a | Err f => Err f end.

(** [c_assert b] is the C [assert(b)], [deref o] the access through a pointer whose cell is [o]. *)
Definition c_assert (b : bool) : outcome unit := if b then Ret tt else Err AssertFail.

(** [CHECK_CONDITION(b)] of bios.c. *)
Definition check_condition (b : bool) : outcome unit := if b then Ret tt else Err Fatal.

Definition deref {A} (o : option A) : outcome A :=
  match o with Some a => Ret a | None => Err BadAccess end.

(** ** Machine integers *)

Definition wrap (w : Z) (z : Z) : Z := (z mod 2 ^ w)%Z.
Abbreviation u32 := (wrap 32).
Abbreviation u64 := (wrap 64).

(** The value of an [int] that was computed as [z]. *)
Definition s32 (z : Z) : Z := (wrap 32 (z + 2 ^ 31) - 2 ^ 31)%Z.

Definition INT_MAX : Z := (2 ^ 31 - 1)%Z.

(** ** Sequences of steps *)

Section reach.
Context {St : Type} (step : St -> St -> Prop).

Inductive reach : St -> St -> Prop :=
  | reach_refl s : reach s s
  | reach_step s1 s2 s3 : reach s1 s2 -> step s2 s3 -> reach s1 s3.

Lemma reach_trans s1 s2 s3 : reach s1 s2 -> reach s2 s3 -> reach s1 s3.
Proof. intros H1 H2. induction H2; eauto using reach. Qed.

Lemma reach_invariant (P : St -> Prop) :
  (forall s1 s2, P s1 -> step s1 s2 -> P s2) -> forall s1 s2, reach s1 s2 -> P s1 -> P s2.
Proof. intros Hstep s1 s2 H. induction H; eauto. Qed.
End reach.

(** ** Lemmas and automation on outcomes *)

Lemma bind_Ret {A B} (m : outcome A) (k : A -> outcome B) b :
  (m ≫= k) = Ret b <-> exists a, m = Ret a /\ k a = Ret b.
Proof.
  destruct m as [a|f]; simpl.
  - split; [by eauto|]. by intros (a' & [= ->] & ?).
  - split; [done|]. by intros (a' & ? & ?).
Qed.

Lemma ret_bind {A B} (a : A) (k : A -> outcome B) : (Ret a ≫= k) = k a.
Proof. done. Qed.

Lemma bind_eq {A B} (m : outcome A) a (k : A -> outcome B) : m = Ret a -> (m ≫= k) = k a.
Proof. by intros ->. Qed.

Lemma c_assert_True P `{!Decision P} : P -> c_assert (bool_decide P) = Ret tt.
Proof. intros ?. by rewrite bool_decide_true. Qed.

Lemma deref_Ret {A} (o : option A) a : deref o = Ret a <-> o = Some a.
Proof. destruct o; simpl; naive_solver. Qed.

Lemma check_condition_Ret b u : check_condition b = Ret u <-> b = true.
Proof. destruct b, u; simpl; naive_solver. Qed.

Lemma c_assert_Ret b u : c_assert b = Ret u <-> b = true.
Proof. destruct b, u; simpl; naive_solver. Qed.

(** [inv_ret] unfolds hypotheses stating that a sequence of calls returned. *)
Ltac inv_ret :=
  repeat match goal with
  | H : (_ ≫= _) = Ret _ |- _ =>
      let a := fresh "r" in let Ha := fresh "Hr" in apply bind_Ret in H as (a & Ha & H)
  | H : deref _ = Ret _ |- _ => apply deref_Ret in H
  | H : c_assert _ = Ret _ |- _ => apply c_assert_Ret in H
  | H : check_condition _ = Ret _ |- _ => apply check_condition_Ret in H
  | H : mret _ = Ret _ |- _ => injection H as H
  | H : Ret _ = Ret _ |- _ => injection H as H
  | H : Err _ = Ret _ |- _ => discriminate H
  | p : (_ * _)%type |- _ => destruct p
  end; simplify_eq/=.

Create HintDb tinyos.

Lemma wrap_small w z : (0 <= z < 2 ^ w)%Z -> wrap w z = z.
Proof. apply Z.mod_small. Qed.

Lemma wrap_range w z : (0 <= w -> 0 <= wrap w z < 2 ^ w)%Z.
Proof. intros. apply Z.mod_pos_bound. lia. Qed.

Lemma wrap_add_l w a b : (0 <= w)%Z -> wrap w (wrap w a + b) = wrap w (a + b).
Proof. intros. unfold wrap. by rewrite Zplus_mod_idemp_l. Qed.

Lemma s32_small z : (- 2 ^ 31 <= z < 2 ^ 31)%Z -> s32 z = z.
Proof. intros Hz. unfold s32. rewrite wrap_small by lia. lia. Qed.

(** ** Finite sums *)

Fixpoint zsum (g : nat -> Z) (n : nat) : Z := match n with O => 0 | S n => zsum g n + g n end%Z.

Lemma zsum_ext g g' n : (forall p, p < n -> g' p = g p) -> zsum g' n = zsum g n.
Proof. intros Hg. induction n as [|n IH]; [done|]. simpl. rewrite IH, Hg; [done|lia|]. intros p Hp. apply Hg. lia. Qed.

Lemma zsum_zero g n : (forall p, p < n -> g p = 0%Z) -> zsum g n = 0%Z.
Proof. intros Hg. induction n as [|n IH]; [done|]. simpl. rewrite IH, Hg; [done|lia|]. intros p Hp. apply Hg. lia. Qed.

(** A change at one index. *)
Lemma zsum_upd g g' n p : p < n -> (forall q, q <> p -> g' q = g q) -> zsum g' n = (zsum g n + g' p - g p)%Z.
Proof.
  intros Hp Hg. induction n as [|n IH]; [lia|]. simpl. destruct (decide (p = n)) as [->|Hne].
  - rewrite (zsum_ext g g') by (intros q Hq; apply Hg; lia). lia.
  - rewrite IH, (Hg n) by lia. lia.
Qed.

Lemma zsum_le g n m : (forall p, p < n -> (0 <= g p <= m)%Z) -> (0 <= zsum g n <= Z.of_nat n * m)%Z.
Proof.
  intros Hg. induction n as [|n IH]; simpl zsum; [lia|]. pose proof (Hg n ltac:(lia)).
  assert (0 <= zsum g n <= Z.of_nat n * m)%Z by (apply IH; intros p Hp; apply Hg; lia). lia.
Qed.

Lemma zsum_ge g n p : p < n -> (forall q, q < n -> (0 <= g q)%Z) -> (g p <= zsum g n)%Z.
Proof.
  intros Hp Hg. rewrite (zsum_upd (fun q => if decide (q = p) then 0%Z else g q) g n p); [|done|].
  - assert (0 <= zsum (fun q => if decide (q = p) then 0%Z else g q) n)%Z; [|rewrite decide_True by done; lia].
    clear Hp. induction n as [|n IH]; [done|]. simpl.
    pose proof (IH ltac:(intros q Hq; apply Hg; lia)). case_decide; [lia|]. pose proof (Hg n ltac:(lia)). lia.
  - intros q Hq. by rewrite decide_False.
Qed.

Lemma zsum_pos g n : (forall q, q < n -> (0 <= g q)%Z) -> (0 < zsum g n)%Z -> exists p, p < n /\ (0 < g p)%Z.
Proof.
  intros Hg. induction n as [|n IH]; simpl; [lia|]. intros Hs.
  destruct (decide (0 < g n)%Z) as [?|Hn]; [exists n; split; [lia|done]|].
  destruct IH as (p & ? & ?); [intros q Hq; apply Hg; lia|lia|]. exists p. split; [lia|done].
Qed.

(** ** Lemmas on lists *)

(** [list_mem] solves membership goals over [++], [::] and [[]]. *)
Ltac list_mem :=
  repeat first
    [ rewrite elem_of_app in * | rewrite elem_of_cons in * | rewrite elem_of_nil in * ];
  tauto.

Lemma NoDup_length_le `{Countable A} (l : list A) (X : gset A) :
  NoDup l -> (forall x, x ∈ l -> x ∈ X) -> length l <= size X.
Proof.
  intros Hnd Hin. rewrite <- (size_list_to_set (C := gset A) l) by done.
  apply subseteq_size. intros x Hx. apply Hin. by apply elem_of_list_to_set in Hx.
Qed.

Lemma disjoint_cons_l {A} (x : A) (l k : list A) : (x :: l) ## k <-> (x ∉ k) /\ (l ## k).
Proof.
  rewrite !elem_of_disjoint. setoid_rewrite elem_of_cons. split.
  - intros Hd. split; [intros ?; eapply Hd; eauto|eauto].
  - intros [Hx Hd] y [->|Hy]; eauto.
Qed.

Lemma singleton_disjoint {A} (x : A) (k : list A) : [x] ## k <-> x ∉ k.
Proof. rewrite disjoint_cons_l, elem_of_disjoint. set_solver. Qed.

Lemma filter_all {A} (P : A -> Prop) `{!forall x, Decision (P x)} (l : list A) :
  (forall x, x ∈ l -> P x) -> filter P l = l.
Proof.
  induction l as [|x l IH]; intros Hl; [done|].
  rewrite filter_cons_True by (apply Hl; by left). f_equal. apply IH. intros y Hy. apply Hl. by right.
Qed.
