(* ===== verification/Rlist.v ===== *)
(** * Resource lists (util.h)

  The intrusive doubly-linked circular lists of [util.h], as code over a store of [rlnode]s, with
  the ring predicate that describes the store and, for each operation, the theorem that says which
  rings it makes out of which rings.  Nodes have addresses of a type [N]; the key of a node is a
  value of a type [K] that has a null value (the C union holds pointers and integers). *)

From S2P Require Import Prelude.

(** ** Data *)

Class Null (K : Type) := null : K.
#[export] Instance null_option A : Null (option A) := None.
#[export] Instance null_Z : Null Z := 0%Z.

Record rlnode (N K : Type) := RLNode { obj : K; prev : N; next : N }.
Arguments RLNode {N K} obj prev next.
Arguments obj {N K} r.
Arguments prev {N K} r.
Arguments next {N K} r.

(** The store: the initialised nodes.  Reading a node that is not there is a [BadAccess]. *)
Abbreviation rlheap N K := (gmap N (rlnode N K)).

(** A reference to a pointer field, the argument of [rlnode_swap]. *)
Inductive lval (N : Type) :=
  | PrevOf (n : N)
  | NextOf (n : N).
Arguments PrevOf {N} n.
Arguments NextOf {N} n.

#[export] Instance lval_eq_dec {N : Type} `{EqDecision N} : EqDecision (lval N).
Proof. solve_decision. Defined.

(** ** Operations *)

Section operations.
Context {N K : Type} `{Countable N} `{EqDecision K} `{Null K}.
Implicit Types (h : rlheap N K) (a b list node : N).

Definition load h (r : lval N) : option N :=
  match r with
  | PrevOf n => prev <$> h !! n
  | NextOf n => next <$> h !! n
  end.

Definition store (r : lval N) (v : N) h : outcome (rlheap N K) :=
  match r with
  | PrevOf n => nd ← deref (h !! n); Ret (<[n := RLNode (obj nd) v (next nd)]> h)
  | NextOf n => nd ← deref (h !! n); Ret (<[n := RLNode (obj nd) (prev nd) v]> h)
  end.

Definition rlnode_new (p : N) h : N * rlheap N K :=
  (p, <[p := RLNode (default null (obj <$> h !! p)) p p]> h).

Definition rlnode_init (p : N) (ptr : K) h : N * rlheap N K :=
  (p, <[p := RLNode ptr p p]> h).

Definition rlnode_swap (p q : lval N) h : outcome (rlheap N K) :=
  temp ← deref (load h p);
  vq ← deref (load h q);
  h1 ← store p vq h;
  store q temp h1.

Definition rl_splice a b h : outcome (N * rlheap N K) :=
  na ← deref (h !! a);
  nb ← deref (h !! b);
  h1 ← rlnode_swap (PrevOf (next na)) (PrevOf (next nb)) h;
  h2 ← rlnode_swap (NextOf a) (NextOf b) h1;
  Ret (b, h2).

Definition rlist_remove a h : outcome (N * rlheap N K) :=
  na ← deref (h !! a);
  '(_, h1) ← rl_splice a (prev na) h;
  Ret (a, h1).

Definition is_rlist_empty a h : outcome bool :=
  na ← deref (h !! a);
  Ret (bool_decide (a = next na)).

Definition rlist_push_front list node h : outcome (rlheap N K) :=
  '(_, h1) ← rl_splice list node h; Ret h1.

Definition rlist_push_back list node h : outcome (rlheap N K) :=
  nl ← deref (h !! list);
  '(_, h1) ← rl_splice (prev nl) node h; Ret h1.

Definition rlist_pop_front list h : outcome (N * rlheap N K) :=
  nl ← deref (h !! list);
  rl_splice list (next nl) h.

Definition rlist_pop_back list h : outcome (N * rlheap N K) :=
  nl ← deref (h !! list);
  rl_splice list (prev nl) h.

(** The loops of [rlist_len], [rlist_equal], [rlist_find], [rlist_reverse] and [rlist_select] get
  one more iteration than the store has nodes. *)
Fixpoint rlist_len_loop (fuel : nat) list (p : N) (count : Z) h : outcome Z :=
  match fuel with
  | O => Err OutOfFuel
  | S fuel =>
      if decide (p = list) then Ret count
      else np ← deref (h !! p); rlist_len_loop fuel list (next np) (u32 (count + 1)) h
  end.

Definition rlist_len list h : outcome Z :=
  nl ← deref (h !! list);
  rlist_len_loop (S (size h)) list (next nl) 0 h.

Fixpoint rlist_equal_loop (fuel : nat) (L1 L2 i1 i2 : N) h : outcome bool :=
  match fuel with
  | O => Err OutOfFuel
  | S fuel =>
      if decide (i1 = L1) then Ret (bool_decide (i2 = L2))
      else if decide (i2 = L2) then Ret false
      else
        n1 ← deref (h !! i1);
        n2 ← deref (h !! i2);
        if decide (obj n1 ≠ obj n2) then Ret false
        else rlist_equal_loop fuel L1 L2 (next n1) (next n2) h
  end.

Definition rlist_equal (L1 L2 : N) h : outcome bool :=
  n1 ← deref (h !! L1);
  n2 ← deref (h !! L2);
  rlist_equal_loop (S (size h)) L1 L2 (next n1) (next n2) h.

Definition rlist_append (ldest lsrc : N) h : outcome (rlheap N K) :=
  h1 ← rlist_push_back ldest lsrc h;
  '(_, h2) ← rlist_remove lsrc h1; Ret h2.

Definition rlist_prepend (ldest lsrc : N) h : outcome (rlheap N K) :=
  h1 ← rlist_push_front ldest lsrc h;
  '(_, h2) ← rlist_remove lsrc h1; Ret h2.

Fixpoint rlist_reverse_loop (fuel : nat) (l p : N) h : outcome (rlheap N K) :=
  match fuel with
  | O => Err OutOfFuel
  | S fuel =>
      h1 ← rlnode_swap (PrevOf p) (NextOf p) h;
      np ← deref (h1 !! p);
      if decide (next np = l) then Ret h1 else rlist_reverse_loop fuel l (next np) h1
  end.

Definition rlist_reverse (l : N) h : outcome (rlheap N K) :=
  rlist_reverse_loop (S (size h)) l l h.

Fixpoint rlist_find_loop (fuel : nat) (List i : N) (key : K) (fail : option N) h
    : outcome (option N) :=
  match fuel with
  | O => Err OutOfFuel
  | S fuel =>
      if decide (i = List) then Ret fail
      else
        ni ← deref (h !! i);
        if decide (obj ni = key) then Ret (Some i)
        else rlist_find_loop fuel List (next ni) key fail h
  end.

Definition rlist_find (List : N) (key : K) (fail : option N) h : outcome (option N) :=
  nl ← deref (h !! List);
  rlist_find_loop (S (size h)) List (next nl) key fail h.

(** [pred] gets the address of the node and may read the store. *)
Fixpoint rlist_select_loop (fuel : nat) (Lsrc Ldest I : N) (pred : N -> rlheap N K -> bool) h
    : outcome (rlheap N K) :=
  match fuel with
  | O => Err OutOfFuel
  | S fuel =>
      nI ← deref (h !! I);
      if decide (next nI = Lsrc) then Ret h
      else if pred (next nI) h then
        '(p, h1) ← rlist_remove (next nI) h;
        h2 ← rlist_push_back Ldest p h1;
        rlist_select_loop fuel Lsrc Ldest I pred h2
      else rlist_select_loop fuel Lsrc Ldest (next nI) pred h
  end.

Definition rlist_select (Lsrc Ldest : N) (pred : N -> rlheap N K -> bool) h
    : outcome (rlheap N K) :=
  rlist_select_loop (S (size h)) Lsrc Ldest Lsrc pred h.
End operations.

(** ** Rings

  [edge h p q]: the links between two consecutive nodes agree, [p->next == q] and [q->prev == p].
  [links h a l z]: the path from [a] to [z] through the nodes of [l].  [ring h l]: the nodes of [l],
  in this order, form a ring, the [[a,b,c]] of the documentation.  [rlist h L l]: [L] is the
  sentinel of a list that holds [l].  [frame S h h']: the step from [h] to [h'] keeps the rings that
  do not meet [S], and all keys. *)

Section rings.
Context {N K : Type} `{Countable N}.
Implicit Types (h : rlheap N K) (a b : N) (l r S : list N).

Definition obj_of h (n : N) : option K := obj <$> h !! n.

Definition edge h (p q : N) : Prop :=
  load h (NextOf p) = Some q /\ load h (PrevOf q) = Some p.

Fixpoint links h a l (z : N) : Prop :=
  match l with
  | [] => edge h a z
  | b :: l => edge h a b /\ links h b l z
  end.

Definition ring h l : Prop :=
  match l with
  | [] => False
  | a :: l => NoDup (a :: l) /\ links h a l a
  end.

Definition rlist h (L : N) l : Prop := ring h (L :: l).

Record frame S h h' : Prop := {
  frame_ring r : ring h r -> r ## S -> ring h' r;
  frame_obj n : obj_of h' n = obj_of h n
}.

(** [pred] looks at the keys of the store only: on any store with the keys of [h] it is [f]. *)
Definition key_pred h (pred : N -> rlheap N K -> bool) (f : N -> bool) : Prop :=
  forall h' n, (forall x, obj_of h' x = obj_of h x) -> pred n h' = f n.

(** The store in which the nodes of [l] have their two links traded. *)
Definition flip (nd : rlnode N K) : rlnode N K := RLNode (obj nd) (next nd) (prev nd).
Definition flip_nodes l h : rlheap N K := foldr (alter flip) h l.

(** The next node on a path: the first of [l], or [z]. *)
Definition hd_or (z : N) l : N := match l with [] => z | b :: _ => b end.

#[export] Instance edge_dec h p q : Decision (edge h p q).
Proof. apply _. Defined.

#[export] Instance links_dec h a l z : Decision (links h a l z).
Proof. revert a. induction l; apply _. Defined.

#[export] Instance ring_dec h l : Decision (ring h l).
Proof. destruct l; apply _. Defined.

#[export] Instance rlist_dec h L l : Decision (rlist h L l).
Proof. apply ring_dec. Defined.
End rings.

(** ** Lists as queues

  The queue operations, on the store ([qop_code]) and on the list of the nodes that are in the
  queue ([qop_spec]: [None] for the push of a node that is already there). *)

Section queues.
Context {N K : Type} `{Countable N} `{EqDecision K} `{Null K}.
Implicit Types (h : rlheap N K) (L x : N) (l pool : list N).

Inductive qop :=
  | PushBack (x : N)
  | PushFront (x : N)
  | PopFront
  | Remove (x : N).

Definition qop_code L (op : qop) h : outcome (N * rlheap N K) :=
  match op with
  | PushBack x => h' ← rlist_push_back L x h; Ret (x, h')
  | PushFront x => h' ← rlist_push_front L x h; Ret (x, h')
  | PopFront => rlist_pop_front L h
  | Remove x => rlist_remove x h
  end.

Definition qop_spec L (op : qop) l : option (N * list N) :=
  match op with
  | PushBack x => if decide (x ∈ l) then None else Some (x, l ++ [x])
  | PushFront x => if decide (x ∈ l) then None else Some (x, x :: l)
  | PopFront => Some (hd_or L l, tail l)
  | Remove x => Some (x, filter (fun y => y <> x) l)
  end.

Fixpoint qops_code L (ops : list qop) h : outcome (list N * rlheap N K) :=
  match ops with
  | [] => Ret ([], h)
  | op :: ops => '(r, h1) ← qop_code L op h; '(rs, h2) ← qops_code L ops h1; Ret (r :: rs, h2)
  end.

Fixpoint qops_spec L (ops : list qop) l : option (list N * list N) :=
  match ops with
  | [] => Some ([], l)
  | op :: ops => '(r, l1) ← qop_spec L op l; '(rs, l2) ← qops_spec L ops l1; Some (r :: rs, l2)
  end.

(** The nodes of an operation come from [pool]. *)
Definition qop_in pool (op : qop) : Prop :=
  match op with
  | PushBack x | PushFront x | Remove x => x ∈ pool
  | PopFront => True
  end.

(** [L] holds [l]; the nodes of the pool are in the list or alone. *)
Record queue_inv pool L h l : Prop := {
  q_list : rlist h L l;
  q_pool x : x ∈ l -> x ∈ pool;
  q_sentinel : L ∉ pool;
  q_alone x : x ∈ pool -> x ∉ l -> ring h [x]
}.
End queues.
Arguments qop N : clear implicits.

(** ** Lemmas on the store *)

Section store_lemmas.
Context {N K : Type} `{Countable N} `{EqDecision K} `{Null K}.
Implicit Types (h : rlheap N K) (a b p q : N) (l r : list N).

Lemma store_spec h rf u v :
  load h rf = Some u ->
  exists h', store rf v h = Ret h' /\
    (forall rf', load h' rf' = if decide (rf' = rf) then Some v else load h rf') /\
    (forall n, obj_of h' n = obj_of h n).
Proof.
  destruct rf as [p|p]; simpl; intros Hl; destruct (h !! p) as [nd|] eqn:Hp; simplify_eq/=.
  all: eexists; split; [done|]; split.
  1, 3: intros [q|q]; simpl; (destruct (decide (q = p)) as [->|]; [rewrite lookup_insert_eq|
    rewrite lookup_insert_ne by done]); simpl; repeat case_decide; simplify_eq; rewrite ?Hp; done.
  all: intros n; unfold obj_of; (destruct (decide (n = p)) as [->|]; [rewrite lookup_insert_eq, Hp|
    rewrite lookup_insert_ne by done]); done.
Qed.

Lemma swap_spec h rp rq u v :
  load h rp = Some u -> load h rq = Some v ->
  exists h', rlnode_swap rp rq h = Ret h' /\
    (forall rf, load h' rf = if decide (rf = rq) then Some u
                             else if decide (rf = rp) then Some v else load h rf) /\
    (forall n, obj_of h' n = obj_of h n).
Proof.
  intros Hp Hq. unfold rlnode_swap. rewrite Hp, Hq. simpl.
  destruct (store_spec h rp u v Hp) as (h1 & -> & Hl1 & Ho1). simpl.
  assert (is_Some (load h1 rq)) as [w Hw] by (rewrite Hl1; case_decide; eauto).
  destruct (store_spec h1 rq w u Hw) as (h2 & -> & Hl2 & Ho2).
  exists h2. split; [done|]. split; [|congruence].
  intros rf. rewrite Hl2, Hl1. done.
Qed.

Lemma load_lookup h n q :
  load h (NextOf n) = Some q -> exists nd, h !! n = Some nd /\ next nd = q.
Proof. simpl. intros (nd & -> & ?)%fmap_Some. eauto. Qed.

Lemma load_lookup_prev h n q :
  load h (PrevOf n) = Some q -> exists nd, h !! n = Some nd /\ prev nd = q.
Proof. simpl. intros (nd & -> & ?)%fmap_Some. eauto. Qed.

(** What [rl_splice] writes: the links out of [a] and [b] trade their ends. *)
Lemma rl_splice_loads h a b x y :
  edge h a x -> edge h b y ->
  exists h', rl_splice a b h = Ret (b, h') /\
    (forall rf, load h' rf =
      if decide (rf = NextOf b) then Some x else if decide (rf = NextOf a) then Some y
      else if decide (rf = PrevOf y) then Some a else if decide (rf = PrevOf x) then Some b
      else load h rf) /\
    (forall n, obj_of h' n = obj_of h n).
Proof.
  intros [Hax Hxa] [Hby Hyb]. unfold rl_splice.
  destruct (load_lookup _ _ _ Hax) as (na & -> & Ea).
  destruct (load_lookup _ _ _ Hby) as (nb & -> & Eb). cbn [mbind outcome_bind deref].
  rewrite Ea, Eb.
  destruct (swap_spec h (PrevOf x) (PrevOf y) a b Hxa Hyb) as (h1 & -> & Hl1 & Ho1).
  cbn [mbind outcome_bind].
  destruct (swap_spec h1 (NextOf a) (NextOf b) x y) as (h2 & -> & Hl2 & Ho2).
  { by rewrite Hl1, !decide_False. }
  { by rewrite Hl1, !decide_False. }
  exists h2. split; [done|]. split; [|congruence]. intros rf. by rewrite Hl2, Hl1.
Qed.

(** The same as an effect on edges. *)
Lemma rl_splice_edges h a b x y :
  edge h a x -> edge h b y ->
  exists h', rl_splice a b h = Ret (b, h') /\ edge h' a y /\ edge h' b x /\
    (forall p q, p <> a -> p <> b -> edge h p q -> edge h' p q) /\
    (forall n, obj_of h' n = obj_of h n).
Proof.
  intros Ha Hb. destruct (rl_splice_loads h a b x y Ha Hb) as (h' & Hs & Hl & Ho).
  destruct Ha as [Hax Hxa], Hb as [Hby Hyb].
  assert (x = y -> a = b) as Hxy by (intros ->; congruence).
  assert (a = b -> x = y) as Hab by (intros ->; congruence).
  exists h'. split; [done|]. unfold edge. setoid_rewrite Hl.
  split; [|split; [|split]]; [| | |congruence].
  1, 2: split; repeat case_decide; simplify_eq; auto; f_equal; auto using eq_sym.
  intros p q ?? [Hpq Hqp]. split; repeat case_decide; simplify_eq; congruence.
Qed.

Lemma heap_ext h1 h2 :
  (forall rf, load h1 rf = load h2 rf) -> (forall n, obj_of h1 n = obj_of h2 n) -> h1 = h2.
Proof.
  intros Hl Ho. apply map_eq. intros n. specialize (Ho n). unfold obj_of in Ho.
  pose proof (Hl (PrevOf n)) as Hp. pose proof (Hl (NextOf n)) as Hn. simpl in *.
  destruct (h1 !! n) as [[]|], (h2 !! n) as [[]|]; simplify_eq/=; done.
Qed.

(** Splicing the same nodes again gives the first store back. *)
Lemma rl_splice_inv h a b x y (r : N * rlheap N K) :
  edge h a x -> edge h b y -> rl_splice a b h = Ret r -> rl_splice a b r.2 = Ret (b, h).
Proof.
  intros Ha Hb Hr. destruct (rl_splice_loads h a b x y Ha Hb) as (h1 & E1 & Hl1 & Ho1).
  rewrite E1 in Hr. injection Hr as <-. simpl.
  destruct (rl_splice_edges h a b x y Ha Hb) as (h1' & E1' & Ha1 & Hb1 & _).
  rewrite E1 in E1'. injection E1' as <-.
  destruct (rl_splice_loads h1 a b y x Ha1 Hb1) as (h2 & -> & Hl2 & Ho2). do 2 f_equal.
  destruct Ha as [Hax Hxa], Hb as [Hby Hyb]. apply heap_ext; [|congruence].
  intros rf. rewrite Hl2, Hl1. repeat case_decide; simplify_eq; congruence.
Qed.
End store_lemmas.

(** ** Lemmas on rings *)

Section ring_lemmas.
Context {N K : Type} `{Countable N} `{EqDecision K} `{Null K}.
Implicit Types (h : rlheap N K) (a b p q z L : N) (l r : list N).

Lemma links_app h a l1 b l2 z :
  links h a (l1 ++ b :: l2) z <-> links h a l1 b /\ links h b l2 z.
Proof. revert a. induction l1 as [|c l1 IH]; intros a; simpl; [done|]. rewrite IH. tauto. Qed.

(** A path starts with the edge out of [a]; the rest of it does not start at [a]. *)
Lemma links_first h a l z :
  links h a l z <->
  edge h a (hd_or z l) /\ match l with [] => True | b :: l' => links h b l' z end.
Proof. destruct l; simpl; tauto. Qed.

Lemma links_mono h h' a l z :
  (forall p q, p ∈ a :: l -> edge h p q -> edge h' p q) -> links h a l z -> links h' a l z.
Proof.
  revert a. induction l as [|b l IH]; intros a He; simpl.
  - apply He. by left.
  - intros [Hab Hl]. split; [apply He; [by left|done]|].
    apply IH; [|done]. intros p q Hp. apply He. by right.
Qed.

Lemma ring_mono h h' l :
  (forall p q, p ∈ l -> edge h p q -> edge h' p q) -> ring h l -> ring h' l.
Proof. destruct l; [done|]. intros He [? ?]. split; [done|]. by eapply links_mono. Qed.

Lemma ring_rot h l1 l2 : ring h (l1 ++ l2) -> ring h (l2 ++ l1).
Proof.
  destruct l1 as [|a l1]; [by rewrite app_nil_r|].
  destruct l2 as [|b l2]; [by rewrite app_nil_r|].
  simpl. intros [Hnd Hl]. split.
  - rewrite app_comm_cons, Permutation_app_comm. done.
  - apply links_app in Hl as [H1 H2]. apply links_app. done.
Qed.

Lemma ring_NoDup h l : ring h l -> NoDup l.
Proof. destruct l; [done|]. by intros [??]. Qed.

Lemma ring_edge_out h r p : ring h r -> p ∈ r -> exists q, q ∈ r /\ edge h p q.
Proof.
  intros Hr (l1 & l2 & ->)%list_elem_of_split. apply ring_rot in Hr as [_ Hl].
  apply links_first in Hl as [He _]. eexists; split; [|done].
  destruct l2, l1; simpl; list_mem.
Qed.

Lemma ring_edge_in h r q : ring h r -> q ∈ r -> exists p, p ∈ r /\ edge h p q.
Proof.
  intros Hr (l1 & l2 & ->)%list_elem_of_split. apply ring_rot in Hr as [_ Hl].
  assert (exists k p, q :: l2 ++ l1 = k ++ [p]) as (k & p & E).
  { exists (removelast (q :: l2 ++ l1)), (List.last (q :: l2 ++ l1) q).
    by apply app_removelast_last. }
  exists p. split.
  { assert (p ∈ q :: l2 ++ l1) as Hp by (rewrite E, elem_of_app; right; by left).
    list_mem. }
  destruct k as [|c k]; injection E as <- E; rewrite E in Hl; [done|].
  by apply links_app in Hl as [_ Hl].
Qed.

Lemma ring_singleton h a : ring h [a] <-> edge h a a.
Proof. simpl. split; [by intros [_ ?]|]. split; [apply NoDup_singleton|done]. Qed.

(** The node before the sentinel of a list. *)
Lemma rlist_last h L l :
  rlist h L l ->
  exists p l', (l = [] /\ p = L /\ l' = [] \/ l = l' ++ [p]) /\ edge h p L /\
    ring h (p :: if decide (l = []) then [] else L :: l').
Proof.
  intros Hr. destruct l as [|p l' _] using rev_ind.
  - exists L, []. split; [by left|]. split; [apply ring_singleton, Hr|].
    rewrite decide_True by done. exact Hr.
  - exists p, l'. split; [by right|]. rewrite decide_False by (by destruct l').
    apply (ring_rot _ (L :: l') [p]) in Hr. split; [apply Hr|done].
Qed.

Lemma edge_loads h p q : edge h p q ->
  (exists np, h !! p = Some np /\ next np = q) /\ (exists nq, h !! q = Some nq /\ prev nq = p).
Proof. intros [? ?]. split; [by apply load_lookup|by apply load_lookup_prev]. Qed.

Lemma ring_size h r : ring h r -> length r <= size h.
Proof.
  intros Hr. rewrite <- (size_dom h). apply NoDup_length_le; [by eapply ring_NoDup|].
  intros p Hp. destruct (ring_edge_out h r p Hr Hp) as (q & _ & He).
  apply edge_loads in He as [(np & ? & _) _]. by eapply elem_of_dom_2.
Qed.

Lemma obj_of_size h h' : (forall n, obj_of h' n = obj_of h n) -> size h' = size h.
Proof.
  intros Ho. rewrite <- !size_dom. f_equal. apply set_eq. intros n.
  rewrite !elem_of_dom. specialize (Ho n). unfold obj_of in Ho.
  destruct (h !! n), (h' !! n); simplify_eq/=; split; intros []; eauto; done.
Qed.

(** A ring is closed under the links of its nodes. *)
Lemma ring_edge_closed h r p q : ring h r -> edge h p q -> p ∈ r -> q ∈ r.
Proof.
  intros Hr He Hp. destruct (ring_edge_out h r p Hr Hp) as (q' & Hq' & [He' _]).
  destruct He as [He _]. by assert (q = q') as -> by congruence.
Qed.

Lemma ring_edge_closed' h r p q : ring h r -> edge h p q -> q ∈ r -> p ∈ r.
Proof.
  intros Hr He Hq. destruct (ring_edge_in h r q Hr Hq) as (p' & Hp' & [_ He']).
  destruct He as [_ He]. by assert (p = p') as -> by congruence.
Qed.

(** Writing a node outside a ring. *)
Lemma ring_insert_ne h r n nd : ring h r -> n ∉ r -> ring (<[n := nd]> h) r.
Proof.
  intros Hr Hn. eapply ring_mono, Hr. intros x y Hx He.
  assert (y ∈ r) as Hy by (by eapply ring_edge_closed).
  destruct He as [He1 He2]. unfold edge, load in *. rewrite !lookup_insert_ne by (intros <-; done). done.
Qed.

Lemma ring_init h n k : ring (rlnode_init n k h).2 [n].
Proof. apply ring_singleton. unfold edge, load. simpl. by rewrite lookup_insert_eq. Qed.

(** Two rings that share a node have the same nodes. *)
Lemma ring_disjoint h r a l : ring h r -> ring h (a :: l) -> a ∉ r -> r ## (a :: l).
Proof.
  intros Hr [_ Hl] Ha x Hx Hxl. apply elem_of_cons in Hxl as [->|Hxl]; [done|].
  apply list_elem_of_split in Hxl as (l1 & l2 & ->). apply links_app in Hl as [_ Hl].
  apply Ha. clear Ha. revert x Hx Hl.
  induction l2 as [|y l2 IH]; simpl; intros x Hx Hl.
  - by eapply ring_edge_closed.
  - destruct Hl as [He Hl]. eapply IH, Hl. by eapply ring_edge_closed.
Qed.

(** *** Frames *)

Lemma frame_refl S h : frame S h h.
Proof. by split. Qed.

Lemma frame_trans S h1 h2 h3 : frame S h1 h2 -> frame S h2 h3 -> frame S h1 h3.
Proof. intros [F1 O1] [F2 O2]. split; [eauto|congruence]. Qed.

Lemma frame_weaken S S' h h' :
  (forall r, ring h r -> r ## S -> r ## S') -> frame S' h h' -> frame S h h'.
Proof. intros Hs [F O]. split; eauto. Qed.

Lemma frame_size S h h' : frame S h h' -> size h' = size h.
Proof. intros [_ O]. by apply obj_of_size. Qed.

(** A neighbour of a node of [S] may be added to the frame. *)
Lemma frame_edges S S' h h' :
  (forall s, s ∈ S' -> s ∈ S \/ exists p, p ∈ S /\ (edge h p s \/ edge h s p)) ->
  frame S' h h' -> frame S h h'.
Proof.
  intros Hs. apply frame_weaken. intros r Hr Hd x Hx Hx'.
  destruct (Hs x Hx') as [?|(p & Hp & [He|He])]; [by eapply Hd| |]; eapply (Hd p); try done.
  - by eapply ring_edge_closed'.
  - by eapply ring_edge_closed.
Qed.
End ring_lemmas.

(** ** What the operations do to rings *)

Section operation_specs.
Context {N K : Type} `{Countable N} `{EqDecision K} `{Null K}.
Implicit Types (h : rlheap N K) (a b n p q z L : N) (l m r : list N).

(** Splicing nodes of two rings joins them. *)
Lemma rl_splice_join h a l b m :
  ring h (a :: l) -> ring h (b :: m) -> (a :: l) ## (b :: m) ->
  exists h', rl_splice a b h = Ret (b, h') /\ ring h' (a :: m ++ b :: l) /\ frame [a; b] h h'.
Proof.
  intros [Na La] [Nb Lb] Hd.
  apply links_first in La as [Ea La]. apply links_first in Lb as [Eb Lb].
  destruct (rl_splice_edges h a b _ _ Ea Eb) as (h' & Hs & Ea' & Eb' & Hk & Ho).
  exists h'. split; [done|]. split.
  - assert (a :: m ++ b :: l ≡ₚ (a :: l) ++ b :: m) as Hp by (simpl; f_equiv;
      rewrite (Permutation_app_comm m (b :: l)); apply Permutation_middle).
    split; [rewrite Hp; by apply NoDup_app|].
    apply NoDup_cons in Na as [Na _], Nb as [Nb _].
    assert (b ∉ l) by (intros ?; eapply Hd; [by right|by left]).
    assert (a ∉ m) by (intros ?; eapply Hd; [by left|by right]).
    apply links_app. split; apply links_first; (split; [done|]).
    + destruct m as [|c m]; [done|]. eapply links_mono; [|done].
      intros p q Hpin. apply Hk; intros ->; done.
    + destruct l as [|c l]; [done|]. eapply links_mono; [|done].
      intros p q Hpin. apply Hk; intros ->; done.
  - split; [|done]. intros r Hr Hdr. eapply ring_mono; [|done]. intros p q Hpin.
    apply Hk; intros ->; eapply Hdr; try done; set_solver.
Qed.

(** Splicing two nodes of one ring splits it. *)
Lemma rl_splice_split h a l b m :
  ring h (a :: l ++ b :: m) ->
  exists h', rl_splice a b h = Ret (b, h') /\ ring h' (a :: m) /\ ring h' (b :: l) /\
    frame [a; b] h h'.
Proof.
  intros [Hnd Hl]. apply links_app in Hl as [L1 L2].
  apply links_first in L1 as [Ea L1]. apply links_first in L2 as [Eb L2].
  destruct (rl_splice_edges h a b _ _ Ea Eb) as (h' & Hs & Ea' & Eb' & Hk & Ho).
  rewrite app_comm_cons in Hnd. apply NoDup_app in Hnd as (Na & Hd & Nb).
  apply NoDup_cons in Na as [Na Nl], Nb as [Nb Nm].
  assert (a ∉ m) by (intros ?; eapply Hd; [by left|by right]).
  assert (b ∉ l) by (intros ?; eapply Hd; [by right|by left]).
  exists h'. split; [done|]. split; [|split].
  - split; [by apply NoDup_cons|]. apply links_first. split; [done|].
    destruct m as [|c m]; [done|]. eapply links_mono; [|done].
    intros p q Hpin. apply Hk; intros ->; done.
  - split; [by apply NoDup_cons|]. apply links_first. split; [done|].
    destruct l as [|c l]; [done|]. eapply links_mono; [|done].
    intros p q Hpin. apply Hk; intros ->; done.
  - split; [|done]. intros r Hr Hdr. eapply ring_mono; [|done]. intros p q Hpin.
    apply Hk; intros ->; eapply Hdr; try done; set_solver.
Qed.

(** Splicing a node with itself does nothing. *)
Lemma rl_splice_same h a x : edge h a x -> rl_splice a a h = Ret (a, h).
Proof.
  intros He. destruct (edge_loads _ _ _ He) as [(na & Hna & <-) (nx & Hnx & Hpx)].
  assert (forall rf v, load h rf = Some v -> rlnode_swap rf rf h = Ret h) as Hswap.
  { intros [p|p] v Hv; unfold rlnode_swap; rewrite Hv; simpl in *;
      destruct (h !! p) as [[o u w]|] eqn:Hp; simplify_eq/=;
      rewrite lookup_insert_eq; simpl; by rewrite insert_insert_eq, insert_id. }
  unfold rl_splice. rewrite Hna. cbn [mbind outcome_bind deref].
  rewrite (Hswap _ a); [|simpl; rewrite Hnx; simpl; congruence]. cbn [mbind outcome_bind].
  by rewrite (Hswap _ (next na)); [|simpl; rewrite Hna].
Qed.

Lemma rlist_push_front_spec h L l n m :
  rlist h L l -> ring h (n :: m) -> (L :: l) ## (n :: m) ->
  exists h', rlist_push_front L n h = Ret h' /\ rlist h' L (m ++ n :: l) /\ frame [L; n] h h'.
Proof.
  intros Hl Hn Hd. destruct (rl_splice_join h L l n m Hl Hn Hd) as (h' & Hs & Hr & Hf).
  exists h'. unfold rlist_push_front. rewrite Hs. split; [done|]. split; [exact Hr|done].
Qed.

Lemma rlist_push_back_spec h L l n m :
  rlist h L l -> ring h (n :: m) -> (L :: l) ## (n :: m) ->
  exists h', rlist_push_back L n h = Ret h' /\ rlist h' L (l ++ m ++ [n]) /\ frame [L; n] h h'.
Proof.
  intros Hl Hn Hd. destruct (rlist_last h L l Hl) as (p & l' & Hlast & He & Hp).
  unfold rlist_push_back. destruct (edge_loads _ _ _ He) as [_ (nL & -> & Hprev)].
  cbn [mbind outcome_bind deref]. rewrite Hprev.
  assert (forall h', frame [p; n] h h' -> frame [L; n] h h') as Hfr.
  { intros h'. apply frame_edges. clear -He. set_solver. }
  destruct Hlast as [(-> & -> & ->)| ->].
  - rewrite decide_True in Hp by done.
    destruct (rl_splice_join h L [] n m Hp Hn Hd) as (h' & -> & Hr & Hf).
    exists h'. split; [done|]. split; [exact Hr|]. by apply Hfr.
  - rewrite decide_False in Hp by (by destruct l').
    destruct (rl_splice_join h p (L :: l') n m Hp Hn) as (h' & -> & Hr & Hf).
    { intros x Hx. apply Hd. list_mem. }
    exists h'. split; [done|]. split; [|by apply Hfr].
    unfold rlist. rewrite <- app_assoc. apply (ring_rot _ (p :: m ++ [n]) (L :: l')).
    simpl. by rewrite <- app_assoc.
Qed.

Lemma rlist_pop_front_spec h L a l :
  rlist h L (a :: l) ->
  exists h', rlist_pop_front L h = Ret (a, h') /\ rlist h' L l /\ ring h' [a] /\ frame [L] h h'.
Proof.
  intros Hl. destruct (rl_splice_split h L [] a l Hl) as (h' & Hs & H1 & H2 & Hf).
  exists h'. unfold rlist_pop_front. destruct Hl as [_ [He _]].
  destruct (edge_loads _ _ _ He) as [(nL & -> & E) _]. cbn [mbind outcome_bind deref]. rewrite E.
  split; [done|]. split; [done|]. split; [done|]. eapply frame_edges, Hf. clear -He. set_solver.
Qed.

Lemma rlist_pop_front_nil h L : rlist h L [] -> rlist_pop_front L h = Ret (L, h).
Proof.
  intros Hl. apply ring_singleton in Hl. unfold rlist_pop_front.
  destruct (edge_loads _ _ _ Hl) as [(nL & -> & E) _]. cbn [mbind outcome_bind deref]. rewrite E.
  by eapply rl_splice_same.
Qed.
End operation_specs.

(** ** Removal and traversal *)

Section traversal_specs.
Context {N K : Type} `{Countable N} `{EqDecision K} `{Null K}.
Implicit Types (h : rlheap N K) (a b n p q z L : N) (l m r t : list N).

Lemma rlist_next h L l :
  rlist h L l -> exists nd, h !! L = Some nd /\ next nd = hd_or L l.
Proof. intros [_ [He _]%links_first]. by destruct (edge_loads _ _ _ He) as [? _]. Qed.

Lemma rlist_at h L k x t :
  rlist h L (k ++ x :: t) -> x <> L /\ exists nd, h !! x = Some nd /\ next nd = hd_or L t.
Proof.
  intros [Hnd Hl]. apply NoDup_cons in Hnd as [Hx _]. split; [intros ->; list_mem|].
  apply links_app in Hl as [_ [He _]%links_first]. by destruct (edge_loads _ _ _ He) as [? _].
Qed.

Lemma rlist_edge_last h L k t :
  rlist h L (k ++ t) -> edge h (default L (last k)) (hd_or L t).
Proof.
  intros [_ Hl]. destruct k as [|x k _] using rev_ind; [by apply links_first in Hl as [? _]|].
  rewrite last_snoc. simpl. rewrite <- app_assoc in Hl.
  by apply links_app in Hl as [_ [? _]%links_first].
Qed.

Lemma is_rlist_empty_spec h L l :
  rlist h L l -> is_rlist_empty L h = Ret (bool_decide (l = [])).
Proof.
  intros Hl. unfold is_rlist_empty. destruct (rlist_next h L l Hl) as (nd & -> & Hn).
  simpl. rewrite Hn. f_equal. apply bool_decide_ext. destruct l as [|x l]; [done|].
  destruct (rlist_at h L [] x l Hl). split; intros; simplify_eq/=.
Qed.

Lemma rlist_remove_ring h a l p :
  ring h (a :: l ++ [p]) ->
  exists h', rlist_remove a h = Ret (a, h') /\ ring h' [a] /\ ring h' (l ++ [p]) /\ frame [a] h h'.
Proof.
  intros Hr. destruct (rl_splice_split h a l p [] Hr) as (h' & Hs & H1 & H2 & Hf).
  destruct Hr as [_ Hl]. apply links_app in Hl as [_ He]. exists h'.
  unfold rlist_remove. destruct (edge_loads _ _ _ He) as [_ (na & -> & Hp)].
  cbn [mbind outcome_bind deref]. rewrite Hp, Hs. split; [done|]. split; [done|].
  split; [by apply (ring_rot _ [p])|]. eapply frame_edges, Hf. clear -He. set_solver.
Qed.

Lemma rlist_remove_spec h L k a t :
  rlist h L (k ++ a :: t) ->
  exists h', rlist_remove a h = Ret (a, h') /\ rlist h' L (k ++ t) /\ ring h' [a] /\ frame [a] h h'.
Proof.
  intros Hl. apply (ring_rot _ (L :: k) (a :: t)) in Hl.
  assert (exists m p, t ++ L :: k = m ++ [p]) as (m & p & E).
  { exists (removelast (t ++ L :: k)), (List.last (t ++ L :: k) L).
    apply app_removelast_last. by destruct t. }
  simpl in Hl. rewrite E in Hl. destruct (rlist_remove_ring h a m p Hl) as (h' & Hs & H1 & H2 & Hf).
  exists h'. split; [done|]. split; [|done]. rewrite <- E in H2. by apply ring_rot in H2.
Qed.

Lemma rlist_remove_single h a : ring h [a] -> rlist_remove a h = Ret (a, h).
Proof.
  intros He%ring_singleton. unfold rlist_remove.
  destruct (edge_loads _ _ _ He) as [_ (na & -> & E)]. cbn [mbind outcome_bind deref].
  by rewrite E, (rl_splice_same h a a He).
Qed.

(** Removal from a ring, where no node is a sentinel. *)
Lemma rlist_remove_any h k a t :
  ring h (k ++ a :: t) ->
  exists h', rlist_remove a h = Ret (a, h') /\ ring h' [a] /\ (k ++ t = [] \/ ring h' (k ++ t)) /\ frame [a] h h'.
Proof.
  intros Hr. apply ring_rot in Hr. simpl in Hr. destruct (t ++ k) as [|x l] eqn:E using rev_ind.
  - assert (k = [] /\ t = []) as [-> ->] by (by apply app_nil in E as [-> ->]).
    exists h. split; [by apply rlist_remove_single|]. split; [done|]. split; [by left|]. apply frame_refl.
  - clear IHl. destruct (rlist_remove_ring h a l x Hr) as (h' & Hs & H1 & H2 & Hf).
    exists h'. split; [done|]. split; [done|]. split; [|done]. right. rewrite <- E in H2. by apply ring_rot in H2.
Qed.

(** [rlist_pop_back] returns the tail, but what it takes out of the ring is the sentinel. *)
Lemma rlist_pop_back_spec h L l a :
  rlist h L (l ++ [a]) ->
  exists h', rlist_pop_back L h = Ret (a, h') /\ rlist h' L [] /\ ring h' (a :: l) /\ frame [L] h h'.
Proof.
  intros Hl. destruct (rl_splice_split h L l a [] Hl) as (h' & Hs & H1 & H2 & Hf).
  pose proof (rlist_edge_last h L (l ++ [a]) []) as He. rewrite app_nil_r, last_snoc in He.
  specialize (He Hl). simpl in He. exists h'. unfold rlist_pop_back.
  destruct (edge_loads _ _ _ He) as [_ (nL & -> & E)].
  cbn [mbind outcome_bind deref]. rewrite E. split; [done|]. split; [done|]. split; [done|].
  eapply frame_edges, Hf. clear -He. set_solver.
Qed.

(** *** Loops *)

Lemma rlist_len_loop_spec h L k t fuel c :
  rlist h L (k ++ t) -> length t < fuel ->
  rlist_len_loop fuel L (hd_or L t) c h =
    Ret (if decide (t = []) then c else u32 (c + Z.of_nat (length t))).
Proof.
  revert k t c. induction fuel as [|fuel IH]; intros k t c Hl Hf; [lia|].
  simpl. destruct t as [|x t]; [by rewrite decide_True|]. simpl in *.
  destruct (rlist_at h L k x t Hl) as (Hx & nd & Hnd & Hn). rewrite decide_False, Hnd by done.
  simpl. rewrite Hn, (IH (k ++ [x])); [|by rewrite <- app_assoc|lia].
  f_equal. case_decide; simplify_eq/=; [f_equal; lia|].
  rewrite wrap_add_l by lia. f_equal. lia.
Qed.

Lemma rlist_equal_loop_spec h L1 L2 k1 t1 k2 t2 fuel :
  rlist h L1 (k1 ++ t1) -> rlist h L2 (k2 ++ t2) -> length t1 < fuel ->
  rlist_equal_loop fuel L1 L2 (hd_or L1 t1) (hd_or L2 t2) h =
    Ret (bool_decide (map (obj_of h) t1 = map (obj_of h) t2)).
Proof.
  revert k1 t1 k2 t2. induction fuel as [|fuel IH]; intros k1 t1 k2 t2 Hl1 Hl2 Hf; [lia|].
  simpl. destruct t1 as [|x1 t1]; simpl.
  { rewrite decide_True by done. f_equal. apply bool_decide_ext.
    destruct t2 as [|x2 t2]; [done|]. destruct (rlist_at _ _ _ _ _ Hl2). split; [|done].
    intros ?; simplify_eq/=. }
  destruct (rlist_at _ _ _ _ _ Hl1) as (Hx1 & n1 & Hn1 & E1). rewrite decide_False by done.
  destruct t2 as [|x2 t2]; simpl.
  { rewrite decide_True by done. f_equal. }
  destruct (rlist_at _ _ _ _ _ Hl2) as (Hx2 & n2 & Hn2 & E2). rewrite decide_False by done.
  assert (obj_of h x1 = Some (obj n1)) as O1 by (unfold obj_of; by rewrite Hn1).
  assert (obj_of h x2 = Some (obj n2)) as O2 by (unfold obj_of; by rewrite Hn2).
  rewrite Hn1, Hn2. simpl. rewrite E1, E2.
  destruct (decide (obj n1 = obj n2)) as [Ho|Ho]; [rewrite decide_False by auto|rewrite decide_True by auto].
  2: { f_equal. symmetry. apply bool_decide_eq_false. congruence. }
  - rewrite (IH (k1 ++ [x1]) t1 (k2 ++ [x2]) t2);
      [|by rewrite <- app_assoc|by rewrite <- app_assoc|simpl in Hf; lia].
    f_equal. apply bool_decide_ext. split; congruence.
Qed.

Lemma rlist_find_loop_spec h L k t key fail fuel :
  rlist h L (k ++ t) -> length t < fuel ->
  rlist_find_loop fuel L (hd_or L t) key fail h =
    Ret (match filter (fun n => obj_of h n = Some key) t with n :: _ => Some n | [] => fail end).
Proof.
  revert k t. induction fuel as [|fuel IH]; intros k t Hl Hf; [lia|].
  simpl. destruct t as [|x t]; [by rewrite decide_True|]. simpl in *.
  destruct (rlist_at h L k x t Hl) as (Hx & nd & Hnd & Hn). rewrite decide_False, Hnd by done.
  assert (obj_of h x = Some (obj nd)) as Ho by (unfold obj_of; by rewrite Hnd).
  simpl. rewrite Hn, filter_cons. destruct (decide (obj nd = key)) as [<-|].
  { by rewrite decide_True. }
  rewrite decide_False by congruence.
  apply (IH (k ++ [x])); [by rewrite <- app_assoc|lia].
Qed.

Lemma links_inj h a z l l' :
  links h a l z -> links h a l' z -> z ∉ l -> z ∉ l' -> l = l'.
Proof.
  revert a l'. induction l as [|b l IH]; intros a [|b' l']; simpl.
  - done.
  - intros [H1 _] [[H2 _] _] _ Hn. assert (b' = z) as -> by congruence. destruct Hn. left.
  - intros [[H1 _] _] [H2 _] Hn _. assert (b = z) as -> by congruence. destruct Hn. left.
  - intros [[H1 _] Hl] [[H2 _] Hl'] Hn Hn'. assert (b = b') as <- by congruence. f_equal.
    apply (IH b); [done..| |]; intros ?; [apply Hn|apply Hn']; by right.
Qed.

(** The store determines what a list holds. *)
Lemma rlist_inj h L l l' : rlist h L l -> rlist h L l' -> l = l'.
Proof.
  intros [[Hn _]%NoDup_cons Hl] [[Hn' _]%NoDup_cons Hl']. by eapply links_inj.
Qed.

Lemma rlist_fuel h L l : rlist h L l -> length l < S (size h).
Proof. intros Hl. pose proof (ring_size h (L :: l) Hl) as Hs. simpl in Hs. lia. Qed.

(** Insertion of a node before any node of a list, [rl_splice(n->prev, x)]. *)
Lemma rlist_insert_before h L k t x :
  rlist h L (k ++ t) -> ring h [x] -> x ∉ L :: k ++ t ->
  exists h', rlist_push_back (hd_or L t) x h = Ret h' /\ rlist h' L (k ++ x :: t) /\
    frame [L; x] h h'.
Proof.
  intros Hl Hx Hn. destruct t as [|y t]; simpl.
  - rewrite app_nil_r in Hl.
    destruct (rlist_push_back_spec h L k x [] Hl Hx) as (h' & -> & Hr & Hf); [set_solver|].
    by exists h'.
  - apply (ring_rot _ (L :: k) (y :: t)) in Hl.
    destruct (rlist_push_back_spec h y (t ++ L :: k) x [] Hl Hx) as (h' & -> & Hr & Hf).
    { clear -Hn. set_solver. }
    exists h'. split; [done|]. split.
    + unfold rlist in Hr. simpl in Hr. rewrite <- app_assoc in Hr. simpl in Hr.
      apply (ring_rot _ (y :: t) (L :: k ++ [x])) in Hr. unfold rlist.
      by rewrite <- app_comm_cons, <- app_assoc in Hr.
    + eapply frame_weaken, Hf. intros r Hr' Hd. apply (ring_rot _ (y :: t) (L :: k)) in Hl.
      pose proof (ring_disjoint h r L _ Hr' Hl) as Hdl. clear -Hd Hdl. set_solver.
Qed.
End traversal_specs.

(** ** Lists as a whole: append, prepend, reverse, select *)

Section whole_list_specs.
Context {N K : Type} `{Countable N} `{EqDecision K} `{Null K}.
Implicit Types (h : rlheap N K) (a b n p q z L : N) (l m r t d : list N).

Lemma rlist_append_spec h D xs S ys :
  rlist h D xs -> rlist h S ys -> (D :: xs) ## (S :: ys) ->
  exists h', rlist_append D S h = Ret h' /\ rlist h' D (xs ++ ys) /\ rlist h' S [] /\
    frame [D; S] h h'.
Proof.
  intros Hx Hy Hd. destruct (rlist_push_back_spec h D xs S ys Hx Hy Hd) as (h1 & E1 & Hr1 & F1).
  rewrite app_assoc in Hr1.
  destruct (rlist_remove_spec h1 D (xs ++ ys) S [] Hr1) as (h2 & E2 & Hr2 & HS & F2).
  exists h2. unfold rlist_append. rewrite E1. simpl. rewrite E2. simpl.
  rewrite app_nil_r in Hr2. do 3 (split; [done|]).
  eapply frame_trans, frame_weaken, F2; [done|]. set_solver.
Qed.

Lemma rlist_prepend_spec h D xs S ys :
  rlist h D xs -> rlist h S ys -> (D :: xs) ## (S :: ys) ->
  exists h', rlist_prepend D S h = Ret h' /\ rlist h' D (ys ++ xs) /\ rlist h' S [] /\
    frame [D; S] h h'.
Proof.
  intros Hx Hy Hd. destruct (rlist_push_front_spec h D xs S ys Hx Hy Hd) as (h1 & E1 & Hr1 & F1).
  destruct (rlist_remove_spec h1 D ys S xs Hr1) as (h2 & E2 & Hr2 & HS & F2).
  exists h2. unfold rlist_prepend. rewrite E1. simpl. rewrite E2. simpl.
  do 3 (split; [done|]). eapply frame_trans, frame_weaken, F2; [done|]. set_solver.
Qed.

Lemma swap_links h p nd :
  h !! p = Some nd -> rlnode_swap (PrevOf p) (NextOf p) h = Ret (<[p := flip nd]> h).
Proof.
  intros Hp. unfold rlnode_swap. simpl. rewrite !Hp. simpl.
  rewrite lookup_insert_eq. simpl. by rewrite insert_insert_eq.
Qed.

Lemma flip_flip (nd : rlnode N K) : flip (flip nd) = nd.
Proof. by destruct nd. Qed.

Lemma lookup_flip_nodes h l n :
  NoDup l -> flip_nodes l h !! n = if decide (n ∈ l) then flip <$> h !! n else h !! n.
Proof.
  induction 1 as [|x l Hx Hnd IH]; [done|].
  change (flip_nodes (x :: l) h) with (alter flip x (flip_nodes l h)).
  destruct (decide (n = x)) as [->|Hne].
  - rewrite lookup_alter_eq, IH. rewrite (decide_False (P := x ∈ l)), decide_True by (done || by left). done.
  - rewrite lookup_alter_ne, IH by done. apply decide_ext. set_solver.
Qed.

Lemma edge_flip h l p q :
  NoDup l -> p ∈ l -> q ∈ l -> edge h p q -> edge (flip_nodes l h) q p.
Proof.
  intros Hnd Hp Hq He. destruct (edge_loads _ _ _ He) as [(np & Hnp & En) (nq & Hnq & Eq)].
  split; simpl; rewrite lookup_flip_nodes, decide_True by done; rewrite ?Hnp, ?Hnq; simpl; congruence.
Qed.

Lemma links_flip h ns a l z :
  NoDup ns -> (forall x, x ∈ a :: l ++ [z] -> x ∈ ns) ->
  links h a l z -> links (flip_nodes ns h) z (reverse l) a.
Proof.
  intros Hnd. revert a. induction l as [|b l IH]; intros a Hin; simpl.
  - apply edge_flip; [done|apply Hin; list_mem|apply Hin; list_mem].
  - intros [He Hl]. rewrite reverse_cons. apply links_app. split; [apply IH; [|done]|].
    + intros x Hx. apply Hin. list_mem.
    + apply edge_flip; [done|apply Hin; list_mem|apply Hin; list_mem|done].
Qed.

Lemma rlist_reverse_loop_spec (hf : rlheap N K) L fuel p rest h :
  NoDup (p :: rest) -> L ∉ rest -> links hf p rest L ->
  (forall n, h !! n = if decide (n ∈ p :: rest) then flip <$> hf !! n else hf !! n) ->
  length rest < fuel -> rlist_reverse_loop fuel L p h = Ret hf.
Proof.
  revert p rest h. induction fuel as [|fuel IH]; intros p rest h Hnd Hl Hlk Hh Hf; [lia|].
  apply links_first in Hlk as [He Hlk].
  destruct (edge_loads _ _ _ He) as [(nd & Hp & Hn) _]. simpl.
  assert (h !! p = Some (flip nd)) as E by (rewrite Hh, decide_True, Hp by (by left); done).
  rewrite (swap_links h p _ E), flip_flip. simpl. rewrite lookup_insert_eq. simpl. rewrite Hn.
  apply NoDup_cons in Hnd as [Hpr Hnd].
  assert (forall n, <[p:=nd]> h !! n =
    if decide (n ∈ rest) then flip <$> hf !! n else hf !! n) as Hh'.
  { intros n. destruct (decide (n = p)) as [->|]; [by rewrite lookup_insert_eq, decide_False|].
    rewrite lookup_insert_ne, Hh by done. repeat case_decide; set_solver. }
  destruct rest as [|b rest]; simpl.
  - rewrite decide_True by done. f_equal. apply map_eq. intros n. rewrite Hh'.
    by rewrite decide_False by apply not_elem_of_nil.
  - rewrite decide_False by set_solver. apply (IH b rest); try done; [set_solver|simpl in Hf; lia].
Qed.

Lemma rlist_reverse_spec h L xs :
  rlist h L xs ->
  rlist_reverse L h = Ret (flip_nodes (L :: xs) h) /\
  rlist (flip_nodes (L :: xs) h) L (reverse xs) /\ frame [L] h (flip_nodes (L :: xs) h).
Proof.
  intros [Hnd Hl]. assert (links (flip_nodes (L :: xs) h) L (reverse xs) L) as Hl'.
  { apply links_flip; [done| |done]. intros x. list_mem. }
  assert (NoDup (L :: reverse xs)) as Hnd' by (by rewrite reverse_Permutation).
  split; [|split; [done|split]].
  - apply (rlist_reverse_loop_spec _ L _ L (reverse xs)); [done| |done| |].
    + apply NoDup_cons in Hnd' as [? _]. done.
    + intros n. rewrite lookup_flip_nodes by done.
      assert (n ∈ L :: reverse xs <-> n ∈ L :: xs) as Hiff by (by rewrite reverse_Permutation).
      destruct (decide (n ∈ L :: xs)) as [Hin|Hin].
      * rewrite decide_True by tauto. destruct (h !! n); simpl; by rewrite ?flip_flip.
      * by rewrite decide_False by tauto.
    + rewrite length_reverse. by apply (rlist_fuel h L).
  - intros r Hr Hd. eapply ring_mono, Hr. intros p q Hp He.
    pose proof (ring_disjoint h r L xs Hr (conj Hnd Hl)) as Hdis.
    assert (r ## (L :: xs)) as Hd' by (apply Hdis; intros ?; eapply Hd; [done|by left]).
    assert (p ∉ L :: xs) as Hpn by (intros Hin; exact (Hd' p Hp Hin)).
    assert (q ∉ L :: xs) as Hqn.
    { intros Hin. refine (Hd' q _ Hin). by eapply ring_edge_closed. }
    destruct He as [He1 He2]. split; unfold load; rewrite lookup_flip_nodes, decide_False by done; done.
  - intros n. unfold obj_of. rewrite lookup_flip_nodes by done. case_decide; [|done].
    by destruct (h !! n).
Qed.

Lemma rlist_select_loop_spec S D pred f fuel h k t d :
  key_pred h pred f -> rlist h S (k ++ t) -> rlist h D d -> (S :: k ++ t) ## (D :: d) ->
  length t < fuel ->
  exists h', rlist_select_loop fuel S D (default S (last k)) pred h = Ret h' /\
    rlist h' S (k ++ filter (fun n => f n = false) t) /\
    rlist h' D (d ++ filter (fun n => f n = true) t) /\ frame [S; D] h h'.
Proof.
  revert h k t d. induction fuel as [|fuel IH]; intros h k t d Hp HS HD Hd Hf; [lia|].
  destruct (edge_loads _ _ _ (rlist_edge_last h S k t HS)) as [(nI & HI & En) _].
  simpl. rewrite HI. simpl. rewrite En. destruct t as [|x t]; simpl.
  { rewrite decide_True by done. exists h. rewrite !app_nil_r in *. auto using frame_refl. }
  destruct (rlist_at h S k x t HS) as (Hx & _). rewrite decide_False by done.
  rewrite (Hp h x) by done. simpl in Hf. rewrite !filter_cons. destruct (f x) eqn:Hfx.
  - destruct (rlist_remove_spec h S k x t HS) as (h1 & E1 & HS1 & Hx1 & F1).
    assert (rlist h1 D d) as HD1.
    { apply (frame_ring _ _ _ F1); [done|]. clear -Hd. set_solver. }
    pose proof (ring_NoDup _ _ HS) as Hnd.
    rewrite app_comm_cons in Hnd. apply NoDup_app in Hnd as (_ & Hnd1 & Hnd2).
    apply NoDup_cons in Hnd2 as [Hnd2 _].
    destruct (rlist_push_back_spec h1 D d x [] HD1 Hx1) as (h2 & E2 & HD2 & F2).
    { clear -Hd. set_solver. }
    rewrite E1. simpl. rewrite E2. simpl in *.
    assert (rlist h2 S (k ++ t)) as HS2.
    { apply (frame_ring _ _ _ F2); [done|]. clear -Hd Hnd1 Hnd2 Hx. set_solver. }
    destruct (IH h2 k t (d ++ [x])) as (h' & E' & HS' & HD' & F'); try done; [| |lia|].
    + intros h' n Ho. apply Hp. intros y. rewrite Ho, (frame_obj _ _ _ F2). apply (frame_obj _ _ _ F1).
    + clear -Hd Hnd1 Hnd2 Hx. set_solver.
    + exists h'. simpl. rewrite <- app_assoc in HD'.
      do 3 (split; [done|]). eapply frame_trans, F'. split.
      * intros r Hr Hdr. pose proof (ring_disjoint h r S _ Hr HS) as HdS.
        apply (frame_ring _ _ _ F2); [apply (frame_ring _ _ _ F1); [done|]|]; clear -Hdr HdS; set_solver.
      * intros n. rewrite (frame_obj _ _ _ F2). apply (frame_obj _ _ _ F1).
  - destruct (IH h (k ++ [x]) t d) as (h' & E' & HS' & HD' & F'); try done.
    { by rewrite <- app_assoc. }
    { rewrite <- app_assoc. done. }
    { lia. }
    exists h'. rewrite last_snoc in E'. simpl. rewrite <- app_assoc in HS'. done.
Qed.
End whole_list_specs.

(** ** Properties *)

Section properties.
Context {N K : Type} `{Countable N} `{EqDecision K} `{Null K}.
Implicit Types (h : rlheap N K) (a b n p q z L : N) (l m r t d : list N).

(** [rl_splice] joins the rings of its arguments when they are different, splits the ring when
  they are on the same one, exactly as drawn in util.h; no other ring and no key changes; and doing
  it again restores the store. *)
Theorem splice_rings h a l b m :
  (ring h (a :: l) -> ring h (b :: m) -> (a :: l) ## (b :: m) ->
    exists h', rl_splice a b h = Ret (b, h') /\ ring h' (a :: m ++ b :: l) /\
      frame [a; b] h h' /\ rl_splice a b h' = Ret (b, h)) /\
  (ring h (a :: l ++ b :: m) ->
    exists h', rl_splice a b h = Ret (b, h') /\ ring h' (a :: m) /\ ring h' (b :: l) /\
      frame [a; b] h h' /\ rl_splice a b h' = Ret (b, h)).
Proof.
  split.
  - intros Ha Hb Hd. destruct (rl_splice_join h a l b m Ha Hb Hd) as (h' & E & Hr & Hf).
    destruct Ha as [_ [Ha _]%links_first], Hb as [_ [Hb _]%links_first].
    pose proof (rl_splice_inv h a b _ _ _ Ha Hb E). by exists h'.
  - intros Hr. destruct (rl_splice_split h a l b m Hr) as (h' & E & H1 & H2 & Hf).
    destruct Hr as [_ Hl]. apply links_app in Hl as [[Ha _]%links_first [Hb _]%links_first].
    pose proof (rl_splice_inv h a b _ _ _ Ha Hb E). by exists h'.
Qed.

Lemma filter_remove (k t : list N) n :
  NoDup (k ++ n :: t) -> filter (fun y => y <> n) (k ++ n :: t) = k ++ t.
Proof.
  intros Hnd. rewrite filter_app, filter_cons_False by auto.
  apply NoDup_app in Hnd as (_ & Hk & [Ht _]%NoDup_cons). f_equal; apply filter_all.
  - intros x Hx ->. apply (Hk n Hx). by left.
  - by intros x Hx ->.
Qed.

(** A node of the pool that is not on the list stays alone. *)
Lemma queue_alone pool L h l h' S y :
  queue_inv pool L h l -> frame S h h' -> y ∈ pool -> y ∉ l -> y ∉ S -> ring h' [y].
Proof.
  intros [_ _ _ Ha] Hf Hy Hl HS. apply (frame_ring _ _ _ Hf); [by apply Ha|].
  by apply singleton_disjoint.
Qed.

Lemma push_disjoint pool L h l v :
  queue_inv pool L h l -> v ∈ pool -> v ∉ l -> (L :: l) ## [v] /\ v <> L.
Proof.
  intros [_ Hp HL _] Hv Hl. assert (v <> L) by congruence. split; [|done].
  apply elem_of_disjoint. intros x Hx ->%list_elem_of_singleton. list_mem.
Qed.

Lemma qop_refines pool L h l op v l' :
  queue_inv pool L h l -> qop_in pool op -> qop_spec L op l = Some (v, l') ->
  exists h', qop_code L op h = Ret (v, h') /\ queue_inv pool L h' l'.
Proof.
  intros Hi Hin Hs. pose proof Hi as [Hl Hp HL Ha].
  destruct op as [x|x| |x]; simpl in *; try case_decide; simplify_eq.
  - destruct (push_disjoint pool L h l v) as [Hd Hv]; [done..|].
    destruct (rlist_push_back_spec h L l v [] Hl) as (h' & -> & Hr & Hf); [by apply Ha|done|].
    exists h'. split; [done|]. split; [done| |done|].
    + intros y [?| ->%list_elem_of_singleton]%elem_of_app; auto.
    + intros y Hy Hyl. assert (y <> L) by congruence. eapply (queue_alone pool L h l); try done; list_mem.
  - destruct (push_disjoint pool L h l v) as [Hd Hv]; [done..|].
    destruct (rlist_push_front_spec h L l v [] Hl) as (h' & -> & Hr & Hf); [by apply Ha|done|].
    exists h'. split; [done|]. split; [done| |done|].
    + intros y [->|?]%elem_of_cons; auto.
    + intros y Hy Hyl. assert (y <> L) by congruence. eapply (queue_alone pool L h l); try done; list_mem.
  - destruct l as [|a l]; simpl.
    { rewrite rlist_pop_front_nil by done. by exists h. }
    destruct (rlist_pop_front_spec h L a l Hl) as (h' & -> & Hr & Hr' & Hf).
    exists h'. split; [done|]. split; [done|intros y Hy; apply Hp; by right|done|].
    intros y Hy Hyl. destruct (decide (y = a)) as [->|]; [done|]. assert (y <> L) by congruence.
    eapply (queue_alone pool L h (a :: l)); try done; list_mem.
  - destruct (decide (v ∈ l)) as [(k & t & ->)%list_elem_of_split|Hn].
    + rewrite filter_remove by (apply (ring_NoDup h (L :: _)), NoDup_cons in Hl; tauto).
      destruct (rlist_remove_spec h L k v t Hl) as (h' & -> & Hr & Hr' & Hf).
      exists h'. split; [done|]. split; [done|intros y Hy; apply Hp; list_mem|done|].
      intros y Hy Hyl. destruct (decide (y = v)) as [->|]; [done|].
      eapply (queue_alone pool L h (k ++ v :: t)); try done; list_mem.
    + rewrite rlist_remove_single by (by apply Ha). exists h. split; [done|].
      rewrite filter_all; [done|]. by intros y Hy ->.
Qed.

(** C34.  A list with a sentinel is a queue: any sequence of pushes at either end of pool nodes that are not in it,
  pops at its front ([rlist_pop_front]) and removals returns on the store of the C code, with the results that the
  operations have on functional lists, and leaves the store holding the resulting list, with every other node of the pool alone. *)
Theorem queue_refinement pool L ops h l rs l' :
  queue_inv pool L h l -> Forall (qop_in pool) ops -> qops_spec L ops l = Some (rs, l') ->
  exists h', qops_code L ops h = Ret (rs, h') /\ queue_inv pool L h' l'.
Proof.
  intros Hi Hin. revert h l rs Hi. induction Hin as [|op ops Hop Hin IH]; intros h l rs Hi Hs; simpl in *.
  { simplify_eq. by exists h. }
  destruct (qop_spec L op l) as [[v l1]|] eqn:E1; simplify_eq/=.
  destruct (qops_spec L ops l1) as [[rs1 l2]|] eqn:E2; simplify_eq/=.
  destruct (qop_refines pool L h l op v l1 Hi Hop E1) as (h1 & -> & Hi1).
  destruct (IH h1 l1 rs1 Hi1 E2) as (h2 & E & Hi2). simpl. rewrite E. by exists h2.
Qed.

(** [rlist_pop_back] on a list with a last node [a] returns [a], but the ring it takes it out of
  keeps everything but the sentinel: the list is empty afterwards, whatever it held. *)
Theorem pop_back_empties_list h L l a :
  rlist h L (l ++ [a]) ->
  exists h', rlist_pop_back L h = Ret (a, h') /\ is_rlist_empty L h' = Ret true /\
    rlist_len L h' = Ret 0%Z /\ ring h' (a :: l).
Proof.
  intros Hl. destruct (rlist_pop_back_spec h L l a Hl) as (h' & E & HL & Ha & Hf).
  exists h'. split; [done|]. split; [by rewrite (is_rlist_empty_spec h' L [])|]. split; [|done].
  unfold rlist_len. destruct (rlist_next h' L [] HL) as (nd & -> & En). simpl. rewrite En.
  by rewrite decide_True.
Qed.

(** [rlist_append] and [rlist_prepend] move all nodes of a list to the end, or to the start, of
  another list, in order, and leave the source empty. *)
Theorem append_prepend h D xs S ys :
  rlist h D xs -> rlist h S ys -> (D :: xs) ## (S :: ys) ->
  (exists h', rlist_append D S h = Ret h' /\ rlist h' D (xs ++ ys) /\ rlist h' S [] /\
     frame [D; S] h h') /\
  (exists h', rlist_prepend D S h = Ret h' /\ rlist h' D (ys ++ xs) /\ rlist h' S [] /\
     frame [D; S] h h').
Proof. intros. split; [by apply rlist_append_spec|by apply rlist_prepend_spec]. Qed.

(** [rlist_reverse] ends, and the list is reversed: the same nodes with the same keys. *)
Theorem reverse_reverses h L xs :
  rlist h L xs ->
  exists h', rlist_reverse L h = Ret h' /\ rlist h' L (reverse xs) /\ frame [L] h h' /\
    rlist_reverse L h' = Ret h.
Proof.
  intros Hl. destruct (rlist_reverse_spec h L xs Hl) as (E & Hr & Hf). eexists. do 3 (split; [done|]).
  destruct (rlist_reverse_spec _ L _ Hr) as (-> & _). f_equal. apply map_eq. intros n.
  pose proof (ring_NoDup _ _ Hl) as Hnd. pose proof (ring_NoDup _ _ Hr) as Hnd'.
  rewrite !lookup_flip_nodes by done.
  rewrite (decide_ext (n ∈ L :: reverse xs) (n ∈ L :: xs)) by (by rewrite reverse_Permutation).
  case_decide; [|done]. destruct (h !! n); simpl; by rewrite ?flip_flip.
Qed.

(** [rlist_select] ends; the nodes whose keys satisfy the predicate go to the end of the
  destination, in order, and the others stay, in order. *)
Theorem select_partitions h S D pred f xs ys :
  key_pred h pred f -> rlist h S xs -> rlist h D ys -> (S :: xs) ## (D :: ys) ->
  exists h', rlist_select S D pred h = Ret h' /\
    rlist h' S (filter (fun n => f n = false) xs) /\
    rlist h' D (ys ++ filter (fun n => f n = true) xs) /\ frame [S; D] h h'.
Proof.
  intros Hp HS HD Hd. pose proof (rlist_fuel h S xs HS).
  by apply (rlist_select_loop_spec S D pred f (Datatypes.S (size h)) h [] xs ys).
Qed.

(** The loops that read lists end, with the length (modulo the width of the counter), the
  comparison of the key sequences, and the first node with the key or [fail]. *)
Theorem list_observers h L1 L2 xs ys key fail :
  rlist h L1 xs -> rlist h L2 ys ->
  is_rlist_empty L1 h = Ret (bool_decide (xs = [])) /\
  rlist_len L1 h = Ret (u32 (Z.of_nat (length xs))) /\
  rlist_equal L1 L2 h = Ret (bool_decide (map (obj_of h) xs = map (obj_of h) ys)) /\
  rlist_find L1 key fail h =
    Ret (match filter (fun n => obj_of h n = Some key) xs with n :: _ => Some n | [] => fail end).
Proof.
  intros H1 H2. split; [by apply is_rlist_empty_spec|].
  pose proof (rlist_fuel h L1 xs H1) as Hf. unfold rlist_len, rlist_equal, rlist_find.
  destruct (rlist_next h L1 xs H1) as (n1 & -> & E1), (rlist_next h L2 ys H2) as (n2 & -> & E2).
  cbn [mbind outcome_bind deref]. rewrite E1, E2. split; [|split].
  - rewrite (rlist_len_loop_spec h L1 [] xs) by done. f_equal. case_decide; [by subst|done].
  - by apply (rlist_equal_loop_spec h L1 L2 [] xs [] ys).
  - by apply (rlist_find_loop_spec h L1 [] xs).
Qed.
End properties.

(** ** Concrete stores

  The rings [[0, 1, 2]], [[3, 4]] and the singleton [[5]], keys [10 + n]. *)

Definition demo : rlheap nat (option nat) :=
  list_to_map [(0, RLNode None 2 1); (1, RLNode (Some 11) 0 2); (2, RLNode (Some 12) 1 0);
               (3, RLNode None 4 4); (4, RLNode (Some 14) 3 3); (5, RLNode (Some 15) 5 5)].

Lemma splice_rings_witness :
  exists h', rl_splice 0 3 demo = Ret (3, h') /\ ring h' [0; 4; 3; 1; 2] /\
    rl_splice 0 3 h' = Ret (3, demo).
Proof.
  destruct (splice_rings demo 0 [1; 2] 3 [4]) as [Hj _].
  destruct Hj as (h' & H1 & H2 & _ & H4);
    [by apply (bool_decide_unpack _)|by apply (bool_decide_unpack _)|set_solver|]. eauto.
Defined.

Lemma queue_refinement_witness :
  exists h', qops_code 0 [PopFront; PushBack 5; PushFront 1; Remove 2] demo = Ret ([1; 5; 1; 2], h') /\
    queue_inv [1; 2; 5] 0 h' [1; 5].
Proof.
  apply (queue_refinement [1; 2; 5] 0 _ demo [1; 2]); [|repeat constructor; simpl; set_solver|done].
  split; [by apply (bool_decide_unpack _)|set_solver|set_solver|].
  intros x Hx Hn. assert (x = 5) as -> by set_solver. by apply (bool_decide_unpack _).
Defined.

Lemma pop_back_empties_list_witness :
  exists h', rlist_pop_back 0 demo = Ret (2, h') /\ is_rlist_empty 0 h' = Ret true /\
    rlist_len 0 h' = Ret 0%Z /\ ring h' [2; 1].
Proof. apply (pop_back_empties_list demo 0 [1] 2). by apply (bool_decide_unpack _). Defined.

Lemma append_prepend_witness :
  (exists h', rlist_append 0 3 demo = Ret h' /\ rlist h' 0 [1; 2; 4] /\ rlist h' 3 []) /\
  (exists h', rlist_prepend 0 3 demo = Ret h' /\ rlist h' 0 [4; 1; 2] /\ rlist h' 3 []).
Proof.
  destruct (append_prepend demo 0 [1; 2] 3 [4]) as [(h1 & ? & ? & ? & _) (h2 & ? & ? & ? & _)];
    [by apply (bool_decide_unpack _)|by apply (bool_decide_unpack _)|set_solver|].
  split; [by exists h1|by exists h2].
Defined.

Lemma reverse_reverses_witness :
  exists h', rlist_reverse 0 demo = Ret h' /\ rlist h' 0 [2; 1].
Proof.
  destruct (reverse_reverses demo 0 [1; 2]) as (h' & ? & ? & _); [by apply (bool_decide_unpack _)|].
  by exists h'.
Defined.

Lemma select_partitions_witness :
  exists h', rlist_select 0 3 (fun n h => bool_decide (obj_of h n = Some (Some 11))) demo = Ret h' /\
    rlist h' 0 [2] /\ rlist h' 3 [4; 1].
Proof.
  destruct (select_partitions demo 0 3 (fun n h => bool_decide (obj_of h n = Some (Some 11)))
    (fun n => bool_decide (obj_of demo n = Some (Some 11))) [1; 2] [4]) as (h' & ? & ? & ? & _).
  - intros h' n Ho. by rewrite Ho.
  - by apply (bool_decide_unpack _).
  - by apply (bool_decide_unpack _).
  - set_solver.
  - by exists h'.
Defined.

Lemma list_observers_witness :
  is_rlist_empty 0 demo = Ret false /\ rlist_len 0 demo = Ret 2%Z /\
  rlist_equal 0 3 demo = Ret false /\ rlist_find 0 (Some 12) None demo = Ret (Some 2).
Proof.
  destruct (list_observers demo 0 3 [1; 2] [4] (Some 12) None) as (-> & -> & -> & ->);
    by first [apply (bool_decide_unpack _)|vm_compute].
Defined.
