(* ===== verification/Iface.v ===== *)
(** * Interfaces between the components

  What the scheduler uses of the virtual machine (bios.h), and what the condition variables use of
  the scheduler (kernel_sched.h), as classes: the clients are modelled and proved against these, and
  [Bios] and [Sched] give the instances. *)

From S2P Require Import Prelude.

(** ** The virtual machine, as the scheduler sees it

  [B] is the state of the machine.  The first argument of an operation is the core that calls it
  ([cpu_core_id]). *)
Class BiosOps (B : Type) := {
  bios_clock : B -> Z;
  bios_set_timer : nat -> Z -> B -> B;
  cpu_core_restart_one : B -> B;
  cpu_core_restart_all : B -> B;
  cpu_enable_interrupts : nat -> B -> B;
  cpu_disable_interrupts : nat -> B -> B
}.

(** The clock is a [TimerDuration], and no call of the scheduler moves it. *)
Class BiosLaws (B : Type) `{BiosOps B} := {
  clock_range b : (0 <= bios_clock b < 2 ^ 64)%Z;
  clock_set_timer c d b : bios_clock (bios_set_timer c d b) = bios_clock b;
  clock_restart_one b : bios_clock (cpu_core_restart_one b) = bios_clock b;
  clock_enable c b : bios_clock (cpu_enable_interrupts c b) = bios_clock b;
  clock_disable c b : bios_clock (cpu_disable_interrupts c b) = bios_clock b
}.

(** ** The scheduler, as the condition variables see it

  [wake t s] is the call [wakeup(t)]: it answers whether [t] was blocked, and then [t] is not
  blocked any more. *)
Class WakeOps (T S : Type) := wake : T -> S -> outcome (bool * S).

Class WakeLaws (T S : Type) `{WakeOps T S} (ok : S -> Prop) (blocked : S -> T -> Prop)
    (live : S -> T -> Prop) := {
  wake_returns s t : ok s -> live s t -> exists b s', wake t s = Ret (b, s') /\ ok s' /\
    (b = true <-> blocked s t) /\ ~ blocked s' t /\
    (forall u, u <> t -> blocked s' u <-> blocked s u) /\ (forall u, live s' u <-> live s u)
}.

(** [block t timeout s] is the call of [sleep_releasing] by the thread [t] itself. *)
Class SleepOps (T S : Type) := block : T -> Z -> S -> outcome S.

Class SleepLaws (T S : Type) `{SleepOps T S} (ok : S -> Prop) (blocked : S -> T -> Prop)
    (live : S -> T -> Prop) (runs : S -> T -> Z -> Prop) := {
  block_returns s t timeout : ok s -> runs s t timeout -> exists s', block t timeout s = Ret s' /\ ok s' /\
    blocked s' t /\ (forall u, u <> t -> blocked s' u <-> blocked s u) /\ (forall u, live s' u <-> live s u);
  runs_live s t timeout : ok s -> runs s t timeout -> live s t
}.

(** ** The scheduler, as the process table sees it

  [spawn p s] is the call [spawn_thread(&PT[p], start_main_thread)]. *)
Class SpawnOps (T S : Type) := spawn : nat -> S -> outcome (T * S).

Class SpawnLaws (T S : Type) `{SpawnOps T S} (ok : S -> Prop) (live : S -> T -> Prop) := {
  spawn_returns s p : ok s -> exists t s', spawn p s = Ret (t, s') /\ ok s' /\ live s' t
}.

(** ** The serial ports, as the device drivers see them

  [read_serial] and [write_serial] are [bios_read_serial] and [bios_write_serial], with what the host
  answers as part of the state; [relax] is what happens to the machine while the caller yields, and
  [patience n b] is how often the driver polls the port [n] before the rest of the machine is looked at again. *)
Class SerialOps (B : Type) := {
  serial_ports : B -> nat;
  read_serial : nat -> B -> outcome (option Z * B);
  write_serial : nat -> Z -> B -> outcome (bool * B);
  relax : B -> B;
  patience : nat -> B -> nat
}.

(** A port that exists answers, and the ports stay. *)
Class SerialLaws (B : Type) `{SerialOps B} := {
  read_returns b n : n < serial_ports b -> exists o b', read_serial n b = Ret (o, b') /\ serial_ports b' = serial_ports b;
  write_returns b n c : n < serial_ports b -> exists o b', write_serial n c b = Ret (o, b') /\
    serial_ports b' = serial_ports b;
  relax_ports b : serial_ports (relax b) = serial_ports b
}.
