(* ===== verification/Lists.v ===== *)
(** * Families of lists in one store

  The kernel keeps many lists at once in nodes that are embedded in its tables: the children and the
  exited children of every process, the free file control blocks.  [forest h LL F] says that the store
  [h] holds, for each sentinel [L], the list [LL L], that the nodes of [F] are initialised and on no
  list, and that no node is in two places. *)

From S2P Require Import Prelude Rlist.

Section forest.
Context {N K : Type} `{Countable N}.
Implicit Types (h : rlheap N K) (LL : N -> option (list N)) (F : N -> Prop) (l : list N).

Record forest h LL F : Prop := {
  fo_list S l : LL S = Some l -> rlist h S l;
  fo_free n : F n -> ring h [n];
  fo_node S l x : LL S = Some l -> x ∈ l -> LL x = None /\ ~ F x;
  fo_head S l : LL S = Some l -> ~ F S;
  fo_one S S' l l' x : LL S = Some l -> LL S' = Some l' -> x ∈ l -> x ∈ l' -> S = S'
}.

(** The family in which [S] holds [l]. *)
Definition upd_list (S : N) (l : list N) LL : N -> option (list N) := fun x => if decide (x = S) then Some l else LL x.

Lemma upd_list_eq S l LL : upd_list S l LL S = Some l.
Proof. unfold upd_list. by rewrite decide_True. Qed.

Lemma upd_list_ne S l LL x : x <> S -> upd_list S l LL x = LL x.
Proof. intros Hx. unfold upd_list. by rewrite decide_False. Qed.

Lemma forest_ext h LL LL' F F' :
  forest h LL F -> (forall x, LL' x = LL x) -> (forall x, F' x <-> F x) -> forest h LL' F'.
Proof.
  intros [F1 F2 F3 F4 F5] HL HF. split; intros *; rewrite ?HL, ?HF; [apply F1|apply F2|apply F3|apply F4|apply F5].
Qed.

Lemma forest_NoDup h LL F S l : forest h LL F -> LL S = Some l -> NoDup l.
Proof. intros Hf HS. pose proof (ring_NoDup _ _ (fo_list _ _ _ Hf _ _ HS)) as Hn. by apply NoDup_cons in Hn as [_ ?]. Qed.

Lemma forest_empty h LL F S l : forest h LL F -> LL S = Some l -> is_rlist_empty S h = Ret (bool_decide (l = [])).
Proof. intros Hf HS. by apply is_rlist_empty_spec, (fo_list _ _ _ Hf). Qed.

(** The lists other than those of [D] are where the operation did not touch. *)
Lemma forest_frame h h' LL F (D : list N) S l :
  forest h LL F -> frame D h h' -> LL S = Some l -> (S ∉ D) -> (forall x, x ∈ l -> x ∉ D) -> rlist h' S l.
Proof.
  intros Hf Hfr HS HD Hl. apply (frame_ring _ _ _ Hfr); [by eapply fo_list|].
  intros x [->|Hx]%elem_of_cons; [done|by apply Hl].
Qed.

(** [n] goes from the free nodes to the list of [S], or back. *)
Lemma forest_move h h' LL F S l l' n :
  forest h LL F -> LL S = Some l -> F n -> (forall x, x ∈ l' <-> x = n \/ x ∈ l) ->
  rlist h' S l' -> frame [S; n] h h' ->
  forest h' (upd_list S l' LL) (fun x => F x /\ x <> n).
Proof.
  intros Hf HS Hn Hl' Hr Hfr. pose proof Hf as [F1 F2 F3 F4 F5].
  assert (LL n = None) as Hnone. { destruct (LL n) eqn:E; [|done]. by apply F4 in E. }
  split.
  - intros S' l0. unfold upd_list. case_decide as E; [by intros [= <-]; subst|]. intros HS'.
    eapply forest_frame; [done..| |].
    + rewrite !elem_of_cons, elem_of_nil. intros [?|[->|?]]; [done|congruence|done].
    + intros x Hx. destruct (F3 _ _ _ HS' Hx) as [Hx1 Hx2].
      rewrite !elem_of_cons, elem_of_nil. intros [->|[->|?]]; [congruence|done|done].
  - intros x [Hx Hne]. apply (frame_ring _ _ _ Hfr); [by apply F2|]. apply singleton_disjoint.
    rewrite !elem_of_cons, elem_of_nil. intros [->|[->|?]]; [|done|done]. by apply F4 in HS.
  - intros S' l0 x. unfold upd_list. intros HS' Hx.
    assert (x = n \/ (x <> n /\ LL x = None /\ ~ F x)) as Hcase.
    { destruct (decide (x = n)) as [->|Hne]; [by left|right]. split; [done|].
      case_decide; [|by eapply F3]. injection HS' as <-. apply Hl' in Hx as [?|Hx]; [done|by eapply F3]. }
    assert (x <> S) as HxS by (intros ->; destruct Hcase as [->|(_ & ? & _)]; congruence).
    rewrite decide_False by done. destruct Hcase as [->|(? & ? & ?)]; [|tauto]. split; [done|]. by intros [_ ?].
  - intros S' l0. unfold upd_list. case_decide as E; intros HS' [HF _]; [subst; by eapply F4|by eapply F4].
  - intros S1 S2 l1 l2 x. unfold upd_list. intros HS1 HS2 Hx1 Hx2.
    assert (forall S' l0, S' <> S -> LL S' = Some l0 -> x ∈ l0 -> x ∈ l' -> False) as Hno.
    { intros S' l0 Hne HS' Hx [->|Hx']%Hl'; [by apply (F3 _ _ _ HS') in Hx as [_ ?]|].
      apply Hne. by eapply F5. }
    destruct (decide (S1 = S)) as [->|], (decide (S2 = S)) as [->|]; [done| | |by eapply F5].
    + injection HS1 as <-. by destruct (Hno S2 l2).
    + injection HS2 as <-. by destruct (Hno S1 l1).
Qed.

Lemma forest_push_front h LL F S l n :
  forest h LL F -> LL S = Some l -> F n ->
  exists h', rlist_push_front S n h = Ret h' /\ forest h' (upd_list S (n :: l) LL) (fun x => F x /\ x <> n) /\
    forall x, obj_of h' x = obj_of h x.
Proof.
  intros Hf HS Hn. destruct (rlist_push_front_spec h S l n []) as (h' & E & Hr & Hfr).
  - by eapply fo_list.
  - by eapply fo_free.
  - intros x [->|Hx]%elem_of_cons ->%list_elem_of_singleton; [by apply (fo_head _ _ _ Hf) in HS|].
    by apply (fo_node _ _ _ Hf _ _ _ HS) in Hx as [_ ?].
  - exists h'. split; [done|]. split; [|apply Hfr]. eapply forest_move; try done. intros x. by rewrite elem_of_cons.
Qed.

Lemma forest_push_back h LL F S l n :
  forest h LL F -> LL S = Some l -> F n ->
  exists h', rlist_push_back S n h = Ret h' /\ forest h' (upd_list S (l ++ [n]) LL) (fun x => F x /\ x <> n) /\
    forall x, obj_of h' x = obj_of h x.
Proof.
  intros Hf HS Hn. destruct (rlist_push_back_spec h S l n []) as (h' & E & Hr & Hfr).
  - by eapply fo_list.
  - by eapply fo_free.
  - intros x [->|Hx]%elem_of_cons ->%list_elem_of_singleton; [by apply (fo_head _ _ _ Hf) in HS|].
    by apply (fo_node _ _ _ Hf _ _ _ HS) in Hx as [_ ?].
  - exists h'. split; [done|]. split; [|apply Hfr]. eapply forest_move; try done.
    intros x. rewrite elem_of_app, list_elem_of_singleton. tauto.
Qed.

(** [a] leaves the list of [S]. *)
Lemma forest_leave h h' LL F S l k t a D :
  forest h LL F -> LL S = Some l -> l = k ++ a :: t ->
  rlist h' S (k ++ t) -> ring h' [a] -> frame D h h' -> (forall x, x ∈ D -> x = S \/ x = a) ->
  forest h' (upd_list S (k ++ t) LL) (fun x => F x \/ x = a).
Proof.
  intros Hf HS -> Hr Ha Hfr HD. pose proof Hf as [F1 F2 F3 F4 F5].
  pose proof (forest_NoDup _ _ _ _ _ Hf HS) as Hnd.
  assert (a ∈ k ++ a :: t) as Hin by list_mem.
  assert (a ∉ k ++ t) as Hak.
  { apply NoDup_app in Hnd as (_ & Hd & [? _]%NoDup_cons). intros [Hk|?]%elem_of_app; [|done].
    apply (Hd a Hk). by left. }
  destruct (F3 _ _ _ HS Hin) as [Hnone HnF].
  split.
  - intros S' l0. unfold upd_list. case_decide as E; [by intros [= <-]; subst|]. intros HS'.
    eapply forest_frame; [done..| |].
    + intros [?| ->]%HD; [done|congruence].
    + intros x Hx [->| ->]%HD; [by apply (F3 _ _ _ HS') in Hx as [? _]; congruence|]. apply E. by eapply F5.
  - intros x [Hx| ->]; [|done]. apply (frame_ring _ _ _ Hfr); [by apply F2|]. apply singleton_disjoint.
    intros [->| ->]%HD; [by apply F4 in HS|done].
  - intros S' l0 x. unfold upd_list. intros HS' Hx. assert (LL x = None /\ ~ F x /\ x <> a) as (Hx1 & Hx2 & Hx3).
    { case_decide as E.
      - injection HS' as <-. destruct (F3 _ _ x HS) as [? ?]; [list_mem|]. split; [done|]. split; [done|]. by intros ->.
      - destruct (F3 _ _ _ HS' Hx) as [? ?]. split; [done|]. split; [done|]. intros ->. apply E. by eapply F5. }
    rewrite decide_False by (intros ->; congruence). split; [done|]. tauto.
  - intros S' l0. unfold upd_list. case_decide as E; intros HS' [HF| ->]; subst; try congruence; by eapply F4.
  - intros S1 S2 l1 l2 x. unfold upd_list.
    assert (forall S' l0, LL S' = Some l0 -> x ∈ l0 -> x ∈ k ++ t -> S' = S) as Hone.
    { intros S' l0 HS' Hx Hkt. eapply F5; [done..|list_mem]. }
    intros HS1 HS2 Hx1 Hx2. repeat case_decide; simplify_eq; try done.
    + by eapply Hone.
    + symmetry. by eapply Hone.
    + by eapply F5.
Qed.

Lemma forest_pop_front h LL F S a l :
  forest h LL F -> LL S = Some (a :: l) ->
  exists h', rlist_pop_front S h = Ret (a, h') /\ forest h' (upd_list S l LL) (fun x => F x \/ x = a) /\
    forall x, obj_of h' x = obj_of h x.
Proof.
  intros Hf HS. destruct (rlist_pop_front_spec h S a l) as (h' & E & Hr & Ha & Hfr); [by eapply fo_list|].
  exists h'. split; [done|]. split; [|apply Hfr].
  eapply (forest_leave _ _ _ _ _ _ [] l); try done. intros x ?%list_elem_of_singleton. by left.
Qed.

Lemma forest_remove h LL F S l k t a :
  forest h LL F -> LL S = Some l -> l = k ++ a :: t ->
  exists h', rlist_remove a h = Ret (a, h') /\ forest h' (upd_list S (k ++ t) LL) (fun x => F x \/ x = a) /\
    forall x, obj_of h' x = obj_of h x.
Proof.
  intros Hf HS ->. destruct (rlist_remove_spec h S k a t) as (h' & E & Hr & Ha & Hfr); [by eapply fo_list|].
  exists h'. split; [done|]. split; [|apply Hfr].
  eapply (forest_leave _ _ _ _ _ _ k t); try done. intros x ?%list_elem_of_singleton. by right.
Qed.

(** The whole list of [S] goes behind that of [D]. *)
Lemma forest_append h LL F D S d s :
  forest h LL F -> LL D = Some d -> LL S = Some s -> D <> S ->
  exists h', rlist_append D S h = Ret h' /\ forest h' (upd_list D (d ++ s) (upd_list S [] LL)) F /\
    forall x, obj_of h' x = obj_of h x.
Proof.
  intros Hf HD HS Hne. pose proof Hf as [F1 F2 F3 F4 F5].
  destruct (rlist_append_spec h D d S s) as (h' & E & Hd & Hs & Hfr); [by apply F1|by apply F1| |].
  { intros x [->|Hx]%elem_of_cons [->|Hy]%elem_of_cons; [done| | |].
    - apply (F3 _ _ _ HS) in Hy as [? _]. congruence.
    - apply (F3 _ _ _ HD) in Hx as [? _]. congruence.
    - apply Hne. by eapply F5. }
  exists h'. split; [done|]. split; [|apply Hfr].
  assert (forall S' l0 x, upd_list D (d ++ s) (upd_list S [] LL) S' = Some l0 -> x ∈ l0 ->
            exists S0 l1, LL S0 = Some l1 /\ x ∈ l1 /\ (S' = S0 \/ S' = D /\ S0 = S)) as Hback.
  { intros S' l0 x. unfold upd_list. case_decide; [subst|case_decide].
    - intros [= <-] [Hx|Hx]%elem_of_app; [exists D, d; auto|exists S, s; auto].
    - intros [= <-] ?%elem_of_nil. done.
    - intros HS' Hx. exists S', l0. auto. }
  assert (forall S' l0, upd_list D (d ++ s) (upd_list S [] LL) S' = Some l0 -> is_Some (LL S')) as Hdom.
  { intros S' l0. unfold upd_list. repeat case_decide; subst; [by eexists..|]. intros ->. by eexists. }
  split.
  - intros S' l0. unfold upd_list. case_decide; [by intros [= <-]; subst|].
    case_decide; [by intros [= <-]; subst|]. intros HS'. eapply forest_frame; [done..| |].
    + rewrite !elem_of_cons, elem_of_nil. tauto.
    + intros x Hx. destruct (F3 _ _ _ HS' Hx) as [? _]. rewrite !elem_of_cons, elem_of_nil.
      intros [->|[->|?]]; congruence.
  - intros x Hx. apply (frame_ring _ _ _ Hfr); [by apply F2|]. apply singleton_disjoint.
    rewrite !elem_of_cons, elem_of_nil. intros [->|[->|?]]; [by apply F4 in HD|by apply F4 in HS|done].
  - intros S' l0 x HS' Hx. destruct (Hback _ _ _ HS' Hx) as (S0 & l1 & HS0 & Hx0 & _).
    destruct (F3 _ _ _ HS0 Hx0) as [Hnone ?]. split; [|done].
    destruct (upd_list D (d ++ s) (upd_list S [] LL) x) eqn:Ex; [|done]. apply Hdom in Ex as [? ?]. congruence.
  - intros S' l0 HS'. apply Hdom in HS' as [? ?]. by eapply F4.
  - intros S1 S2 l1 l2 x HS1 HS2 Hx1 Hx2.
    destruct (Hback _ _ _ HS1 Hx1) as (T1 & m1 & HT1 & Hm1 & Hc1).
    destruct (Hback _ _ _ HS2 Hx2) as (T2 & m2 & HT2 & Hm2 & Hc2).
    assert (T1 = T2) as <- by (by eapply F5).
    assert (forall l0, upd_list D (d ++ s) (upd_list S [] LL) S = Some l0 -> l0 = []) as HSnil.
    { intros l0. rewrite upd_list_ne by done. rewrite upd_list_eq. by intros [= <-]. }
    destruct Hc1 as [->|[-> ->]], Hc2 as [E2|[-> E2]]; try done; subst.
    + apply HSnil in HS1. subst. by apply elem_of_nil in Hx1.
    + apply HSnil in HS2. subst. by apply elem_of_nil in Hx2.
Qed.

(** Initialising a sentinel, or a node. *)
Lemma forest_new_list h LL F n k :
  forest h LL F -> LL n = None -> (forall S l, LL S = Some l -> n ∉ l) ->
  forest (rlnode_init n k h).2 (upd_list n [] LL) (fun x => F x /\ x <> n).
Proof.
  intros [F1 F2 F3 F4 F5] Hn Hl. simpl. split.
  - intros S l. unfold upd_list. case_decide as E; [intros [= <-]; subst; apply ring_init|]. intros HS.
    apply ring_insert_ne; [by apply F1|]. intros [->|Hin]%elem_of_cons; [done|by eapply Hl].
  - intros x [Hx Hne]. apply ring_insert_ne; [by apply F2|]. rewrite list_elem_of_singleton. congruence.
  - intros S l x. unfold upd_list. case_decide; [intros [= <-] ?%elem_of_nil; done|]. intros HS Hx.
    rewrite decide_False by (intros ->; by eapply Hl). destruct (F3 _ _ _ HS Hx). tauto.
  - intros S l. unfold upd_list. case_decide; [by intros _ [_ ?]|]. intros HS [HF _]. by eapply F4.
  - intros S1 S2 l1 l2 x. unfold upd_list. intros H1 H2 Hx1 Hx2.
    repeat case_decide; simplify_eq; try done; [by apply elem_of_nil in Hx2|by apply elem_of_nil in Hx1|by eapply F5].
Qed.

Lemma forest_new_node h LL F n k :
  forest h LL F -> LL n = None -> (forall S l, LL S = Some l -> n ∉ l) ->
  forest (rlnode_init n k h).2 LL (fun x => F x \/ x = n).
Proof.
  intros [F1 F2 F3 F4 F5] Hn Hl. simpl. split.
  - intros S l HS. apply ring_insert_ne; [by apply F1|]. intros [->|Hin]%elem_of_cons; [congruence|by eapply Hl].
  - intros x [Hx| ->]; [|apply ring_init]. destruct (decide (x = n)) as [->|Hne]; [apply ring_init|].
    apply ring_insert_ne; [by apply F2|]. rewrite list_elem_of_singleton. congruence.
  - intros S l x HS Hx. destruct (F3 _ _ _ HS Hx) as [? ?]. split; [done|]. intros [?| ->]; [done|]. by eapply Hl.
  - intros S l HS [?| ->]; [by eapply F4|congruence].
  - exact F5.
Qed.

Lemma forest_nil : forest ∅ (fun _ => None) (fun _ => False).
Proof. by split. Qed.
End forest.
