(* ===== verification/Sched.v ===== *)
(** * The scheduler (kernel_sched.c)

  Threads, cores, the ready queue and the list of sleepers with a timeout, as the code keeps them:
  both lists are rings of the [sched_node]s of the TCBs.  A core runs the current thread ([PcRun]);
  inside [sleep_releasing], after the critical section, it is about to call [yield] ([PcYield]);
  inside [yield], after the context switch, it is about to call [gain] ([PcGain]).  Each operation
  below is one critical section of [sched_spinlock] with the core-local code around it. *)

From S2P Require Import Prelude Rlist Iface.

(** ** Data *)

(** A [TCB*]: the idle thread inside the CCB of a core, or an allocated TCB. *)
Inductive tid :=
  | IdleThread (core : nat)
  | Thread (n : nat).

#[export] Instance tid_eq_dec : EqDecision tid.
Proof. solve_decision. Defined.

#[export] Instance tid_countable : Countable tid.
Proof.
  refine (inj_countable' (fun t => match t with IdleThread c => inl c | Thread n => inr n end)
    (fun s => match s with inl c => IdleThread c | inr n => Thread n end) _); by intros [].
Defined.

Inductive Thread_state := INIT | READY | RUNNING | STOPPED | EXITED.
Inductive Thread_phase := CTX_CLEAN | CTX_DIRTY.
Inductive Thread_type := IDLE_THREAD | NORMAL_THREAD.
Inductive SCHED_CAUSE :=
  | SCHED_QUANTUM | SCHED_IO | SCHED_MUTEX | SCHED_PIPE | SCHED_POLL | SCHED_IDLE | SCHED_USER.

#[export] Instance Thread_state_eq_dec : EqDecision Thread_state.
Proof. solve_decision. Defined.
#[export] Instance Thread_phase_eq_dec : EqDecision Thread_phase.
Proof. solve_decision. Defined.
#[export] Instance Thread_type_eq_dec : EqDecision Thread_type.
Proof. solve_decision. Defined.

(** Where a context resumes: at the start of [thread_start], or in [yield] after the swap, with the
  saved preemption status of [yield] and of the [sleep_releasing] around it, if any. *)
Inductive cpu_context :=
  | CtxStart
  | CtxYield (preempt : bool) (outer : option bool).

Record TCB := mkTCB {
  owner_pcb : option Z;
  context : cpu_context;
  type : Thread_type;
  state : Thread_state;
  phase : Thread_phase;
  thread_func : nat;
  wakeup_time : Z;
  tcb_prev : option tid;
  tcb_next : option tid
}.

(** The nodes of the two lists. *)
Inductive snode :=
  | SCHED
  | TIMEOUT_LIST
  | sched_node (t : tid).

#[export] Instance snode_eq_dec : EqDecision snode.
Proof. solve_decision. Defined.

#[export] Instance snode_countable : Countable snode.
Proof.
  refine (inj_countable'
    (fun n => match n with SCHED => inl false | TIMEOUT_LIST => inl true | sched_node t => inr t end)
    (fun s => match s with inl false => SCHED | inl true => TIMEOUT_LIST | inr t => sched_node t end) _);
  by intros [].
Defined.

#[export] Instance sched_node_inj : Inj (=) (=) sched_node.
Proof. by intros t u [=]. Qed.

Abbreviation sheap := (rlheap snode (option tid)).

Inductive core_pc :=
  | PcRun
  | PcYield (outer : bool)
  | PcGain (resume : cpu_context).

Record CCB := mkCCB {
  current_thread : tid;
  preemption : bool;
  pc : core_pc
}.

(** The state of the scheduler: the TCBs, the nodes, the CCBs, the count of active threads, the held
  mutexes and the state of the machine. *)
Record sched (B : Type) := mkSched {
  tcbs : gmap tid TCB;
  rl : sheap;
  cctx : gmap nat CCB;
  active_threads : Z;
  mutexes : gset nat;
  machine : B
}.
Arguments mkSched {B}.
Arguments tcbs {B}.
Arguments rl {B}.
Arguments cctx {B}.
Arguments active_threads {B}.
Arguments mutexes {B}.
Arguments machine {B}.

Definition NO_TIMEOUT : Z := (2 ^ 64 - 1)%Z.
Definition QUANTUM : Z := 10000.

Definition set_state (s : Thread_state) (t : TCB) : TCB :=
  mkTCB (owner_pcb t) (context t) (type t) s (phase t) (thread_func t) (wakeup_time t) (tcb_prev t) (tcb_next t).
Definition set_phase (p : Thread_phase) (t : TCB) : TCB :=
  mkTCB (owner_pcb t) (context t) (type t) (state t) p (thread_func t) (wakeup_time t) (tcb_prev t) (tcb_next t).
Definition set_wakeup (w : Z) (t : TCB) : TCB :=
  mkTCB (owner_pcb t) (context t) (type t) (state t) (phase t) (thread_func t) w (tcb_prev t) (tcb_next t).
Definition set_prev (p : tid) (t : TCB) : TCB :=
  mkTCB (owner_pcb t) (context t) (type t) (state t) (phase t) (thread_func t) (wakeup_time t) (Some p) (tcb_next t).
Definition set_next (n : tid) (t : TCB) : TCB :=
  mkTCB (owner_pcb t) (context t) (type t) (state t) (phase t) (thread_func t) (wakeup_time t) (tcb_prev t) (Some n).
Definition set_context (c : cpu_context) (t : TCB) : TCB :=
  mkTCB (owner_pcb t) c (type t) (state t) (phase t) (thread_func t) (wakeup_time t) (tcb_prev t) (tcb_next t).

(** ** Operations *)

Section operations.
Context {B : Type} `{BiosOps B}.
Implicit Types (st : sched B) (t : tid) (c : nat).

Definition with_tcbs (m : gmap tid TCB) st : sched B :=
  mkSched m (rl st) (cctx st) (active_threads st) (mutexes st) (machine st).
Definition with_rl (h : sheap) st : sched B :=
  mkSched (tcbs st) h (cctx st) (active_threads st) (mutexes st) (machine st).
Definition with_cctx (m : gmap nat CCB) st : sched B :=
  mkSched (tcbs st) (rl st) m (active_threads st) (mutexes st) (machine st).
Definition with_active (n : Z) st : sched B :=
  mkSched (tcbs st) (rl st) (cctx st) n (mutexes st) (machine st).
Definition with_mutexes (m : gset nat) st : sched B :=
  mkSched (tcbs st) (rl st) (cctx st) (active_threads st) m (machine st).
Definition with_machine (b : B) st : sched B :=
  mkSched (tcbs st) (rl st) (cctx st) (active_threads st) (mutexes st) b.

(** An assignment to fields of [*t]. *)
Definition upd_tcb t (f : TCB -> TCB) st : outcome (sched B) :=
  tc ← deref (tcbs st !! t); Ret (with_tcbs (<[t := f tc]> (tcbs st)) st).

Definition upd_ccb c (f : CCB -> CCB) st : outcome (sched B) :=
  cc ← deref (cctx st !! c); Ret (with_cctx (<[c := f cc]> (cctx st)) st).

Definition set_pc (p : core_pc) (cc : CCB) : CCB := mkCCB (current_thread cc) (preemption cc) p.
Definition set_current t (cc : CCB) : CCB := mkCCB t (preemption cc) (pc cc).

Definition CURTHREAD c st : outcome tid := cc ← deref (cctx st !! c); Ret (current_thread cc).

(** kernel_cc.c.  Before [run_scheduler] the CCB of a core is all zero, and stays so: the boot code
  only turns preemption off. *)
Definition set_core_preemption c (preempt : bool) st : outcome (bool * sched B) :=
  let '(old, m) := match cctx st !! c with
                   | Some cc => (preemption cc, <[c := mkCCB (current_thread cc) preempt (pc cc)]> (cctx st))
                   | None => (false, cctx st)
                   end in
  let b := machine st in
  Ret (old, with_machine (if preempt then cpu_enable_interrupts c b else cpu_disable_interrupts c b)
              (with_cctx m st)).

(** [addr] is the answer of the allocator, [None] when it has no memory. *)
Definition spawn_thread (addr : option tid) (pcb : option Z) (func : nat) st : outcome (tid * sched B) :=
  match addr with
  | None => Err Fatal
  | Some t =>
      let tcb := mkTCB pcb CtxStart NORMAL_THREAD INIT CTX_CLEAN func NO_TIMEOUT None None in
      let '(_, h) := rlnode_init (sched_node t) (Some t) (rl st) in
      Ret (t, with_active (u32 (active_threads st + 1))
                (with_rl h (with_tcbs (<[t := tcb]> (tcbs st)) st)))
  end.

Definition release_TCB t st : outcome (sched B) :=
  _ ← deref (tcbs st !! t);
  Ret (with_active (u32 (active_threads st - 1))
         (with_rl (delete (sched_node t) (rl st)) (with_tcbs (delete t (tcbs st)) st))).

(** The loop of [sched_register_timeout]: the first node that is due later than [w]. *)
Fixpoint find_later (fuel : nat) (w : Z) (n : snode) st : outcome snode :=
  match fuel with
  | O => Err OutOfFuel
  | S fuel =>
      if decide (n = TIMEOUT_LIST) then Ret n
      else
        nd ← deref (rl st !! n);
        t ← deref (obj nd);
        tc ← deref (tcbs st !! t);
        if (w <? wakeup_time tc)%Z then Ret n else find_later fuel w (next nd) st
  end.

Definition sched_register_timeout t (timeout : Z) st : outcome (sched B) :=
  if decide (timeout = NO_TIMEOUT) then Ret st
  else
    let w := u64 (bios_clock (machine st) + timeout) in
    st ← upd_tcb t (set_wakeup w) st;
    nt ← deref (rl st !! TIMEOUT_LIST);
    n ← find_later (S (size (rl st))) w (next nt) st;
    nn ← deref (rl st !! n);
    '(_, h) ← rl_splice (prev nn) (sched_node t) (rl st);
    Ret (with_rl h st).

Definition sched_queue_add t st : outcome (sched B) :=
  h ← rlist_push_back SCHED (sched_node t) (rl st);
  Ret (with_machine (cpu_core_restart_one (machine st)) (with_rl h st)).

Definition sched_make_ready t st : outcome (sched B) :=
  tc ← deref (tcbs st !! t);
  _ ← c_assert (bool_decide (state tc = STOPPED \/ state tc = INIT));
  st ← (if decide (wakeup_time tc ≠ NO_TIMEOUT) then
          nd ← deref (rl st !! sched_node t);
          _ ← c_assert (bool_decide (next nd ≠ sched_node t /\ state tc = STOPPED));
          '(_, h) ← rlist_remove (sched_node t) (rl st);
          upd_tcb t (set_wakeup NO_TIMEOUT) (with_rl h st)
        else Ret st);
  st ← upd_tcb t (set_state READY) st;
  if decide (phase tc = CTX_CLEAN) then sched_queue_add t st else Ret st.

(** The loop of [sched_queue_select] over the expired sleepers. *)
Fixpoint wake_expired (fuel : nat) (curtime : Z) st : outcome (sched B) :=
  match fuel with
  | O => Err OutOfFuel
  | S fuel =>
      e ← is_rlist_empty TIMEOUT_LIST (rl st);
      if (e : bool) then Ret st
      else
        nt ← deref (rl st !! TIMEOUT_LIST);
        nd ← deref (rl st !! next nt);
        t ← deref (obj nd);
        tc ← deref (tcbs st !! t);
        if (curtime <? wakeup_time tc)%Z then Ret st
        else st ← sched_make_ready t st; wake_expired fuel curtime st
  end.

Definition sched_queue_select st : outcome (option tid * sched B) :=
  let curtime := bios_clock (machine st) in
  st ← wake_expired (S (size (rl st))) curtime st;
  '(sel, h) ← rlist_pop_front SCHED (rl st);
  nd ← deref (h !! sel);
  Ret (obj nd, with_rl h st).

Definition wakeup c t st : outcome (bool * sched B) :=
  '(oldpre, st) ← set_core_preemption c false st;
  tc ← deref (tcbs st !! t);
  '(ret, st) ← (if decide (state tc = STOPPED \/ state tc = INIT) then
                  st ← sched_make_ready t st; Ret (true, st)
                else Ret (false, st));
  st ← (if (oldpre : bool) then '(_, st) ← set_core_preemption c true st; Ret st else Ret st);
  Ret (ret, st).

(** [sleep_releasing] up to its call of [yield]. *)
Definition sleep_releasing c (newstate : Thread_state) (mx : option nat) (cause : SCHED_CAUSE)
    (timeout : Z) st : outcome (sched B) :=
  _ ← c_assert (bool_decide (newstate = STOPPED \/ newstate = EXITED));
  tcb ← CURTHREAD c st;
  '(preempt, st) ← set_core_preemption c false st;
  st ← upd_tcb tcb (set_state newstate) st;
  st ← (if decide (newstate ≠ EXITED) then sched_register_timeout tcb timeout st else Ret st);
  let st := match mx with Some m => with_mutexes (mutexes st ∖ {[m]}) st | None => st end in
  upd_ccb c (set_pc (PcYield preempt)) st.

(** [yield] up to the point after the context switch. *)
Definition yield c (cause : SCHED_CAUSE) st : outcome (sched B) :=
  let st := with_machine (bios_set_timer c 0 (machine st)) st in
  '(preempt, st) ← set_core_preemption c false st;
  cc ← deref (cctx st !! c);
  let current := current_thread cc in
  tc ← deref (tcbs st !! current);
  '(current_ready, st) ←
    match state tc with
    | RUNNING => st ← upd_tcb current (set_state READY) st; Ret (true, st)
    | READY => Ret (true, st)
    | STOPPED | EXITED => Ret (false, st)
    | INIT => Err AssertFail
    end;
  '(sel, st) ← sched_queue_select st;
  let next := match sel with
              | Some n => n
              | None => if (current_ready : bool) then current else IdleThread c
              end in
  st ← upd_tcb current (set_next next) st;
  st ← upd_tcb next (set_prev current) st;
  let here := CtxYield preempt (match pc cc with PcYield o => Some o | _ => None end) in
  if decide (current ≠ next) then
    st ← upd_tcb current (set_context here) st;
    tn ← deref (tcbs st !! next);
    st ← upd_ccb c (set_current next) st;
    upd_ccb c (set_pc (PcGain (context tn))) st
  else upd_ccb c (set_pc (PcGain here)) st.

Definition gain c (preempt : bool) st : outcome (sched B) :=
  current ← CURTHREAD c st;
  tc ← deref (tcbs st !! current);
  prev ← deref (tcb_prev tc);
  st ← upd_tcb current (set_state RUNNING) st;
  st ← upd_tcb current (set_phase CTX_DIRTY) st;
  st ← (if decide (current ≠ prev) then
          st ← upd_tcb prev (set_phase CTX_CLEAN) st;
          tp ← deref (tcbs st !! prev);
          match state tp with
          | READY => if decide (type tp ≠ IDLE_THREAD) then sched_queue_add prev st else Ret st
          | EXITED => release_TCB prev st
          | STOPPED => Ret st
          | INIT | RUNNING => Err AssertFail
          end
        else Ret st);
  st ← (if preempt then '(_, st) ← set_core_preemption c true st; Ret st else Ret st);
  Ret (with_machine (bios_set_timer c QUANTUM (machine st)) st).

(** What the core does after a context switch: [gain], then the rest of [thread_start], or of
  [yield] and of the [sleep_releasing] that called it. *)
Definition resume c st : outcome (sched B) :=
  cc ← deref (cctx st !! c);
  match pc cc with
  | PcGain CtxStart =>
      st ← gain c true st; upd_ccb c (set_pc PcRun) st
  | PcGain (CtxYield preempt outer) =>
      st ← gain c preempt st;
      st ← (if decide (outer = Some true) then '(_, st) ← set_core_preemption c true st; Ret st
            else Ret st);
      upd_ccb c (set_pc PcRun) st
  | _ => Err AssertFail
  end.

Definition initialize_scheduler st : sched B :=
  let '(_, h) := rlnode_init SCHED None (rl st) in
  let '(_, h) := rlnode_init TIMEOUT_LIST None h in
  with_rl h st.

(** [run_scheduler] up to the call of [idle_thread]; the other fields of the CCB are zero. *)
Definition run_scheduler c (pcb0 : option Z) st : sched B :=
  let idle := IdleThread c in
  let tcb := mkTCB pcb0 CtxStart IDLE_THREAD RUNNING CTX_DIRTY 0 NO_TIMEOUT None None in
  let '(_, h) := rlnode_init (sched_node idle) (Some idle) (rl st) in
  let st := with_rl h (with_tcbs (<[idle := tcb]> (tcbs st)) st) in
  let st := with_cctx (<[c := mkCCB idle true PcRun]> (cctx st)) st in
  with_machine (cpu_enable_interrupts c (machine st)) st.

(** The test of the loop of [idle_thread]: the core leaves the scheduler when it fails. *)
Definition idle_continues st : bool := (0 <? active_threads st)%Z.

Definition yield_handler c st : outcome (sched B) := yield c SCHED_QUANTUM st.
End operations.

(** ** The two lists

  [lists h D q tl]: in the store [h], the ready queue holds the threads [q], the timeout list the
  threads [tl], and the nodes of the other threads of [D] are alone. *)

Record lists (h : sheap) (D : gset tid) (q tl : list tid) : Prop := {
  l_queue : rlist h SCHED (sched_node <$> q);
  l_timeout : rlist h TIMEOUT_LIST (sched_node <$> tl);
  l_alone t : t ∈ D -> t ∉ q -> t ∉ tl -> ring h [sched_node t];
  l_queue_in t : t ∈ q -> t ∈ D;
  l_timeout_in t : t ∈ tl -> t ∈ D;
  l_disjoint t : t ∈ q -> t ∉ tl;
  l_key t : t ∈ D -> obj_of h (sched_node t) = Some (Some t);
  l_null : obj_of h SCHED = Some None
}.

(** The wakeup time of a thread. *)
Definition wt (m : gmap tid TCB) (t : tid) : Z := default 0%Z (wakeup_time <$> m !! t).

(** The sleepers due at [w] or before, up to the first one that is due later, and the rest. *)
Fixpoint earlier (m : gmap tid TCB) (w : Z) (tl : list tid) : list tid :=
  match tl with
  | [] => []
  | t :: r => if (w <? wt m t)%Z then [] else t :: earlier m w r
  end.

Fixpoint later (m : gmap tid TCB) (w : Z) (tl : list tid) : list tid :=
  match tl with
  | [] => []
  | t :: r => if (w <? wt m t)%Z then t :: r else later m w r
  end.

(** A TCB that [sched_make_ready] has treated. *)
Definition ready (tc : TCB) : TCB := set_state READY (set_wakeup NO_TIMEOUT tc).

Definition clean (m : gmap tid TCB) (t : tid) : bool :=
  match m !! t with Some tc => bool_decide (phase tc = CTX_CLEAN) | None => false end.

(** ** Lemmas on the lists *)

Section lists_lemmas.
Implicit Types (h : sheap) (D : gset tid) (q tl k r : list tid) (t u : tid).

Lemma in_nodes t (l : list tid) : sched_node t ∈ (sched_node <$> l) <-> t ∈ l.
Proof. rewrite list_elem_of_fmap. naive_solver. Qed.

Lemma lists_frame h h' D q tl q' tl' S :
  lists h D q tl -> frame S h h' ->
  rlist h' SCHED (sched_node <$> q') -> rlist h' TIMEOUT_LIST (sched_node <$> tl') ->
  (forall t, t ∈ D -> t ∉ q' -> t ∉ tl' ->
     ring h' [sched_node t] \/ ((t ∉ q) /\ (t ∉ tl) /\ sched_node t ∉ S)) ->
  (forall t, t ∈ q' -> t ∈ D) -> (forall t, t ∈ tl' -> t ∈ D) -> (forall t, t ∈ q' -> t ∉ tl') ->
  lists h' D q' tl'.
Proof.
  intros [L1 L2 L3 L4 L5 L6 L7 L8] Hf Hq Ht Ha Hqi Hti Hd. split; try done.
  - intros t HD Hnq Hnt. destruct (Ha t HD Hnq Hnt) as [?|(? & ? & HS)]; [done|].
    apply (frame_ring _ _ _ Hf); [by apply L3|]. by apply singleton_disjoint.
  - intros t HD. rewrite (frame_obj _ _ _ Hf). by apply L7.
  - by rewrite (frame_obj _ _ _ Hf).
Qed.

Lemma queue_timeout_disjoint h D q tl :
  lists h D q tl -> (SCHED :: (sched_node <$> q)) ## (TIMEOUT_LIST :: (sched_node <$> tl)).
Proof.
  intros HL x [->|(t & -> & Hq)%list_elem_of_fmap]%elem_of_cons [?|(u & ? & Hu)%list_elem_of_fmap]%elem_of_cons;
    simplify_eq. by eapply l_disjoint.
Qed.

Lemma rlist_frame h h' (L : snode) l S :
  frame S h h' -> rlist h L l -> L ∉ S -> (forall x, x ∈ S -> x ∉ l) -> rlist h' L l.
Proof.
  intros Hf Hl HL HS. apply (frame_ring _ _ _ Hf); [done|]. intros x [->|Hx]%elem_of_cons HxS; [done|].
  by eapply HS.
Qed.

Lemma lists_push h D q tl t :
  lists h D q tl -> t ∈ D -> t ∉ q -> t ∉ tl ->
  exists h', rlist_push_back SCHED (sched_node t) h = Ret h' /\ lists h' D (q ++ [t]) tl.
Proof.
  intros HL Ht Hq Htl. pose proof HL as [L1 L2 L3 L4 L5 L6 L7 L8].
  destruct (rlist_push_back_spec h SCHED (fmap (M:=list) sched_node q) (sched_node t) [])
    as (h' & E & Hr & Hf); [done|by apply L3| |].
  { intros x Hx ->%list_elem_of_singleton. apply elem_of_cons in Hx as [?|?%in_nodes]; done. }
  exists h'. split; [done|]. eapply lists_frame; try done.
  - by rewrite fmap_app.
  - eapply rlist_frame; [done..|set_solver|].
    intros x [->|[->|?%not_elem_of_nil]%elem_of_cons]%elem_of_cons; [|by rewrite in_nodes|done].
    by intros (? & ? & ?)%list_elem_of_fmap.
  - intros u _ Hu Hut. right. rewrite elem_of_app, list_elem_of_singleton in Hu.
    rewrite !elem_of_cons, elem_of_nil. naive_solver.
  - intros u [?| ->%list_elem_of_singleton]%elem_of_app; auto.
  - intros u [?| ->%list_elem_of_singleton]%elem_of_app; auto.
Qed.

Lemma lists_pop h D q tl :
  lists h D q tl ->
  exists h', rlist_pop_front SCHED h = Ret (hd_or SCHED (sched_node <$> q), h') /\
    lists h' D (tail q) tl.
Proof.
  intros HL. pose proof HL as [L1 L2 L3 L4 L5 L6 L7 L8]. destruct q as [|a q]; simpl.
  { exists h. split; [by apply rlist_pop_front_nil|done]. }
  destruct (rlist_pop_front_spec h SCHED (sched_node a) (fmap (M:=list) sched_node q) L1)
    as (h' & E & Hr & Ha & Hf).
  exists h'. split; [done|]. eapply lists_frame; try done.
  - eapply rlist_frame; [done..|set_solver|]. intros x ->%list_elem_of_singleton.
    by intros (? & ? & ?)%list_elem_of_fmap.
  - intros u _ Hu Hut. destruct (decide (u = a)) as [->|]; [by left|right].
    rewrite elem_of_cons, list_elem_of_singleton. naive_solver.
  - intros u Hu. apply L4. by right.
  - intros u Hu. apply L6. by right.
Qed.

Lemma lists_remove h D q k t r :
  lists h D q (k ++ t :: r) ->
  exists h', rlist_remove (sched_node t) h = Ret (sched_node t, h') /\ lists h' D q (k ++ r).
Proof.
  intros HL. pose proof HL as [L1 L2 L3 L4 L5 L6 L7 L8]. rewrite fmap_app in L2. simpl in L2.
  destruct (rlist_remove_spec h _ _ _ _ L2) as (h' & E & Hr & Ha & Hf).
  exists h'. split; [done|]. eapply lists_frame; try done.
  - eapply rlist_frame; [done..|set_solver|]. intros x ->%list_elem_of_singleton.
    rewrite in_nodes. intros Hq. apply (L6 _ Hq). list_mem.
  - by rewrite fmap_app.
  - intros u _ Hu Hut. destruct (decide (u = t)) as [->|]; [by left|right].
    split; [done|]. split; [list_mem|]. rewrite list_elem_of_singleton. congruence.
  - intros u Hu. apply L5. list_mem.
  - intros u Hu Hu'. apply (L6 u Hu). list_mem.
Qed.

Lemma lists_insert h D q k r t :
  lists h D q (k ++ r) -> t ∈ D -> t ∉ q -> t ∉ k ++ r ->
  exists h', rlist_push_back (hd_or TIMEOUT_LIST (sched_node <$> r)) (sched_node t) h = Ret h' /\
    lists h' D q (k ++ t :: r).
Proof.
  intros HL Ht Hq Htl. pose proof HL as [L1 L2 L3 L4 L5 L6 L7 L8]. rewrite fmap_app in L2.
  destruct (rlist_insert_before h TIMEOUT_LIST (fmap (M:=list) sched_node k) (fmap (M:=list) sched_node r) (sched_node t))
    as (h' & E & Hr & Hf); [done|by apply L3| |].
  { rewrite <- fmap_app, elem_of_cons, in_nodes. naive_solver. }
  exists h'. split; [done|]. eapply lists_frame; try done.
  - eapply rlist_frame; [done..|set_solver|].
    intros x [->|[->|?%not_elem_of_nil]%elem_of_cons]%elem_of_cons; [|by rewrite in_nodes|done].
    by intros (? & ? & ?)%list_elem_of_fmap.
  - by rewrite fmap_app.
  - intros u _ Hu Hut. right. split; [done|]. split; [list_mem|].
    rewrite !elem_of_cons, elem_of_nil. intros [?|[ [= ->]|?]]; [done| |done]. list_mem.
  - intros u Hu. destruct (decide (u = t)) as [->|]; [done|]. apply L5. list_mem.
  - intros u Hu Hu'. destruct (decide (u = t)) as [->|]; [done|]. apply (L6 u Hu). list_mem.
Qed.

(** Initialising the node of a thread that is on neither list. *)
Lemma lists_add h D q tl t :
  lists h D q tl -> t ∉ q -> t ∉ tl ->
  lists (rlnode_init (sched_node t) (Some t) h).2 ({[t]} ∪ D) q tl.
Proof.
  intros [L1 L2 L3 L4 L5 L6 L7 L8] Hq Ht. simpl.
  set (h' := <[sched_node t := _]> h).
  assert (forall r : list snode, ring h r -> sched_node t ∉ r -> ring h' r) as Hring
    by (intros; by apply ring_insert_ne).
  split; try done.
  - apply Hring; [done|]. rewrite elem_of_cons, in_nodes. naive_solver.
  - apply Hring; [done|]. rewrite elem_of_cons, in_nodes. naive_solver.
  - intros u Hu Huq Hut. destruct (decide (u = t)) as [->|Hne].
    + apply ring_singleton. unfold edge, load, h'. by rewrite lookup_insert_eq.
    + apply Hring; [apply L3; [set_solver|done..]|]. rewrite list_elem_of_singleton. congruence.
  - intros u Hu. apply L4 in Hu. set_solver.
  - intros u Hu. apply L5 in Hu. set_solver.
  - intros u Hu. unfold obj_of, h'. destruct (decide (u = t)) as [->|Hne].
    + by rewrite lookup_insert_eq.
    + rewrite lookup_insert_ne by congruence. apply L7. set_solver.
  - unfold obj_of, h'. by rewrite lookup_insert_ne.
Qed.

(** Freeing it. *)
Lemma lists_delete h D q tl t :
  lists h D q tl -> t ∉ q -> t ∉ tl -> lists (delete (sched_node t) h) (D ∖ {[t]}) q tl.
Proof.
  intros [L1 L2 L3 L4 L5 L6 L7 L8] Hq Ht.
  assert (forall r : list snode, ring h r -> sched_node t ∉ r -> ring (delete (sched_node t) h) r) as Hring.
  { intros r Hr Hn. eapply ring_mono, Hr. intros x y Hx He.
    assert (y ∈ r) as Hy by (by eapply ring_edge_closed).
    destruct He as [He1 He2]. unfold edge, load in *.
    rewrite !lookup_delete_ne by (intros <-; done). done. }
  split; try done.
  - apply Hring; [done|]. rewrite elem_of_cons, in_nodes. naive_solver.
  - apply Hring; [done|]. rewrite elem_of_cons, in_nodes. naive_solver.
  - intros u Hu Huq Hut. apply Hring; [apply L3; [set_solver|done..]|].
    rewrite list_elem_of_singleton. set_solver.
  - intros u Hu. pose proof (L4 _ Hu). set_solver.
  - intros u Hu. pose proof (L5 _ Hu). set_solver.
  - intros u Hu. unfold obj_of. rewrite lookup_delete_ne by set_solver. apply L7. set_solver.
  - unfold obj_of. by rewrite lookup_delete_ne.
Qed.

Lemma lists_node h D q tl t :
  lists h D q tl -> t ∈ D -> exists nd, h !! sched_node t = Some nd /\ obj nd = Some t.
Proof.
  intros HL Ht. pose proof (l_key _ _ _ _ HL t Ht) as Hk. unfold obj_of in Hk.
  destruct (h !! sched_node t) as [nd|]; simplify_eq/=. by exists nd.
Qed.

Lemma lists_inj h D D' q q' tl tl' : lists h D q tl -> lists h D' q' tl' -> q = q' /\ tl = tl'.
Proof.
  intros [L1 L2 _ _ _ _ _ _] [L1' L2' _ _ _ _ _ _].
  split; apply (inj (fmap (M:=list) sched_node)); by eapply rlist_inj.
Qed.

Lemma lists_NoDup h D q tl : lists h D q tl -> NoDup q /\ NoDup tl.
Proof.
  intros [L1 L2 _ _ _ _ _ _].
  pose proof (ring_NoDup _ _ L1) as [_ H1]%NoDup_cons.
  pose proof (ring_NoDup _ _ L2) as [_ H2]%NoDup_cons.
  split; by eapply NoDup_fmap_1.
Qed.
End lists_lemmas.
