(* ===== verification/SchedInv.v ===== *)
(** * Correctness of the scheduler

  The well-formedness of the scheduler state, [sinv], what each operation does to a well-formed
  state, and the system of all cores as a step relation.  The invariant says where each thread is:
  on a core, leaving a core (its context is saved, [gain] has not yet run there), or elsewhere. *)

From S2P Require Import Prelude Rlist Iface Sched.
From Stdlib Require Import Sorted.

(** ** The invariant *)

Inductive place :=
  | Elsewhere
  | OnCore (c : nat)
  | Leaving (c : nat).

#[export] Instance place_eq_dec : EqDecision place.
Proof. solve_decision. Defined.

(** What holds of the TCB [tc] of the thread [t], with the lists [q] and [tl], at the place [p]. *)
Record thread_ok (q tl : list tid) (p : place) (t : tid) (tc : TCB) : Prop := {
  tk_timeout : t ∈ tl <-> wakeup_time tc <> NO_TIMEOUT;
  tk_sleeper : wakeup_time tc <> NO_TIMEOUT -> state tc = STOPPED;
  tk_queue : t ∈ q <-> p = Elsewhere /\ state tc = READY /\ type tc = NORMAL_THREAD;
  tk_type : match t with
            | IdleThread c => type tc = IDLE_THREAD /\ (state tc = READY \/ state tc = RUNNING) /\
                (p = Elsewhere \/ p = OnCore c \/ p = Leaving c)
            | Thread _ => type tc = NORMAL_THREAD
            end;
  tk_place : match p with
             | Elsewhere => phase tc = CTX_CLEAN /\
                 (state tc = INIT \/ state tc = READY \/ state tc = STOPPED)
             | Leaving _ => phase tc = CTX_DIRTY /\
                 (state tc = READY \/ state tc = STOPPED \/ state tc = EXITED)
             | OnCore _ => True
             end
}.

(** What holds of the current thread, with TCB [tc], of a core at [pc]. *)
Definition current_ok (m : gmap tid TCB) (pl : tid -> place) (c : nat) (t : tid) (tc : TCB)
    (p : core_pc) : Prop :=
  match p with
  | PcRun => state tc = RUNNING /\ phase tc = CTX_DIRTY
  | PcYield _ => phase tc = CTX_DIRTY /\ (state tc = READY \/ state tc = STOPPED \/ state tc = EXITED)
  | PcGain _ => state tc = READY /\ exists u, tcb_prev tc = Some u /\
      ((u = t /\ phase tc = CTX_DIRTY) \/
       (u <> t /\ phase tc = CTX_CLEAN /\ pl u = Leaving c /\ is_Some (m !! u)))
  end.

Definition core_ok (m : gmap tid TCB) (pl : tid -> place) (c : nat) (cc : CCB) : Prop :=
  pl (current_thread cc) = OnCore c /\
  exists tc, m !! current_thread cc = Some tc /\ current_ok m pl c (current_thread cc) tc (pc cc).

Definition place_ok (m : gmap tid TCB) (C : gmap nat CCB) (t : tid) (p : place) : Prop :=
  match p with
  | Elsewhere => True
  | OnCore c => exists cc, C !! c = Some cc /\ current_thread cc = t
  | Leaving c => exists cc tc x, C !! c = Some cc /\ pc cc = PcGain x /\
      m !! current_thread cc = Some tc /\ tcb_prev tc = Some t
  end.

Definition is_normal (t : tid) : bool := match t with Thread _ => true | IdleThread _ => false end.

(** The number of allocated TCBs of normal threads. *)
Definition normals (m : gmap tid TCB) : Z :=
  Z.of_nat (size (filter (fun t => is_normal t = true) (dom m))).

Definition due_before (m : gmap tid TCB) (t u : tid) : Prop := (wt m t <= wt m u)%Z.

Record sinv (m : gmap tid TCB) (h : sheap) (C : gmap nat CCB) (A : Z) (q tl : list tid)
    (pl : tid -> place) : Prop := {
  i_lists : lists h (dom m) q tl;
  i_sorted : StronglySorted (due_before m) tl;
  i_thread t tc : m !! t = Some tc -> thread_ok q tl (pl t) t tc;
  i_core c cc : C !! c = Some cc -> core_ok m pl c cc;
  i_place t : place_ok m C t (pl t);
  i_idle c : is_Some (m !! IdleThread c) <-> is_Some (C !! c);
  i_active : A = u32 (normals m)
}.

(** [t] moves to [p]. *)
Definition moved (t : tid) (p : place) (pl : tid -> place) (u : tid) : place :=
  if decide (u = t) then p else pl u.

(** The TCBs after the threads of [l] were made ready. *)
Definition wake_all (m : gmap tid TCB) (l : list tid) : gmap tid TCB :=
  foldl (fun m t => alter ready t m) m l.

(** A state of the scheduler is well formed. *)
Definition sched_ok {B} (st : sched B) : Prop :=
  exists q tl pl, sinv (tcbs st) (rl st) (cctx st) (active_threads st) q tl pl.

(** ** What the operations compute

  The results of the operations on the TCBs, the queue and the timeout list, as functions. *)

Section results.
Implicit Types (m : gmap tid TCB) (A : Z) (q tl : list tid) (t u : tid) (tc : TCB) (c : nat).

(** A thread that [wakeup] can wake. *)
Definition sleeping (tc : TCB) : bool := bool_decide (state tc = STOPPED \/ state tc = INIT).

(** The timeout list after [t] went to sleep until [w], or for good. *)
Definition sleep_list (m : gmap tid TCB) (w : option Z) (t : tid) (tl : list tid) : list tid :=
  match w with
  | Some w => earlier m w tl ++ t :: later m w tl
  | None => tl
  end.

(** The TCB of a thread that went to sleep. *)
Definition asleep (newstate : Thread_state) (w : option Z) (tc : TCB) : TCB :=
  let tc := set_state newstate tc in match w with Some w => set_wakeup w tc | None => tc end.

(** The queue and the timeout list after the sleepers that are due at [now] were woken. *)
Definition queue_at m (now : Z) q tl : list tid :=
  q ++ filter (fun u => clean m u = true) (earlier m now tl).

(** The thread that [yield] picks on the core [c]: the first of the queue, or the current thread
  [t] when it can go on, or the idle thread of the core. *)
Definition pick c t (current_ready : bool) q : tid :=
  match q with n :: _ => n | [] => if current_ready then t else IdleThread c end.

Definition runnable tc : bool := bool_decide (state tc = RUNNING \/ state tc = READY).

(** A current thread that stops running: the TCB after the [switch] of [yield]. *)
Definition stop_running tc : TCB := if decide (state tc = RUNNING) then set_state READY tc else tc.

(** The TCBs after [yield] to [n] on a core whose current thread is [t]: [m] are the TCBs after the
  selection. *)
Definition switched m t n (here : cpu_context) : gmap tid TCB :=
  match m !! t, m !! n with
  | Some tc, Some tn =>
      if decide (t = n) then <[t := set_prev t (set_next t tc)]> m
      else <[t := set_context here (set_next n tc)]> (<[n := set_prev t tn]> m)
  | _, _ => m
  end.

(** What the core does next. *)
Definition next_context m t n (here : cpu_context) : cpu_context :=
  if decide (t = n) then here else match m !! n with Some tn => context tn | None => here end.

(** The TCBs after [gain] dealt with the previous thread [u] of the core. *)
Definition put_back m u (tu : TCB) : gmap tid TCB :=
  if decide (state tu = EXITED) then delete u m else <[u := set_phase CTX_CLEAN tu]> m.

Definition released (tu : TCB) (A : Z) : Z :=
  if decide (state tu = EXITED) then u32 (A - 1) else A.

Definition requeued u (tu : TCB) : list tid :=
  if decide (state tu = READY /\ is_normal u = true) then [u] else [].

Definition run tc : TCB := set_phase CTX_DIRTY (set_state RUNNING tc).

(** The effects of [gain] on the TCBs, on the count of threads and on the queue: [u] is the thread that
  the core switched from, [t] itself when it did not switch. *)
Definition gained m t tc u : gmap tid TCB :=
  <[t := run tc]> (if decide (u = t) then m else match m !! u with Some tu => put_back m u tu | None => m end).

Definition gained_active m t u (A : Z) : Z :=
  if decide (u = t) then A else match m !! u with Some tu => released tu A | None => A end.

Definition gained_queue m t u q : list tid :=
  q ++ if decide (u = t) then [] else match m !! u with Some tu => requeued u tu | None => [] end.

(** The preemption status that a resumed context restores. *)
Definition restored (x : cpu_context) : bool :=
  match x with CtxStart => true | CtxYield p o => p || bool_decide (o = Some true) end.

(** The TCB of a new thread. *)
Definition fresh_tcb (pcb : option Z) (func : nat) : TCB :=
  mkTCB pcb CtxStart NORMAL_THREAD INIT CTX_CLEAN func NO_TIMEOUT None None.

Definition idle_tcb (pcb0 : option Z) : TCB :=
  mkTCB pcb0 CtxStart IDLE_THREAD RUNNING CTX_DIRTY 0 NO_TIMEOUT None None.
End results.

(** The wakeup time that [sleep_releasing] registers, if any. *)
Definition sleep_time {B} `{BiosOps B} (b : B) (newstate : Thread_state) (timeout : Z) : option Z :=
  if decide (newstate = EXITED \/ timeout = NO_TIMEOUT) then None
  else Some (u64 (bios_clock b + timeout)).

(** ** Lemmas *)

(** Splits a lookup in an updated map. *)
Ltac map_cases :=
  repeat match goal with
  | H : <[?i := ?x]> ?m !! ?j = _ |- _ =>
      destruct (decide (i = j)) as [?|?];
      [first [subst j|subst i]; rewrite (lookup_insert_eq m) in H|rewrite (lookup_insert_ne m) in H by done];
      simplify_eq/=
  end.

Lemma wt_insert m t tc u : wt (<[t := tc]> m) u = if decide (u = t) then wakeup_time tc else wt m u.
Proof.
  unfold wt. destruct (decide (u = t)) as [->|]; [by rewrite lookup_insert_eq|].
  by rewrite lookup_insert_ne.
Qed.

Lemma StronglySorted_filter {X} (R : X -> X -> Prop) P `{!forall x, Decision (P x)} (l : list X) :
  StronglySorted R l -> StronglySorted R (filter P l).
Proof.
  induction 1 as [|x l Hl IH Hx]; [constructor|]. rewrite filter_cons. case_decide; [|done].
  constructor; [done|]. apply Forall_forall. intros y [_ Hy]%list_elem_of_filter.
  by eapply Forall_forall in Hx.
Qed.

Lemma StronglySorted_ext {X} (R R' : X -> X -> Prop) (l : list X) :
  (forall x y, x ∈ l -> y ∈ l -> R x y -> R' x y) -> StronglySorted R l -> StronglySorted R' l.
Proof.
  intros HR. induction 1 as [|x l Hl IH Hx]; constructor.
  - apply IH. intros y z ??. apply HR; by right.
  - apply Forall_forall. intros y Hy. eapply Forall_forall in Hx; [|done]. apply HR; [left|by right|done].
Qed.

Lemma normals_insert m t tc tc' : m !! t = Some tc -> normals (<[t := tc']> m) = normals m.
Proof. intros Ht. unfold normals. by rewrite dom_insert_lookup_L by eauto. Qed.

Lemma current_ok_mono m m' pl c t tc p :
  dom m ⊆ dom m' -> current_ok m pl c t tc p -> current_ok m' pl c t tc p.
Proof.
  intros Hd. destruct p; simpl; try done.
  intros (? & u & ? & [?|(? & ? & ? & Hu%elem_of_dom)]); split; try done; exists u; split; try done; [by left|].
  right. do 3 (split; [done|]). apply elem_of_dom. by apply Hd.
Qed.

Lemma thread_ok_ext q tl q' tl' p t tc :
  (t ∈ q' <-> t ∈ q) -> (t ∈ tl' <-> t ∈ tl) -> thread_ok q tl p t tc -> thread_ok q' tl' p t tc.
Proof. intros Hq Ht [T1 T2 T3 T4 T5]. split; try done; [by rewrite Ht|by rewrite Hq]. Qed.

(** One TCB and the lists change, and nothing moves. *)
Lemma sinv_upd m h C A q tl pl t tc tc' h' q' tl' :
  sinv m h C A q tl pl -> m !! t = Some tc ->
  lists h' (dom m) q' tl' -> StronglySorted (due_before (<[t := tc']> m)) tl' ->
  (forall u, u <> t -> (u ∈ q' <-> u ∈ q) /\ (u ∈ tl' <-> u ∈ tl)) ->
  thread_ok q' tl' (pl t) t tc' -> tcb_prev tc' = tcb_prev tc ->
  (forall c p, pl t = OnCore c -> current_ok m pl c t tc p -> current_ok m pl c t tc' p) ->
  sinv (<[t := tc']> m) h' C A q' tl' pl.
Proof.
  intros [I1 I2 I3 I4 I5 I6 I7] Ht Hl Hs Hu Htc Hprev Hcur.
  assert (dom (<[t := tc']> m) = dom m) as Hdom by (by apply dom_insert_lookup_L; eauto).
  split.
  - by rewrite Hdom.
  - done.
  - intros u uc Hm. map_cases; [done|]. destruct (Hu u) as [Hq' Ht']; [done|].
    eapply thread_ok_ext; [..|by apply I3]; done.
  - intros c cc Hc. destruct (I4 c cc Hc) as (Hp & uc & Hm & Hok). split; [done|].
    destruct (decide (t = current_thread cc)) as [->|].
    + rewrite Hm in Ht. injection Ht as ->. exists tc'. rewrite lookup_insert_eq. split; [done|].
      apply (current_ok_mono m); [by rewrite Hdom|by apply Hcur].
    + exists uc. rewrite lookup_insert_ne by done. split; [done|].
      apply (current_ok_mono m); [by rewrite Hdom|done].
  - intros u. specialize (I5 u). destruct (pl u) as [|c|c]; try done. simpl in *.
    destruct I5 as (cc & uc & x & ? & ? & Hm & ?). destruct (decide (t = current_thread cc)) as [->|].
    + rewrite Hm in Ht. injection Ht as ->. exists cc, tc', x. rewrite lookup_insert_eq. by rewrite Hprev.
    + exists cc, uc, x. by rewrite lookup_insert_ne.
  - intros c. rewrite <- I6, <- !elem_of_dom. by rewrite Hdom.
  - by erewrite normals_insert.
Qed.

Lemma core_inj m h C A q tl pl c c' cc cc' :
  sinv m h C A q tl pl -> C !! c = Some cc -> C !! c' = Some cc' ->
  current_thread cc = current_thread cc' -> c = c'.
Proof.
  intros I H1 H2 He. pose proof (i_core _ _ _ _ _ _ _ I _ _ H1) as [P1 _].
  pose proof (i_core _ _ _ _ _ _ _ I _ _ H2) as [P2 _]. congruence.
Qed.

Lemma not_leaving m h C A q tl pl c cc :
  sinv m h C A q tl pl -> C !! c = Some cc -> (forall x, pc cc <> PcGain x) ->
  forall u, pl u <> Leaving c.
Proof.
  intros I Hc Hpc u Hp. pose proof (i_place _ _ _ _ _ _ _ I u) as Hu. rewrite Hp in Hu.
  destruct Hu as (cc' & tc & x & Hc' & Hx & _). rewrite Hc in Hc'. injection Hc' as <-. by eapply Hpc.
Qed.

(** The current thread of a core that no thread is leaving changes, with the CCB. *)
Lemma sinv_current m h C A q tl pl c cc cc' tc tc' h' q' tl' :
  sinv m h C A q tl pl -> C !! c = Some cc -> (forall u, pl u <> Leaving c) ->
  current_thread cc' = current_thread cc -> m !! current_thread cc = Some tc ->
  lists h' (dom m) q' tl' ->
  StronglySorted (due_before (<[current_thread cc := tc']> m)) tl' ->
  (forall u, u <> current_thread cc -> (u ∈ q' <-> u ∈ q) /\ (u ∈ tl' <-> u ∈ tl)) ->
  thread_ok q' tl' (OnCore c) (current_thread cc) tc' ->
  current_ok m pl c (current_thread cc) tc' (pc cc') ->
  sinv (<[current_thread cc := tc']> m) h' (<[c := cc']> C) A q' tl' pl.
Proof.
  intros I Hc Hnl Hcc' Ht Hl Hs Hu Htc Hcur. set (t := current_thread cc) in *.
  pose proof I as [I1 I2 I3 I4 I5 I6 I7].
  assert (dom (<[t := tc']> m) = dom m) as Hdom by (by apply dom_insert_lookup_L; eauto).
  assert (pl t = OnCore c) as Hp by (by apply I4).
  split.
  - by rewrite Hdom.
  - done.
  - intros u uc Hm. map_cases; [by rewrite Hp|]. destruct (Hu u) as [Hq' Ht']; [done|].
    eapply thread_ok_ext; [..|by apply I3]; done.
  - intros d dd Hd. map_cases.
    + split; [by rewrite Hcc'|]. exists tc'. rewrite Hcc'. split; [by rewrite lookup_insert_eq|].
      apply (current_ok_mono m); [by rewrite Hdom|done].
    + destruct (I4 d dd Hd) as (Hpd & uc & Hm & Hok). split; [done|]. exists uc.
      rewrite lookup_insert_ne by (intros He; by apply (core_inj _ _ _ _ _ _ _ c d cc dd I) in He).
      split; [done|]. apply (current_ok_mono m); [by rewrite Hdom|done].
  - intros u. specialize (I5 u). destruct (pl u) as [|d|d] eqn:Hpu; try done; simpl in *.
    + destruct (decide (c = d)) as [->|].
      * exists cc'. rewrite lookup_insert_eq. split; [done|].
        destruct I5 as (dd & Hd & <-). rewrite Hc in Hd. injection Hd as <-. done.
      * by setoid_rewrite lookup_insert_ne.
    + assert (c <> d) by (intros ->; by eapply Hnl). destruct I5 as (dd & uc & x & Hd & ? & Hm & ?).
      exists dd, uc, x. rewrite lookup_insert_ne by done. split; [done|]. split; [done|].
      by rewrite lookup_insert_ne by (intros He; by apply (core_inj _ _ _ _ _ _ _ c d cc dd I) in He).
  - intros d. rewrite <- !elem_of_dom, Hdom, dom_insert_lookup_L, !elem_of_dom by eauto. apply I6.
  - by erewrite normals_insert.
Qed.

Lemma moved_eq t p pl : moved t p pl t = p.
Proof. unfold moved. by rewrite decide_True. Qed.

Lemma moved_ne t p pl u : u <> t -> moved t p pl u = pl u.
Proof. intros. unfold moved. by rewrite decide_False. Qed.

Lemma due_before_insert m t tc tc' tl :
  m !! t = Some tc -> wakeup_time tc' = wakeup_time tc ->
  StronglySorted (due_before m) tl -> StronglySorted (due_before (<[t := tc']> m)) tl.
Proof.
  intros Ht Hw. apply StronglySorted_ext. intros x y _ _. unfold due_before. rewrite !wt_insert.
  assert (wakeup_time tc' = wt m t) as -> by (unfold wt; by rewrite Ht).
  repeat case_decide; by subst.
Qed.

(** A TCB changes in fields that nothing depends on. *)
Lemma sinv_silent m h C A q tl pl t tc tc' :
  sinv m h C A q tl pl -> m !! t = Some tc ->
  state tc' = state tc -> phase tc' = phase tc -> type tc' = type tc ->
  wakeup_time tc' = wakeup_time tc -> tcb_prev tc' = tcb_prev tc ->
  sinv (<[t := tc']> m) h C A q tl pl.
Proof.
  intros I Ht Hs Hp Hty Hw Hpr. pose proof I as [I1 I2 I3 _ _ _ _].
  eapply sinv_upd; try done.
  - by eapply due_before_insert.
  - destruct (I3 _ _ Ht) as [T1 T2 T3 T4 T5]. by split; rewrite ?Hs, ?Hp, ?Hty, ?Hw.
  - intros c p _. destruct p; simpl; by rewrite Hs, Hp, ?Hpr.
Qed.

(** The context switch of [yield]: the core [c] goes from its current thread to [n]. *)
Lemma sinv_switch m h C A q tl pl c cc n tn p x h' q' :
  sinv m h C A q tl pl -> C !! c = Some cc -> (exists o, pc cc = PcYield o) ->
  n <> current_thread cc -> m !! n = Some tn -> pl n = Elsewhere -> state tn = READY ->
  (n = IdleThread c \/ is_normal n = true) ->
  lists h' (dom m) q' tl -> (forall u, u <> n -> (u ∈ q' <-> u ∈ q)) -> n ∉ q' ->
  sinv (<[n := set_prev (current_thread cc) tn]> m) h' (<[c := mkCCB n p (PcGain x)]> C) A q' tl
    (moved n (OnCore c) (moved (current_thread cc) (Leaving c) pl)).
Proof.
  intros I Hc [o Ho] Hne Hn Hpn Hsn Hty Hl Hq Hnq. set (t := current_thread cc) in *.
  pose proof I as [I1 I2 I3 I4 I5 I6 I7].
  assert (forall u, pl u <> Leaving c) as Hnl by (eapply not_leaving; [done..|congruence]).
  set (tn' := set_prev t tn).
  assert (dom (<[n := tn']> m) = dom m) as Hdom by (by apply dom_insert_lookup_L; eauto).
  destruct (I4 c cc Hc) as (Hpt & tc & Ht & Hcur). fold t in Hpt, Ht, Hcur. rewrite Ho in Hcur.
  destruct Hcur as [Hph Hst]. destruct (I3 _ _ Ht) as [T1 T2 T3 T4 T5].
  destruct (I3 _ _ Hn) as [N1 N2 N3 N4 N5]. rewrite Hpn in N5.
  split.
  - by rewrite Hdom.
  - by eapply due_before_insert.
  - intros u uc Hm. map_cases.
    + rewrite moved_eq. split; try done; simpl.
      * split; [done|]. naive_solver.
      * destruct n; [|done]. destruct N4 as (? & ? & _), Hty as [[= ->]|]; [|done]. naive_solver.
    + rewrite moved_ne by done. destruct (decide (u = t)) as [->|].
      * rewrite moved_eq. rewrite Ht in Hm. injection Hm as <-. split; try done.
        -- rewrite Hq, T3 by done. split; intros [? _]; congruence.
        -- destruct t; [|done]. destruct T4 as (? & ? & [?|[?|?]]); try congruence.
           assert (core = c) as -> by congruence. naive_solver.
      * rewrite moved_ne by done. eapply thread_ok_ext; [by apply Hq|done|by apply I3].
  - intros d dd Hd. map_cases.
    + split; [by rewrite moved_eq|]. exists tn'. rewrite lookup_insert_eq. split; [done|].
      split; [done|]. exists t. split; [done|]. right. split; [done|]. split; [by apply N5|].
      rewrite moved_ne, moved_eq by done. split; [done|]. apply elem_of_dom. rewrite Hdom.
      by eapply elem_of_dom_2.
    + destruct (I4 d dd Hd) as (Hpd & uc & Hm & Hok).
      assert (current_thread dd <> n) by congruence.
      assert (current_thread dd <> t) by (intros He; by apply (core_inj _ _ _ _ _ _ _ d c dd cc I) in He).
      split; [by rewrite !moved_ne|]. exists uc. rewrite lookup_insert_ne by done. split; [done|].
      apply (current_ok_mono m); [by rewrite Hdom|]. destruct (pc dd); try done. simpl in *.
      destruct Hok as (? & u & ? & [?|(? & ? & Hpu & ?)]); split; try done; exists u; (split; [done|]); [by left|right].
      rewrite !moved_ne by congruence. done.
  - intros u. destruct (decide (u = n)) as [->|Hun].
    { rewrite moved_eq. simpl. eexists. by rewrite lookup_insert_eq. }
    rewrite moved_ne by done. destruct (decide (u = t)) as [->|Hut].
    { rewrite moved_eq. simpl. exists (mkCCB n p (PcGain x)), tn', x. rewrite !lookup_insert_eq. done. }
    rewrite moved_ne by done. specialize (I5 u). destruct (pl u) as [|d|d] eqn:Hpu; try done; simpl in *.
    + destruct I5 as (dd & Hd & He). assert (c <> d) by (intros ->; rewrite Hc in Hd; injection Hd as <-; done).
      exists dd. by rewrite lookup_insert_ne.
    + assert (c <> d) by (intros ->; by eapply Hnl). destruct I5 as (dd & uc & y & Hd & ? & Hm & ?).
      exists dd, uc, y. rewrite lookup_insert_ne by done. do 2 (split; [done|]). rewrite lookup_insert_ne; [done|].
      intros He. apply I4 in Hd as [? _]. congruence.
  - intros d. rewrite <- !elem_of_dom, Hdom, dom_insert_lookup_L, !elem_of_dom by eauto. apply I6.
  - by erewrite normals_insert.
Qed.

Lemma normals_delete m t : is_Some (m !! t) -> is_normal t = true -> normals (delete t m) = (normals m - 1)%Z.
Proof.
  intros Ht%elem_of_dom Hn. unfold normals. rewrite dom_delete_L.
  assert (filter (fun t => is_normal t = true) (dom m) =
    {[t]} ∪ filter (fun t => is_normal t = true) (dom m ∖ {[t]})) as ->.
  { apply set_eq. intros u. rewrite elem_of_union, !elem_of_filter, elem_of_difference, elem_of_singleton.
    destruct (decide (u = t)); naive_solver. }
  rewrite size_union, size_singleton; [lia|]. intros u.
  rewrite elem_of_filter, elem_of_difference, elem_of_singleton. tauto.
Qed.

Lemma normals_new m t tc : m !! t = None -> is_normal t = true ->
  normals (<[t := tc]> m) = (normals m + 1)%Z.
Proof.
  intros Ht Hn. pose proof (normals_delete (<[t := tc]> m) t) as Hd.
  rewrite delete_insert_id in Hd by done. rewrite Hd; [lia| |done]. by rewrite lookup_insert_eq.
Qed.

(** [gain] after a switch: the current thread of the core [c] runs, and the previous one, [u], is off the core.
  [mp] is the table with [u] put back, or without it when it has exited. *)
Section gain_step.
Context (m : gmap tid TCB) (h : sheap) (C : gmap nat CCB) (A : Z) (q tl : list tid) (pl : tid -> place).
Context (c : nat) (cc cc' : CCB) (tc : TCB) (u : tid) (tu : TCB) (mp : gmap tid TCB) (h' : sheap) (q' : list tid) (A' : Z).
Local Abbreviation t := (current_thread cc).
Local Abbreviation m' := (<[t := run tc]> mp).
Local Abbreviation pl' := (moved u Elsewhere pl).

Context (I : sinv m h C A q tl pl) (Hc : C !! c = Some cc) (Hgain : exists x, pc cc = PcGain x).
Context (Hcc' : current_thread cc' = t) (Hpc : pc cc' = PcRun).
Context (Ht : m !! t = Some tc) (Hpr : tcb_prev tc = Some u) (Hne : u <> t) (Hu : m !! u = Some tu).
Context (Hmp : state tu <> EXITED /\ mp = <[u := set_phase CTX_CLEAN tu]> m /\ A' = A \/
  state tu = EXITED /\ mp = delete u m /\ A' = u32 (A - 1)).
Context (Hl : lists h' (dom mp) q' tl) (Hq : forall v, v <> u -> (v ∈ q' <-> v ∈ q)).
Context (Huq : u ∈ q' <-> state tu = READY /\ is_normal u = true).

Lemma gain_current : pl t = OnCore c /\ state tc = READY /\ thread_ok q tl (OnCore c) t tc.
Proof.
  destruct Hgain as [x Hx], (i_core _ _ _ _ _ _ _ I c cc Hc) as (Hpt & tc' & Ht' & Hcur).
  rewrite Ht in Ht'. injection Ht' as <-. rewrite Hx in Hcur. destruct Hcur as (Hst & _).
  split; [done|]. split; [done|]. rewrite <- Hpt. by eapply i_thread.
Qed.

Lemma gain_previous : pl u = Leaving c /\ thread_ok q tl (Leaving c) u tu.
Proof.
  destruct Hgain as [x Hx], (i_core _ _ _ _ _ _ _ I c cc Hc) as (_ & tc' & Ht' & Hcur).
  rewrite Ht in Ht'. injection Ht' as <-. rewrite Hx in Hcur. destruct Hcur as (_ & u' & Hpr' & Hcur).
  rewrite Hpr in Hpr'. injection Hpr' as <-. destruct Hcur as [[? _]|(_ & _ & Hpu & _)]; [done|].
  split; [done|]. rewrite <- Hpu. by eapply i_thread.
Qed.

Lemma gain_others v : v <> u -> mp !! v = m !! v.
Proof.
  intros Hv. destruct Hmp as [(_ & -> & _)|(_ & -> & _)]; [by rewrite lookup_insert_ne|by rewrite lookup_delete_ne].
Qed.

Lemma gain_dom : dom m' = dom mp.
Proof. apply dom_insert_lookup_L. rewrite gain_others by done. by eexists. Qed.

(** The clauses of the invariant. *)
Lemma gain_sorted : StronglySorted (due_before m') tl.
Proof.
  destruct gain_previous as [_ [U1 U2 _ _ _]].
  assert (forall v, v ∈ tl -> wt m' v = wt m v) as Hwt.
  { intros v Hv. rewrite wt_insert. case_decide as Hvt; [subst v; unfold wt; by rewrite Ht|].
    unfold wt. destruct (decide (v = u)) as [->|Hvu]; [|by rewrite gain_others].
    destruct Hmp as [(_ & -> & _)|(He & _ & _)]; [by rewrite lookup_insert_eq, Hu|].
    apply U1, U2 in Hv. congruence. }
  eapply StronglySorted_ext; [|by eapply i_sorted]. intros v w Hv Hw. unfold due_before. by rewrite !Hwt.
Qed.

Lemma gain_thread v vc : m' !! v = Some vc -> thread_ok q' tl (pl' v) v vc.
Proof.
  destruct gain_current as (Hpt & Hst & [T1 T2 T3 T4 T5]), gain_previous as (Hpu & [U1 U2 U3 U4 U5]).
  intros Hm. destruct (decide (v = t)) as [->|Hvt].
  { rewrite lookup_insert_eq in Hm. injection Hm as <-. rewrite moved_ne, Hpt by done. split; simpl; try done.
    - intros Hw. apply T2 in Hw. congruence.
    - rewrite Hq, T3 by done. split; intros (? & _); congruence.
    - clear -T4. destruct t; [|done]. tauto. }
  rewrite lookup_insert_ne in Hm by done. destruct (decide (v = u)) as [->|Hvu].
  + rewrite moved_eq. destruct Hmp as [(Hs & -> & _)|(_ & -> & _)]; [|by rewrite lookup_delete_eq in Hm].
    rewrite lookup_insert_eq in Hm. injection Hm as <-. split; simpl; try done.
    * rewrite Huq. clear -U4. destruct u; simpl; intuition congruence.
    * clear -U4. destruct u; [|done]. tauto.
    * clear -U5 Hs. tauto.
  + rewrite gain_others in Hm by done. rewrite moved_ne by done.
    eapply thread_ok_ext; [by apply Hq|done|by eapply i_thread].
Qed.

Lemma gain_core d dd : <[c := cc']> C !! d = Some dd -> core_ok m' pl' d dd.
Proof.
  destruct gain_current as (Hpt & _), gain_previous as (Hpu & _).
  intros Hd. destruct (decide (c = d)) as [<-|Hcd];
    [rewrite lookup_insert_eq in Hd; injection Hd as <-|rewrite lookup_insert_ne in Hd by done].
  { split; [rewrite moved_ne; by rewrite Hcc'|]. exists (run tc). rewrite Hcc', lookup_insert_eq, Hpc. by split. }
  destruct (i_core _ _ _ _ _ _ _ I d dd Hd) as (Hpd & vc & Hm & Hok).
  assert (current_thread dd <> u) by congruence.
  assert (current_thread dd <> t) by (intros He; by apply (core_inj _ _ _ _ _ _ _ d c dd cc I) in He).
  split; [by rewrite moved_ne|]. exists vc. rewrite lookup_insert_ne, gain_others by done. split; [done|].
  destruct (pc dd); try done. simpl in *.
  destruct Hok as (? & v & ? & [?|(? & ? & Hpv & ?)]); split; try done; exists v; (split; [done|]); [by left|right].
  rewrite moved_ne by congruence. do 3 (split; [done|]).
  rewrite <- elem_of_dom, gain_dom, elem_of_dom, gain_others; congruence.
Qed.

Lemma gain_place v : place_ok m' (<[c := cc']> C) v (pl' v).
Proof.
  destruct gain_previous as (Hpu & _).
  destruct (decide (v = u)) as [->|Hvu]; [by rewrite moved_eq|]. rewrite moved_ne by done.
  pose proof (i_place _ _ _ _ _ _ _ I v) as Hv. destruct (pl v) as [|d|d] eqn:Hpv; try done; simpl in *.
  + destruct Hv as (dd & Hd & He). destruct (decide (c = d)) as [->|].
    * exists cc'. rewrite lookup_insert_eq. split; [done|]. rewrite Hc in Hd. injection Hd as <-. by rewrite Hcc'.
    * exists dd. by rewrite lookup_insert_ne.
  + destruct Hv as (dd & vc & y & Hd & ? & Hm & Hv). destruct (decide (c = d)) as [->|].
    { rewrite Hc in Hd. injection Hd as <-. rewrite Ht in Hm. injection Hm as <-. congruence. }
    exists dd, vc, y. rewrite lookup_insert_ne by done. do 2 (split; [done|]).
    rewrite lookup_insert_ne, gain_others; [done| |].
    * intros He. rewrite He in *. apply (i_core _ _ _ _ _ _ _ I) in Hd as [? _]. congruence.
    * intros He. by apply (core_inj _ _ _ _ _ _ _ c d cc dd I) in He.
Qed.

Lemma gain_normals : A' = u32 (normals m') /\ forall d, is_Some (m' !! IdleThread d) <-> is_Some (m !! IdleThread d).
Proof.
  destruct gain_previous as [_ [_ _ _ U4 _]]. split.
  - erewrite normals_insert by (by rewrite gain_others). destruct Hmp as [(_ & -> & ->)|(He & -> & ->)].
    { erewrite normals_insert by done. by eapply i_active. }
    rewrite normals_delete by (destruct u; eauto; destruct U4 as (_ & [?|?] & _); congruence).
    rewrite (i_active _ _ _ _ _ _ _ I). apply (wrap_add_l 32 _ (-1)). lia.
  - intros d. rewrite <- (elem_of_dom m'), gain_dom, elem_of_dom.
    destruct (decide (IdleThread d = u)) as [<-|]; [|by rewrite gain_others].
    destruct Hmp as [(_ & -> & _)|(He & _ & _)]; [rewrite lookup_insert_eq, Hu; split; by eauto|].
    destruct U4 as (_ & [?|?] & _); congruence.
Qed.

Lemma sinv_gain : sinv m' h' (<[c := cc']> C) A' q' tl pl'.
Proof.
  destruct gain_normals as [HA Hidle].
  split; [by rewrite gain_dom|exact gain_sorted|exact gain_thread|exact gain_core|exact gain_place| |done].
  intros d. rewrite Hidle, (i_idle _ _ _ _ _ _ _ I d), <- !elem_of_dom. by rewrite dom_insert_lookup_L by eauto.
Qed.
End gain_step.

Section operations_ok.
Context {B : Type} `{BiosLaws B}.
Implicit Types (m : gmap tid TCB) (h : sheap) (C : gmap nat CCB) (A : Z) (q tl : list tid)
  (pl : tid -> place) (b : B) (t u : tid) (tc : TCB) (c : nat).

Lemma set_wakeup_id w tc : wakeup_time tc = w -> set_wakeup w tc = tc.
Proof. destruct tc; simpl. by intros ->. Qed.

Lemma ready_eq m t tc : m !! t = Some tc ->
  <[t := set_state READY (set_wakeup NO_TIMEOUT tc)]> m = <[t := ready tc]> m.
Proof. done. Qed.

Lemma sinv_NoDup m h C A q tl pl : sinv m h C A q tl pl -> NoDup q /\ NoDup tl.
Proof. intros I. eapply lists_NoDup, i_lists, I. Qed.

(** The first half of [sched_make_ready]: the thread leaves the timeout list, if it is there. *)
Lemma off_timeout_list_ok m h C A q tl pl t tc C' M b :
  sinv m h C A q tl pl -> m !! t = Some tc ->
  exists h1, (if decide (wakeup_time tc ≠ NO_TIMEOUT) then
          nd ← deref (rl (mkSched m h C' A M b) !! sched_node t);
          _ ← c_assert (bool_decide (next nd ≠ sched_node t /\ state tc = STOPPED));
          '(_, h) ← rlist_remove (sched_node t) (rl (mkSched m h C' A M b));
          upd_tcb t (set_wakeup NO_TIMEOUT) (with_rl h (mkSched m h C' A M b))
        else Ret (mkSched m h C' A M b))
     = Ret (mkSched (<[t := set_wakeup NO_TIMEOUT tc]> m) h1 C' A M b) /\
     lists h1 (dom m) q (filter (fun u => u <> t) tl).
Proof.
  intros I Ht. pose proof (i_lists _ _ _ _ _ _ _ I) as HL. destruct (i_thread _ _ _ _ _ _ _ I _ _ Ht) as [T1 T2 _ _ _].
  case_decide as Hw.
  - apply T1 in Hw as Hin. apply list_elem_of_split in Hin as (k & r & ->).
    assert (NoDup (k ++ t :: r)) as Hnd by (eapply lists_NoDup, HL).
    destruct (rlist_at h TIMEOUT_LIST (fmap (M:=list) sched_node k) (sched_node t)
      (fmap (M:=list) sched_node r)) as (Hne & nd & Hnd' & Hnext).
    { pose proof (l_timeout _ _ _ _ HL) as L. by rewrite fmap_app in L. }
    destruct (lists_remove _ _ _ _ _ _ HL) as (h1 & E & HL1). exists h1.
    rewrite filter_remove by done. simpl. rewrite Hnd'. simpl. rewrite bool_decide_true.
    2: { split; [|by apply T2]. rewrite Hnext. destruct r as [|x r]; [done|]. simpl. intros [= ->].
         apply NoDup_app in Hnd as (_ & _ & [Hnd _]%NoDup_cons). apply Hnd. by left. }
    cbn [c_assert mbind outcome_bind]. rewrite E. unfold upd_tcb. simpl. by rewrite Ht.
  - exists h. rewrite set_wakeup_id, insert_id by done. split; [done|].
    rewrite filter_all; [done|]. intros u Hu ->. by apply T1 in Hu.
Qed.

(** A thread that is not running is off the cores exactly if its context is saved. *)
Lemma off_core_clean m h C A q tl pl t tc :
  sinv m h C A q tl pl -> m !! t = Some tc -> state tc = STOPPED \/ state tc = INIT ->
  pl t = Elsewhere <-> phase tc = CTX_CLEAN.
Proof.
  intros I Ht Hst. destruct (i_thread _ _ _ _ _ _ _ I _ _ Ht) as [_ _ _ _ T5].
  destruct (pl t) as [|c|c] eqn:Hp; split; try done; try tauto.
  - intros Hc. pose proof (i_place _ _ _ _ _ _ _ I t) as Hpl. rewrite Hp in Hpl.
    destruct Hpl as (cc & HC & <-). destruct (i_core _ _ _ _ _ _ _ I _ _ HC) as (_ & tc' & Hm & Hok).
    rewrite Hm in Ht. injection Ht as ->. clear -Hst Hok Hc HC Hp. destruct (pc cc); simpl in Hok.
    + destruct Hok as [Hs _], Hst; congruence.
    + destruct Hok; congruence.
    + destruct Hok as [Hs _], Hst; congruence.
  - intros Hc. destruct T5 as [? _]. congruence.
Qed.

(** The invariant, once the thread is ready, off the timeout list, and in the queue if its context is saved. *)
Lemma sinv_ready m h h' C A q q' tl pl t tc :
  sinv m h C A q tl pl -> m !! t = Some tc -> state tc = STOPPED \/ state tc = INIT ->
  lists h' (dom m) q' (filter (fun u => u <> t) tl) -> (forall u, u <> t -> (u ∈ q' <-> u ∈ q)) ->
  (t ∈ q' <-> phase tc = CTX_CLEAN /\ type tc = NORMAL_THREAD) ->
  sinv (<[t := ready tc]> m) h' C A q' (filter (fun u => u <> t) tl) pl.
Proof.
  intros I Ht Hst Hl Hq' Htq. pose proof (off_core_clean _ _ _ _ _ _ _ _ _ I Ht Hst) as Hplace.
  pose proof (i_thread _ _ _ _ _ _ _ I _ _ Ht) as Htc. pose proof Htc as [T1 T2 T3 T4 T5].
  assert (t ∈ dom m) as Hd by (by eapply elem_of_dom_2).
  assert (t ∉ filter (fun u => u <> t) tl) as Hnt by (by intros [? _]%list_elem_of_filter).
  eapply sinv_upd; try done.
  - eapply StronglySorted_ext; [|apply StronglySorted_filter, I]. intros x y Hx Hy.
    apply list_elem_of_filter in Hx as [? _], Hy as [? _]. unfold due_before.
    by rewrite !wt_insert, !decide_False by done.
  - intros u Hu. split; [by apply Hq'|]. rewrite list_elem_of_filter. tauto.
  - split; simpl; [by split|done|rewrite Hplace; tauto| |].
    + destruct t; [|done]. naive_solver.
    + destruct (pl t); [|done|]; naive_solver.
  - intros c [| |] Hp; simpl; [|naive_solver..].
    intros [Hs _]. destruct Hst; congruence.
Qed.

(** [sched_make_ready]: the thread leaves the timeout list, if it is there, and joins the queue if
  its context is saved. *)
Lemma make_ready_ok m h C A q tl pl t tc C' M b :
  sinv m h C A q tl pl -> m !! t = Some tc -> state tc = STOPPED \/ state tc = INIT ->
  exists h',
    sched_make_ready t (mkSched m h C' A M b) =
      Ret (mkSched (<[t := ready tc]> m) h' C' A M (if clean m t then cpu_core_restart_one b else b)) /\
    sinv (<[t := ready tc]> m) h' C A (q ++ if clean m t then [t] else [])
      (filter (fun u => u <> t) tl) pl.
Proof.
  intros I Ht Hst. pose proof (i_thread _ _ _ _ _ _ _ I _ _ Ht) as [T1 T2 T3 T4 T5].
  assert (t ∉ q) as Hq. { rewrite T3. intros (_ & ? & _). destruct Hst; congruence. }
  assert (t ∈ dom m) as Hd by (by eapply elem_of_dom_2).
  destruct (off_timeout_list_ok m h C A q tl pl t tc C' M b I Ht) as (h1 & E1 & HL1).
  unfold sched_make_ready. cbn [tcbs]. rewrite Ht. cbn [deref]. rewrite ret_bind.
  rewrite c_assert_True, ret_bind by done. rewrite (bind_eq _ _ _ E1).
  unfold upd_tcb at 1. cbn [tcbs]. rewrite lookup_insert_eq. cbn [deref]. rewrite !ret_bind.
  unfold with_tcbs. cbn [tcbs rl cctx active_threads mutexes machine].
  rewrite insert_insert_eq. rewrite (ready_eq _ _ _ Ht).
  assert (clean m t = bool_decide (phase tc = CTX_CLEAN)) as -> by (unfold clean; by rewrite Ht).
  assert (t ∉ filter (fun u => u <> t) tl) as Hnt by (by intros [? _]%list_elem_of_filter).
  destruct (decide (phase tc = CTX_CLEAN)) as [Hc|Hc].
  - rewrite bool_decide_true by done. unfold sched_queue_add. cbn [rl].
    destruct (lists_push _ _ _ _ t HL1) as (h2 & -> & HL2); [done..|].
    exists h2. split; [done|]. eapply sinv_ready; [exact I|done|done|done| |].
    + intros u Hu. rewrite elem_of_app, list_elem_of_singleton. tauto.
    + rewrite elem_of_app, list_elem_of_singleton. split; [|by right]. intros _. split; [done|].
      destruct t; [|done]. destruct T4 as (_ & [?|?] & _); destruct Hst; congruence.
  - rewrite bool_decide_false, app_nil_r by done. exists h1. split; [done|]. eapply sinv_ready; [exact I|done..|].
    split; [done|]. tauto.
Qed.

Lemma earlier_later_ext m m' w l :
  (forall u, u ∈ l -> wt m' u = wt m u) -> earlier m' w l = earlier m w l /\ later m' w l = later m w l.
Proof.
  induction l as [|u l IH]; intros Hw; [done|]. simpl. rewrite Hw by (by left).
  destruct IH as [-> ->]; [intros v Hv; apply Hw; by right|]. done.
Qed.

Lemma clean_ready m t tc u : m !! t = Some tc -> clean (<[t := ready tc]> m) u = clean m u.
Proof.
  intros Ht. unfold clean. destruct (decide (u = t)) as [->|].
  - by rewrite lookup_insert_eq, Ht.
  - by rewrite lookup_insert_ne.
Qed.

Lemma sinv_timeout_lookup m h C A q tl pl t :
  sinv m h C A q tl pl -> t ∈ tl -> exists tc, m !! t = Some tc /\ state tc = STOPPED.
Proof.
  intros I Ht. pose proof (l_timeout_in _ _ _ _ (i_lists _ _ _ _ _ _ _ I) _ Ht) as [tc Hm]%elem_of_dom.
  exists tc. split; [done|]. pose proof (i_thread _ _ _ _ _ _ _ I _ _ Hm) as [T1 T2 _ _ _]. by apply T2, T1.
Qed.

(** The wake-up loop: it ends; exactly the sleepers that are due have left the timeout list, in the
  order of the list, and those whose context is saved are at the end of the queue. *)
Lemma wake_expired_ok fuel cur m h C A q tl pl C' M b :
  sinv m h C A q tl pl -> length tl < fuel ->
  exists h' b',
    wake_expired fuel cur (mkSched m h C' A M b) =
      Ret (mkSched (wake_all m (earlier m cur tl)) h' C' A M b') /\
    bios_clock b' = bios_clock b /\
    sinv (wake_all m (earlier m cur tl)) h' C A
      (q ++ filter (fun u => clean m u = true) (earlier m cur tl)) (later m cur tl) pl.
Proof.
  revert m h q tl b. induction fuel as [|fuel IH]; intros m h q tl b I Hf; [lia|]. simpl.
  pose proof (i_lists _ _ _ _ _ _ _ I) as HL. pose proof (l_timeout _ _ _ _ HL) as Lt.
  rewrite (is_rlist_empty_spec _ _ _ Lt). destruct tl as [|t tl]; simpl.
  { exists h, b. by rewrite app_nil_r. }
  destruct (rlist_next _ _ _ Lt) as (nt & Ent & Hnt). rewrite Ent. simpl in *. rewrite Hnt.
  destruct (sinv_timeout_lookup _ _ _ _ _ _ _ t I) as (tc & Ht & Hst); [by left|].
  destruct (lists_node _ _ _ _ t HL) as (nd & En & Hobj); [by eapply elem_of_dom_2|].
  rewrite En. simpl. rewrite Hobj. simpl. rewrite Ht. simpl. 
  assert (wt m t = wakeup_time tc) as -> by (unfold wt; by rewrite Ht).
  destruct (cur <? wakeup_time tc)%Z eqn:Hc.
  { exists h, b. by rewrite app_nil_r. }
  destruct (make_ready_ok _ _ _ _ _ _ _ t tc C' M b I Ht) as (h1 & -> & I1); [by left|].
  rewrite filter_cons_False in I1 by tauto.
  pose proof (sinv_NoDup _ _ _ _ _ _ _ I) as [_ [Hn _]%NoDup_cons].
  rewrite filter_all in I1 by (intros x Hx ->; done).
  destruct (earlier_later_ext m (<[t := ready tc]> m) cur tl) as [He Hl].
  { intros u Hu. rewrite wt_insert, decide_False; congruence. }
  edestruct (IH _ _ _ _ (if clean m t then cpu_core_restart_one b else b) I1) as (h' & b' & E & Hcl & I'); [lia|].
  rewrite ret_bind, E. rewrite He, Hl in *.
  assert (forall l, wake_all m (t :: l) = wake_all (<[t := ready tc]> m) l) as Hwa.
  { intros l. unfold wake_all. simpl. f_equal. apply map_eq. intros u. destruct (decide (u = t)) as [->|].
    - by rewrite lookup_alter_eq, lookup_insert_eq, Ht.
    - by rewrite lookup_alter_ne, lookup_insert_ne. }
  rewrite Hwa. exists h', b'. split; [done|]. split.
  { rewrite Hcl. destruct (clean m t); [apply clock_restart_one|done]. }
  rewrite filter_cons. rewrite (list_filter_iff _ (fun u => clean m u = true)) in I'
    by (intros u; by rewrite clean_ready).
  destruct (clean m t); [rewrite decide_True by done|rewrite decide_False by done];
    by rewrite <- app_assoc in I'.
Qed.

Lemma earlier_later m w tl : tl = earlier m w tl ++ later m w tl.
Proof. induction tl as [|t tl IH]; [done|]. simpl. case_match; [done|]. simpl. by f_equal. Qed.

Lemma earlier_due m w tl t : t ∈ earlier m w tl -> (wt m t <= w)%Z.
Proof.
  induction tl as [|u tl IH]; simpl; [by intros ?%not_elem_of_nil|].
  destruct (w <? wt m u)%Z eqn:E; [by intros ?%not_elem_of_nil|].
  intros [->|?]%elem_of_cons; [lia|auto].
Qed.

Lemma later_due m w tl t : StronglySorted (due_before m) tl -> t ∈ later m w tl -> (w < wt m t)%Z.
Proof.
  induction 1 as [|u tl Hs IH Hu]; simpl; [by intros ?%not_elem_of_nil|].
  destruct (w <? wt m u)%Z eqn:E; [|done]. intros [->|Ht]%elem_of_cons; [lia|].
  eapply Forall_forall in Hu; [|done]. unfold due_before in Hu. lia.
Qed.

Lemma sorted_insert m w tl t :
  StronglySorted (due_before m) tl -> wt m t = w ->
  StronglySorted (due_before m) (earlier m w tl ++ t :: later m w tl).
Proof.
  intros Hs Hw. induction Hs as [|u tl Hs IH Hu]; simpl; [repeat constructor|].
  destruct (w <? wt m u)%Z eqn:E; simpl.
  - constructor; [by constructor|]. constructor; [unfold due_before; lia|].
    eapply Forall_impl; [exact Hu|]. simpl. unfold due_before. lia.
  - constructor; [done|]. apply Forall_forall. intros x Hx.
    rewrite elem_of_app, elem_of_cons in Hx. destruct Hx as [Hx|[->|Hx]].
    + eapply Forall_forall in Hu; [done|]. rewrite (earlier_later m w tl). list_mem.
    + unfold due_before. lia.
    + eapply Forall_forall in Hu; [done|]. rewrite (earlier_later m w tl). list_mem.
Qed.

Lemma find_later_ok fuel w m h D q k r C' A M b :
  lists h D q (k ++ r) -> (forall t, t ∈ r -> is_Some (m !! t)) -> length r < fuel ->
  find_later fuel w (hd_or TIMEOUT_LIST (fmap (M:=list) sched_node r)) (mkSched m h C' A M b) =
    Ret (hd_or TIMEOUT_LIST (fmap (M:=list) sched_node (later m w r))).
Proof.
  revert k r. induction fuel as [|fuel IH]; intros k r HL Hr Hf; [lia|]. destruct r as [|t r]; [done|].
  cbn [find_later fmap list_fmap hd_or]. rewrite decide_False by done.
  destruct (lists_node _ _ _ _ t HL) as (nd & En & Hobj); [eapply l_timeout_in; [done|list_mem]|].
  destruct (Hr t) as [tc Ht]; [by left|]. simpl. rewrite En. simpl. rewrite Hobj. simpl. rewrite Ht. simpl.
  assert (wt m t = wakeup_time tc) as -> by (unfold wt; by rewrite Ht).
  destruct (w <? wakeup_time tc)%Z; [done|].
  pose proof (l_timeout _ _ _ _ HL) as Lt. rewrite fmap_app in Lt. simpl in Lt.
  apply rlist_at in Lt as (_ & nd' & En' & Hn). rewrite En in En'. injection En' as <-. rewrite Hn.
  apply (IH (k ++ [t])); [by rewrite <- app_assoc|intros u Hu; apply Hr; by right|simpl in Hf; lia].
Qed.

(** [sched_register_timeout] of a thread that is on neither list: it is inserted by its wakeup time,
  after the sleepers that are due at the same time. *)
Lemma register_timeout_ok m h q tl t tc timeout C' A M b :
  lists h (dom m) q tl -> m !! t = Some tc -> t ∉ q -> t ∉ tl -> timeout <> NO_TIMEOUT ->
  let w := u64 (bios_clock b + timeout) in
  exists h', sched_register_timeout t timeout (mkSched m h C' A M b) =
      Ret (mkSched (<[t := set_wakeup w tc]> m) h' C' A M b) /\
    lists h' (dom m) q (earlier m w tl ++ t :: later m w tl).
Proof.
  intros HL Ht Hq Htl Hto w. unfold sched_register_timeout. rewrite decide_False by done.
  cbn [machine]. fold w. unfold upd_tcb. cbn [tcbs]. rewrite Ht. cbn [deref]. rewrite !ret_bind.
  unfold with_tcbs. cbn [tcbs rl cctx active_threads mutexes machine].
  pose proof (l_timeout _ _ _ _ HL) as Lt. destruct (rlist_next _ _ _ Lt) as (nt & -> & Hnt).
  cbn [deref]. rewrite ret_bind, Hnt.
  set (m' := <[t := set_wakeup w tc]> m).
  destruct (earlier_later_ext m m' w tl) as [He Hlt].
  { intros u Hu. unfold m'. rewrite wt_insert, decide_False; congruence. }
  rewrite (find_later_ok _ w m' h (dom m) q [] tl), ret_bind; [|done| |].
  2: { intros u Hu. apply elem_of_dom. unfold m'. rewrite dom_insert_lookup_L by eauto.
       by eapply l_timeout_in. }
  2: { apply rlist_fuel in Lt. by rewrite length_fmap in Lt. }
  rewrite Hlt. rewrite (earlier_later m w tl) in HL at 1.
  destruct (lists_insert _ _ _ _ _ t HL) as (h' & E & HL').
  { by eapply elem_of_dom_2. } { done. } { by rewrite <- earlier_later. }
  unfold rlist_push_back in E. apply bind_Ret in E as (nn & -> & E). rewrite ret_bind.
  apply bind_Ret in E as ([x h1] & -> & E). injection E as ->. rewrite ret_bind.
  by exists h'.
Qed.

(** ** What each operation does to a well-formed state *)

Lemma sinv_preempt m h C A q tl pl c cc p :
  sinv m h C A q tl pl -> C !! c = Some cc ->
  sinv m h (<[c := mkCCB (current_thread cc) p (pc cc)]> C) A q tl pl.
Proof.
  intros [I1 I2 I3 I4 I5 I6 I7] Hc. split; try done.
  - intros d dd Hd. map_cases; [|by apply I4]. by apply (I4 c cc).
  - intros t. specialize (I5 t). destruct (pl t) as [|d|d]; try done; simpl in *;
      (destruct (decide (c = d)) as [<-|]; [|by setoid_rewrite lookup_insert_ne]).
    + destruct I5 as (dd & Hd & <-). rewrite Hc in Hd. injection Hd as <-. eexists. by rewrite lookup_insert_eq.
    + destruct I5 as (dd & tc & x & Hd & ? & ? & ?). rewrite Hc in Hd. injection Hd as <-. eexists _, tc, x. by rewrite lookup_insert_eq.
  - intros d. by rewrite <- (elem_of_dom (<[c := _]> C)), dom_insert_lookup_L, elem_of_dom by eauto.
Qed.

Lemma set_core_preemption_eq m h C A M b c cc p :
  C !! c = Some cc ->
  set_core_preemption c p (mkSched m h C A M b) =
    Ret (preemption cc, mkSched m h (<[c := mkCCB (current_thread cc) p (pc cc)]> C) A M
      (if p then cpu_enable_interrupts c b else cpu_disable_interrupts c b)).
Proof. intros Hc. unfold set_core_preemption. cbn [cctx]. by rewrite Hc. Qed.

Lemma upd_tcb_eq m h C A M b t f tc :
  m !! t = Some tc -> upd_tcb t f (mkSched m h C A M b) = Ret (mkSched (<[t := f tc]> m) h C A M b).
Proof. intros Ht. unfold upd_tcb. cbn [tcbs]. by rewrite Ht. Qed.

Lemma upd_ccb_eq m h C A M b c f cc :
  C !! c = Some cc -> upd_ccb c f (mkSched m h C A M b) = Ret (mkSched m h (<[c := f cc]> C) A M b).
Proof. intros Hc. unfold upd_ccb. cbn [cctx]. by rewrite Hc. Qed.

Lemma preempt_id C c cc : C !! c = Some cc ->
  <[c := mkCCB (current_thread cc) (preemption cc) (pc cc)]> C = C.
Proof. intros Hc. apply insert_id. by destruct cc. Qed.

(** The calls [preempt_off] and, when it answered true, [preempt_on]. *)
Lemma preempt_section C c :
  exists old C1, (forall m h A M b, set_core_preemption c false (mkSched m h C A M b) =
      Ret (old, mkSched m h C1 A M (cpu_disable_interrupts c b))) /\
    forall m h A M b, exists b', (if old then '(_, st) ← set_core_preemption c true (mkSched m h C1 A M b); Ret st
      else Ret (mkSched m h C1 A M b)) = Ret (mkSched m h C A M b') /\ bios_clock b' = bios_clock b.
Proof.
  destruct (C !! c) as [cc|] eqn:Hc.
  - exists (preemption cc), (<[c := mkCCB (current_thread cc) false (pc cc)]> C).
    split; [intros; by apply set_core_preemption_eq|]. intros m h A M b.
    pose proof (preempt_id _ _ _ Hc) as Hid. destruct (preemption cc).
    + erewrite set_core_preemption_eq by apply lookup_insert_eq. rewrite ret_bind, insert_insert_eq.
      simpl. rewrite Hid. eexists. split; [done|apply clock_enable].
    + rewrite Hid. by exists b.
  - exists false, C. split.
    + intros. unfold set_core_preemption. cbn [cctx]. by rewrite Hc.
    + intros m h A M b. by exists b.
Qed.

(** [wakeup]. *)
Lemma wakeup_ok m h C A q tl pl c t tc M b :
  sinv m h C A q tl pl -> m !! t = Some tc ->
  exists h' b',
    wakeup c t (mkSched m h C A M b) =
      Ret (sleeping tc, mkSched (if sleeping tc then <[t := ready tc]> m else m) h' C A M b') /\
    bios_clock b' = bios_clock b /\
    sinv (if sleeping tc then <[t := ready tc]> m else m) h' C A
      (q ++ if sleeping tc && clean m t then [t] else [])
      (if sleeping tc then filter (fun u => u <> t) tl else tl) pl.
Proof.
  intros I Ht. unfold wakeup. destruct (preempt_section C c) as (old & C1 & Hoff & Hend).
  rewrite Hoff, ret_bind. cbn [tcbs]. rewrite Ht. cbn [deref]. rewrite ret_bind.
  unfold sleeping. destruct (decide (state tc = STOPPED \/ state tc = INIT)) as [Hs|Hs].
  - rewrite bool_decide_true by done.
    destruct (make_ready_ok _ _ _ _ _ _ _ t tc C1 M (cpu_disable_interrupts c b) I Ht Hs) as (h' & -> & I').
    rewrite !ret_bind. destruct (Hend (<[t := ready tc]> m) h' A M
      (if clean m t then cpu_core_restart_one (cpu_disable_interrupts c b) else cpu_disable_interrupts c b))
      as (b2 & -> & Hb2).
    exists h', b2. split; [done|]. split; [|done]. rewrite Hb2.
    destruct (clean m t); rewrite ?clock_restart_one; apply clock_disable.
  - rewrite bool_decide_false by done. rewrite !ret_bind.
    destruct (Hend m h A M (cpu_disable_interrupts c b)) as (b2 & -> & Hb2).
    exists h, b2. split; [done|]. split; [by rewrite Hb2, clock_disable|]. by rewrite app_nil_r.
Qed.

Lemma insert_mid m t tc' tl : t ∉ tl -> (forall u, u ∈ tl -> wt (<[t := tc']> m) u = wt m u).
Proof. intros Hn u Hu. rewrite wt_insert, decide_False; congruence. Qed.

Lemma sleep_list_sorted m w t tc' tl :
  StronglySorted (due_before m) tl -> t ∉ tl -> (forall w', w = Some w' -> wakeup_time tc' = w') ->
  StronglySorted (due_before (<[t := tc']> m)) (sleep_list m w t tl).
Proof.
  intros Hs Hn Hw. pose proof (insert_mid m t tc' tl Hn) as Hwt.
  assert (StronglySorted (due_before (<[t := tc']> m)) tl) as Hs'.
  { eapply StronglySorted_ext; [|done]. intros x y Hx Hy. unfold due_before. by rewrite !Hwt. }
  destruct w as [w|]; [|done]. simpl. destruct (earlier_later_ext m (<[t := tc']> m) w tl) as [<- <-]; [done|].
  apply sorted_insert; [done|]. rewrite wt_insert, decide_True by done. by apply Hw.
Qed.

(** The facts about the current thread of a core that runs. *)
Lemma running_ok m h C A q tl pl c cc :
  sinv m h C A q tl pl -> C !! c = Some cc -> pc cc = PcRun ->
  exists tc, m !! current_thread cc = Some tc /\ state tc = RUNNING /\ phase tc = CTX_DIRTY /\
    wakeup_time tc = NO_TIMEOUT /\ (current_thread cc ∉ q) /\ (current_thread cc ∉ tl) /\
    pl (current_thread cc) = OnCore c /\ (is_normal (current_thread cc) = true -> type tc = NORMAL_THREAD).
Proof.
  intros I Hc Hpc. destruct (i_core _ _ _ _ _ _ _ I _ _ Hc) as (Hp & tc & Ht & Hok).
  rewrite Hpc in Hok. destruct Hok as [Hs Hph].
  destruct (i_thread _ _ _ _ _ _ _ I _ _ Ht) as [T1 T2 T3 T4 T5].
  assert (wakeup_time tc = NO_TIMEOUT) as Hw.
  { destruct (decide (wakeup_time tc = NO_TIMEOUT)) as [?|Hw]; [done|]. apply T2 in Hw. congruence. }
  exists tc. do 4 (split; [done|]). split; [|split; [|split; [done|]]].
  - rewrite T3, Hp. by intros [? _].
  - intros Hin. by apply T1 in Hin.
  - clear -T4. by destruct (current_thread cc).
Qed.

(** [sleep_releasing], up to its call of [yield]. *)
Lemma sleep_releasing_ok m h C A q tl pl c cc newstate mx cause timeout M b :
  sinv m h C A q tl pl -> C !! c = Some cc -> pc cc = PcRun ->
  is_normal (current_thread cc) = true -> newstate = STOPPED \/ newstate = EXITED ->
  sleep_time b newstate timeout <> Some NO_TIMEOUT ->
  let t := current_thread cc in let w := sleep_time b newstate timeout in
  let C' := <[c := mkCCB t false (PcYield (preemption cc))]> C in
  exists tc h' b',
    m !! t = Some tc /\
    sleep_releasing c newstate mx cause timeout (mkSched m h C A M b) =
      Ret (mkSched (<[t := asleep newstate w tc]> m) h' C' A
        (match mx with Some x => M ∖ {[x]} | None => M end) b') /\
    bios_clock b' = bios_clock b /\
    sinv (<[t := asleep newstate w tc]> m) h' C' A q (sleep_list m w t tl) pl.
Proof.
  intros I Hc Hpc Hn Hns Hto t w C'.
  destruct (running_ok _ _ _ _ _ _ _ _ _ I Hc Hpc) as (tc & Ht & Hs & Hph & Hw & Hq & Htl & Hp & Hty).
  fold t in Ht, Hn, Hq, Htl, Hp, Hty. specialize (Hty Hn).
  set (C1 := <[c := mkCCB t false (pc cc)]> C). set (b1 := cpu_disable_interrupts c b).
  set (m0 := <[t := set_state newstate tc]> m).
  assert (dom m0 = dom m) as Hdom by (by apply dom_insert_lookup_L; eauto).
  assert (exists h', (if decide (newstate ≠ EXITED) then sched_register_timeout t timeout (mkSched m0 h C1 A M b1)
      else Ret (mkSched m0 h C1 A M b1)) = Ret (mkSched (<[t := asleep newstate w tc]> m) h' C1 A M b1) /\
    lists h' (dom m) q (sleep_list m w t tl)) as (h' & E & HL).
  { pose proof (i_lists _ _ _ _ _ _ _ I) as HL. unfold w, sleep_time.
    destruct (decide (newstate = EXITED \/ timeout = NO_TIMEOUT)) as [[->| ->]|Hd]; simpl.
    - by exists h.
    - exists h. split; [|done]. case_decide; [|done]. by unfold sched_register_timeout.
    - rewrite decide_True by tauto.
      destruct (register_timeout_ok m0 h q tl t (set_state newstate tc) timeout C1 A M b1) as (h' & E & HL');
        [by rewrite Hdom|apply lookup_insert_eq|done|done|tauto|].
      unfold b1 in E at 2, HL'. rewrite clock_disable in E, HL'.
      unfold m0 in E at 2. rewrite insert_insert_eq in E. rewrite Hdom in HL'.
      destruct (earlier_later_ext m m0 (u64 (bios_clock b + timeout)) tl) as [He Hl];
        [by apply insert_mid|]. rewrite He, Hl in HL'. by exists h'. }
  exists tc, h', b1. split; [done|]. split; [|split; [apply clock_disable|]].
  - unfold sleep_releasing. rewrite c_assert_True, ret_bind by done.
    unfold CURTHREAD. cbn [cctx]. rewrite Hc. cbn [deref]. rewrite !ret_bind.
    rewrite (set_core_preemption_eq _ _ _ _ _ _ _ cc), ret_bind by done. fold t C1 b1.
    unfold upd_tcb. cbn [tcbs]. rewrite Ht. cbn [deref]. rewrite !ret_bind. unfold with_tcbs.
    cbn [tcbs rl cctx active_threads mutexes machine]. fold m0. rewrite (bind_eq _ _ _ E).
    unfold upd_ccb, with_cctx, with_mutexes. destruct mx; cbn [tcbs rl cctx active_threads mutexes machine];
      unfold C1; rewrite lookup_insert_eq; cbn [deref]; by rewrite ret_bind, insert_insert_eq.
  - eapply sinv_current; try done; fold t.
    + eapply not_leaving; [done..|congruence].
    + eapply sleep_list_sorted; [apply I|done|]. intros w' Hw'. unfold asleep. by rewrite Hw'.
    + intros u Hu. split; [done|]. unfold sleep_list. destruct w as [w'|]; [|done].
      rewrite (earlier_later m w' tl) at 3. clear -Hu. list_mem.
    + split; simpl.
      * unfold sleep_list, asleep, w in *. destruct (sleep_time b newstate timeout); simpl; [|by rewrite Hw].
        split; [congruence|intros _; list_mem].
      * unfold asleep, w, sleep_time in *. case_decide as Hd; simpl; [by rewrite Hw|]. tauto.
      * split; [done|intros [? _]; done].
      * clear -Hn Hty. destruct t; [done|]. unfold asleep. by destruct w.
      * done.
    + simpl. unfold asleep. destruct w; simpl; tauto.
Qed.

Lemma ready_idem tc : ready (ready tc) = ready tc.
Proof. by destruct tc. Qed.

Lemma lookup_wake_all m l u : wake_all m l !! u = if decide (u ∈ l) then ready <$> m !! u else m !! u.
Proof.
  unfold wake_all. revert m. induction l as [|t l IH]; intros m; cbn [foldl].
  { by rewrite decide_False by apply not_elem_of_nil. }
  rewrite IH. destruct (decide (u = t)) as [->|Hne].
  - rewrite lookup_alter_eq, (decide_True (P := t ∈ t :: l)) by (by left). case_decide; [|done].
    rewrite <- option_fmap_compose. destruct (m !! t); simpl; [by rewrite ready_idem|done].
  - rewrite lookup_alter_ne by done.
    rewrite (decide_ext (u ∈ t :: l) (u ∈ l)); [done|]. rewrite elem_of_cons. tauto.
Qed.

(** [sched_queue_select]: it answers the head of the queue, after the sleepers that are due. *)
Lemma queue_select_ok m h C A q tl pl C' M b :
  sinv m h C A q tl pl ->
  let now := bios_clock b in
  exists h' h1 b',
    sched_queue_select (mkSched m h C' A M b) =
      Ret (head (queue_at m now q tl), mkSched (wake_all m (earlier m now tl)) h' C' A M b') /\
    bios_clock b' = now /\
    sinv (wake_all m (earlier m now tl)) h1 C A (queue_at m now q tl) (later m now tl) pl /\
    lists h' (dom (wake_all m (earlier m now tl))) (tail (queue_at m now q tl)) (later m now tl).
Proof.
  intros I now. unfold sched_queue_select. cbn [machine rl]. fold now.
  destruct (wake_expired_ok (S (size h)) now m h C A q tl pl C' M b I) as (h1 & b1 & -> & Hb & I1).
  { pose proof (l_timeout _ _ _ _ (i_lists _ _ _ _ _ _ _ I)) as Lt%rlist_fuel. by rewrite length_fmap in Lt. }
  rewrite ret_bind. fold (queue_at m now q tl) in I1. cbn [rl].
  pose proof (i_lists _ _ _ _ _ _ _ I1) as HL. destruct (lists_pop _ _ _ _ HL) as (h2 & -> & HL2).
  rewrite ret_bind. exists h2, h1, b1. split; [|done].
  destruct (queue_at m now q tl) as [|n q1] eqn:Eq; simpl.
  - pose proof (l_null _ _ _ _ HL2) as Hn. unfold obj_of in Hn.
    destruct (h2 !! SCHED) as [nd|]; [|done]. simpl in *. by injection Hn as ->.
  - destruct (lists_node _ _ _ _ n HL2) as (nd & -> & Hobj); [|by simpl; rewrite Hobj].
    apply (l_queue_in _ _ _ _ HL). by left.
Qed.

Lemma clean_phase m t tc tc' u : m !! t = Some tc -> phase tc' = phase tc ->
  clean (<[t := tc']> m) u = clean m u.
Proof.
  intros Ht Hp. unfold clean. destruct (decide (u = t)) as [->|].
  - by rewrite lookup_insert_eq, Ht, Hp.
  - by rewrite lookup_insert_ne.
Qed.

(** The current thread stops running, and the core is about to switch. *)
Lemma sinv_stop_running m h C A q tl pl c cc tc p o :
  sinv m h C A q tl pl -> C !! c = Some cc -> (forall x, pc cc <> PcGain x) ->
  m !! current_thread cc = Some tc ->
  sinv (<[current_thread cc := stop_running tc]> m) h
    (<[c := mkCCB (current_thread cc) p (PcYield o)]> C) A q tl pl /\
  (state tc = RUNNING \/ state tc = READY \/ state tc = STOPPED \/ state tc = EXITED).
Proof.
  intros I Hc Hpc Ht. destruct (i_core _ _ _ _ _ _ _ I _ _ Hc) as (Hp & tc' & Ht' & Hok).
  rewrite Ht in Ht'. injection Ht' as <-.
  destruct (i_thread _ _ _ _ _ _ _ I _ _ Ht) as [T1 T2 T3 T4 T5]. rewrite Hp in *.
  assert (phase tc = CTX_DIRTY /\ (state tc = RUNNING \/ state tc = READY \/ state tc = STOPPED \/ state tc = EXITED))
    as [Hph Hst].
  { clear -Hok Hpc. destruct (pc cc) as [| |x]; simpl in Hok; [tauto|tauto|]. by destruct (Hpc x). }
  assert (state (stop_running tc) = READY \/ state (stop_running tc) = STOPPED \/ state (stop_running tc) = EXITED)
    as Hst' by (unfold stop_running; case_decide; simpl; tauto).
  split; [|done]. eapply sinv_current; try done.
  - by eapply not_leaving.
  - apply I.
  - eapply due_before_insert; [done| |apply I]. unfold stop_running. by case_decide.
  - split; try done.
    + unfold stop_running. by case_decide.
    + unfold stop_running. case_decide as Hr; [|done]. simpl. intros Hw. apply T2 in Hw. congruence.
    + rewrite T3. by split; intros [? _].
    + clear -T4. destruct (current_thread cc); [|unfold stop_running; by case_decide].
      destruct T4 as (? & ? & ?). unfold stop_running. case_decide; simpl; auto.
  - simpl. split; [|done]. unfold stop_running. by case_decide.
Qed.

(** The thread that [yield] picks, when it is not the current one. *)
Lemma pick_other m h C A q tl pl c cc o r :
  sinv m h C A q tl pl -> C !! c = Some cc -> pc cc = PcYield o ->
  let t := current_thread cc in let n := pick c t r q in
  n <> t -> exists tn, m !! n = Some tn /\ pl n = Elsewhere /\ state tn = READY /\
    (n = IdleThread c \/ is_normal n = true) /\ (n ∉ tail q) /\ forall u, u <> n -> (u ∈ tail q <-> u ∈ q).
Proof.
  intros I Hc Hpc t n Hne. pose proof (sinv_NoDup _ _ _ _ _ _ _ I) as [Hnd _].
  pose proof I as [I1 I2 I3 I4 I5 I6 I7]. unfold n, pick in *. destruct q as [|x q].
  - destruct r; [done|]. destruct (I6 c) as [_ Hm]. destruct Hm as [tn Hn]; [eauto|]. exists tn.
    destruct (I3 _ _ Hn) as [_ _ _ (_ & Hs & Hp) N5].
    assert (pl (IdleThread c) = Elsewhere) as Hpl.
    { destruct Hp as [?|[Hp|Hp]]; [done| |].
      - pose proof (I5 (IdleThread c)) as Hpo. rewrite Hp in Hpo. destruct Hpo as (dd & Hd & Hdd).
        rewrite Hc in Hd. injection Hd as <-. done.
      - exfalso. eapply not_leaving; [exact I|exact Hc| |exact Hp]. congruence. }
    rewrite Hpl in N5. do 2 (split; [done|]). split; [destruct Hs as [?|?]; [done|destruct N5 as [_ [?|[?|?]]]; congruence]|].
    split; [by left|]. split; [apply not_elem_of_nil|done].
  - assert (x ∈ x :: q) as Hx by (by left). pose proof (l_queue_in _ _ _ _ I1 _ Hx) as [tn Hn]%elem_of_dom.
    exists tn. destruct (I3 _ _ Hn) as [_ _ T3 T4 _]. pose proof (proj1 T3 Hx) as (? & ? & Hty).
    do 3 (split; [done|]). apply NoDup_cons in Hnd as [Hnd _]. split; [|split; [done|]].
    + right. clear -T4 Hty. destruct x; [|done]. destruct T4 as [? _]. congruence.
    + intros u Hu. simpl. rewrite elem_of_cons. tauto.
Qed.

(** The second half of [yield]: from the selection to the switch. *)
Lemma switch_ok m h1 h2 C A q tl pl c t o p r here M b :
  sinv m h1 (<[c := mkCCB t false (PcYield o)]> C) A q tl pl -> lists h2 (dom m) (tail q) tl ->
  (r = true -> exists tc, m !! t = Some tc /\ state tc = READY) ->
  let n := pick c t r q in
  let C' := <[c := mkCCB n false (PcGain (next_context m t n here))]> C in
  (st ← upd_tcb t (set_next n) (mkSched m h2 (<[c := mkCCB t false p]> C) A M b);
   st ← upd_tcb n (set_prev t) st;
   if decide (t ≠ n) then
     st ← upd_tcb t (set_context here) st; tn ← deref (tcbs st !! n);
     st ← upd_ccb c (set_current n) st; upd_ccb c (set_pc (PcGain (context tn))) st
   else upd_ccb c (set_pc (PcGain here)) st) = Ret (mkSched (switched m t n here) h2 C' A M b) /\
  exists pl', sinv (switched m t n here) h2 C' A (tail q) tl pl'.
Proof.
  intros I HL Hr n C'. set (cc := mkCCB t false (PcYield o)) in *.
  assert (<[c := cc]> C !! c = Some cc) as Hc by apply lookup_insert_eq.
  destruct (i_core _ _ _ _ _ _ _ I _ _ Hc) as (Hp & tc & Ht & Hph & Hst). simpl in Hp, Ht.
  rewrite (upd_tcb_eq _ _ _ _ _ _ _ _ _ Ht), ret_bind. unfold C', switched, next_context. rewrite Ht.
  destruct (decide (n = t)) as [Hn|Hn].
  - rewrite Hn, Ht. rewrite !(decide_True (P := t = t)) by tauto.
    erewrite upd_tcb_eq by apply lookup_insert_eq. rewrite ret_bind, insert_insert_eq.
    rewrite (decide_False (P := t ≠ t)) by tauto.
    erewrite upd_ccb_eq by apply lookup_insert_eq. rewrite insert_insert_eq. split; [done|].
    assert (q = []) as Hq.
    { destruct q as [|x q]; [done|]. unfold n in Hn. simpl in Hn. subst x.
      destruct (i_thread _ _ _ _ _ _ _ I _ _ Ht) as [_ _ T3 _ _].
      destruct T3 as [T3 _]. destruct T3 as [T3 _]; [by left|]. congruence. }
    assert (state tc = READY) as Hs.
    { subst q. destruct r.
      - destruct Hr as (tc' & Ht' & Hs'); [done|]. congruence.
      - unfold n in Hn. simpl in Hn. destruct (i_thread _ _ _ _ _ _ _ I _ _ Ht) as [T1 T2 T3 T4 T5].
        rewrite <- Hn in T4. destruct T4 as (_ & [?|?] & _); [done|]. destruct Hst as [?|[?|?]]; congruence. }
    subst q. exists pl. destruct (i_thread _ _ _ _ _ _ _ I _ _ Ht) as [T1 T2 T3 T4 T5].
    rewrite <- (insert_insert_eq C c (mkCCB t false (PcGain here)) cc).
    eapply (sinv_current _ _ _ _ _ _ _ c cc); try done; simpl.
    + eapply not_leaving; [done|done|]. done.
    + eapply due_before_insert; [done..|apply I].
    + rewrite Hp in T3, T4. by split.
    + split; [done|]. exists t. split; [done|]. by left.
  - destruct (pick_other _ _ _ _ _ _ _ c cc o r I Hc eq_refl) as (tn & Hm & Hpn & Hsn & Hty & Hnq & Hq); [done|].
    simpl in Hm, Hpn, Hty, Hnq, Hq. fold n in Hm, Hpn, Hty, Hnq, Hq. rewrite Hm.
    rewrite !(decide_False (P := t = n)) by congruence.
    erewrite upd_tcb_eq by (rewrite lookup_insert_ne by done; exact Hm). rewrite ret_bind.
    rewrite (decide_True (P := t ≠ n)) by congruence.
    erewrite upd_tcb_eq by (rewrite lookup_insert_ne, lookup_insert_eq; done). rewrite ret_bind.
    cbn [tcbs]. rewrite lookup_insert_ne, lookup_insert_eq by done. cbn [deref]. rewrite ret_bind.
    erewrite upd_ccb_eq by apply lookup_insert_eq. rewrite ret_bind.
    erewrite upd_ccb_eq by apply lookup_insert_eq. rewrite !insert_insert_eq.
    rewrite (insert_insert_ne _ n t), insert_insert_eq by done.
    split; [done|]. eexists. rewrite <- (insert_insert_eq C c _ cc).
    set (tc' := set_context here (set_next n tc)).
    assert (sinv (<[t := tc']> m) h1 (<[c := cc]> C) A q tl pl) as I' by (by eapply sinv_silent).
    rewrite (insert_insert_ne _ t n) by done.
    eapply (sinv_switch _ _ _ _ _ _ _ c cc n tn false); try done; [by exists o|by rewrite lookup_insert_ne|].
    by rewrite dom_insert_lookup_L by eauto.
Qed.

(** [yield], up to the context switch. *)
Lemma yield_ok m h C A q tl pl c cc cause M b :
  sinv m h C A q tl pl -> C !! c = Some cc -> (forall x, pc cc <> PcGain x) ->
  let t := current_thread cc in let now := bios_clock b in
  let here := CtxYield (preemption cc) (match pc cc with PcYield o => Some o | _ => None end) in
  exists tc, m !! t = Some tc /\
    let m2 := wake_all (<[t := stop_running tc]> m) (earlier m now tl) in
    let n := pick c t (runnable tc) (queue_at m now q tl) in
    let C' := <[c := mkCCB n false (PcGain (next_context m2 t n here))]> C in
    exists h' b' pl',
      yield c cause (mkSched m h C A M b) = Ret (mkSched (switched m2 t n here) h' C' A M b') /\
      bios_clock b' = now /\
      sinv (switched m2 t n here) h' C' A (tail (queue_at m now q tl)) (later m now tl) pl'.
Proof.
  intros I Hc Hpc t now here.
  destruct (i_core _ _ _ _ _ _ _ I _ _ Hc) as (Hp & tc & Ht & _). fold t in Hp, Ht.
  exists tc. split; [done|]. intros m2 n C'.
  set (m1 := <[t := stop_running tc]> m) in *.
  set (C1 := <[c := mkCCB t false (pc cc)]> C).
  set (Cg := <[c := mkCCB t false (PcYield false)]> C).
  assert (C1 !! c = Some (mkCCB t false (pc cc))) as HC1 by apply lookup_insert_eq.
  set (b1 := cpu_disable_interrupts c (bios_set_timer c 0 b)).
  destruct (sinv_stop_running _ _ _ _ _ _ _ c cc tc false false I Hc Hpc Ht) as [I1 Hst]. fold t m1 Cg in I1.
  assert (bios_clock b1 = now) as Hb1 by (unfold b1; by rewrite clock_disable, clock_set_timer).
  destruct (queue_select_ok m1 h Cg A q tl pl C1 M b1 I1) as (h2 & h1 & b2 & E & Hb2 & I2 & HL2).
  rewrite Hb1 in E, Hb2, I2, HL2.
  destruct (earlier_later_ext m m1 now tl) as [He Hl].
  { intros u _. unfold m1. rewrite wt_insert. case_decide as Hu; [|done]. subst u.
    unfold wt, stop_running. rewrite Ht. by case_decide. }
  assert (queue_at m1 now q tl = queue_at m now q tl) as Hq.
  { unfold queue_at. rewrite He. f_equal. apply list_filter_iff. intros u.
    unfold m1. rewrite (clean_phase _ _ tc); [done|done|]. unfold stop_running. by case_decide. }
  rewrite He, Hl, Hq in *. fold m2 in E, I2, HL2.
  assert (yield c cause (mkSched m h C A M b) =
    '(sel, st) ← sched_queue_select (mkSched m1 h C1 A M b1);
    let next := match sel with Some n => n | None => if runnable tc then t else IdleThread c end in
    st ← upd_tcb t (set_next next) st; st ← upd_tcb next (set_prev t) st;
    if decide (t ≠ next) then
      st ← upd_tcb t (set_context here) st; tn ← deref (tcbs st !! next);
      st ← upd_ccb c (set_current next) st; upd_ccb c (set_pc (PcGain (context tn))) st
    else upd_ccb c (set_pc (PcGain here)) st) as ->.
  { unfold yield, with_machine. cbn [tcbs rl cctx active_threads mutexes machine].
    rewrite (set_core_preemption_eq _ _ _ _ _ _ _ cc), ret_bind by done. fold t b1 C1. cbn [cctx tcbs].
    rewrite HC1. cbn [deref]. rewrite ret_bind. cbn [current_thread pc].
    fold here. rewrite Ht. cbn [deref]. rewrite ret_bind. rewrite (upd_tcb_eq _ _ _ _ _ _ _ _ _ Ht).
    clear -Ht Hst. unfold m1, stop_running, runnable.
    destruct Hst as [Hs|[Hs|[Hs|Hs]]]; rewrite Hs; rewrite ?ret_bind; simpl; rewrite ?(insert_id m t tc) by done; done. }
  rewrite E, ret_bind. cbv zeta.
  assert (match head (queue_at m now q tl) with Some x => x | None => if runnable tc then t else IdleThread c end = n)
    as Hn by (unfold n, pick; by destruct (queue_at m now q tl)).
  rewrite !Hn.
  destruct (switch_ok m2 h1 h2 C A (queue_at m now q tl) (later m now tl) pl c t false (pc cc) (runnable tc)
    here M b2 I2 HL2) as (E' & pl' & I'); [|by exists h2, b2, pl'].
  intros Hr. unfold runnable in Hr. apply bool_decide_eq_true in Hr.
  assert (state (stop_running tc) = READY) as Hs by (unfold stop_running; case_decide; simpl; tauto).
  unfold m2, m1. rewrite lookup_wake_all, lookup_insert_eq. case_decide; eauto.
Qed.

(** The code of [gain] after the update of the current thread, when the core switched threads: the previous
  thread [u] is off the core. *)
Definition off_core u (st : sched B) : outcome (sched B) :=
  st ← upd_tcb u (set_phase CTX_CLEAN) st;
  tp ← deref (tcbs st !! u);
  match state tp with
  | READY => if decide (type tp ≠ IDLE_THREAD) then sched_queue_add u st else Ret st
  | EXITED => release_TCB u st
  | STOPPED => Ret st
  | INIT | RUNNING => Err AssertFail
  end.

Lemma gain_prev_thread m h C A q tl pl c cc tc u x :
  sinv m h C A q tl pl -> C !! c = Some cc -> pc cc = PcGain x ->
  m !! current_thread cc = Some tc -> tcb_prev tc = Some u -> u <> current_thread cc ->
  exists tu, m !! u = Some tu /\ thread_ok q tl (Leaving c) u tu.
Proof.
  intros I Hc Hpc Ht Hpr Hne. assert (is_Some (m !! u)) as [tu Hu].
  { destruct (i_core _ _ _ _ _ _ _ I _ _ Hc) as (_ & tc' & Ht' & Hok). rewrite Ht in Ht'. injection Ht' as <-.
    rewrite Hpc in Hok. destruct Hok as (_ & u' & Hpr' & Hu'). rewrite Hpr in Hpr'. injection Hpr' as <-.
    destruct Hu' as [[? _]|(_ & _ & _ & ?)]; done. }
  exists tu. split; [done|]. eapply (gain_previous m h C A q tl pl c cc tc); try done. by exists x.
Qed.

Lemma off_core_ok m h C A q tl M b c u tu :
  lists h (dom m) q tl -> m !! u = Some tu -> thread_ok q tl (Leaving c) u tu ->
  exists h' b', off_core u (mkSched m h C A M b) = Ret (mkSched (put_back m u tu) h' C (released tu A) M b') /\
    bios_clock b' = bios_clock b /\ lists h' (dom (put_back m u tu)) (q ++ requeued u tu) tl /\
    (u ∈ q ++ requeued u tu <-> state tu = READY /\ is_normal u = true).
Proof.
  intros HL Hu [U1 U2 U3 U4 U5].
  assert (u ∉ q) as Huq by (rewrite U3; by intros [? _]).
  assert (u ∈ dom m) as Hud by (by eapply elem_of_dom_2).
  assert (dom (<[u := set_phase CTX_CLEAN tu]> m) = dom m) as Hdom by (apply dom_insert_lookup_L; eauto).
  unfold off_core. rewrite (upd_tcb_eq _ _ _ _ _ _ _ _ _ Hu), ret_bind. cbn [tcbs]. rewrite lookup_insert_eq.
  cbn [deref]. rewrite ret_bind. cbn [state set_phase type]. unfold put_back, released, requeued.
  destruct U5 as [_ [Hst|[Hst|Hst]]]; rewrite Hst in *.
  - rewrite !(decide_False (P := READY = EXITED)), Hdom by done. destruct (is_normal u) eqn:Hn.
    + rewrite decide_True by (destruct u; [done|congruence]). rewrite decide_True by done.
      unfold sched_queue_add. cbn [rl].
      destruct (lists_push _ _ _ _ u HL) as (h' & -> & HL'); [done|done| |].
      { rewrite U1. intros Hw. apply U2 in Hw. congruence. }
      rewrite ret_bind. eexists h', _. split; [done|]. split; [apply clock_restart_one|]. split; [done|].
      rewrite elem_of_app, list_elem_of_singleton. tauto.
    + rewrite decide_False by (destruct u; [tauto|done]). rewrite decide_False by naive_solver.
      exists h, b. rewrite app_nil_r. do 3 (split; [done|]). split; [done|]. by intros [_ ?].
  - rewrite !(decide_False (P := STOPPED = EXITED)), Hdom by done. rewrite decide_False by naive_solver.
    exists h, b. rewrite app_nil_r. do 3 (split; [done|]). split; [done|]. by intros [? _].
  - rewrite !(decide_True (P := EXITED = EXITED)) by done. rewrite decide_False by naive_solver.
    unfold release_TCB. cbn [tcbs]. rewrite lookup_insert_eq. cbn [deref]. rewrite ret_bind.
    eexists _, b. rewrite app_nil_r. split.
    { unfold with_active, with_rl, with_tcbs. cbn [tcbs rl cctx active_threads mutexes machine].
      by rewrite delete_insert_eq. }
    split; [done|]. split; [|split; [done|by intros [? _]]].
    rewrite dom_delete_L. apply lists_delete; [done..|]. rewrite U1. intros Hw. apply U2 in Hw. congruence.
Qed.

Lemma put_back_insert m t tc u tu : t <> u -> put_back (<[t := tc]> m) u tu = <[t := tc]> (put_back m u tu).
Proof. intros Hne. unfold put_back. case_decide; [by rewrite delete_insert_ne|by rewrite insert_insert_ne]. Qed.

Lemma put_back_dom m t tc u tu : t <> u -> is_Some (m !! t) -> dom (put_back (<[t := tc]> m) u tu) = dom (put_back m u tu).
Proof.
  intros Hne Ht. rewrite put_back_insert by done. apply dom_insert_lookup_L. unfold put_back.
  case_decide; [by rewrite lookup_delete_ne|by rewrite lookup_insert_ne].
Qed.

Lemma gain_prev_ok m h C A q tl pl c cc tc u x M b C' :
  sinv m h C A q tl pl -> C !! c = Some cc -> pc cc = PcGain x ->
  m !! current_thread cc = Some tc -> tcb_prev tc = Some u -> u <> current_thread cc ->
  let t := current_thread cc in
  exists tu h' b', m !! u = Some tu /\
    off_core u (mkSched (<[t := run tc]> m) h C' A M b) =
      Ret (mkSched (<[t := run tc]> (put_back m u tu)) h' C' (released tu A) M b') /\
    bios_clock b' = bios_clock b /\
    forall cc', current_thread cc' = t -> pc cc' = PcRun ->
      sinv (<[t := run tc]> (put_back m u tu)) h' (<[c := cc']> C) (released tu A) (q ++ requeued u tu) tl
        (moved u Elsewhere pl).
Proof.
  intros I Hc Hpc Ht Hpr Hne t. fold t in Ht, Hne.
  destruct (gain_prev_thread _ _ _ _ _ _ _ c cc tc u x I Hc Hpc Ht Hpr Hne) as (tu & Hu & U).
  assert (dom (<[t := run tc]> m) = dom m) as Hdom by (apply dom_insert_lookup_L; eauto).
  destruct (off_core_ok (<[t := run tc]> m) h C' A q tl M b c u tu) as (h' & b' & E & Hb & HL & Huq);
    [rewrite Hdom; apply I|by rewrite lookup_insert_ne|done|].
  rewrite put_back_insert in E by done. rewrite put_back_dom in HL by (done || by eexists).
  exists tu, h', b'. do 3 (split; [done|]). intros cc' Hcc' Hpc'.
  apply (sinv_gain m h C A q tl pl c cc cc' tc u tu); try done.
  - by exists x.
  - unfold put_back, released. case_decide; [by right|by left].
  - intros v Hv. unfold requeued. rewrite elem_of_app. case_decide; [rewrite list_elem_of_singleton|rewrite elem_of_nil]; tauto.
Qed.

(** No switch: the core goes on with the thread that yielded. *)
Lemma gain_same_ok m h C A q tl pl c cc cc' tc x :
  sinv m h C A q tl pl -> C !! c = Some cc -> pc cc = PcGain x ->
  m !! current_thread cc = Some tc -> tcb_prev tc = Some (current_thread cc) ->
  current_thread cc' = current_thread cc -> pc cc' = PcRun ->
  sinv (<[current_thread cc := run tc]> m) h (<[c := cc']> C) A q tl pl.
Proof.
  intros I Hc Hpc Ht Hpr Hcc' Hpc'. set (t := current_thread cc) in *.
  destruct (i_core _ _ _ _ _ _ _ I _ _ Hc) as (Hp & tc' & Ht' & Hok). fold t in Hp, Ht', Hok.
  rewrite Ht in Ht'. injection Ht' as <-. rewrite Hpc in Hok. destruct Hok as (Hs & _).
  destruct (i_thread _ _ _ _ _ _ _ I _ _ Ht) as [T1 T2 T3 T4 T5].
  eapply (sinv_current _ _ _ _ _ _ _ c cc); try done.
  - intros v Hv. pose proof (i_place _ _ _ _ _ _ _ I v) as Hpv. rewrite Hv in Hpv.
    destruct Hpv as (dd & tc' & y & Hd & _ & Ht' & Hv'). rewrite Hc in Hd. injection Hd as <-.
    fold t in Ht'. congruence.
  - apply I.
  - eapply due_before_insert; [done..|apply I].
  - fold t. rewrite Hp in *. split; simpl; try done.
    + intros Hw. apply T2 in Hw. congruence.
    + rewrite T3. by split; intros [? _].
    + clear -T4. destruct t; [|done]. tauto.
  - rewrite Hpc'. done.
Qed.

Lemma gain_ok m h C A q tl pl c cc x p M b :
  sinv m h C A q tl pl -> C !! c = Some cc -> pc cc = PcGain x ->
  let t := current_thread cc in
  exists tc u h' b' pl',
    m !! t = Some tc /\ tcb_prev tc = Some u /\
    gain c p (mkSched m h C A M b) =
      Ret (mkSched (gained m t tc u) h' (<[c := mkCCB t (p || preemption cc) (pc cc)]> C)
        (gained_active m t u A) M b') /\
    bios_clock b' = bios_clock b /\
    forall cc', current_thread cc' = t -> pc cc' = PcRun ->
      sinv (gained m t tc u) h' (<[c := cc']> C) (gained_active m t u A) (gained_queue m t u q) tl pl'.
Proof.
  intros I Hc Hpc t.
  destruct (i_core _ _ _ _ _ _ _ I _ _ Hc) as (_ & tc & Ht & Hok). fold t in Ht, Hok.
  rewrite Hpc in Hok. destruct Hok as (_ & u & Hpr & _). exists tc, u. set (m1 := <[t := run tc]> m).
  assert (exists h' b' pl',
    (if decide (t ≠ u) then off_core u (mkSched m1 h C A M b) else Ret (mkSched m1 h C A M b)) =
      Ret (mkSched (gained m t tc u) h' C (gained_active m t u A) M b') /\
    bios_clock b' = bios_clock b /\
    forall cc', current_thread cc' = t -> pc cc' = PcRun ->
      sinv (gained m t tc u) h' (<[c := cc']> C) (gained_active m t u A) (gained_queue m t u q) tl pl')
    as (h' & b' & pl' & E & Hb & I').
  { unfold gained, gained_active, gained_queue. destruct (decide (u = t)) as [->|Hne].
    - rewrite (decide_False (P := t ≠ t)) by tauto. exists h, b, pl. do 2 (split; [done|]).
      intros cc' Hcc' Hpc'. rewrite app_nil_r. by eapply gain_same_ok.
    - rewrite (decide_True (P := t ≠ u)) by congruence.
      destruct (gain_prev_ok _ _ _ _ _ _ _ c cc tc u x M b C I Hc Hpc Ht Hpr Hne)
        as (tu & h' & b' & Hu' & E & Hb & Hi). rewrite Hu'. by exists h', b', (moved u Elsewhere pl). }
  assert (exists b2, gain c p (mkSched m h C A M b) =
      Ret (mkSched (gained m t tc u) h' (<[c := mkCCB t (p || preemption cc) (pc cc)]> C)
        (gained_active m t u A) M b2) /\ bios_clock b2 = bios_clock b') as (b2 & E2 & Hb2).
  { unfold gain, CURTHREAD. cbn [cctx]. rewrite Hc. cbn [deref]. rewrite !ret_bind. cbn [tcbs].
    fold t. rewrite Ht. cbn [deref]. rewrite ret_bind, Hpr. cbn [deref]. rewrite ret_bind.
    rewrite (upd_tcb_eq _ _ _ _ _ _ _ _ _ Ht), ret_bind.
    erewrite upd_tcb_eq by apply lookup_insert_eq. rewrite ret_bind, insert_insert_eq.
    change (set_phase CTX_DIRTY (set_state RUNNING tc)) with (run tc). fold m1.
    unfold off_core in E. rewrite (bind_eq _ _ _ E). destruct p.
    - rewrite (set_core_preemption_eq _ _ _ _ _ _ _ cc), ret_bind by done. fold t.
      eexists. split; [done|]. cbn [machine]. by rewrite clock_set_timer, clock_enable.
    - rewrite ret_bind. simpl. unfold t. rewrite preempt_id by done. eexists. split; [done|].
      cbn [machine]. apply clock_set_timer. }
  exists h', b2, pl'. do 3 (split; [done|]). split; [congruence|done].
Qed.

(** The return of a context switch: [gain] and what follows it. *)
Lemma resume_ok m h C A q tl pl c cc x M b :
  sinv m h C A q tl pl -> C !! c = Some cc -> pc cc = PcGain x ->
  let t := current_thread cc in
  exists tc u h' b' pl',
    m !! t = Some tc /\ tcb_prev tc = Some u /\
    let C' := <[c := mkCCB t (restored x || preemption cc) PcRun]> C in
    resume c (mkSched m h C A M b) = Ret (mkSched (gained m t tc u) h' C' (gained_active m t u A) M b') /\
    bios_clock b' = bios_clock b /\
    sinv (gained m t tc u) h' C' (gained_active m t u A) (gained_queue m t u q) tl pl'.
Proof.
  intros I Hc Hpc t.
  set (p := match x with CtxStart => true | CtxYield p _ => p end).
  destruct (gain_ok _ _ _ _ _ _ _ c cc x p M b I Hc Hpc)
    as (tc & u & h' & b' & pl' & Ht & Hu & E & Hb & I'). fold t in Ht, E, I'.
  assert (exists b2, resume c (mkSched m h C A M b) =
    Ret (mkSched (gained m t tc u) h' (<[c := mkCCB t (restored x || preemption cc) PcRun]> C)
      (gained_active m t u A) M b2) /\ bios_clock b2 = bios_clock b') as (b2 & E2 & Hb2).
  { unfold resume. cbn [cctx]. rewrite Hc. cbn [deref]. rewrite ret_bind, Hpc.
    destruct x as [|p' o]; unfold p in E; rewrite E, ret_bind; simpl restored.
    - erewrite upd_ccb_eq by apply lookup_insert_eq. rewrite insert_insert_eq. by eexists.
    - destruct (decide (o = Some true)) as [->|Ho].
      + erewrite set_core_preemption_eq by apply lookup_insert_eq. rewrite !ret_bind.
        erewrite upd_ccb_eq by apply lookup_insert_eq. rewrite !insert_insert_eq.
        eexists. split; [|apply clock_enable]. by rewrite bool_decide_true, orb_true_r by done.
      + rewrite ret_bind. erewrite upd_ccb_eq by apply lookup_insert_eq. rewrite !insert_insert_eq.
        exists b'. split; [|done]. by rewrite bool_decide_false, orb_false_r by done. }
  exists tc, u, h', b2, pl'. do 3 (split; [done|]). split; [congruence|]. by apply I'.
Qed.

(** A thread is added, and maybe the core that runs it. *)
Lemma sinv_add m h C A q tl pl t tc C' p A' :
  sinv m h C A q tl pl -> m !! t = None ->
  thread_ok q tl p t tc -> wakeup_time tc = NO_TIMEOUT -> t ∉ q ->
  (forall d dd, C !! d = Some dd -> C' !! d = Some dd) ->
  (forall d dd, C' !! d = Some dd -> C !! d = Some dd \/ core_ok (<[t := tc]> m) (moved t p pl) d dd) ->
  place_ok (<[t := tc]> m) C' t p ->
  (forall d, is_Some (C' !! d) <-> is_Some (C !! d) \/ t = IdleThread d) ->
  A' = u32 (normals (<[t := tc]> m)) ->
  sinv (<[t := tc]> m) (rlnode_init (sched_node t) (Some t) h).2 C' A' q tl (moved t p pl).
Proof.
  intros [I1 I2 I3 I4 I5 I6 I7] Ht Htc Hw Hq HC HC' Hpl Hidle HA.
  assert (t ∉ tl) as Htl by (intros Hin; by apply Htc in Hin).
  split.
  - rewrite dom_insert_L. by apply lists_add.
  - eapply StronglySorted_ext; [|done]. intros x y Hx Hy. unfold due_before.
    by rewrite !wt_insert, !decide_False by congruence.
  - intros u uc Hu. destruct (decide (u = t)) as [->|Hne].
    + rewrite lookup_insert_eq in Hu. injection Hu as <-. by rewrite moved_eq.
    + rewrite lookup_insert_ne in Hu by done. rewrite moved_ne by done. by apply I3.
  - intros d dd Hd. destruct (HC' d dd Hd) as [Hd'|?]; [|done].
    destruct (I4 d dd Hd') as (Hp & uc & Hu & Hok). assert (current_thread dd <> t) by congruence.
    split; [by rewrite moved_ne|]. exists uc. rewrite lookup_insert_ne by done. split; [done|].
    destruct (pc dd); try done. simpl in *.
    destruct Hok as (? & v & ? & Hv). split; [done|]. exists v. split; [done|].
    destruct Hv as [?|(? & ? & ? & Hv)]; [by left|right]. assert (v <> t) by (intros ->; rewrite Ht in Hv; by destruct Hv).
    rewrite moved_ne, lookup_insert_ne by done. done.
  - intros u. destruct (decide (u = t)) as [->|Hne]; [by rewrite moved_eq|]. rewrite moved_ne by done.
    specialize (I5 u). destruct (pl u) as [|d|d]; try done; simpl in *.
    + destruct I5 as (dd & ? & ?). exists dd. auto.
    + destruct I5 as (dd & uc & x & ? & ? & Hm & ?). exists dd, uc, x.
      rewrite lookup_insert_ne by congruence. auto.
  - intros d. rewrite Hidle, <- I6, lookup_insert_is_Some. clear -Ht.
    destruct (decide (t = IdleThread d)); [tauto|]. tauto.
  - done.
Qed.

Lemma not_listed m h C A q tl pl t : sinv m h C A q tl pl -> m !! t = None -> (t ∉ q) /\ t ∉ tl.
Proof.
  intros I Ht%not_elem_of_dom. pose proof (i_lists _ _ _ _ _ _ _ I) as HL.
  split; intros Hin; apply Ht; [by apply (l_queue_in _ _ _ _ HL)|by apply (l_timeout_in _ _ _ _ HL)].
Qed.

(** [spawn_thread]. *)
Lemma spawn_ok m h C A q tl pl n pcb func M b :
  sinv m h C A q tl pl -> m !! Thread n = None ->
  exists h' pl',
    spawn_thread (Some (Thread n)) pcb func (mkSched m h C A M b) =
      Ret (Thread n, mkSched (<[Thread n := fresh_tcb pcb func]> m) h' C (u32 (A + 1)) M b) /\
    sinv (<[Thread n := fresh_tcb pcb func]> m) h' C (u32 (A + 1)) q tl pl'.
Proof.
  intros I Hn. destruct (not_listed _ _ _ _ _ _ _ _ I Hn) as [Hq Htl].
  eexists _, _. split; [done|]. eapply (sinv_add _ _ _ _ _ _ _ _ _ _ Elsewhere); try done.
  - split; try done; simpl; [split; [done|by intros (_ & ? & _)]|by auto].
  - by left.
  - intros d. split; [by left|]. by intros [?|?].
  - rewrite normals_new by done. rewrite (i_active _ _ _ _ _ _ _ I). apply wrap_add_l. lia.
Qed.

(** [run_scheduler] on a core that was not in the scheduler. *)
Lemma boot_ok m h C A q tl pl c pcb0 M b :
  sinv m h C A q tl pl -> C !! c = None ->
  exists h' b' pl',
    run_scheduler c pcb0 (mkSched m h C A M b) =
      mkSched (<[IdleThread c := idle_tcb pcb0]> m) h' (<[c := mkCCB (IdleThread c) true PcRun]> C) A M b' /\
    bios_clock b' = bios_clock b /\
    sinv (<[IdleThread c := idle_tcb pcb0]> m) h' (<[c := mkCCB (IdleThread c) true PcRun]> C) A q tl pl'.
Proof.
  intros I Hc. assert (m !! IdleThread c = None) as Hm.
  { apply eq_None_not_Some. rewrite (i_idle _ _ _ _ _ _ _ I), Hc. by intros []. }
  destruct (not_listed _ _ _ _ _ _ _ _ I Hm) as [Hq Htl].
  eexists _, _, _. split; [done|]. split; [apply clock_enable|].
  eapply (sinv_add _ _ _ _ _ _ _ _ _ _ (OnCore c)); try done.
  - split; try done; simpl; [split; [done|by intros (? & _)]|auto].
  - intros d dd Hd. by rewrite lookup_insert_ne by congruence.
  - intros d dd Hd. destruct (decide (c = d)) as [<-|]; [|rewrite lookup_insert_ne in Hd by done; by left].
    rewrite lookup_insert_eq in Hd. injection Hd as <-. right. split; [by rewrite moved_eq|].
    eexists. rewrite lookup_insert_eq. by split.
  - eexists. by rewrite lookup_insert_eq.
  - intros d. rewrite lookup_insert_is_Some. destruct (decide (c = d)) as [->|]; naive_solver.
  - rewrite (i_active _ _ _ _ _ _ _ I). unfold normals. rewrite dom_insert_L. do 3 f_equal. apply set_eq. intros u.
    rewrite !elem_of_filter, elem_of_union, elem_of_singleton. split; [tauto|].
    intros [Hu [->|?]]; [done|tauto].
Qed.
End operations_ok.
