(* ===== verification/SchedSys.v ===== *)
(** * The cores and the scheduler

  The whole scheduler as a transition system: any number of cores, each performing the operations of
  [Sched] in any order that its control state allows, with the machine (clock, interrupts) and the
  mutexes changing in between.  The theorems hold in every state that this system reaches. *)

From S2P Require Import Prelude Rlist Iface Sched SchedInv.
From Stdlib Require Import Sorted.

(** ** The transition system *)

Inductive request :=
  | ReqBoot (c : nat) (pcb0 : option Z)
  | ReqSpawn (n : nat) (pcb : option Z) (func : nat)
  | ReqWakeup (c : nat) (t : tid)
  | ReqSleep (c : nat) (newstate : Thread_state) (mx : option nat) (cause : SCHED_CAUSE) (timeout : Z)
  | ReqYield (c : nat) (cause : SCHED_CAUSE)
  | ReqResume (c : nat)
  | ReqPreempt (c : nat) (preempt : bool).

Section system.
Context {B : Type} `{BiosOps B}.
Implicit Types (st : sched B) (r : request) (c : nat) (t : tid).

(** The control state of a core; [None] before [run_scheduler]. *)
Definition core_at c st : option core_pc := pc <$> cctx st !! c.

Definition is_run (p : core_pc) : bool := match p with PcRun => true | _ => false end.
Definition is_gain (p : core_pc) : bool := match p with PcGain _ => true | _ => false end.

(** When a core can perform a request.  The code that runs on a core, or an interrupt handler there,
  runs at [PcRun]; core 0 wakes the first thread before it enters the scheduler.  The idle thread does
  not sleep, and the one wakeup time that means [NO_TIMEOUT] is not hit. *)
Definition enabled r st : bool :=
  match r with
  | ReqBoot c _ => bool_decide (core_at c st = None)
  | ReqSpawn n _ _ => bool_decide (tcbs st !! Thread n = None)
  | ReqWakeup c t => match core_at c st with Some p => is_run p | None => true end &&
      bool_decide (is_Some (tcbs st !! t))
  | ReqSleep c newstate _ _ timeout =>
      match cctx st !! c with Some cc => is_run (pc cc) && is_normal (current_thread cc) | None => false end &&
      bool_decide (newstate = STOPPED \/ newstate = EXITED) &&
      bool_decide (sleep_time (machine st) newstate timeout <> Some NO_TIMEOUT)
  | ReqYield c _ => match core_at c st with Some p => negb (is_gain p) | None => false end
  | ReqResume c => match core_at c st with Some p => is_gain p | None => false end
  | ReqPreempt c _ => match core_at c st with Some p => is_run p | None => false end
  end.

Definition perform r st : outcome (sched B) :=
  match r with
  | ReqBoot c pcb0 => Ret (run_scheduler c pcb0 st)
  | ReqSpawn n pcb func => '(_, st) ← spawn_thread (Some (Thread n)) pcb func st; Ret st
  | ReqWakeup c t => '(_, st) ← wakeup c t st; Ret st
  | ReqSleep c newstate mx cause timeout => sleep_releasing c newstate mx cause timeout st
  | ReqYield c cause => yield c cause st
  | ReqResume c => resume c st
  | ReqPreempt c preempt => '(_, st) ← set_core_preemption c preempt st; Ret st
  end.

Inductive sched_step st : sched B -> Prop :=
  | step_request r st' : enabled r st = true -> perform r st = Ret st' -> sched_step st st'
  | step_machine b M : sched_step st (with_machine b (with_mutexes M st)).

(** The scheduler as core 0 sets it up, with the machine and the mutexes in any state. *)
Definition booted (M : gset nat) (b : B) : sched B :=
  initialize_scheduler (mkSched ∅ ∅ ∅ 0 M b).

Definition reachable st : Prop := exists M b, reach sched_step (booted M b) st.

(** A sequence of requests; [None] when one is not enabled. *)
Fixpoint performs (rs : list request) st : option (outcome (sched B)) :=
  match rs with
  | [] => Some (Ret st)
  | r :: rs => if enabled r st then
                 match perform r st with Ret st => performs rs st | Err f => Some (Err f) end
               else None
  end.

(** Outside of [PcRun] a core has preemption off. *)
Definition quiet st : Prop :=
  forall c cc, cctx st !! c = Some cc -> is_run (pc cc) = false -> preemption cc = false.

(** The ready queue, and the timeout list. *)
Definition queue_of st (q : list tid) : Prop := rlist (rl st) SCHED (sched_node <$> q).
Definition sleepers_of st (tl : list tid) : Prop := rlist (rl st) TIMEOUT_LIST (sched_node <$> tl).

(** [t] is the current thread of a core. *)
Definition on_core st t : Prop := exists c cc, cctx st !! c = Some cc /\ current_thread cc = t.

(** A core has switched from [t] to another thread, and [gain] has not run yet. *)
Definition leaving_core st t : Prop :=
  exists c cc x tc, cctx st !! c = Some cc /\ pc cc = PcGain x /\
    tcbs st !! current_thread cc = Some tc /\ tcb_prev tc = Some t.

Definition sys_inv st : Prop := sched_ok st /\ quiet st.
End system.

(** ** The invariant *)

Section invariant.
Context {B : Type} `{BiosLaws B}.
Implicit Types (st : sched B) (r : request) (c : nat).

Lemma booted_ok (M : gset nat) (b : B) : sys_inv (booted M b).
Proof.
  split; [|intros c cc Hc; simpl in Hc; by rewrite lookup_empty in Hc].
  exists [], [], (fun _ => Elsewhere). split; simpl.
  - split; simpl; try done; try (intros t Ht; by apply not_elem_of_nil in Ht); try set_solver.
    by apply (bool_decide_unpack _). by apply (bool_decide_unpack _).
  - constructor.
  - intros t tc Ht. by rewrite lookup_empty in Ht.
  - intros c cc Hc. by rewrite lookup_empty in Hc.
  - done.
  - intros c. rewrite !lookup_empty. done.
  - done.
Qed.

Lemma quiet_insert st c cc m h A M (b : B) :
  quiet st -> (is_run (pc cc) = false -> preemption cc = false) ->
  quiet (mkSched m h (<[c := cc]> (cctx st)) A M b).
Proof.
  intros Hq Hc d dd Hd. simpl in Hd. destruct (decide (c = d)) as [<-|].
  - rewrite lookup_insert_eq in Hd. by injection Hd as <-.
  - rewrite lookup_insert_ne in Hd by done. by eapply Hq.
Qed.

Lemma core_at_inv c st p : core_at c st = Some p -> exists cc, cctx st !! c = Some cc /\ pc cc = p.
Proof. unfold core_at. intros (cc & ? & ?)%fmap_Some. by exists cc. Qed.

(** No enabled request faults, and it keeps the invariant. *)
Lemma perform_ok r st :
  sys_inv st -> enabled r st = true -> exists st', perform r st = Ret st' /\ sys_inv st'.
Proof.
  intros [(q & tl & pl & I) Hq] He. destruct st as [m h C A M b]. simpl in I. destruct r; simpl in He.
  - apply bool_decide_eq_true in He. unfold core_at in He. apply fmap_None in He. simpl in He.
    destruct (boot_ok _ _ _ _ _ _ _ c pcb0 M b I He) as (h' & b' & pl' & E & _ & I').
    eexists. split; [done|]. cbn [perform]. rewrite E. split; [by exists q, tl, pl'|].
    by apply (quiet_insert (mkSched m h C A M b)).
  - apply bool_decide_eq_true in He.
    destruct (spawn_ok _ _ _ _ _ _ _ n pcb func M b I He) as (h' & pl' & E & I').
    eexists. cbn [perform]. rewrite E, ret_bind. split; [done|]. split; [by exists q, tl, pl'|done].
  - apply andb_true_iff in He as [_ [tc Ht]%bool_decide_eq_true]. simpl in Ht.
    destruct (wakeup_ok _ _ _ _ _ _ _ c t tc M b I Ht) as (h' & b' & E & _ & I').
    eexists. cbn [perform]. rewrite E, ret_bind. split; [done|]. split; [by eexists _, _, pl|done].
  - destruct (C !! c) as [cc|] eqn:Hc; [|done].
    rewrite !andb_true_iff, !bool_decide_eq_true in He. destruct He as [[[Hr Hn] Hs] Hto].
    assert (pc cc = PcRun) as Hpc by (by destruct (pc cc)).
    destruct (sleep_releasing_ok _ _ _ _ _ _ _ c cc newstate mx cause timeout M b I Hc Hpc Hn Hs Hto)
      as (tc & h' & b' & _ & E & _ & I').
    eexists. cbn [perform]. rewrite E. split; [done|]. split; [by eexists _, _, pl|].
    by apply (quiet_insert (mkSched m h C A M b)).
  - destruct (core_at c (mkSched m h C A M b)) as [p|] eqn:Hcc; [|done].
    apply core_at_inv in Hcc as (cc & Hc & <-). simpl in Hc.
    destruct (yield_ok _ _ _ _ _ _ _ c cc cause M b I Hc) as (tc & _ & h' & b' & pl' & E & _ & I').
    { by destruct (pc cc). }
    eexists. cbn [perform]. rewrite E. split; [done|]. split; [by eexists _, _, pl'|].
    by apply (quiet_insert (mkSched m h C A M b)).
  - destruct (core_at c (mkSched m h C A M b)) as [p|] eqn:Hcc; [|done].
    apply core_at_inv in Hcc as (cc & Hc & Hpc). simpl in Hc. destruct p as [| |x]; try done.
    destruct (resume_ok _ _ _ _ _ _ _ c cc x M b I Hc Hpc) as (tc & u & h' & b' & pl' & _ & _ & E & _ & I').
    eexists. cbn [perform]. rewrite E. split; [done|]. split; [by eexists _, _, pl'|].
    by apply (quiet_insert (mkSched m h C A M b)).
  - destruct (core_at c (mkSched m h C A M b)) as [p|] eqn:Hcc; [|done].
    apply core_at_inv in Hcc as (cc & Hc & <-). simpl in Hc.
    eexists. cbn [perform]. rewrite (set_core_preemption_eq _ _ _ _ _ _ _ cc), ret_bind by done.
    split; [done|]. split; [exists q, tl, pl; by apply sinv_preempt|].
    apply (quiet_insert (mkSched m h C A M b)); [done|]. simpl. by destruct (pc cc).
Qed.

Lemma reachable_inv st : reachable st -> sys_inv st.
Proof.
  intros (M & b & Hr). eapply reach_invariant; [|exact Hr|apply booted_ok].
  intros s1 s2 Hi [r s' He Hp|b' M']; [|done].
  destruct (perform_ok r s1 Hi He) as (s3 & Hp' & Hi'). congruence.
Qed.

Lemma performs_reach rs st st' : performs rs st = Some (Ret st') -> reach sched_step st st'.
Proof.
  revert st. induction rs as [|r rs IH]; intros st Hp; simpl in Hp; [simplify_eq; constructor|].
  destruct (enabled r st) eqn:He; [|done]. destruct (perform r st) as [s1|] eqn:E; [|done].
  eapply reach_trans; [|by apply IH]. eapply reach_step; [constructor|]. by eapply step_request.
Qed.
End invariant.

Section state_lemmas.
Context {B : Type} `{BiosLaws B}.
Implicit Types (st : sched B) (c : nat) (t : tid) (q tl : list tid).

Lemma ok_lists st q tl :
  sched_ok st -> queue_of st q -> sleepers_of st tl ->
  exists pl, sinv (tcbs st) (rl st) (cctx st) (active_threads st) q tl pl.
Proof.
  intros (q' & tl' & pl & I) Hq Htl. pose proof (i_lists _ _ _ _ _ _ _ I) as HL.
  assert (q' = q) as <-.
  { apply (inj (fmap (M:=list) sched_node)). eapply rlist_inj; [|exact Hq]. apply HL. }
  assert (tl' = tl) as <-.
  { apply (inj (fmap (M:=list) sched_node)). eapply rlist_inj; [|exact Htl]. apply HL. }
  by exists pl.
Qed.

Lemma sinv_lists st q tl pl :
  sinv (tcbs st) (rl st) (cctx st) (active_threads st) q tl pl -> queue_of st q /\ sleepers_of st tl.
Proof. intros I. pose proof (i_lists _ _ _ _ _ _ _ I) as HL. split; apply HL. Qed.

(** Where the invariant puts a thread, in terms of the cores. *)
Lemma place_cases st q tl pl t :
  sinv (tcbs st) (rl st) (cctx st) (active_threads st) q tl pl ->
  match pl t with
  | Elsewhere => ~ on_core st t
  | OnCore _ => on_core st t
  | Leaving _ => leaving_core st t /\ ~ on_core st t
  end.
Proof.
  intros I. pose proof (i_place _ _ _ _ _ _ _ I t) as Hp.
  assert ((forall c, pl t <> OnCore c) -> ~ on_core st t) as Hno.
  { intros Hn (c & cc & Hc & <-). by destruct (i_core _ _ _ _ _ _ _ I _ _ Hc) as [?%Hn _]. }
  destruct (pl t) as [|c|c]; simpl in Hp.
  - by apply Hno.
  - destruct Hp as (cc & ? & ?). by exists c, cc.
  - destruct Hp as (cc & tc & x & ? & ? & ? & ?). split; [by exists c, cc, x, tc|by apply Hno].
Qed.

(** A ready thread is queued, or on a core, or leaving one. *)
Lemma queue_exact st q tl pl t tc :
  sinv (tcbs st) (rl st) (cctx st) (active_threads st) q tl pl -> tcbs st !! t = Some tc ->
  (t ∈ q <-> is_normal t = true /\ state tc = READY /\ phase tc = CTX_CLEAN /\ ~ on_core st t) /\
  (is_normal t = true -> state tc = READY -> t ∈ q \/ on_core st t \/ leaving_core st t).
Proof.
  intros I Ht. destruct (i_thread _ _ _ _ _ _ _ I _ _ Ht) as [_ _ T3 T4 T5].
  pose proof (place_cases _ _ _ _ t I) as Hp.
  assert (is_normal t = true <-> type tc = NORMAL_THREAD) as Hn.
  { clear -T4. destruct t; [|done]. destruct T4 as (-> & _). done. }
  rewrite Hn, T3. destruct (pl t).
  - destruct T5 as [? _]. split; [|tauto]. tauto.
  - split; [|tauto]. split; [by intros [? _]|tauto].
  - destruct T5 as [Hph _]. split; [|tauto]. split; [by intros [? _]|].
    intros (_ & _ & Hc & _). congruence.
Qed.
End state_lemmas.

Section effects.
Context {B : Type} `{BiosLaws B}.
Implicit Types (m : gmap tid TCB) (t u n : tid) (tc : TCB).

(** The switch touches only the links and the context of the two TCBs. *)
Lemma switched_lookup m t n here u tu :
  m !! u = Some tu -> exists tu', switched m t n here !! u = Some tu' /\ state tu' = state tu /\
    phase tu' = phase tu /\ wakeup_time tu' = wakeup_time tu.
Proof.
  intros Hu. unfold switched. destruct (m !! t) as [tc|] eqn:Ht, (m !! n) as [tn|] eqn:Hn; try (by exists tu).
  destruct (decide (t = n)) as [->|Htn].
  - destruct (decide (u = n)) as [->|]; [rewrite lookup_insert_eq|rewrite lookup_insert_ne by done; by exists tu].
    simplify_eq. by eexists.
  - destruct (decide (u = t)) as [->|]; [rewrite lookup_insert_eq; simplify_eq; by eexists|].
    rewrite lookup_insert_ne by done.
    destruct (decide (u = n)) as [->|]; [rewrite lookup_insert_eq; simplify_eq; by eexists|].
    rewrite lookup_insert_ne by done. by exists tu.
Qed.

Lemma switched_lookup_inv m t n here u tu' :
  switched m t n here !! u = Some tu' -> exists tu, m !! u = Some tu /\ wakeup_time tu' = wakeup_time tu.
Proof.
  intros Hu. destruct (m !! u) as [tu|] eqn:E.
  - destruct (switched_lookup m t n here u tu E) as (tu2 & Hu2 & _ & _ & Hw). exists tu. split; congruence.
  - exfalso. unfold switched in Hu. destruct (m !! t) eqn:Ht, (m !! n) eqn:Hn; try congruence.
    assert (u <> t) by congruence. assert (u <> n) by congruence.
    case_decide; rewrite ?lookup_insert_ne in Hu by done; congruence.
Qed.

Lemma switched_context m l t tc0 n here h C A q tl pl c p x :
  m !! t = Some tc0 -> n <> t ->
  let m' := switched (wake_all (<[t := stop_running tc0]> m) l) t n here in
  sinv m' h (<[c := mkCCB n p (PcGain x)]> C) A q tl pl -> context <$> m' !! t = Some here.
Proof.
  intros Ht Hne m' I.
  destruct (i_core _ _ _ _ _ _ _ I c (mkCCB n p (PcGain x))) as (_ & tn & Hn & _); [apply lookup_insert_eq|].
  simpl in Hn. apply switched_lookup_inv in Hn as (tn0 & Hn & _).
  assert (exists tc1, wake_all (<[t := stop_running tc0]> m) l !! t = Some tc1) as [tc1 Ht1].
  { rewrite lookup_wake_all, lookup_insert_eq. case_decide; by eexists. }
  unfold m', switched. rewrite Ht1, Hn, decide_False by congruence. by rewrite lookup_insert_eq.
Qed.

(** After the selection at [now], nobody sleeps who was due at [now]. *)
Lemma none_overdue m t tc0 now tl n here u tu q h C A pl :
  StronglySorted (due_before m) tl -> m !! t = Some tc0 ->
  let m' := switched (wake_all (<[t := stop_running tc0]> m) (earlier m now tl)) t n here in
  sinv m' h C A q (later m now tl) pl -> m' !! u = Some tu -> wakeup_time tu <> NO_TIMEOUT ->
  (now < wakeup_time tu)%Z.
Proof.
  intros Hs Ht m' I Hu Hw. assert (u ∈ later m now tl) as Hin.
  { by apply (tk_timeout _ _ _ _ _ (i_thread _ _ _ _ _ _ _ I _ _ Hu)). }
  pose proof (later_due m now tl u Hs Hin) as Hd.
  apply switched_lookup_inv in Hu as (tu1 & Hu & Hw1). rewrite Hw1 in *. rewrite lookup_wake_all in Hu.
  assert (wt m u = wakeup_time tu1 \/ wakeup_time tu1 = NO_TIMEOUT) as [<-|?]; [|done|done].
  case_decide as Hue.
  - right. apply fmap_Some in Hu as (x & _ & ->). done.
  - left. unfold wt. destruct (decide (u = t)) as [->|Hne].
    + rewrite lookup_insert_eq in Hu. injection Hu as <-. rewrite Ht. unfold stop_running. by case_decide.
    + rewrite lookup_insert_ne in Hu by done. by rewrite Hu.
Qed.
End effects.

Section yield_resume.
Context {B : Type} `{BiosLaws B}.

(** A thread that is READY when its core is about to switch is not lost. *)
Lemma yield_resume_ready m h C A q tl pl c cc o cause M (b : B) tc :
  sinv m h C A q tl pl -> C !! c = Some cc -> pc cc = PcYield o ->
  let t := current_thread cc in
  is_normal t = true -> m !! t = Some tc -> state tc = READY ->
  exists st2, performs [ReqYield c cause; ReqResume c] (mkSched m h C A M b) = Some (Ret st2) /\
    exists tc', tcbs st2 !! t = Some tc' /\
      ((state tc' = RUNNING /\ current_thread <$> cctx st2 !! c = Some t) \/
       (state tc' = READY /\ exists q, queue_of st2 q /\ t ∈ q)).
Proof.
  intros I Hc Hpc t Hn Ht Hs. cbn [performs].
  assert (enabled (ReqYield c cause) (mkSched m h C A M b) = true) as ->.
  { unfold enabled, core_at. cbn [cctx]. rewrite Hc. simpl. by rewrite Hpc. }
  destruct (yield_ok _ _ _ _ _ _ _ c _ cause M b I Hc) as (tc0 & Ht0 & h3 & b3 & pl3 & E3 & _ & I3).
  { by rewrite Hpc. }
  fold t in Ht0, E3, I3. rewrite Ht in Ht0. injection Ht0 as <-.
  set (q2 := queue_at m _ _ _) in E3, I3. set (n := pick c t (runnable tc) q2) in *. set (here := CtxYield _ _) in *.
  set (m3' := wake_all _ _) in E3, I3. set (m3 := switched m3' t n here) in *. set (C3 := <[c := _]> C) in *.
  unfold perform at 1. rewrite E3.
  assert (C3 !! c = Some (mkCCB n false (PcGain (next_context m3' t n here)))) as Hc3 by apply lookup_insert_eq.
  assert (enabled (ReqResume c) (mkSched m3 h3 C3 A M b3) = true) as ->.
  { unfold enabled, core_at. cbn [cctx]. by rewrite Hc3. }
  destruct (resume_ok _ _ _ _ _ _ _ c _ _ M b3 I3 Hc3 eq_refl) as (tn & u & h4 & b4 & pl4 & Htn & Hu & E4 & _ & I4).
  cbn [current_thread preemption pc] in Htn, E4, I4.
  unfold perform. rewrite E4. eexists. split; [done|]. cbn [tcbs cctx].
  (* the thread is still ready after the switch, and the core came from it *)
  destruct (decide (n = t)) as [Hnt|Hnt].
  - eexists. rewrite <- Hnt. unfold gained. rewrite lookup_insert_eq. split; [done|]. left.
    split; [done|]. by rewrite lookup_insert_eq.
  - assert (exists tu, m3' !! t = Some tu /\ state tu = READY) as (tu1 & Htu1 & Hstu1).
    { unfold m3'. rewrite lookup_wake_all, lookup_insert_eq. unfold stop_running.
      rewrite (decide_False (P := state tc = RUNNING)) by congruence. case_decide; by eexists. }
    destruct (switched_lookup m3' t n here t tu1 Htu1) as (tu & Htu & Hstu & _).
    assert (u = t) as ->.
    { unfold m3, switched in Htn. rewrite Htu1 in Htn. destruct (m3' !! n) eqn:Hn3; [|congruence].
      rewrite decide_False in Htn by congruence.
      rewrite lookup_insert_ne, lookup_insert_eq in Htn by done. injection Htn as <-. simpl in Hu. congruence. }
    pose proof (sinv_lists (mkSched _ h4 _ _ M b4) _ _ _ I4) as [Hq _].
    unfold gained, gained_queue in *. fold m3 in Htu. rewrite (decide_False (P := t = n)) in * by congruence.
    rewrite Htu in *. rewrite Hstu1 in Hstu. rewrite lookup_insert_ne by done.
    unfold put_back. rewrite decide_False by congruence. rewrite lookup_insert_eq.
    eexists. split; [done|]. right. split; [done|]. eexists. split; [exact Hq|].
    rewrite decide_False by congruence. unfold requeued. rewrite decide_True by done.
    apply elem_of_app. right. by left.
Qed.
End yield_resume.

(** ** The interface to the condition variables *)

Section wake_interface.
Context {B : Type} `{BiosLaws B}.
Implicit Types (st : sched B) (t : tid).

Definition blocked st t : Prop := exists tc, tcbs st !! t = Some tc /\ sleeping tc = true.
Definition live st t : Prop := is_Some (tcbs st !! t).

#[export] Instance sched_wake (c : nat) : WakeOps tid (sched B) := wakeup c.

#[export] Instance sched_wake_laws (c : nat) : @WakeLaws tid (sched B) (sched_wake c) sched_ok blocked live.
Proof.
  split. intros st t (q & tl & pl & I) [tc Ht]. destruct st as [m h C A M b]. simpl in I, Ht.
  destruct (wakeup_ok _ _ _ _ _ _ _ c t tc M b I Ht) as (h' & b' & E & _ & I').
  eexists _, _. split; [exact E|]. split; [by eexists _, _, pl|].
  unfold blocked, live. cbn [tcbs]. split; [|split; [|split]].
  - split; [by exists tc|]. intros (tc' & Ht' & Hs). congruence.
  - intros (tc' & Ht' & Hs). destruct (sleeping tc) eqn:E'; [|congruence].
    rewrite lookup_insert_eq in Ht'. by injection Ht' as <-.
  - intros u Hu. destruct (sleeping tc); [|done]. by rewrite lookup_insert_ne.
  - intros u. destruct (sleeping tc); [|done]. rewrite lookup_insert_is_Some.
    destruct (decide (t = u)) as [->|]; [|tauto]. split; [by eexists|by left].
Qed.

(** The sleep of the current thread of the core [c], with the lock to release and the cause. *)
Definition runs (c lock : nat) (cause : SCHED_CAUSE) st t (timeout : Z) : Prop :=
  current_thread <$> cctx st !! c = Some t /\
  enabled (ReqSleep c STOPPED (Some lock) cause timeout) st = true.

#[export] Instance sched_block (c lock : nat) (cause : SCHED_CAUSE) : SleepOps tid (sched B) :=
  fun _ timeout st => sleep_releasing c STOPPED (Some lock) cause timeout st.

#[export] Instance sched_sleep_laws (c lock : nat) (cause : SCHED_CAUSE) :
  @SleepLaws tid (sched B) (sched_block c lock cause) sched_ok blocked live (runs c lock cause).
Proof.
  assert (forall st t timeout, runs c lock cause st t timeout -> exists cc, cctx st !! c = Some cc /\
    current_thread cc = t /\ pc cc = PcRun /\ is_normal t = true /\
    sleep_time (machine st) STOPPED timeout <> Some NO_TIMEOUT) as Hruns.
  { intros st t timeout [(cc & Hc & ->)%fmap_Some He]. cbn [enabled] in He. rewrite Hc in He.
    rewrite !andb_true_iff, !bool_decide_eq_true in He. destruct He as [[[Hr Hn] _] Hto].
    exists cc. by destruct (pc cc). }
  split.
  - intros st t timeout (q & tl & pl & I) (cc & Hc & <- & Hpc & Hn & Hto)%Hruns. destruct st as [m h C A M b].
    simpl in I, Hc, Hto.
    destruct (sleep_releasing_ok _ _ _ _ _ _ _ c cc STOPPED (Some lock) cause timeout M b I Hc Hpc Hn
      (or_introl eq_refl) Hto) as (tc & h' & b' & Ht & E & _ & I').
    eexists. split; [exact E|]. split; [by eexists _, _, pl|].
    unfold blocked, live. cbn [tcbs]. split; [|split].
    + eexists. rewrite lookup_insert_eq. split; [done|]. unfold sleeping, asleep. apply bool_decide_true.
      destruct (sleep_time b STOPPED timeout); by left.
    + intros u Hu. by rewrite lookup_insert_ne.
    + intros u. rewrite lookup_insert_is_Some. destruct (decide (current_thread cc = u)) as [<-|]; [|tauto].
      split; [by eexists|by left].
  - intros st t timeout (q & tl & pl & I) (cc & Hc & <- & _)%Hruns.
    destruct (i_core _ _ _ _ _ _ _ I _ _ Hc) as (_ & tc & Ht & _). by exists tc.
Qed.
End wake_interface.

(** ** Properties *)

Section properties.
Context {B : Type} `{BiosLaws B}.
Implicit Types (st : sched B) (r : request) (c : nat) (t u : tid) (q tl : list tid).

(** C18.  The scheduler never faults: in every state that any interleaving of the cores reaches, every
  request that the cores can make returns, so no [assert] of kernel_sched.c fails and no dangling
  TCB or list node is touched; and the new state is reachable again. *)
Theorem scheduler_never_faults st r :
  reachable st -> enabled r st = true -> exists st', perform r st = Ret st' /\ reachable st'.
Proof.
  intros Hr He. destruct (perform_ok r st (reachable_inv st Hr) He) as (st' & Hp & _). exists st'.
  split; [done|]. destruct Hr as (M & b & Hr). exists M, b. eapply reach_step; [done|]. by eapply step_request.
Qed.

(** C19.  No thread runs on two cores: different cores have different current threads; a current thread
  is allocated, and it is RUNNING exactly when its core runs; and every RUNNING thread is the current
  thread of a core. *)
Theorem one_core_per_thread st :
  reachable st ->
  (forall c1 c2 cc1 cc2, cctx st !! c1 = Some cc1 -> cctx st !! c2 = Some cc2 ->
     current_thread cc1 = current_thread cc2 -> c1 = c2) /\
  (forall c cc, cctx st !! c = Some cc -> exists tc, tcbs st !! current_thread cc = Some tc /\
     (state tc = RUNNING <-> pc cc = PcRun)) /\
  (forall t tc, tcbs st !! t = Some tc -> state tc = RUNNING -> on_core st t).
Proof.
  intros [(q & tl & pl & I) _]%reachable_inv. split; [|split].
  - intros c1 c2 cc1 cc2 H1 H2. by eapply core_inj.
  - intros c cc Hc. destruct (i_core _ _ _ _ _ _ _ I _ _ Hc) as (_ & tc & Ht & Hok).
    exists tc. split; [done|]. destruct (pc cc); simpl in Hok.
    + tauto.
    + destruct Hok as [_ [Hs|[Hs|Hs]]]; rewrite Hs; done.
    + destruct Hok as [Hs _]; rewrite Hs; done.
  - intros t tc Ht Hs. pose proof (place_cases _ _ _ _ t I) as Hp.
    destruct (i_thread _ _ _ _ _ _ _ I _ _ Ht) as [_ _ _ _ T5]. destruct (pl t); [|done|];
      destruct T5 as [_ [?|[?|?]]]; congruence.
Qed.

(** C20.  The ready queue holds, once each, exactly the normal threads that are READY, whose context is
  saved, and that no core has picked; and no READY thread is lost: one that is not queued is on a core
  or has just left one, whose [gain] will queue it. *)
Theorem ready_queue_exact st :
  reachable st -> exists q, queue_of st q /\ NoDup q /\
    (forall t, t ∈ q -> is_Some (tcbs st !! t)) /\
    forall t tc, tcbs st !! t = Some tc ->
      (t ∈ q <-> is_normal t = true /\ state tc = READY /\ phase tc = CTX_CLEAN /\ ~ on_core st t) /\
      (is_normal t = true -> state tc = READY -> t ∈ q \/ on_core st t \/ leaving_core st t).
Proof.
  intros [(q & tl & pl & I) _]%reachable_inv. exists q. split; [by eapply sinv_lists|].
  pose proof (sinv_NoDup _ _ _ _ _ _ _ I) as [Hnd _]. split; [done|]. split.
  - intros t Hq. apply elem_of_dom. eapply l_queue_in; [apply I|done].
  - intros t tc Ht. by eapply queue_exact.
Qed.

(** C21.  The timeout list holds, once each and in the order of their wakeup times, exactly the threads
  with a wakeup time; all of them are STOPPED. *)
Theorem timeout_list_exact st :
  reachable st -> exists tl, sleepers_of st tl /\ NoDup tl /\ StronglySorted (due_before (tcbs st)) tl /\
    forall t, t ∈ tl <-> exists tc, tcbs st !! t = Some tc /\ wakeup_time tc <> NO_TIMEOUT /\ state tc = STOPPED.
Proof.
  intros [(q & tl & pl & I) _]%reachable_inv. exists tl. split; [by eapply sinv_lists|].
  pose proof (sinv_NoDup _ _ _ _ _ _ _ I) as [_ Hnd]. split; [done|]. split; [apply I|]. intros t. split.
  - intros Ht. destruct (sinv_timeout_lookup _ _ _ _ _ _ _ _ I Ht) as (tc & Hm & Hs).
    exists tc. split; [done|]. split; [|done]. by eapply tk_timeout, Ht; apply I.
  - intros (tc & Hm & Hw & _). by eapply tk_timeout, Hw; apply I.
Qed.

(** [active_threads] counts the allocated normal threads (modulo the width of the counter), so
  an idle core leaves the scheduler only when no thread is left. *)
Theorem active_threads_exact st :
  reachable st -> active_threads st = u32 (normals (tcbs st)) /\
    ((normals (tcbs st) < 2 ^ 32)%Z -> idle_continues st = false ->
      forall n, tcbs st !! Thread n = None).
Proof.
  intros [(q & tl & pl & I) _]%reachable_inv. pose proof (i_active _ _ _ _ _ _ _ I) as HA. split; [done|].
  intros Hlt Hidle n. unfold idle_continues in Hidle. rewrite HA in Hidle.
  assert (0 <= normals (tcbs st))%Z as Hpos by (unfold normals; lia).
  rewrite wrap_small in Hidle by lia. apply Z.ltb_ge in Hidle.
  apply not_elem_of_dom. intros Hin.
  assert (size (filter (fun t => is_normal t = true) (dom (tcbs st))) = 0) as Hs%size_empty_inv
    by (unfold normals in *; lia).
  assert (Thread n ∈ filter (fun t => is_normal t = true) (dom (tcbs st))) as Hf by (by apply elem_of_filter).
  apply Hs in Hf. by apply not_elem_of_empty in Hf.
Qed.


(** [sleep_releasing] of the current thread stops it, releases the mutex, and, when it has a
  timeout, puts it on the timeout list after the sleepers due at the same time or before; the queue
  does not change. *)
Theorem sleep_effect st c cc newstate mx cause timeout q tl :
  sched_ok st -> queue_of st q -> sleepers_of st tl ->
  enabled (ReqSleep c newstate mx cause timeout) st = true -> cctx st !! c = Some cc ->
  let t := current_thread cc in let w := sleep_time (machine st) newstate timeout in
  exists tc st', sleep_releasing c newstate mx cause timeout st = Ret st' /\ sched_ok st' /\
    tcbs st !! t = Some tc /\ tcbs st' = <[t := asleep newstate w tc]> (tcbs st) /\
    (mutexes st' = match mx with Some x => mutexes st ∖ {[x]} | None => mutexes st end) /\
    cctx st' = <[c := mkCCB t false (PcYield (preemption cc))]> (cctx st) /\
    queue_of st' q /\ sleepers_of st' (sleep_list (tcbs st) w t tl).
Proof.
  intros Hok Hq Htl He Hc t w. destruct (ok_lists _ _ _ Hok Hq Htl) as [pl I]. destruct st as [m h C A M b].
  simpl in He, Hc. rewrite Hc in He. rewrite !andb_true_iff, !bool_decide_eq_true in He.
  destruct He as [[[Hr Hn] Hs] Hto]. assert (pc cc = PcRun) as Hpc by (by destruct (pc cc)).
  destruct (sleep_releasing_ok _ _ _ _ _ _ _ c cc newstate mx cause timeout M b I Hc Hpc Hn Hs Hto)
    as (tc & h' & b' & Ht & E & _ & I').
  exists tc. eexists. split; [exact E|]. split; [by eexists _, _, pl|]. do 4 (split; [done|]).
  by apply (sinv_lists (mkSched _ h' _ A ∅ b')) in I'.
Qed.

(** C23.  [yield] wakes the sleepers that are due, in the order of their wakeup times, behind the threads
  that were already ready, and picks the first of them all (the ready queue is FIFO); with nobody
  ready it stays on the current thread when that can go on, and takes the idle thread otherwise.
  The context of a thread that loses the core holds its preemption status, and the one of the
  [sleep_releasing] around.  Afterwards no thread is asleep whose wakeup time has passed. *)
Theorem yield_effect st c cc cause q tl :
  sched_ok st -> queue_of st q -> sleepers_of st tl ->
  cctx st !! c = Some cc -> is_gain (pc cc) = false ->
  let now := bios_clock (machine st) in let q1 := queue_at (tcbs st) now q tl in
  exists tc st' cc', tcbs st !! current_thread cc = Some tc /\
    yield c cause st = Ret st' /\ sched_ok st' /\
    cctx st' = <[c := cc']> (cctx st) /\ is_gain (pc cc') = true /\
    current_thread cc' = pick c (current_thread cc) (runnable tc) q1 /\
    queue_of st' (tail q1) /\ sleepers_of st' (later (tcbs st) now tl) /\
    (current_thread cc' <> current_thread cc -> context <$> tcbs st' !! current_thread cc =
       Some (CtxYield (preemption cc) (match pc cc with PcYield o => Some o | _ => None end))) /\
    forall u tu, tcbs st' !! u = Some tu -> wakeup_time tu <> NO_TIMEOUT -> (now < wakeup_time tu)%Z.
Proof.
  intros Hok Hq Htl Hc Hpc now q1. destruct (ok_lists _ _ _ Hok Hq Htl) as [pl I]. destruct st as [m h C A M b].
  destruct (yield_ok _ _ _ _ _ _ _ c cc cause M b I Hc) as (tc & Ht & h' & b' & pl' & E & _ & I').
  { by destruct (pc cc). }
  eexists tc, _, _. split; [done|]. split; [exact E|]. split; [by eexists _, _, pl'|]. do 3 (split; [done|]).
  pose proof (sinv_lists (mkSched _ h' _ A M b') _ _ _ I') as [? ?]. do 2 (split; [done|]).
  split; [intros Hne; simpl in Hne; by eapply switched_context|].
  intros u tu Hu Hw. eapply none_overdue; [apply I|exact Ht|exact I'|exact Hu|exact Hw].
Qed.

(** After a context switch the core runs the thread that was picked, with the preemption status
  that its context holds; the thread it came from is put back: queued if it is READY, kept if it
  sleeps, freed if it has exited. *)
Theorem resume_effect st c cc x :
  reachable st -> cctx st !! c = Some cc -> pc cc = PcGain x ->
  let t := current_thread cc in
  exists tc u st' q, tcbs st !! t = Some tc /\ tcb_prev tc = Some u /\ resume c st = Ret st' /\
    cctx st' = <[c := mkCCB t (restored x) PcRun]> (cctx st) /\
    tcbs st' = gained (tcbs st) t tc u /\ active_threads st' = gained_active (tcbs st) t u (active_threads st) /\
    queue_of st q /\ queue_of st' (gained_queue (tcbs st) t u q).
Proof.
  intros [(q & tl & pl & I) Hqt]%reachable_inv Hc Hpc t. destruct st as [m h C A M b].
  pose proof (Hqt c cc Hc) as Hpre. rewrite Hpc in Hpre. specialize (Hpre eq_refl).
  destruct (resume_ok _ _ _ _ _ _ _ c cc x M b I Hc Hpc) as (tc & u & h' & b' & pl' & Ht & Hu & E & _ & I').
  rewrite Hpre, orb_false_r in E.
  eexists tc, u, _, q. do 2 (split; [done|]). split; [exact E|]. do 3 (split; [done|]).
  pose proof (sinv_lists (mkSched m h C A M b) _ _ _ I) as [? _]. split; [done|].
  by pose proof (sinv_lists (mkSched _ h' _ _ M b') _ _ _ I') as [? _].
Qed.

(** C22.  No wakeup is lost: when the current thread of a core goes to sleep and another core wakes it
  before the first one has switched away, then, after the switch, the thread is running on that core
  or is in the ready queue. *)
Theorem no_lost_wakeup st c cc d mx cause timeout cause' st1 :
  reachable st -> cctx st !! c = Some cc -> d <> c ->
  enabled (ReqSleep c STOPPED mx cause timeout) st = true ->
  sleep_releasing c STOPPED mx cause timeout st = Ret st1 ->
  let t := current_thread cc in
  enabled (ReqWakeup d t) st1 = true ->
  exists st2, performs [ReqWakeup d t; ReqYield c cause'; ReqResume c] st1 = Some (Ret st2) /\
    exists tc, tcbs st2 !! t = Some tc /\
      ((state tc = RUNNING /\ current_thread <$> cctx st2 !! c = Some t) \/
       (state tc = READY /\ exists q, queue_of st2 q /\ t ∈ q)).
Proof.
  intros [(q & tl & pl & I) _]%reachable_inv Hc Hd He Es t Hw. destruct st as [m h C A M b].
  simpl in I, Hc, He. rewrite Hc in He. rewrite !andb_true_iff, !bool_decide_eq_true in He.
  destruct He as [[[Hr Hn] _] Hto]. assert (pc cc = PcRun) as Hpc by (by destruct (pc cc)).
  destruct (sleep_releasing_ok _ _ _ _ _ _ _ c cc STOPPED mx cause timeout M b I Hc Hpc Hn (or_introl eq_refl) Hto)
    as (tc & h1 & b1 & Ht & E1 & _ & I1). fold t in Ht, E1, I1, Hn.
  rewrite E1 in Es. injection Es as <-. set (w := sleep_time b STOPPED timeout) in *.
  assert (<[t := asleep STOPPED w tc]> m !! t = Some (asleep STOPPED w tc)) as Ht1 by apply lookup_insert_eq.
  assert (sleeping (asleep STOPPED w tc) = true) as Hsl.
  { unfold sleeping, asleep. apply bool_decide_true. destruct w; by left. }
  cbn [performs]. rewrite Hw. unfold perform at 1.
  destruct (wakeup_ok _ _ _ _ _ _ _ d t _ (match mx with Some x => M ∖ {[x]} | None => M end) b1 I1 Ht1)
    as (h2 & b2 & E2 & _ & I2).
  rewrite Hsl in E2, I2. rewrite E2, ret_bind.
  apply (yield_resume_ready _ _ _ _ _ _ _ c (mkCCB t false (PcYield (preemption cc))) (preemption cc) cause' _ _
    (ready (asleep STOPPED w tc)) I2); [apply lookup_insert_eq|done|done|apply lookup_insert_eq|done].
Qed.
End properties.

(** ** Concrete runs

  A machine that is nothing but a clock, two cores and two threads. *)

#[export] Instance clock_ops : BiosOps Z := {|
  bios_clock b := u64 b;
  bios_set_timer _ _ b := b;
  cpu_core_restart_one b := b;
  cpu_core_restart_all b := b;
  cpu_enable_interrupts _ b := b;
  cpu_disable_interrupts _ b := b
|}.

#[export] Instance clock_laws : BiosLaws Z.
Proof. split; try done. intros b. by apply (wrap_range 64). Qed.

(** The state after a run that starts at time [now]. *)
Definition after (rs : list request) (now : Z) : sched Z :=
  match performs rs (booted ∅ now) with Some (Ret st) => st | _ => booted ∅ now end.

Lemma after_reachable rs now : reachable (after rs now).
Proof.
  unfold after. destruct (performs rs (booted ∅ now)) as [[st|]|] eqn:E;
    [|exists ∅, now; constructor..].
  exists ∅, now. by eapply performs_reach.
Qed.

(** Both threads are ready. *)
Definition setup : list request :=
  [ReqBoot 0 (Some 0%Z); ReqBoot 1 (Some 0%Z); ReqSpawn 1 (Some 1%Z) 7; ReqSpawn 2 (Some 2%Z) 8;
   ReqWakeup 0 (Thread 1); ReqWakeup 0 (Thread 2)].

(** Core 0 runs the first thread. *)
Definition running : list request := setup ++ [ReqYield 0 SCHED_IDLE; ReqResume 0].

(** It sleeps until time 500. *)
Definition asleep_run : list request := running ++ [ReqSleep 0 STOPPED (Some 3) SCHED_USER 500].

Lemma scheduler_never_faults_witness :
  exists st', perform (ReqYield 0 SCHED_USER) (after asleep_run 0) = Ret st' /\ reachable st'.
Proof. apply (scheduler_never_faults (after asleep_run 0)); [apply after_reachable|by vm_compute]. Defined.

Lemma one_core_per_thread_witness :
  exists tc, tcbs (after running 0) !! Thread 1 = Some tc /\ (state tc = RUNNING <-> PcRun = PcRun).
Proof.
  destruct (one_core_per_thread (after running 0) (after_reachable _ _)) as (_ & Hc & _).
  exact (Hc 0 (mkCCB (Thread 1) true PcRun) ltac:(by vm_compute)).
Defined.

Lemma ready_queue_exact_witness :
  exists q, queue_of (after running 0) q /\ Thread 2 ∈ q.
Proof.
  assert (~ on_core (after running 0) (Thread 2)) as Hno.
  { intros (c & cc & Hc & Hcc).
    assert (cctx (after running 0) = <[0 := mkCCB (Thread 1) true PcRun]> (<[1 := mkCCB (IdleThread 1) true PcRun]> ∅))
      as E by (by vm_compute).
    rewrite E, !lookup_insert_Some, lookup_empty in Hc. clear E.
    destruct Hc as [[_ <-]|[_ [[_ <-]|[_ Hc]]]]; [discriminate Hcc|discriminate Hcc|discriminate Hc]. }
  destruct (ready_queue_exact (after running 0) (after_reachable _ _)) as (q & Hq & _ & _ & Hex).
  exists q. split; [exact Hq|].
  destruct (Hex (Thread 2) (ready (fresh_tcb (Some 2%Z) 8)) ltac:(by vm_compute)) as [Hin _].
  apply Hin. split; [reflexivity|]. split; [reflexivity|]. split; [reflexivity|exact Hno].
Defined.

Lemma timeout_list_exact_witness :
  exists tl, sleepers_of (after asleep_run 0) tl /\ Thread 1 ∈ tl.
Proof.
  destruct (timeout_list_exact (after asleep_run 0) (after_reachable _ _)) as (tl & Htl & _ & _ & Hin).
  exists tl. split; [exact Htl|]. apply Hin. eexists. split; [by vm_compute|]. by split.
Defined.

Lemma active_threads_exact_witness : active_threads (after running 0) = u32 2.
Proof. by destruct (active_threads_exact (after running 0) (after_reachable _ _)) as [-> _]. Defined.

Lemma after_ok rs now : sched_ok (after rs now).
Proof. apply reachable_inv, after_reachable. Qed.


Lemma sleep_effect_witness :
  exists st', sleep_releasing 0 STOPPED (Some 3) SCHED_USER 500 (after running 0) = Ret st' /\
    queue_of st' [Thread 2] /\ sleepers_of st' [Thread 1].
Proof.
  destruct (sleep_effect (after running 0) 0 (mkCCB (Thread 1) true PcRun) STOPPED (Some 3) SCHED_USER 500
    [Thread 2] []) as (tc & st' & E & _ & _ & _ & _ & _ & Hq & Htl).
  - apply after_ok.
  - by apply (bool_decide_unpack _); vm_compute.
  - by apply (bool_decide_unpack _); vm_compute.
  - by vm_compute.
  - by vm_compute.
  - exists st'. split; [exact E|]. split; [exact Hq|exact Htl].
Defined.

Lemma yield_effect_witness :
  exists st', yield 0 SCHED_USER (after asleep_run 0) = Ret st' /\
    queue_of st' [] /\ sleepers_of st' [Thread 1].
Proof.
  destruct (yield_effect (after asleep_run 0) 0 (mkCCB (Thread 1) false (PcYield true)) SCHED_USER
    [Thread 2] [Thread 1]) as (tc & st' & cc' & _ & E & _ & _ & _ & _ & Hq & Htl & _).
  - apply after_ok.
  - by apply (bool_decide_unpack _); vm_compute.
  - by apply (bool_decide_unpack _); vm_compute.
  - by vm_compute.
  - done.
  - exists st'. split; [exact E|]. split; [exact Hq|exact Htl].
Defined.

Lemma resume_effect_witness :
  exists st', resume 0 (after (setup ++ [ReqYield 0 SCHED_IDLE]) 0) = Ret st' /\
    cctx st' !! 0 = Some (mkCCB (Thread 1) true PcRun).
Proof.
  destruct (resume_effect (after (setup ++ [ReqYield 0 SCHED_IDLE]) 0) 0
    (mkCCB (Thread 1) false (PcGain CtxStart)) CtxStart) as (tc & u & st' & q & _ & _ & E & Hc & _).
  - apply after_reachable.
  - by vm_compute.
  - done.
  - exists st'. split; [exact E|]. rewrite Hc. apply lookup_insert_eq.
Defined.

Lemma no_lost_wakeup_witness :
  exists st2, performs [ReqWakeup 1 (Thread 1); ReqYield 0 SCHED_USER; ReqResume 0] (after asleep_run 0) = Some (Ret st2).
Proof.
  destruct (no_lost_wakeup (after running 0) 0 (mkCCB (Thread 1) true PcRun) 1 (Some 3) SCHED_USER 500
    SCHED_USER (after asleep_run 0)) as (st2 & E & _).
  - apply after_reachable.
  - by vm_compute.
  - done.
  - by vm_compute.
  - by vm_compute.
  - by vm_compute.
  - exists st2. exact E.
Defined.
