(* ===== verification/CondVar.v ===== *)
(** * Condition variables (kernel_cc.c)

  A condition variable is a pointer into a ring of waiters; the waiters are the local variables of the
  threads that are inside [cv_wait].  The model keeps the waiters and their ring nodes in stores, from
  which a waiter disappears when its [cv_wait] returns, so that a dangling pointer would be a
  [BadAccess].  Each operation is one critical section of the [waitset_lock].  The scheduler is used
  through [WakeOps] and [SleepOps]. *)

From S2P Require Import Prelude Rlist Iface Sched SchedInv SchedSys.

(** ** Data *)

Record cv_waiter (T : Type) := mkWaiter {
  thread : T;
  signalled : bool;
  removed : bool
}.
Arguments mkWaiter {T}.
Arguments thread {T}.
Arguments signalled {T}.
Arguments removed {T}.

(** The waiters by address, their nodes (whose key is the waiter), the [waitset] of every condition
  variable, the mutexes that are locked, and the scheduler. *)
Record ccst (T S : Type) := mkCC {
  waiters : gmap nat (cv_waiter T);
  wring : rlheap nat (option nat);
  waitset : gmap nat (option nat);
  held : gset nat;
  sch : S
}.
Arguments mkCC {T S}.
Arguments waiters {T S}.
Arguments wring {T S}.
Arguments waitset {T S}.
Arguments held {T S}.
Arguments sch {T S}.

(** ** Operations *)

Section operations.
Context {T S : Type} `{WakeOps T S} `{SleepOps T S}.
Implicit Types (st : ccst T S) (cv w mutex : nat) (t : T).

Definition with_waiters m st : ccst T S := mkCC m (wring st) (waitset st) (held st) (sch st).
Definition with_wring h st : ccst T S := mkCC (waiters st) h (waitset st) (held st) (sch st).
Definition with_waitset m st : ccst T S := mkCC (waiters st) (wring st) m (held st) (sch st).
Definition with_held m st : ccst T S := mkCC (waiters st) (wring st) (waitset st) m (sch st).
Definition with_sch s st : ccst T S := mkCC (waiters st) (wring st) (waitset st) (held st) s.

Definition upd_waiter w (f : cv_waiter T -> cv_waiter T) st : outcome (ccst T S) :=
  x ← deref (waiters st !! w); Ret (with_waiters (<[w := f x]> (waiters st)) st).

Definition set_signalled (x : cv_waiter T) : cv_waiter T := mkWaiter (thread x) true (removed x).
Definition set_removed (x : cv_waiter T) : cv_waiter T := mkWaiter (thread x) (signalled x) true.

Definition remove_from_ring cv w st : outcome (ccst T S) :=
  ws ← deref (waitset st !! cv);
  st ← (if decide (ws = Some w) then
          nd ← deref (wring st !! w);
          nn ← deref (wring st !! next nd);
          nextw ← deref (obj nn);
          Ret (with_waitset (<[cv := if decide (nextw = w) then None else Some nextw]> (waitset st)) st)
        else Ret st);
  '(_, h) ← rlist_remove w (wring st);
  Ret (with_wring h st).

(** The first half of [cv_wait]: [w] is the address of its local variable, [t] the current thread. *)
Definition cv_wait_begin cv w mutex t (timeout : Z) st : outcome (ccst T S) :=
  let st := with_waiters (<[w := mkWaiter t false false]> (waiters st)) st in
  let '(_, h) := rlnode_init w (Some w) (wring st) in
  let st := with_wring h st in
  ws ← deref (waitset st !! cv);
  st ← match ws with
       | Some wset => h ← rlist_push_back wset w (wring st); Ret (with_wring h st)
       | None => Ret (with_waitset (<[cv := Some w]> (waitset st)) st)
       end;
  let st := with_held (held st ∖ {[mutex]}) st in
  s ← block t timeout (sch st);
  Ret (with_sch s st).

(** The second half, after the thread woke up; the local variable goes away when it returns. *)
Definition cv_wait_end cv w mutex st : outcome (bool * ccst T S) :=
  x ← deref (waiters st !! w);
  st ← (if removed x then Ret st
        else _ ← c_assert (negb (signalled x)); remove_from_ring cv w st);
  let st := with_held ({[mutex]} ∪ held st) st in
  x ← deref (waiters st !! w);
  Ret (signalled x,
       with_waiters (delete w (waiters st)) (with_wring (delete w (wring st)) st)).

Fixpoint cv_signal_loop (fuel : nat) cv st : outcome (ccst T S) :=
  match fuel with
  | O => Err OutOfFuel
  | Datatypes.S fuel =>
      ws ← deref (waitset st !! cv);
      match ws with
      | None => Ret st
      | Some w =>
          st ← remove_from_ring cv w st;
          st ← upd_waiter w set_removed st;
          x ← deref (waiters st !! w);
          '(b, s) ← wake (thread x) (sch st);
          let st := with_sch s st in
          if (b : bool) then upd_waiter w set_signalled st else cv_signal_loop fuel cv st
      end
  end.

(** Every iteration takes a node off the ring. *)
Definition cv_signal cv st : outcome (ccst T S) := cv_signal_loop (Datatypes.S (size (wring st))) cv st.

Definition Cond_Signal cv st : outcome (ccst T S) := cv_signal cv st.

Fixpoint Cond_Broadcast_loop (fuel : nat) cv st : outcome (ccst T S) :=
  match fuel with
  | O => Err OutOfFuel
  | Datatypes.S fuel =>
      ws ← deref (waitset st !! cv);
      match ws with
      | None => Ret st
      | Some _ => st ← cv_signal cv st; Cond_Broadcast_loop fuel cv st
      end
  end.

Definition Cond_Broadcast cv st : outcome (ccst T S) :=
  Cond_Broadcast_loop (Datatypes.S (size (wring st))) cv st.

Definition Cond_Wait (cv w mutex : nat) t st : outcome (ccst T S) :=
  cv_wait_begin cv w mutex t (2 ^ 64 - 1) st.

(** The timeout is in milliseconds, the clock in microseconds; [timeout_t] is an unsigned 64-bit type. *)
Definition Cond_TimedWait (cv w mutex : nat) t (timeout : Z) st : outcome (ccst T S) :=
  cv_wait_begin cv w mutex t (u64 (timeout * 1000)) st.
End operations.

(** ** What a condition variable holds

  [cc_inv st wl]: in the state [st] the condition variable [cv] holds the waiters [wl !! cv], in the
  order in which they came. *)

Section invariant.
Context {T S : Type} (ok : S -> Prop) (blocked live : S -> T -> Prop).

Record cc_inv (st : ccst T S) (wl : gmap nat (list nat)) : Prop := {
  cc_head cv : waitset st !! cv = head <$> wl !! cv;
  cc_ring cv ws : wl !! cv = Some ws -> ws = [] \/ ring (wring st) ws;
  cc_waiting cv ws w : wl !! cv = Some ws -> w ∈ ws ->
    exists x, waiters st !! w = Some x /\ removed x = false /\ signalled x = false;
  cc_disjoint cv cv' ws ws' w : wl !! cv = Some ws -> wl !! cv' = Some ws' -> w ∈ ws -> w ∈ ws' -> cv = cv';
  cc_alone w x : waiters st !! w = Some x -> removed x = true -> ring (wring st) [w];
  cc_member w x : waiters st !! w = Some x -> removed x = false -> exists cv ws, wl !! cv = Some ws /\ w ∈ ws;
  cc_threads w w' x x' : waiters st !! w = Some x -> waiters st !! w' = Some x' -> thread x = thread x' -> w = w';
  cc_key w x : waiters st !! w = Some x -> obj_of (wring st) w = Some (Some w);
  cc_sched : ok (sch st);
  cc_live w x : waiters st !! w = Some x -> live (sch st) (thread x)
}.

(** What [cv_signal] does to the list [ws] of waiters: it takes off those of [k], whose threads were not
  blocked any more, and the first one, [sig], whose thread was; [r] are left. *)
Record signal_spec (st : ccst T S) (ws : list nat) (st' : ccst T S) (k : list nat) (sig : option nat)
    (r : list nat) : Prop := {
  ss_split : ws = k ++ match sig with Some w => w :: r | None => r end;
  ss_all : sig = None -> r = [];
  ss_skipped w : w ∈ k -> exists x, waiters st !! w = Some x /\ ~ blocked (sch st) (thread x);
  ss_signalled w : sig = Some w -> exists x, waiters st !! w = Some x /\ blocked (sch st) (thread x);
  ss_waiters w : waiters st' !! w =
    (if decide (sig = Some w) then fun x => mkWaiter (thread x) true true
     else if decide (w ∈ k) then set_removed else id) <$> waiters st !! w;
  ss_held : held st' = held st;
  ss_blocked u : blocked (sch st') u <-> blocked (sch st) u /\
    forall w x, sig = Some w -> waiters st !! w = Some x -> u <> thread x;
  ss_live u : live (sch st') u <-> live (sch st) u
}.

(** What [Cond_Broadcast] does to the list [ws] of waiters. *)
Record broadcast_spec (st : ccst T S) (ws : list nat) (st' : ccst T S) : Prop := {
  bs_waiters w x : w ∈ ws -> waiters st !! w = Some x -> exists b,
    waiters st' !! w = Some (mkWaiter (thread x) b true) /\ (b = true <-> blocked (sch st) (thread x));
  bs_others w : w ∉ ws -> waiters st' !! w = waiters st !! w;
  bs_held : held st' = held st;
  bs_blocked u : blocked (sch st') u <-> blocked (sch st) u /\
    forall w x, w ∈ ws -> waiters st !! w = Some x -> u <> thread x;
  bs_live u : live (sch st') u <-> live (sch st) u
}.
End invariant.

(** ** The system of the threads that use condition variables

  [home w] is the condition variable that the call of [cv_wait] with the local variable [w] is on: the
  thread passes it again in the second half. *)

Section system.
Context {T S : Type} `{WakeOps T S} `{SleepOps T S}.
Context (ok : S -> Prop) (blocked live : S -> T -> Prop) (runs : S -> T -> Z -> Prop).

Inductive cc_call :=
  | CallWait (cv w mutex : nat) (t : T) (timeout : Z)
  | CallWaitEnd (cv w mutex : nat)
  | CallSignal (cv : nat)
  | CallBroadcast (cv : nat)
  | CallOther (t : T).

Record ccsys := mkSys { cc : ccst T S; home : gmap nat nat }.

(** When a thread can make a call.  The second half of [cv_wait] runs when its thread is not blocked any
  more, for whatever reason. *)
Definition cc_enabled (c : cc_call) (y : ccsys) : Prop :=
  match c with
  | CallWait cv w _ t timeout => is_Some (waitset (cc y) !! cv) /\ waiters (cc y) !! w = None /\
      (forall v x, waiters (cc y) !! v = Some x -> thread x <> t) /\ runs (sch (cc y)) t timeout
  | CallWaitEnd cv w _ => home y !! w = Some cv /\
      exists x, waiters (cc y) !! w = Some x /\ ~ blocked (sch (cc y)) (thread x)
  | CallSignal cv | CallBroadcast cv => is_Some (waitset (cc y) !! cv)
  | CallOther t => live (sch (cc y)) t
  end.

(** What the call answers (of the second half of [cv_wait]: the value that it returns) and the new state. *)
Definition cc_perform (c : cc_call) (y : ccsys) : outcome (option bool * ccsys) :=
  match c with
  | CallWait cv w mutex t timeout =>
      st ← cv_wait_begin cv w mutex t timeout (cc y); Ret (None, mkSys st (<[w := cv]> (home y)))
  | CallWaitEnd cv w mutex =>
      '(b, st) ← cv_wait_end cv w mutex (cc y); Ret (Some b, mkSys st (delete w (home y)))
  | CallSignal cv => st ← Cond_Signal cv (cc y); Ret (None, mkSys st (home y))
  | CallBroadcast cv => st ← Cond_Broadcast cv (cc y); Ret (None, mkSys st (home y))
  | CallOther t => '(_, s) ← wake t (sch (cc y)); Ret (None, mkSys (with_sch s (cc y)) (home y))
  end.

Inductive cc_step (y : ccsys) : ccsys -> Prop :=
  | cc_do c b y' : cc_enabled c y -> cc_perform c y = Ret (b, y') -> cc_step y y'.

(** Any number of condition variables, nobody waiting. *)
Definition cc_start (cvs : gset nat) (l : gset nat) (s : S) : ccsys :=
  mkSys (mkCC ∅ ∅ (gset_to_gmap None cvs) l s) ∅.

Definition cc_sys_inv (y : ccsys) : Prop :=
  exists wl, cc_inv ok live (cc y) wl /\
    forall w x, waiters (cc y) !! w = Some x -> (signalled x = true -> removed x = true) /\
      exists cv, home y !! w = Some cv /\
        (removed x = false -> exists ws, wl !! cv = Some ws /\ w ∈ ws).
End system.

(** ** Lemmas *)

Section lemmas.
Context {T S : Type} `{EqDecision T} `{WakeOps T S} `{SleepOps T S}.
Context (ok : S -> Prop) (blocked live : S -> T -> Prop) (runs : S -> T -> Z -> Prop).
Context `{!WakeLaws T S ok blocked live} `{!SleepLaws T S ok blocked live runs}.
Implicit Types (st : ccst T S) (wl : gmap nat (list nat)) (cv w : nat) (ws k r : list nat).

Local Abbreviation inv := (cc_inv ok live).

Lemma upd_waiter_eq m h s l (c : S) w f (x : cv_waiter T) :
  m !! w = Some x -> upd_waiter w f (mkCC m h s l c) = Ret (mkCC (<[w := f x]> m) h s l c).
Proof. intros Hx. unfold upd_waiter. cbn [waiters]. by rewrite Hx. Qed.

Lemma cc_obj st wl w x : inv st wl -> waiters st !! w = Some x ->
  exists nd, wring st !! w = Some nd /\ obj nd = Some w.
Proof.
  intros I Hw. pose proof (cc_key _ _ _ _ I _ _ Hw) as Hk. unfold obj_of in Hk.
  destruct (wring st !! w) as [nd|]; simplify_eq/=. by exists nd.
Qed.

Lemma remove_from_ring_ok st wl cv k w r :
  inv st wl -> wl !! cv = Some (k ++ w :: r) ->
  exists h, remove_from_ring cv w st =
      Ret (mkCC (waiters st) h (<[cv := head (k ++ r)]> (waitset st)) (held st) (sch st)) /\
    ring h [w] /\ (k ++ r = [] \/ ring h (k ++ r)) /\ frame [w] (wring st) h.
Proof.
  intros I Hwl. pose proof (cc_head _ _ _ _ I cv) as Hh. rewrite Hwl in Hh. simpl in Hh.
  assert (ring (wring st) (k ++ w :: r)) as Hr.
  { destruct (cc_ring _ _ _ _ I _ _ Hwl) as [?|?]; [|done]. by destruct k. }
  destruct (rlist_remove_any _ _ _ _ Hr) as (h & E & Hw & Hkr & Hf).
  exists h. split; [|done]. unfold remove_from_ring. rewrite Hh. cbn [deref]. rewrite ret_bind.
  destruct k as [|a k]; simpl head in *.
  - rewrite decide_True by done. simpl in Hr. destruct Hr as [Hnd Hl].
    apply links_first in Hl as [[He1 He2] _]. apply load_lookup in He1 as (nd & -> & Hn).
    cbn [deref]. rewrite ret_bind, Hn.
    assert (exists x, waiters st !! hd_or w r = Some x) as [x Hx].
    { destruct (cc_waiting _ _ _ _ I cv _ (hd_or w r) Hwl) as (x & ? & _); [|by exists x]. destruct r; simpl; list_mem. }
    destruct (cc_obj _ _ _ _ I Hx) as (nn & -> & Hnn). cbn [deref]. rewrite ret_bind, Hnn. cbn [deref]. rewrite !ret_bind.
    assert ((if decide (hd_or w r = w) then None else Some (hd_or w r)) = head r) as ->.
    { destruct r as [|b r]; simpl; [by rewrite decide_True|]. rewrite decide_False; [done|].
      intros ->. apply NoDup_cons in Hnd as [Hnd _]. apply Hnd. by left. }
    change (wring (with_waitset (<[cv:=head r]> (waitset st)) st)) with (wring st). by rewrite E.
  - rewrite decide_False.
    2: { intros [= ->]. destruct Hr as [[Hn _]%NoDup_cons _]. apply Hn. list_mem. }
    rewrite ret_bind, E, ret_bind. unfold with_wring. by rewrite insert_id.
Qed.

(** A waiter leaves the list of [cv]: it is marked as removed, and the scheduler may have moved on. *)
Lemma cc_inv_remove st wl cv k w r h x x' s' :
  inv st wl -> wl !! cv = Some (k ++ w :: r) -> waiters st !! w = Some x ->
  thread x' = thread x -> removed x' = true ->
  ring h [w] -> (k ++ r = [] \/ ring h (k ++ r)) -> frame [w] (wring st) h ->
  ok s' -> (forall u, live s' u <-> live (sch st) u) ->
  inv (mkCC (<[w := x']> (waiters st)) h (<[cv := head (k ++ r)]> (waitset st)) (held st) s')
    (<[cv := k ++ r]> wl).
Proof.
  intros I Hwl Hx Hth Hrem Hw Hkr Hf Hok Hlive. pose proof I as [I1 I2 I3 I4 I5 I6 I7 I8 I9 I10].
  assert (NoDup (k ++ w :: r)) as Hnd.
  { destruct (I2 _ _ Hwl) as [E|?]; [by destruct k|by eapply ring_NoDup]. }
  assert (w ∉ k ++ r) as Hnw.
  { rewrite elem_of_app. apply NoDup_app in Hnd as (_ & Hd & [Hn _]%NoDup_cons). intros [Hk|Hr]; [|done].
    apply (Hd _ Hk). by left. }
  assert (forall c ws v, <[cv := k ++ r]> wl !! c = Some ws -> v ∈ ws ->
    v <> w /\ exists ws', wl !! c = Some ws' /\ v ∈ ws') as Hsub.
  { intros c ws v Hc Hv. destruct (decide (cv = c)) as [<-|Hne].
    - rewrite lookup_insert_eq in Hc. injection Hc as <-. split; [congruence|]. eexists. split; [done|]. list_mem.
    - rewrite lookup_insert_ne in Hc by done. split; [|by eexists]. intros ->.
      apply Hne. apply (I4 _ _ _ _ w Hwl Hc); [list_mem|done]. }
  split; simpl.
  - intros c. destruct (decide (cv = c)) as [<-|]; [by rewrite !lookup_insert_eq|by rewrite !lookup_insert_ne].
  - intros c ws Hc. destruct (decide (cv = c)) as [<-|Hne].
    + rewrite lookup_insert_eq in Hc. by injection Hc as <-.
    + pose proof Hc as Hc'. rewrite lookup_insert_ne in Hc by done. destruct (I2 _ _ Hc) as [->|Hr]; [by left|right].
      apply (frame_ring _ _ _ Hf); [done|]. intros v Hv ->%list_elem_of_singleton.
      by destruct (Hsub c ws w Hc' Hv).
  - intros c ws v Hc Hv. destruct (Hsub c ws v Hc Hv) as (Hne & ws' & Hc' & Hv').
    rewrite lookup_insert_ne by done. by eapply I3.
  - intros c c' ws ws' v Hc Hc' Hv Hv'. destruct (Hsub c ws v Hc Hv) as (_ & ? & ? & ?).
    destruct (Hsub c' ws' v Hc' Hv') as (_ & ? & ? & ?). by eapply I4.
  - intros v y Hy Hr. destruct (decide (w = v)) as [<-|Hne]; [done|]. rewrite lookup_insert_ne in Hy by done.
    apply (frame_ring _ _ _ Hf [v]); [by eapply I5|]. by apply singleton_disjoint; rewrite list_elem_of_singleton; congruence.
  - intros v y Hy Hr. destruct (decide (w = v)) as [<-|Hne].
    { rewrite lookup_insert_eq in Hy. injection Hy as <-. congruence. }
    rewrite lookup_insert_ne in Hy by done. destruct (I6 _ _ Hy Hr) as (c & ws & Hc & Hv).
    destruct (decide (cv = c)) as [<-|Hc'].
    + exists cv, (k ++ r). rewrite lookup_insert_eq. split; [done|]. rewrite Hwl in Hc. injection Hc as <-.
      assert (v <> w) by congruence. list_mem.
    + exists c, ws. by rewrite lookup_insert_ne.
  - intros v v' y y' Hy Hy'. destruct (decide (w = v)) as [<-|], (decide (w = v')) as [<-|];
      rewrite ?lookup_insert_eq in Hy; rewrite ?lookup_insert_eq in Hy';
      rewrite ?lookup_insert_ne in Hy by done; rewrite ?lookup_insert_ne in Hy' by done.
    + done.
    + injection Hy as <-. rewrite Hth. by apply I7.
    + injection Hy' as <-. rewrite Hth. by apply I7.
    + by apply I7.
  - intros v y Hy. rewrite (frame_obj _ _ _ Hf). destruct (decide (w = v)) as [<-|];
      [by eapply I8|rewrite lookup_insert_ne in Hy by done; by eapply I8].
  - done.
  - intros v y Hy. rewrite Hlive. destruct (decide (w = v)) as [<-|].
    + rewrite lookup_insert_eq in Hy. injection Hy as <-. rewrite Hth. by eapply I10.
    + rewrite lookup_insert_ne in Hy by done. by eapply I10.
Qed.

(** The three ways a round of [cv_signal] goes: nobody waits; the first waiter sleeps and is woken; it is
  awake already, and the search goes on behind it. *)
Lemma signal_nobody st : signal_spec blocked live st [] st [] None [].
Proof.
  split; try done; [by intros ? ?%not_elem_of_nil| |].
  - intros w. rewrite decide_False by done. by rewrite option_fmap_id.
  - intros u. naive_solver.
Qed.

Lemma signal_found st w ws x h ss s' :
  waiters st !! w = Some x -> blocked (sch st) (thread x) -> ~ blocked s' (thread x) ->
  (forall u, u <> thread x -> blocked s' u <-> blocked (sch st) u) -> (forall u, live s' u <-> live (sch st) u) ->
  signal_spec blocked live st (w :: ws)
    (mkCC (<[w := set_signalled (set_removed x)]> (waiters st)) h ss (held st) s') [] (Some w) ws.
Proof.
  intros Hx Hb Hnb Hoth Hlive. split; try done.
  - by intros ? ?%not_elem_of_nil.
  - intros v [= <-]. by exists x.
  - intros v. cbn [waiters]. destruct (decide (Some w = Some v)) as [[= <-]|Hne].
    + by rewrite lookup_insert_eq, Hx.
    + rewrite lookup_insert_ne by congruence. rewrite decide_False by apply not_elem_of_nil. by rewrite option_fmap_id.
  - intros u. cbn [sch]. destruct (decide (u = thread x)) as [->|Hne].
    + split; [done|]. intros [_ Hn]. by destruct (Hn w x).
    + rewrite Hoth by done. split; [|tauto]. intros ?. split; [done|]. intros ? ? [= <-] ?. congruence.
Qed.

Lemma signal_skip st w ws x h ss s' st' k sig r :
  waiters st !! w = Some x -> NoDup (w :: ws) -> ~ blocked (sch st) (thread x) ->
  (forall u, blocked s' u <-> blocked (sch st) u) -> (forall u, live s' u <-> live (sch st) u) ->
  signal_spec blocked live (mkCC (<[w := set_removed x]> (waiters st)) h ss (held st) s') ws st' k sig r ->
  signal_spec blocked live st (w :: ws) st' (w :: k) sig r.
Proof.
  intros Hx [Hnw _]%NoDup_cons Hnbx Hbs Hlive [S1 S2 S3 S4 S5 S6 S7 S8]. cbn [waiters sch held] in *.
  assert (forall v, v ∈ k \/ sig = Some v -> v <> w) as Hvw.
  { intros v Hv ->. apply Hnw. rewrite S1. destruct Hv as [Hv| ->]; list_mem. }
  split; try done.
  - by rewrite S1 at 1.
  - intros v [->|Hv]%elem_of_cons; [by exists x|]. destruct (S3 v Hv) as (y & Hy & Hny).
    rewrite lookup_insert_ne in Hy by (intros <-; eapply Hvw; eauto). exists y. by rewrite <- Hbs.
  - intros v Hv. destruct (S4 v Hv) as (y & Hy & Hny).
    rewrite lookup_insert_ne in Hy by (intros <-; eapply Hvw; eauto). exists y. by rewrite <- Hbs.
  - intros v. rewrite S5. destruct (decide (w = v)) as [<-|Hne].
    + rewrite lookup_insert_eq, Hx. rewrite !decide_False by (intros ?; eapply Hvw; eauto).
      rewrite decide_True by (by left). done.
    + rewrite lookup_insert_ne by done. case_decide; [done|].
      rewrite (decide_ext (v ∈ w :: k) (v ∈ k)); [done|]. rewrite elem_of_cons. naive_solver.
  - intros u. rewrite S7, Hbs. split; intros [? Hn]; (split; [done|]); intros v y Hv Hy.
    + apply (Hn v y Hv). rewrite lookup_insert_ne; [done|]. intros <-. eapply Hvw; eauto.
    + rewrite lookup_insert_ne in Hy by (intros <-; eapply Hvw; eauto). by apply (Hn v y).
  - intros u. by rewrite S8, Hlive.
Qed.

(** [cv_signal]. *)
Lemma cv_signal_loop_ok fuel st wl cv ws :
  inv st wl -> wl !! cv = Some ws -> length ws < fuel ->
  exists st' k sig r, cv_signal_loop fuel cv st = Ret st' /\ inv st' (<[cv := r]> wl) /\
    signal_spec blocked live st ws st' k sig r.
Proof.
  revert st wl ws. induction fuel as [|fuel IH]; intros st wl ws I Hwl Hf; [lia|]. simpl.
  pose proof (cc_head _ _ _ _ I cv) as Hh. rewrite Hwl in Hh. simpl in Hh. rewrite Hh. cbn [deref]. rewrite ret_bind.
  destruct ws as [|w ws]; simpl.
  { exists st, [], None, []. split; [done|]. split; [by rewrite insert_id|apply signal_nobody]. }
  destruct (remove_from_ring_ok st wl cv [] w ws I Hwl) as (h & E & Hw & Hkr & Hfr). simpl in E, Hkr.
  rewrite E, ret_bind. destruct (cc_waiting _ _ _ _ I cv _ w Hwl) as (x & Hx & Hrm & Hsg); [by left|].
  rewrite (upd_waiter_eq _ _ _ _ _ w _ x Hx), ret_bind. cbn [waiters]. rewrite lookup_insert_eq. cbn [deref].
  rewrite ret_bind. cbn [thread set_removed sch].
  destruct (wake_returns (sch st) (thread x) (cc_sched _ _ _ _ I) (cc_live _ _ _ _ I _ _ Hx))
    as (b & s' & -> & Hok & Hb & Hnb & Hoth & Hlive).
  rewrite ret_bind. unfold with_sch. cbn [waiters wring waitset held sch]. destruct b.
  - erewrite upd_waiter_eq by apply lookup_insert_eq. rewrite insert_insert_eq. eexists _, [], (Some w), ws. split; [done|]. split.
    { apply (cc_inv_remove st wl cv [] w ws h x); try done. }
    apply signal_found; try done. by apply Hb.
  - assert (~ blocked (sch st) (thread x)) as Hnbx by (intros Hc; by apply Hb in Hc).
    assert (inv (mkCC (<[w := set_removed x]> (waiters st)) h (<[cv := head ws]> (waitset st)) (held st) s')
      (<[cv := ws]> wl)) as I'.
    { apply (cc_inv_remove st wl cv [] w ws h x); try done. }
    destruct (IH _ _ ws I' ltac:(apply lookup_insert_eq)) as (st' & k & sig & r & -> & Ist & Hss);
      [simpl in Hf; lia|].
    rewrite insert_insert_eq in Ist. exists st', (w :: k), sig, r. split; [done|]. split; [done|].
    assert (NoDup (w :: ws)) as Hnd.
    { destruct (cc_ring _ _ _ _ I _ _ Hwl) as [?|?]; [done|by eapply ring_NoDup]. }
    apply (signal_skip st w ws x h (<[cv := head ws]> (waitset st)) s'); try done.
    intros u. destruct (decide (u = thread x)) as [->|]; [by split|by apply Hoth].
Qed.

Lemma cc_list_NoDup st wl cv ws : inv st wl -> wl !! cv = Some ws -> NoDup ws /\ length ws <= size (wring st).
Proof.
  intros I Hwl. destruct (cc_ring _ _ _ _ I _ _ Hwl) as [->|Hr]; [split; [constructor|simpl; lia]|].
  split; [by eapply ring_NoDup|by eapply ring_size].
Qed.

Lemma cv_signal_ok st wl cv ws :
  inv st wl -> wl !! cv = Some ws ->
  exists st' k sig r, cv_signal cv st = Ret st' /\ inv st' (<[cv := r]> wl) /\
    signal_spec blocked live st ws st' k sig r.
Proof.
  intros I Hwl. apply (cv_signal_loop_ok _ _ _ _ ws); [done..|].
  destruct (cc_list_NoDup _ _ _ _ I Hwl). lia.
Qed.

(** A signal followed by a broadcast is a broadcast. *)
Lemma signal_broadcast st wl cv ws st1 k sig r st2 :
  inv st wl -> wl !! cv = Some ws ->
  signal_spec blocked live st ws st1 k sig r -> broadcast_spec blocked live st1 r st2 ->
  broadcast_spec blocked live st ws st2.
Proof.
  intros I Hwl [S1 S2 S3 S4 S5 S6 S7 S8] [B1 B2 B3 B4 B5].
  destruct (cc_list_NoDup _ _ _ _ I Hwl) as [Hnd _]. rewrite S1 in Hnd.
  apply NoDup_app in Hnd as (_ & Hdk & Hnd).
  assert (forall w, sig = Some w -> (w ∉ k) /\ w ∉ r) as Hsig.
  { intros w ->. apply NoDup_cons in Hnd as [Hw _]. split; [|done]. intros Hk. apply (Hdk _ Hk). by left. }
  assert (forall w, w ∈ r -> w ∉ k) as Hrk.
  { intros w Hr Hk. apply (Hdk _ Hk). destruct sig; list_mem. }
  assert (forall w, w ∈ ws <-> w ∈ k \/ sig = Some w \/ w ∈ r) as Hin.
  { intros w. rewrite S1, elem_of_app. destruct sig as [v|]; [rewrite elem_of_cons|]; naive_solver. }
  assert (forall w x, w ∈ r -> waiters st !! w = Some x -> waiters st1 !! w = Some x) as Hsame.
  { intros w x Hr Hx. rewrite S5, Hx. rewrite !decide_False; [done|by apply Hrk|]. intros ->. by destruct (Hsig w). }
  split.
  - intros w x Hw Hx. apply Hin in Hw as [Hk|[->|Hr]].
    + rewrite B2 by (intros Hr; by apply (Hrk w)). rewrite S5, Hx.
      rewrite decide_False by (intros ->; by destruct (Hsig w)). rewrite decide_True by done.
      destruct (S3 w Hk) as (x' & Hx' & Hnb). assert (x' = x) as -> by congruence.
      eexists. split; [done|]. destruct (cc_waiting _ _ _ _ I cv ws w Hwl) as (y & Hy & _ & Hs);
        [apply Hin; by left|]. assert (y = x) as -> by congruence. rewrite Hs. naive_solver.
    + rewrite B2 by (by destruct (Hsig w)). rewrite S5, Hx, decide_True by done. eexists. split; [done|].
      destruct (S4 w eq_refl) as (x' & Hx' & ?). split; [congruence|done].
    + destruct (B1 w x Hr (Hsame _ _ Hr Hx)) as (b & Hb & Hbb). exists b. split; [done|]. rewrite Hbb, S7.
      split; [tauto|]. intros ?. split; [done|]. intros v y -> Hy Hth.
      destruct (Hsig v eq_refl) as [_ Hv]. apply Hv. by rewrite <- (cc_threads _ _ _ _ I _ _ _ _ Hx Hy Hth).
  - intros w Hw. rewrite Hin in Hw. rewrite B2, S5 by tauto. rewrite !decide_False by tauto. by rewrite option_fmap_id.
  - congruence.
  - intros u. rewrite B4, S7. split.
    + intros [[? Hs] Hr]. split; [done|]. intros w x Hw Hx ->. apply Hin in Hw as [Hk|[->|Hw]].
      * destruct (S3 w Hk) as (y & Hy & ?). congruence.
      * by eapply Hs.
      * by apply (Hr w x Hw (Hsame _ _ Hw Hx)).
    + intros [? Hn]. split; [split; [done|]|].
      * intros w x Hw. apply (Hn w). apply Hin. auto.
      * intros w x Hw Hx. rewrite S5, !decide_False in Hx; [|by apply Hrk|intros ->; by destruct (Hsig w)].
        rewrite option_fmap_id in Hx. apply (Hn w); [apply Hin; auto|done].
  - intros u. by rewrite B5.
Qed.

Lemma Cond_Broadcast_loop_ok fuel st wl cv ws :
  inv st wl -> wl !! cv = Some ws -> length ws < fuel ->
  exists st', Cond_Broadcast_loop fuel cv st = Ret st' /\ inv st' (<[cv := []]> wl) /\
    broadcast_spec blocked live st ws st'.
Proof.
  revert st wl ws. induction fuel as [|fuel IH]; intros st wl ws I Hwl Hf; [lia|]. simpl.
  pose proof (cc_head _ _ _ _ I cv) as Hh. rewrite Hwl in Hh. simpl in Hh. rewrite Hh. cbn [deref]. rewrite ret_bind.
  destruct ws as [|w ws]; simpl.
  { exists st. split; [done|]. split; [by rewrite insert_id|]. split; try done; [by intros ? ? ?%not_elem_of_nil|].
    intros u. split; [|tauto]. intros ?. split; [done|]. by intros ? ? ?%not_elem_of_nil. }
  destruct (cv_signal_ok st wl cv (w :: ws) I Hwl) as (st1 & k & sig & r & -> & I1 & Hss). rewrite ret_bind.
  assert (length r < fuel) as Hr.
  { pose proof (ss_split _ _ _ _ _ _ _ _ Hss) as E. pose proof (ss_all _ _ _ _ _ _ _ _ Hss) as Ha.
    destruct sig; [|rewrite Ha by done; simpl in *; lia].
    apply (f_equal length) in E. rewrite length_app in E. simpl in *. lia. }
  destruct (IH st1 _ r I1 ltac:(apply lookup_insert_eq) Hr) as (st2 & -> & I2 & Hb).
  rewrite insert_insert_eq in I2. exists st2. split; [done|]. split; [done|]. by eapply signal_broadcast.
Qed.

(** The second half of [cv_wait]. *)
Lemma cc_inv_delete st wl w x l :
  inv st wl -> waiters st !! w = Some x -> removed x = true ->
  inv (mkCC (delete w (waiters st)) (delete w (wring st)) (waitset st) l (sch st)) wl.
Proof.
  intros I Hx Hr. pose proof I as [I1 I2 I3 I4 I5 I6 I7 I8 I9 I10].
  assert (forall cv ws, wl !! cv = Some ws -> w ∉ ws) as Hnw.
  { intros cv ws Hc Hw. destruct (I3 _ _ _ Hc Hw) as (y & Hy & Hyr & _). congruence. }
  assert (forall rs, ring (wring st) rs -> w ∉ rs -> ring (delete w (wring st)) rs) as Hring.
  { intros rs Hrs Hn. eapply ring_mono, Hrs. intros p q Hp He.
    assert (q ∈ rs) as Hq by (by eapply ring_edge_closed).
    destruct He as [He1 He2]. unfold edge, load in *. rewrite !lookup_delete_ne by (intros <-; done). done. }
  split; simpl.
  - done.
  - intros cv ws Hc. destruct (I2 _ _ Hc) as [?|?]; [by left|right]. apply Hring; [done|by eapply Hnw].
  - intros cv ws v Hc Hv. rewrite lookup_delete_ne; [by eapply I3|]. intros <-. by eapply Hnw.
  - done.
  - intros v y [Hne Hy]%lookup_delete_Some Hyr. apply (Hring [v]); [by eapply I5|]. rewrite list_elem_of_singleton. congruence.
  - intros v y [Hne Hy]%lookup_delete_Some Hyr. by eapply I6.
  - intros v v' y y' [_ Hy]%lookup_delete_Some [_ Hy']%lookup_delete_Some. by apply I7.
  - intros v y [Hne Hy]%lookup_delete_Some. unfold obj_of. rewrite lookup_delete_ne by done. by eapply I8.
  - done.
  - intros v y [Hne Hy]%lookup_delete_Some. by eapply I10.
Qed.

Lemma cv_wait_end_ok st wl cv w mutex x :
  inv st wl -> waiters st !! w = Some x ->
  (removed x = false -> exists ws, wl !! cv = Some ws /\ w ∈ ws) -> (signalled x = true -> removed x = true) ->
  exists st' wl', cv_wait_end cv w mutex st = Ret (signalled x, st') /\ inv st' wl' /\
    waiters st' = delete w (waiters st) /\ held st' = {[mutex]} ∪ held st /\ sch st' = sch st /\
    (forall c, wl' !! c = (if removed x then id else if decide (c = cv) then filter (fun v => v <> w) else id) <$> wl !! c).
Proof.
  intros I Hx Hin Hsr. unfold cv_wait_end. rewrite Hx. cbn [deref]. rewrite ret_bind.
  destruct (removed x) eqn:Hr.
  - rewrite ret_bind. unfold with_held. cbn [waiters]. rewrite Hx. cbn [deref]. rewrite ret_bind.
    eexists _, wl. split; [done|]. split; [by apply (cc_inv_delete st wl w x)|]. do 3 (split; [done|]).
    intros c. by rewrite option_fmap_id.
  - assert (signalled x = false) as Hs by (destruct (signalled x); [by specialize (Hsr eq_refl)|done]).
    rewrite Hs. cbn [negb]. destruct (Hin eq_refl) as (ws & Hwl & (k & r & ->)%list_elem_of_split).
    destruct (remove_from_ring_ok st wl cv k w r I Hwl) as (h & E & Hw & Hkr & Hf).
    rewrite (bind_eq (c_assert true ≫= _) _ _ E).
    unfold with_held. cbn [waiters wring waitset held sch]. rewrite Hx. cbn [deref]. rewrite ret_bind, Hs.
    set (x' := mkWaiter (thread x) false true).
    assert (inv (mkCC (<[w := x']> (waiters st)) h (<[cv := head (k ++ r)]> (waitset st)) (held st) (sch st))
      (<[cv := k ++ r]> wl)) as I'.
    { apply (cc_inv_remove st wl cv k w r h x); try done. by destruct I. }
    eexists _, (<[cv := k ++ r]> wl). split; [done|]. split.
    { pose proof (cc_inv_delete _ _ w x' ({[mutex]} ∪ held st) I' ltac:(apply lookup_insert_eq) eq_refl) as I2.
      cbn [waiters wring waitset sch] in I2. rewrite delete_insert_eq in I2. exact I2. }
    do 3 (split; [done|]). intros c. destruct (decide (c = cv)) as [->|Hne].
    + rewrite lookup_insert_eq, Hwl. simpl. f_equal.
      rewrite (filter_remove k r w); [done|]. by destruct (cc_list_NoDup _ _ _ _ I Hwl).
    + rewrite lookup_insert_ne by done. by rewrite option_fmap_id.
Qed.

(** The new waiter joins the ring of [cv]: the first one becomes the wait set, a later one goes to the end. *)
Definition joined cv w (x : cv_waiter T) ws (h : rlheap nat (option nat)) st : outcome (ccst T S) :=
  match head ws with
  | Some wset => h ← rlist_push_back wset w h; Ret (mkCC (<[w := x]> (waiters st)) h (waitset st) (held st) (sch st))
  | None => Ret (mkCC (<[w := x]> (waiters st)) h (<[cv := Some w]> (waitset st)) (held st) (sch st))
  end.

Lemma new_not_queued st wl w c ws : inv st wl -> waiters st !! w = None -> wl !! c = Some ws -> w ∉ ws.
Proof. intros I Hw Hc Hin. destruct (cc_waiting _ _ _ _ I _ _ _ Hc Hin) as (x & Hx & _). congruence. Qed.

(** Initialising the node of a waiter leaves every ring that it is not in. *)
Lemma init_ring w o (h : rlheap nat (option nat)) rs : ring h rs -> w ∉ rs -> ring (rlnode_init w o h).2 rs.
Proof.
  intros Hrs Hn. eapply ring_mono, Hrs. intros p q Hp He.
  assert (q ∈ rs) as Hq by (by eapply ring_edge_closed).
  destruct He as [He1 He2]. unfold edge, load in *. simpl. rewrite !lookup_insert_ne by (intros <-; done). done.
Qed.

Lemma init_self w o (h : rlheap nat (option nat)) : ring (rlnode_init w o h).2 [w].
Proof. apply ring_singleton. unfold edge, load. simpl. by rewrite lookup_insert_eq. Qed.

Lemma joined_ok st wl cv w x ws : inv st wl -> wl !! cv = Some ws -> w ∉ ws ->
  let h1 := (rlnode_init w (Some w) (wring st)).2 in
  exists h2, joined cv w x ws h1 st =
      Ret (mkCC (<[w := x]> (waiters st)) h2 (<[cv := head (ws ++ [w])]> (waitset st)) (held st) (sch st)) /\
    ring h2 (ws ++ [w]) /\ frame (w :: ws) h1 h2.
Proof.
  intros I Hwl Hnw h1. pose proof (init_self w (Some w) (wring st)) as Hr1. fold h1 in Hr1.
  destruct (cc_ring _ _ _ _ I _ _ Hwl) as [->|Hrs]; [exists h1; split; [done|split; [done|apply frame_refl]]|].
  destruct ws as [|a ws]; [done|]. unfold joined. simpl.
  assert (rlist h1 a ws) as Hla by (by apply (init_ring w (Some w) (wring st) (a :: ws))).
  destruct (rlist_push_back_spec h1 a ws w [] Hla Hr1) as (h2 & -> & Hr2 & Hf).
  { apply elem_of_disjoint. intros v Hv ->%list_elem_of_singleton. done. }
  exists h2. split; [|split; [done|]].
  - rewrite ret_bind. do 2 f_equal. simpl. rewrite insert_id; [done|]. by rewrite (cc_head _ _ _ _ I), Hwl.
  - eapply frame_weaken, Hf. intros rs _ Hd v Hv Hv'. apply (Hd v Hv). clear -Hv'. list_mem.
Qed.

(** The state after it is consistent, with [w] at the end of the list of [cv]. *)
Lemma cc_inv_join st wl cv w t ws h2 l' s' :
  inv st wl -> wl !! cv = Some ws -> waiters st !! w = None ->
  (forall v x, waiters st !! v = Some x -> thread x <> t) ->
  ring h2 (ws ++ [w]) -> frame (w :: ws) (rlnode_init w (Some w) (wring st)).2 h2 ->
  ok s' -> live s' t -> (forall u, live s' u <-> live (sch st) u) ->
  inv (mkCC (<[w := mkWaiter t false false]> (waiters st)) h2 (<[cv := head (ws ++ [w])]> (waitset st)) l' s')
    (<[cv := ws ++ [w]]> wl).
Proof.
  intros I Hwl Hw Ht Hr2 Hf Hok Hlt Hlive. pose proof I as [I1 I2 I3 I4 I5 I6 I7 I8 I9 I10].
  assert (forall c ws', wl !! c = Some ws' -> w ∉ ws') as Hnw by (intros c ws' Hc; by eapply new_not_queued).
  assert (forall v y, <[w := mkWaiter t false false]> (waiters st) !! v = Some y ->
    (v = w /\ y = mkWaiter t false false) \/ (v <> w /\ waiters st !! v = Some y)) as Hwv.
  { intros v y. rewrite lookup_insert_Some. intros [[<- <-]|[? ?]]; [by left|by right]. }
  assert (forall c ws', <[cv := ws ++ [w]]> wl !! c = Some ws' ->
    (c = cv /\ ws' = ws ++ [w]) \/ (c <> cv /\ wl !! c = Some ws')) as Hwlc.
  { intros c ws'. rewrite lookup_insert_Some. intros [[<- <-]|[? ?]]; [by left|by right]. }
  split; simpl.
  - intros c. destruct (decide (cv = c)) as [<-|]; [by rewrite !lookup_insert_eq|by rewrite !lookup_insert_ne].
  - intros c ws' [[-> ->]|[Hne Hc]]%Hwlc; [by right|]. destruct (I2 _ _ Hc) as [?|Hr]; [by left|right].
    apply (frame_ring _ _ _ Hf); [apply init_ring; [done|by eapply Hnw]|].
    intros v Hv [->|Hv']%elem_of_cons; [by eapply Hnw|]. apply Hne. by eapply I4.
  - intros c ws' v [[-> ->]|[Hne Hc]]%Hwlc Hv.
    + apply elem_of_app in Hv as [Hv| ->%list_elem_of_singleton]; [|by eexists; rewrite lookup_insert_eq].
      rewrite lookup_insert_ne by (intros <-; by eapply Hnw). by eapply I3.
    + rewrite lookup_insert_ne by (intros <-; by eapply Hnw). by eapply I3.
  - intros c c' ws1 ws2 v [[-> ->]|[Hne Hc]]%Hwlc [[-> ->]|[Hne' Hc']]%Hwlc Hv Hv'; try done.
    + apply elem_of_app in Hv as [Hv| ->%list_elem_of_singleton]; [by eapply I4|]. destruct (Hnw _ _ Hc' Hv').
    + apply elem_of_app in Hv' as [Hv'| ->%list_elem_of_singleton]; [by eapply I4|]. destruct (Hnw _ _ Hc Hv).
    + by eapply I4.
  - intros v y [[-> ->]|[Hne Hy]]%Hwv Hr; [done|].
    apply (frame_ring _ _ _ Hf [v]); [apply init_ring; [by eapply I5|]|].
    + rewrite list_elem_of_singleton. congruence.
    + apply singleton_disjoint. rewrite elem_of_cons. intros [?|Hv]; [done|].
      destruct (I3 _ _ _ Hwl Hv) as (x & Hx & Hxr & _). congruence.
  - intros v y [[-> ->]|[Hne Hy]]%Hwv Hr.
    + exists cv, (ws ++ [w]). rewrite lookup_insert_eq. split; [done|]. list_mem.
    + destruct (I6 _ _ Hy Hr) as (c & ws' & Hc & Hv). destruct (decide (cv = c)) as [<-|Hc'].
      * exists cv, (ws ++ [w]). rewrite lookup_insert_eq. split; [done|]. rewrite Hwl in Hc. injection Hc as <-. list_mem.
      * exists c, ws'. by rewrite lookup_insert_ne.
  - intros v v' y y' [[-> ->]|[Hne Hy]]%Hwv [[-> ->]|[Hne' Hy']]%Hwv; simpl; try done.
    + intros Hyt. by destruct (Ht _ _ Hy').
    + intros Hyt. by destruct (Ht _ _ Hy).
    + by apply I7.
  - intros v y [[-> ->]|[Hne Hy]]%Hwv; rewrite (frame_obj _ _ _ Hf); unfold obj_of; simpl.
    + by rewrite lookup_insert_eq.
    + rewrite lookup_insert_ne by done. by eapply I8.
  - done.
  - intros v y [[-> ->]|[Hne Hy]]%Hwv; [done|rewrite Hlive; by eapply I10].
Qed.

(** The first half. *)
Lemma cv_wait_begin_ok st wl cv w mutex t timeout ws :
  inv st wl -> wl !! cv = Some ws -> waiters st !! w = None ->
  (forall v x, waiters st !! v = Some x -> thread x <> t) -> runs (sch st) t timeout ->
  exists st', cv_wait_begin cv w mutex t timeout st = Ret st' /\ inv st' (<[cv := ws ++ [w]]> wl) /\
    waiters st' = <[w := mkWaiter t false false]> (waiters st) /\ held st' = held st ∖ {[mutex]} /\
    blocked (sch st') t /\ (forall u, u <> t -> blocked (sch st') u <-> blocked (sch st) u).
Proof.
  intros I Hwl Hw Ht Hrun.
  destruct (joined_ok st wl cv w (mkWaiter t false false) ws I Hwl) as (h2 & E & Hr2 & Hf); [by eapply new_not_queued|].
  destruct (block_returns (sch st) t timeout (cc_sched _ _ _ _ I) Hrun) as (s' & Eb & Hok & Hb & Hoth & Hlive).
  eexists. split.
  { unfold cv_wait_begin. cbn. rewrite (cc_head _ _ _ _ I), Hwl. cbn. rewrite (bind_eq _ _ _ E).
    unfold with_held. cbn [sch]. rewrite Eb. done. }
  split; [|done]. apply (cc_inv_join st wl cv w t ws h2); try done.
  apply Hlive. eapply runs_live; [by eapply cc_sched|done].
Qed.

Lemma cc_wl st wl cv : inv st wl -> is_Some (waitset st !! cv) -> exists ws, wl !! cv = Some ws.
Proof. intros I [o Ho]. rewrite (cc_head _ _ _ _ I) in Ho. destruct (wl !! cv) as [ws|]; [by exists ws|done]. Qed.

(** What every call guarantees: it returns, to a consistent system. *)
Definition cc_good c y : Prop :=
  cc_sys_inv ok live y -> cc_enabled blocked live runs c y ->
  exists b y', cc_perform c y = Ret (b, y') /\ cc_sys_inv ok live y' /\
    match c with
    | CallWaitEnd _ w _ => exists x, waiters (cc y) !! w = Some x /\ b = Some (signalled x)
    | _ => True
    end.

Lemma perform_wait_ok y cv w (mutex : nat) (t : T) (timeout : Z) : cc_good (CallWait cv w mutex t timeout) y.
Proof.
  intros (wl & I & Hh) He. simpl in He. unfold cc_perform.
  destruct He as (Hcv & Hw & Ht & Hrun). destruct (cc_wl _ _ _ I Hcv) as [ws Hwl].
  destruct (cv_wait_begin_ok _ _ cv w mutex t timeout ws I Hwl Hw Ht Hrun) as (st' & -> & I' & Hws & _).
  eexists _, _. split; [done|]. split; [|done]. exists (<[cv := ws ++ [w]]> wl). split; [done|].
  simpl. rewrite Hws. intros v x Hx. apply lookup_insert_Some in Hx as [[<- <-]|[Hne Hx]].
  + split; [done|]. exists cv. rewrite lookup_insert_eq. split; [done|]. intros _.
    exists (ws ++ [w]). rewrite lookup_insert_eq. split; [done|]. list_mem.
  + destruct (Hh v x Hx) as (Hs & cv' & Hcv' & Hin). split; [done|]. exists cv'.
    rewrite lookup_insert_ne by done. split; [done|]. intros Hr. destruct (Hin Hr) as (ws' & Hc & Hv).
    destruct (decide (cv = cv')) as [<-|]; [|exists ws'; by rewrite lookup_insert_ne].
    exists (ws ++ [w]). rewrite lookup_insert_eq. split; [done|]. rewrite Hwl in Hc. injection Hc as <-. list_mem.
Qed.

Lemma perform_wait_end_ok y cv w (mutex : nat) : cc_good (CallWaitEnd cv w mutex) y.
Proof.
  intros (wl & I & Hh) He. simpl in He. unfold cc_perform.
  destruct He as (Hcv & x & Hx & _). destruct (Hh w x Hx) as (Hs & cv' & Hcv' & Hin).
  assert (cv' = cv) as -> by congruence.
  destruct (cv_wait_end_ok _ _ cv w mutex x I Hx Hin Hs) as (st' & wl' & -> & I' & Hws & _ & _ & Hwl').
  eexists _, _. split; [done|]. split; [|by exists x]. exists wl'. split; [done|].
  simpl. rewrite Hws. intros v y' [Hne Hy]%lookup_delete_Some.
  destruct (Hh v y' Hy) as (Hsv & cv' & Hcv2 & Hinv). split; [done|]. exists cv'.
  rewrite lookup_delete_ne by done. split; [done|]. intros Hr. destruct (Hinv Hr) as (ws & Hc & Hv).
  rewrite Hwl', Hc. simpl. eexists. split; [done|]. repeat case_match; simpl; try done.
  apply list_elem_of_filter. done.
Qed.

Lemma perform_signal_ok y cv : cc_good (CallSignal cv) y.
Proof.
  intros (wl & I & Hh) He. simpl in He. unfold cc_perform.
  destruct (cc_wl _ _ _ I He) as [ws Hwl].
  destruct (cv_signal_ok _ _ cv ws I Hwl) as (st' & k & sig & r & E & I' & Hss).
  unfold Cond_Signal. rewrite E, ret_bind. eexists _, _. split; [done|]. split; [|done].
  exists (<[cv := r]> wl). split; [done|]. simpl. destruct Hss as [S1 S2 S3 S4 S5 S6 S7 S8].
  intros v x Hx. rewrite S5 in Hx. apply fmap_Some in Hx as (x0 & Hx0 & ->).
  destruct (Hh v x0 Hx0) as (Hsv & cv' & Hcv' & Hin). case_decide as Hsig; [by split; [|exists cv']|].
  case_decide as Hk; [by split; [|exists cv']|]. split; [done|]. exists cv'. split; [done|].
  intros Hr. destruct (Hin Hr) as (ws' & Hc & Hv). destruct (decide (cv = cv')) as [<-|]; [|exists ws'; by rewrite lookup_insert_ne].
  exists r. rewrite lookup_insert_eq. split; [done|]. rewrite Hwl in Hc. injection Hc as <-.
  rewrite S1, elem_of_app in Hv. destruct Hv as [?|Hv]; [done|]. destruct sig; [|done].
  apply elem_of_cons in Hv as [->|?]; done.
Qed.

Lemma perform_broadcast_ok y cv : cc_good (CallBroadcast cv) y.
Proof.
  intros (wl & I & Hh) He. simpl in He. unfold cc_perform.
  destruct (cc_wl _ _ _ I He) as [ws Hwl]. unfold Cond_Broadcast.
  destruct (Cond_Broadcast_loop_ok (Datatypes.S (size (wring (cc y)))) _ _ cv ws I Hwl) as (st' & -> & I' & Hbs).
  { destruct (cc_list_NoDup _ _ _ _ I Hwl). lia. }
  rewrite ret_bind. eexists _, _. split; [done|]. split; [|done]. exists (<[cv := []]> wl). split; [done|]. simpl.
  destruct Hbs as [B1 B2 B3 B4 B5]. intros v x Hx. destruct (decide (v ∈ ws)) as [Hv|Hv].
  + destruct (cc_waiting _ _ _ _ I _ _ _ Hwl Hv) as (x0 & Hx0 & _). destruct (B1 v x0 Hv Hx0) as (b & Hb & _).
    rewrite Hx in Hb. injection Hb as ->. destruct (Hh v x0 Hx0) as (_ & cv' & ? & _). by split; [|exists cv'].
  + rewrite B2 in Hx by done. destruct (Hh v x Hx) as (Hsv & cv' & Hcv' & Hin). split; [done|]. exists cv'.
    split; [done|]. intros Hr. destruct (Hin Hr) as (ws' & Hc & Hv').
    destruct (decide (cv = cv')) as [<-|]; [congruence|exists ws'; by rewrite lookup_insert_ne].
Qed.

Lemma perform_other_ok y (t : T) : cc_good (CallOther t) y.
Proof.
  intros (wl & I & Hh) He. simpl in He. unfold cc_perform.
  destruct (wake_returns (sch (cc y)) t (cc_sched _ _ _ _ I) He) as (b & s' & -> & Hok & _ & _ & _ & Hlive).
  eexists _, _. split; [done|]. split; [|done]. exists wl. split; [|done].
  destruct I as [I1 I2 I3 I4 I5 I6 I7 I8 I9 I10]. split; try done. simpl. intros v x Hx. rewrite Hlive. by eapply I10.
Qed.

Lemma cc_perform_ok c y : cc_good c y.
Proof.
  destruct c; [apply perform_wait_ok|apply perform_wait_end_ok|apply perform_signal_ok|
    apply perform_broadcast_ok|apply perform_other_ok].
Qed.

Lemma cc_start_inv cvs l s : ok s -> inv (cc (cc_start (T := T) cvs l s)) (gset_to_gmap [] cvs).
Proof.
  intros Hok. assert (forall cv ws, gset_to_gmap [] cvs !! cv = Some ws -> ws = []) as Hnil.
  { intros cv ws Hc. by apply lookup_gset_to_gmap_Some in Hc as [_ ->]. }
  split; simpl; try (intros w x Hx; by rewrite lookup_empty in Hx); try done.
  - intros cv. rewrite !lookup_gset_to_gmap. by destruct (guard (cv ∈ cvs)).
  - intros cv ws Hc. left. by eapply Hnil.
  - intros cv ws w Hc Hw. rewrite (Hnil _ _ Hc) in Hw. by apply not_elem_of_nil in Hw.
  - intros cv cv' ws ws' w Hc _ Hw. rewrite (Hnil _ _ Hc) in Hw. by apply not_elem_of_nil in Hw.
Qed.

Lemma cc_start_ok cvs l s : ok s -> cc_sys_inv ok live (cc_start (T := T) cvs l s).
Proof.
  intros Hok. exists (gset_to_gmap [] cvs). split; [by apply cc_start_inv|].
  intros w x Hx. simpl in Hx. by rewrite lookup_empty in Hx.
Qed.
End lemmas.


(** ** Properties *)

Section properties.
Context {T S : Type} `{EqDecision T} `{WakeOps T S} `{SleepOps T S}.
Context (ok : S -> Prop) (blocked live : S -> T -> Prop) (runs : S -> T -> Z -> Prop).
Context `{!WakeLaws T S ok blocked live} `{!SleepLaws T S ok blocked live runs}.
Implicit Types (st : ccst T S) (wl : gmap nat (list nat)) (cv w : nat) (ws : list nat).

(** C26.  [Cond_Signal] wakes at most one waiter: the first one, in the order of arrival, whose thread is
  still blocked.  The waiters before it, which had been woken by something else, are dropped; those
  behind it stay in order; the woken waiter, and no other, is marked as signalled. *)
Theorem signal_wakes_first st wl cv ws :
  cc_inv ok live st wl -> wl !! cv = Some ws ->
  exists st' k sig r, Cond_Signal cv st = Ret st' /\ cc_inv ok live st' (<[cv := r]> wl) /\
    signal_spec blocked live st ws st' k sig r.
Proof. intros I Hwl. by eapply cv_signal_ok. Qed.

(** [Cond_Broadcast] empties the condition variable: every waiter is taken off, each one whose thread
  was blocked is woken and marked as signalled, and no other thread is woken. *)
Theorem broadcast_wakes_all st wl cv ws :
  cc_inv ok live st wl -> wl !! cv = Some ws ->
  exists st', Cond_Broadcast cv st = Ret st' /\ cc_inv ok live st' (<[cv := []]> wl) /\
    broadcast_spec blocked live st ws st'.
Proof.
  intros I Hwl. eapply Cond_Broadcast_loop_ok; [done..|].
  destruct (cc_list_NoDup _ _ _ _ _ _ I Hwl). lia.
Qed.

(** What the invariant says of a condition variable, and of a waiter. *)
Lemma cc_rings_exact y cv wset : cc_sys_inv ok live y -> waitset (cc y) !! cv = Some wset -> exists ws, wset = head ws /\ NoDup ws /\
  (ws = [] \/ ring (wring (cc y)) ws) /\
  (forall w, w ∈ ws <-> home y !! w = Some cv /\ exists x, waiters (cc y) !! w = Some x /\ removed x = false).
Proof.
  intros (wl & I & Hh) Hcv. rewrite (cc_head _ _ _ _ I) in Hcv. destruct (wl !! cv) as [ws|] eqn:Hws; [|done].
  injection Hcv as <-. exists ws. split; [done|]. split; [by eapply cc_list_NoDup|]. split; [by eapply cc_ring|]. intros w. split.
  - intros Hw. destruct (cc_waiting _ _ _ _ I _ _ _ Hws Hw) as (x & Hx & Hr & _). split; [|by exists x].
    destruct (Hh w x Hx) as (_ & cv' & -> & Hin). destruct (Hin Hr) as (ws' & Hws' & Hw').
    by rewrite (cc_disjoint _ _ _ _ I _ _ _ _ _ Hws' Hws Hw' Hw).
  - intros (Hhome & x & Hx & Hr). destruct (Hh w x Hx) as (_ & cv' & Hcv' & Hin). destruct (Hin Hr) as (ws' & Hws' & Hw'). congruence.
Qed.

Lemma cc_removed_alone y w x : cc_sys_inv ok live y -> waiters (cc y) !! w = Some x ->
  (removed x = true -> ring (wring (cc y)) [w]) /\ (signalled x = true -> removed x = true) /\ exists cv, home y !! w = Some cv.
Proof.
  intros (wl & I & Hh) Hx. split; [by eapply cc_alone|]. destruct (Hh w x Hx) as (? & cv & ? & _). split; [done|]. by exists cv.
Qed.

(** C25.  Whatever calls of [Cond_Wait], [Cond_Signal], [Cond_Broadcast], timeouts and other wakeups
  the threads make, in any order: a condition variable points at the first node of a ring that holds, each
  once, exactly the waiters that called [cv_wait] on it and were not removed, and a waiter is in the ring of
  no other one; a removed waiter is a ring of its own, and only a removed one is signalled.  No call faults:
  no assertion of [cv_wait] fails, no pointer to the local variable of a [cv_wait] that has returned is
  followed; and [cv_wait] returns 1 exactly when its waiter was signalled. *)
Theorem condvars_never_fault cvs l s y :
  ok s -> reach (cc_step blocked live runs) (cc_start cvs l s) y ->
  (forall cv wset, waitset (cc y) !! cv = Some wset -> exists ws, wset = head ws /\ NoDup ws /\
     (ws = [] \/ ring (wring (cc y)) ws) /\
     (forall w, w ∈ ws <-> home y !! w = Some cv /\ exists x, waiters (cc y) !! w = Some x /\ removed x = false)) /\
  (forall w x, waiters (cc y) !! w = Some x -> (removed x = true -> ring (wring (cc y)) [w]) /\
     (signalled x = true -> removed x = true) /\ exists cv, home y !! w = Some cv) /\
  forall c, cc_enabled blocked live runs c y ->
    exists b y', cc_perform c y = Ret (b, y') /\
      match c with
      | CallWaitEnd _ w _ => exists x, waiters (cc y) !! w = Some x /\ b = Some (signalled x)
      | _ => b = None
      end.
Proof.
  intros Hok Hr. assert (cc_sys_inv ok live y) as Hi.
  { eapply reach_invariant; [|exact Hr|by eapply cc_start_ok]. intros y1 y2 Hi [c' b y' He' Hp].
    destruct (cc_perform_ok ok blocked live runs c' y1 Hi He') as (b' & y'' & Hp' & Hi' & _). congruence. }
  split; [intros cv wset; by apply cc_rings_exact|]. split; [intros w x; by apply cc_removed_alone|]. intros c He.
  destruct (cc_perform_ok ok blocked live runs c y Hi He) as (b & y' & Hp & _ & Hb).
  exists b, y'. split; [done|]. destruct c; try done; unfold cc_perform in Hp; inv_ret; done.
Qed.
End properties.

(** ** A concrete run

  The scheduler of [SchedSys] after [running]: core 0 runs [Thread 1].  It waits on the condition
  variable 5 with a timeout of 500 us, and core 1 signals. *)

Section run.
#[local] Instance wake_on_1 : WakeOps tid (sched Z) := sched_wake 1.
#[local] Instance block_on_0 : SleepOps tid (sched Z) := sched_block 0 3 SCHED_USER.

Definition waiting_start : ccsys (T := tid) (S := sched Z) := cc_start {[5]} ∅ (after running 0).

Lemma run_enabled : runs 0 3 SCHED_USER (after running 0) (Thread 1) 500.
Proof. split; by vm_compute. Qed.

Lemma waiting_ok :
  exists st, cv_wait_begin 5 100 9 (Thread 1) 500 (cc waiting_start) = Ret st /\
    cc_inv sched_ok live st (<[5 := [100]]> (gset_to_gmap [] {[5]})).
Proof.
  destruct (cv_wait_begin_ok sched_ok blocked live (runs 0 3 SCHED_USER) (cc waiting_start)
    (gset_to_gmap [] {[5]}) 5 100 9 (Thread 1) 500 []) as (st & E & I & _).
  - eapply cc_start_inv, after_ok.
  - vm_compute. reflexivity.
  - apply lookup_empty.
  - intros v x Hx. change ((∅ : gmap nat (cv_waiter tid)) !! v = Some x) in Hx. rewrite lookup_empty in Hx. discriminate Hx.
  - apply run_enabled.
  - exists st. exact (conj E I).
Qed.

Lemma signal_wakes_first_witness :
  exists st st', cv_wait_begin 5 100 9 (Thread 1) 500 (cc waiting_start) = Ret st /\ Cond_Signal 5 st = Ret st'.
Proof.
  destruct waiting_ok as (st & E & I).
  destruct (signal_wakes_first sched_ok blocked live st _ 5 [100] I ltac:(by vm_compute))
    as (st' & k & sig & r & E' & _).
  exists st, st'. exact (conj E E').
Defined.

Lemma broadcast_wakes_all_witness :
  exists st st', cv_wait_begin 5 100 9 (Thread 1) 500 (cc waiting_start) = Ret st /\ Cond_Broadcast 5 st = Ret st'.
Proof.
  destruct waiting_ok as (st & E & I).
  destruct (broadcast_wakes_all sched_ok blocked live st _ 5 [100] I ltac:(by vm_compute))
    as (st' & E' & _).
  exists st, st'. exact (conj E E').
Defined.

Lemma condvars_never_fault_witness : exists st ws,
  cv_wait_begin 5 100 9 (Thread 1) 500 (cc waiting_start) = Ret st /\ waitset st !! 5 = Some (head ws) /\
  NoDup ws /\ 100 ∈ ws /\ exists b y', cc_perform (CallSignal 5) (mkSys st {[100 := 5]}) = Ret (b, y') /\ b = None.
Proof.
  destruct waiting_ok as (st & E & I). exists st.
  assert (reach (cc_step blocked live (runs 0 3 SCHED_USER)) waiting_start (mkSys st {[100 := 5]})) as Hr.
  { eapply reach_step; [apply reach_refl|]. apply (cc_do _ _ _ _ (CallWait 5 100 9 (Thread 1) 500) None).
    - split; [vm_compute; eexists; reflexivity|]. split; [apply lookup_empty|]. split; [|apply run_enabled].
      intros v x Hx. change ((∅ : gmap nat (cv_waiter tid)) !! v = Some x) in Hx. rewrite lookup_empty in Hx. discriminate Hx.
    - unfold cc_perform. rewrite E. reflexivity. }
  destruct (condvars_never_fault sched_ok blocked live (runs 0 3 SCHED_USER) {[5]} ∅ (after running 0)
    (mkSys st {[100 := 5]}) (after_ok _ _) Hr) as (Hring & _ & Hcall).
  assert (waitset st !! 5 = Some (Some 100)) as Hw by (vm_compute in E; injection E as <-; vm_compute; reflexivity).
  destruct (Hring 5 (Some 100) Hw) as (ws & Eh & Hnd & _ & Hin). exists ws. split; [exact E|]. split; [rewrite <- Eh; exact Hw|].
  split; [exact Hnd|]. split; [destruct ws; [discriminate Eh|injection Eh as ->; left]|].
  apply (Hcall (CallSignal 5)). exists (Some 100). exact Hw.
Defined.
End run.
