(* ===== verification/Mutex.v ===== *)
(** * Mutexes and the kernel lock (kernel_cc.c)

  [Mutex_Lock] as the machine of its atomic memory accesses, for any number of contending threads, and
  the kernel lock: the monitor of [kernel_mutex], [kernel_sem] and [kernel_sem_cv]. *)

From S2P Require Import Prelude.

(** ** The mutex

  Where a thread is with respect to one mutex: outside; about to test-and-set; in the inner loop, with
  [spin] iterations left; inside its call of [yield]; or past [Mutex_Lock]. *)

Module SpinLock.
Inductive mpc :=
  | MOut
  | MTas
  | MSpin (spin : Z)
  | MYield
  | MHeld.

#[export] Instance mpc_eq_dec : EqDecision mpc.
Proof. solve_decision. Defined.

Record mutex := mkMutex { lock : bool; pcs : gmap nat mpc }.

Definition MUTEX_SPINS : Z := 1000.

Definition at_pc (i : nat) (p : mpc) (l : bool) (m : mutex) : mutex := mkMutex l (<[i := p]> (pcs m)).

(** One step of thread [i]: its next access of the lock, its call of [yield] or its return.
  [preempt] is what [get_core_preemption] answers. *)
Definition mutex_step (i : nat) (preempt : bool) (m : mutex) : option mutex :=
  p ← pcs m !! i;
  match p with
  | MOut => Some (at_pc i MTas (lock m) m)
  | MTas => Some (if lock m then at_pc i (MSpin MUTEX_SPINS) true m else at_pc i MHeld true m)
  | MSpin spin =>
      if lock m then
        if (0 <? spin)%Z then Some (at_pc i (MSpin (spin - 1)) (lock m) m)
        else if preempt then Some (at_pc i MYield (lock m) m)
        else Some (at_pc i (MSpin MUTEX_SPINS) (lock m) m)
      else Some (at_pc i MTas (lock m) m)
  | MYield => Some (at_pc i (MSpin MUTEX_SPINS) (lock m) m)
  | MHeld => Some (at_pc i MOut false m)
  end.

Inductive step (m : mutex) : mutex -> Prop :=
  | do_step i preempt m' : mutex_step i preempt m = Some m' -> step m m'.

(** [n] threads, nobody in [Mutex_Lock]. *)
Definition start (n : nat) : mutex := mkMutex false (list_to_map (map (fun i => (i, MOut)) (seq 0 n))).

(** [k] steps of thread [i] alone. *)
Fixpoint steps_of (i : nat) (preempt : bool) (k : nat) (m : mutex) : option mutex :=
  match k with O => Some m | S k => m' ← mutex_step i preempt m; steps_of i preempt k m' end.

Lemma steps_of_reach i preempt k : forall m m', steps_of i preempt k m = Some m' -> reach step m m'.
Proof.
  induction k as [|k IH]; cbn [steps_of]; intros m m'; [intros [= ->]; constructor|].
  destruct (mutex_step i preempt m) as [m1|] eqn:E; [|done]. intros Hs. eapply reach_trans; [|by eapply IH].
  econstructor; [constructor|]. by econstructor.
Qed.

Record inv (m : mutex) : Prop := {
  inv_one i j : pcs m !! i = Some MHeld -> pcs m !! j = Some MHeld -> i = j;
  inv_held i : pcs m !! i = Some MHeld -> lock m = true;
  inv_free : lock m = true -> exists i, pcs m !! i = Some MHeld;
  inv_spin i z : pcs m !! i = Some (MSpin z) -> (0 <= z <= MUTEX_SPINS)%Z
}.

Lemma start_pcs n i p : pcs (start n) !! i = Some p -> p = MOut.
Proof. simpl. intros Hp%elem_of_list_to_map_2. by apply list_elem_of_fmap in Hp as (j & [= -> ->] & _). Qed.

Lemma mutex_start_inv n : inv (start n).
Proof. split; try done; intros; repeat match goal with H : _ |- _ => apply start_pcs in H end; done. Qed.

(** A step of [i] that does not touch the lock and does not enter or leave. *)
Lemma inv_move i p p' m : inv m -> pcs m !! i = Some p -> p <> MHeld -> p' <> MHeld ->
  (forall z, p' = MSpin z -> 0 <= z <= MUTEX_SPINS)%Z -> inv (at_pc i p' (lock m) m).
Proof.
  intros [I1 I2 I3 I4] Hi Hp Hp' Hz. split; simpl.
  - intros j k Hj Hk. apply lookup_insert_Some in Hj as [[_ ?]|[_ ?]], Hk as [[_ ?]|[_ ?]]; try done. by apply I1.
  - intros j [[_ ?]|[_ ?]]%lookup_insert_Some; [done|by eapply I2].
  - intros [j Hj]%I3. exists j. rewrite lookup_insert_ne by congruence. done.
  - intros j z [[_ ->]|[_ ?]]%lookup_insert_Some; [by apply Hz|by eapply I4].
Qed.

Lemma mutex_step_inv m m' : inv m -> step m m' -> inv m'.
Proof.
  intros I [i preempt m2 E]. unfold mutex_step in E. destruct (pcs m !! i) as [p|] eqn:Hi; [|done].
  simpl in E. assert (0 <= MUTEX_SPINS)%Z by (unfold MUTEX_SPINS; lia).
  destruct p as [| |spin| |].
  - injection E as <-. by eapply inv_move.
  - destruct (lock m) eqn:Hl; injection E as <-.
    + rewrite <- Hl at 1. eapply inv_move; try done. intros z [= <-]. lia.
    + destruct I as [I1 I2 I3 I4]. assert (forall j, pcs m !! j <> Some MHeld) as Hno.
      { intros j Hj%I2. congruence. }
      split; simpl.
      * intros j k [[? _]|[_ Hj]]%lookup_insert_Some [[? _]|[_ Hk]]%lookup_insert_Some;
          [congruence|by apply Hno in Hk|by apply Hno in Hj|by apply Hno in Hj].
      * done.
      * intros _. exists i. by rewrite lookup_insert_eq.
      * intros j z [[_ ?]|[_ ?]]%lookup_insert_Some; [done|by eapply I4].
  - pose proof (inv_spin _ I _ _ Hi). destruct (lock m) eqn:Hl.
    + destruct (0 <? spin)%Z eqn:Hs; [|destruct preempt]; injection E as <-; rewrite <- Hl at 1;
        eapply inv_move; try done; intros z [= <-]; lia.
    + injection E as <-. rewrite <- Hl at 1. by eapply inv_move.
  - injection E as <-. eapply inv_move; try done. intros z [= <-]. lia.
  - injection E as <-. destruct I as [I1 I2 I3 I4].
    assert (forall j, <[i := MOut]> (pcs m) !! j <> Some MHeld) as Hno.
    { intros j [[_ ?]|[Hne Hj]]%lookup_insert_Some; [done|]. apply Hne. by apply I1. }
    split; simpl; try done.
    + intros j k Hj. by apply Hno in Hj.
    + intros j Hj. by apply Hno in Hj.
    + intros j z [[_ ?]|[_ ?]]%lookup_insert_Some; [done|by eapply I4].
Qed.

(** C27.  Mutual exclusion: whatever the contending threads do, in any order of their accesses, at most
  one of them is past [Mutex_Lock], and the lock is taken exactly when one is. *)
Theorem mutual_exclusion n m :
  reach step (start n) m ->
  (forall i j, pcs m !! i = Some MHeld -> pcs m !! j = Some MHeld -> i = j) /\
  (lock m = true <-> exists i, pcs m !! i = Some MHeld).
Proof.
  intros Hr. assert (inv m) as [I1 I2 I3 I4].
  { eapply reach_invariant; [apply mutex_step_inv|exact Hr|apply mutex_start_inv]. }
  split; [done|]. split; [done|]. intros [i Hi]. by eapply I2.
Qed.

Lemma spin_steps i m : forall k z, lock m = true -> pcs m !! i = Some (MSpin z) -> (Z.of_nat k <= z)%Z ->
  exists m', steps_of i true k m = Some m' /\ lock m' = true /\ pcs m' !! i = Some (MSpin (z - Z.of_nat k)).
Proof.
  intros k. revert m. induction k as [|k IH]; intros m z Hl Hi Hk.
  { exists m. by rewrite Z.sub_0_r. }
  cbn [steps_of]. unfold mutex_step. rewrite Hi. cbn [mbind option_bind]. rewrite Hl.
  rewrite (proj2 (Z.ltb_lt 0 z)) by lia. cbn [mbind option_bind].
  destruct (IH (at_pc i (MSpin (z - 1)) true m) (z - 1)%Z) as (m' & E & Hl' & Hi');
    [done|simpl; by rewrite lookup_insert_eq|lia|].
  exists m'. split; [exact E|]. split; [done|]. rewrite Hi'. do 2 f_equal. lia.
Qed.

(** A thread does not spin for ever with preemption on: while the lock stays taken it calls [yield]
  after at most [MUTEX_SPINS] reads; with preemption off it never yields; and once the lock is free,
  two steps of any thread that waits for it take it. *)
Theorem lock_progress i m z :
  pcs m !! i = Some (MSpin z) -> (0 <= z <= MUTEX_SPINS)%Z ->
  (lock m = true -> exists k m', k <= 1001 /\ steps_of i true k m = Some m' /\ pcs m' !! i = Some MYield) /\
  (forall m', mutex_step i false m = Some m' -> pcs m' !! i <> Some MYield) /\
  (lock m = false -> forall preempt, exists m', steps_of i preempt 2 m = Some m' /\ lock m' = true /\
     pcs m' !! i = Some MHeld).
Proof.
  intros Hi Hz. unfold MUTEX_SPINS in Hz. split; [|split].
  - intros Hl. exists (Z.to_nat z + 1).
    destruct (spin_steps i m (Z.to_nat z) z Hl Hi) as (m1 & E1 & Hl1 & Hi1); [lia|].
    assert (forall k k' m0, steps_of i true (k + k') m0 = (m' ← steps_of i true k m0; steps_of i true k' m')) as Happ.
    { induction k as [|k IH]; intros k' m0; [done|]. simpl. destruct (mutex_step i true m0); [apply IH|done]. }
    rewrite Happ, E1. cbn [mbind option_bind steps_of]. unfold mutex_step. rewrite Hi1. cbn [mbind option_bind].
    rewrite Hl1. replace (z - Z.of_nat (Z.to_nat z))%Z with 0%Z by lia. cbn.
    eexists. split; [lia|]. split; [done|]. simpl. by rewrite lookup_insert_eq.
  - intros m' E. unfold mutex_step in E. rewrite Hi in E. cbn [mbind option_bind] in E.
    repeat case_match; simplify_eq; simpl; by rewrite lookup_insert_eq.
  - intros Hl preempt. cbn [steps_of].
    assert (mutex_step i preempt m = Some (at_pc i MTas false m)) as ->
      by (unfold mutex_step; rewrite Hi; simpl; by rewrite Hl).
    cbn [mbind option_bind]. unfold mutex_step. cbn [pcs at_pc]. rewrite lookup_insert_eq. cbn.
    eexists. split; [done|]. split; [done|]. simpl. by rewrite lookup_insert_eq.
Qed.

Definition contended : mutex := mkMutex true (<[1 := MSpin 5]> (<[0 := MHeld]> ∅)).

(** Thread 0 has taken the lock, and thread 1 spins. *)
Lemma mutual_exclusion_witness : exists m, pcs m !! 0 = Some MHeld /\ lock m = true /\ pcs m !! 1 = Some (MSpin MUTEX_SPINS) /\
  forall j, pcs m !! j = Some MHeld -> 0 = j.
Proof.
  destruct (steps_of 0 true 2 (start 2) ≫= steps_of 1 true 2) as [m|] eqn:E; [|vm_compute in E; discriminate].
  assert (reach step (start 2) m) as Hr.
  { destruct (steps_of 0 true 2 (start 2)) as [m1|] eqn:E1; [|discriminate]. eapply reach_trans; eapply steps_of_reach; eassumption. }
  destruct (mutual_exclusion 2 m Hr) as [H1 H2]. assert (pcs m !! 0 = Some MHeld) as H0 by (vm_compute in E; injection E as <-; reflexivity).
  exists m. split; [exact H0|]. split; [apply H2; exists 0; exact H0|]. split; [|intros j; apply H1, H0].
  vm_compute in E. injection E as <-. reflexivity.
Defined.

Lemma lock_progress_witness :
  exists k m', k <= 1001 /\ steps_of 1 true k contended = Some m' /\ pcs m' !! 1 = Some MYield.
Proof. apply (lock_progress 1 contended 5); [reflexivity|unfold MUTEX_SPINS; lia|reflexivity]. Defined.
End SpinLock.

(** ** The kernel lock

  The calls of [kernel_lock], [kernel_unlock], [kernel_wait_wchan] and [kernel_sleep], each cut where
  it sleeps: every piece runs with [kernel_mutex] held, so it is one step.  Where a thread is: in user
  code; asleep on [kernel_sem_cv]; woken there, about to test [kernel_sem] again; in the kernel; asleep
  on another condition variable in [kernel_wait_wchan]; or gone, by [kernel_sleep]. *)

Module KernelLock.
Inductive kpc :=
  | KUser
  | KWaiting
  | KWoken
  | KKernel
  | KChannel
  | KGone.

#[export] Instance kpc_eq_dec : EqDecision kpc.
Proof. solve_decision. Defined.

(** [waiting] are the sleepers of [kernel_sem_cv], in order of arrival. *)
Record klock := mkKlock { kernel_sem : Z; waiting : list nat; kpcs : gmap nat kpc }.

Definition goes (i : nat) (p : kpc) (k : klock) : klock := mkKlock (kernel_sem k) (waiting k) (<[i := p]> (kpcs k)).

(** One round of the loop [while(kernel_sem<=0) Cond_Wait(...)], and [kernel_sem--] when it ends. *)
Definition acquire (i : nat) (k : klock) : klock :=
  if (kernel_sem k <=? 0)%Z then mkKlock (kernel_sem k) (waiting k ++ [i]) (<[i := KWaiting]> (kpcs k))
  else mkKlock (kernel_sem k - 1) (waiting k) (<[i := KKernel]> (kpcs k)).

(** [kernel_sem++; Cond_Signal(&kernel_sem_cv)]. *)
Definition release (k : klock) : klock :=
  match waiting k with
  | [] => mkKlock (kernel_sem k + 1) [] (kpcs k)
  | j :: r => mkKlock (kernel_sem k + 1) r (<[j := KWoken]> (kpcs k))
  end.

Definition kernel_lock (i : nat) (k : klock) : klock := acquire i k.
Definition kernel_unlock (i : nat) (k : klock) : klock := goes i KUser (release k).
Definition kernel_wait_wchan (i : nat) (k : klock) : klock := goes i KChannel (release k).
Definition kernel_sleep (i : nat) (k : klock) : klock := goes i KGone (release k).

(** What thread [i] does next: [k_wake] is a wakeup that is not a signal of [kernel_sem_cv], and the
  end of the sleep on another condition variable. *)
Inductive kcall := k_lock | k_again | k_unlock | k_wait | k_sleep | k_wake.

Definition kstep (i : nat) (c : kcall) (k : klock) : option klock :=
  p ← kpcs k !! i;
  match c, p with
  | k_lock, KUser | k_again, KWoken => Some (acquire i k)
  | k_unlock, KKernel => Some (kernel_unlock i k)
  | k_wait, KKernel => Some (kernel_wait_wchan i k)
  | k_sleep, KKernel => Some (kernel_sleep i k)
  | k_wake, KWaiting => Some (mkKlock (kernel_sem k) (filter (fun j => j <> i) (waiting k)) (<[i := KWoken]> (kpcs k)))
  | k_wake, KChannel => Some (goes i KWoken k)
  | _, _ => None
  end.

Inductive step (k : klock) : klock -> Prop :=
  | do_step i c k' : kstep i c k = Some k' -> step k k'.

Definition start (n : nat) : klock := mkKlock 1 [] (list_to_map (map (fun i => (i, KUser)) (seq 0 n))).

Record inv (k : klock) : Prop := {
  inv_one i j : kpcs k !! i = Some KKernel -> kpcs k !! j = Some KKernel -> i = j;
  inv_sem : (kernel_sem k = 0%Z /\ (exists i, kpcs k !! i = Some KKernel)) \/
            (kernel_sem k = 1%Z /\ forall i, kpcs k !! i <> Some KKernel);
  inv_waiting i : i ∈ waiting k <-> kpcs k !! i = Some KWaiting;
  inv_nodup : NoDup (waiting k);
  inv_signal : (0 < kernel_sem k)%Z -> waiting k <> [] -> exists i, kpcs k !! i = Some KWoken
}.

Lemma klock_start_inv n : inv (start n).
Proof.
  assert (forall i p, kpcs (start n) !! i = Some p -> p = KUser) as Hu.
  { simpl. intros i p Hp%elem_of_list_to_map_2. by apply list_elem_of_fmap in Hp as (j & [= -> ->] & _). }
  split; try done.
  - intros i j Hi%Hu. done.
  - right. split; [done|]. intros i Hi%Hu. done.
  - intros i. split; [by intros ?%not_elem_of_nil|by intros ?%Hu].
  - constructor.
Qed.

Lemma inv_acquire i p k : inv k -> kpcs k !! i = Some p -> p = KUser \/ p = KWoken -> inv (acquire i k).
Proof.
  intros [I1 I2 I3 I4 I5] Hi Hp. assert (i ∉ waiting k) as Hnw.
  { rewrite I3, Hi. destruct Hp as [-> | ->]; done. }
  unfold acquire. destruct I2 as [[Hs (o & Ho)]|[Hs Hno]]; rewrite Hs; simpl.
  - assert (i <> o) by (intros ->; destruct Hp; congruence). split; simpl; try done.
    + intros j j' [[_ ?]|[_ ?]]%lookup_insert_Some [[_ ?]|[_ ?]]%lookup_insert_Some; try done. by apply I1.
    + left. split; [done|]. exists o. by rewrite lookup_insert_ne.
    + intros j. rewrite elem_of_app, list_elem_of_singleton, I3. destruct (decide (i = j)) as [<-|].
      * rewrite lookup_insert_eq. naive_solver.
      * rewrite lookup_insert_ne by done. naive_solver.
    + apply NoDup_app. split; [done|]. split; [|apply NoDup_singleton]. intros j Hj ->%list_elem_of_singleton. done.
  - assert (forall j, i <> j -> <[i := KKernel]> (kpcs k) !! j <> Some KKernel) as Hj.
    { intros j Hne. rewrite lookup_insert_ne by done. apply Hno. }
    split; simpl; try done.
    + intros j j' Hk Hk'. destruct (decide (i = j)) as [<-|Hne]; [|by destruct (Hj j)].
      destruct (decide (i = j')) as [<-|Hne']; [done|by destruct (Hj j')].
    + left. split; [lia|]. exists i. by rewrite lookup_insert_eq.
    + intros j. rewrite I3. destruct (decide (i = j)) as [<-|]; [|by rewrite lookup_insert_ne].
      rewrite lookup_insert_eq, Hi. destruct Hp as [-> | ->]; done.
Qed.

Lemma inv_release i p k : inv k -> kpcs k !! i = Some KKernel -> p <> KKernel -> p <> KWaiting -> p <> KWoken ->
  inv (goes i p (release k)).
Proof.
  intros [I1 I2 I3 I4 I5] Hi Hp Hp' Hp''. destruct I2 as [[Hs _]|[_ Hno]]; [|by apply Hno in Hi].
  assert (i ∉ waiting k) as Hnw by (rewrite I3, Hi; done).
  unfold release. destruct (waiting k) as [|j r] eqn:Hw; unfold goes; simpl.
  - split; simpl; try done.
    + intros a b [[_ ?]|[Ha ?]]%lookup_insert_Some [[_ ?]|[_ ?]]%lookup_insert_Some; try done. by apply I1.
    + right. split; [lia|]. intros a [[_ ?]|[Ha ?]]%lookup_insert_Some; [done|]. apply Ha. by apply I1.
    + intros a. rewrite I3. destruct (decide (i = a)) as [<-|]; [|by rewrite lookup_insert_ne].
      rewrite lookup_insert_eq, Hi. naive_solver.
  - apply NoDup_cons in I4 as [Hjr I4]. assert (i <> j) by (intros ->; apply Hnw; by left).
    assert (forall a q, <[i := p]> (<[j := KWoken]> (kpcs k)) !! a = Some q -> (a = i /\ q = p) \/ (a = j /\ q = KWoken) \/
      (a <> i /\ a <> j /\ kpcs k !! a = Some q)) as Hl.
    { intros a q [[<- <-]|[? [[<- <-]|[? ?]]%lookup_insert_Some]]%lookup_insert_Some; naive_solver. }
    split; simpl; try done.
    + intros a b [[_ ?]|[[_ ?]|(_ & _ & ?)]]%Hl [[_ ?]|[[_ ?]|(_ & _ & ?)]]%Hl; try done. by apply I1.
    + right. split; [lia|]. intros a [[_ ?]|[[_ ?]|(Ha & _ & ?)]]%Hl; try done. apply Ha. by apply I1.
    + intros a. assert (a ∈ r <-> a <> j /\ kpcs k !! a = Some KWaiting) as ->.
      { rewrite <- I3, elem_of_cons. naive_solver. }
      split; [|intros [[_ ?]|[[_ ?]|(_ & ? & ?)]]%Hl; done].
      intros [Ha Hk]. rewrite !lookup_insert_ne; [done|congruence|congruence].
    + intros _ _. exists j. by rewrite lookup_insert_ne, lookup_insert_eq by done.
Qed.

Lemma inv_wake i p l k : inv k -> kpcs k !! i = Some p -> p = KWaiting \/ p = KChannel ->
  l = filter (fun j => j <> i) (waiting k) -> inv (mkKlock (kernel_sem k) l (<[i := KWoken]> (kpcs k))).
Proof.
  intros [I1 I2 I3 I4 I5] Hi Hp ->. split; simpl.
  - intros a b [[_ ?]|[Ha ?]]%lookup_insert_Some [[_ ?]|[_ ?]]%lookup_insert_Some; try done. by apply I1.
  - destruct I2 as [[Hs (o & Ho)]|[Hs Hno]]; [left|right]; (split; [done|]).
    + exists o. rewrite lookup_insert_ne; [done|]. intros ->. destruct Hp; congruence.
    + intros a [[_ ?]|[_ ?]]%lookup_insert_Some; [done|]. by apply (Hno a).
  - intros a. rewrite list_elem_of_filter, I3. destruct (decide (i = a)) as [<-|Hne].
    + rewrite lookup_insert_eq. naive_solver.
    + rewrite lookup_insert_ne by done. naive_solver.
  - by apply NoDup_filter.
  - intros _ _. exists i. by rewrite lookup_insert_eq.
Qed.

Lemma klock_step_inv k k' : inv k -> step k k' -> inv k'.
Proof.
  intros I [i c k2 E]. unfold kstep in E. destruct (kpcs k !! i) as [p|] eqn:Hi; [|done]. simpl in E.
  destruct c, p; simplify_eq; try (eapply inv_acquire; [done|done|by auto]);
    try (apply inv_release; [done|done|done..]); eapply inv_wake; [done|done|by auto|done|done|done|by auto|].
  rewrite filter_all; [done|]. intros j Hj ->. apply (inv_waiting _ I) in Hj. congruence.
Qed.

(** C28.  The kernel lock is exclusive: at most one thread is in the kernel, [kernel_sem] is 0 when one
  is and 1 when none is; and no wakeup is lost: when the kernel is free and threads sleep on
  [kernel_sem_cv], one of them has been woken and will test [kernel_sem] again. *)
Theorem kernel_lock_exclusive n k :
  reach step (start n) k ->
  (forall i j, kpcs k !! i = Some KKernel -> kpcs k !! j = Some KKernel -> i = j) /\
  (kernel_sem k = 0%Z \/ kernel_sem k = 1%Z) /\
  (kernel_sem k = 0%Z <-> exists i, kpcs k !! i = Some KKernel) /\
  ((0 < kernel_sem k)%Z -> waiting k <> [] -> exists i, kpcs k !! i = Some KWoken).
Proof.
  intros Hr. assert (inv k) as [I1 I2 I3 I4 I5].
  { eapply reach_invariant; [apply klock_step_inv|exact Hr|apply klock_start_inv]. }
  split; [done|]. split; [|split; [|done]].
  - destruct I2 as [[? _]|[? _]]; auto.
  - destruct I2 as [[Hs Hex]|[Hs Hno]]; rewrite Hs; [done|]. split; [done|]. intros [i Hi]. by apply Hno in Hi.
Qed.

Lemma kernel_lock_exclusive_witness :
  kernel_sem (kernel_lock 0 (start 2)) = 0%Z <-> exists i, kpcs (kernel_lock 0 (start 2)) !! i = Some KKernel.
Proof.
  apply (kernel_lock_exclusive 2). eapply reach_step; [constructor|].
  apply (do_step _ 0 k_lock). reflexivity.
Defined.
End KernelLock.
