(* ===== verification/Monitor.v ===== *)
(** * Programs on monitors (tinyos.h, kernel_cc.c)

  Threads that share memory and synchronise with mutexes and condition variables.  A program is given by its control
  points: [code t l] is the instruction of the thread [t] at [l].  The condition variables are those of [CondVar],
  with all of their code; the scheduler is reduced to what its interface promises of a thread: it sleeps or it does
  not.  A step is one instruction of one thread, or, if
  [timers] says that time passes, the end of a timeout. *)

From S2P Require Import Prelude Rlist Iface CondVar.

(** ** The sleeping threads as a scheduler *)

#[export] Instance sleepers_wake : WakeOps nat (gset nat) := fun t s => Ret (bool_decide (t ∈ s), s ∖ {[t]}).
#[export] Instance sleepers_sleep : SleepOps nat (gset nat) := fun t _ s => Ret ({[t]} ∪ s).

Definition any_ok (_ : gset nat) : Prop := True.
Definition asleep_in (s : gset nat) (t : nat) : Prop := t ∈ s.
Definition any_live (_ : gset nat) (_ : nat) : Prop := True.
Definition awake_in (s : gset nat) (t : nat) (_ : Z) : Prop := t ∉ s.

#[export] Instance sleepers_wake_laws : WakeLaws nat (gset nat) any_ok asleep_in any_live.
Proof.
  split. intros s t _ _. eexists _, _. split; [reflexivity|]. split; [done|]. unfold asleep_in.
  split; [apply bool_decide_eq_true|]. split; [set_solver|]. split; [set_solver|done].
Qed.

#[export] Instance sleepers_sleep_laws : SleepLaws nat (gset nat) any_ok asleep_in any_live awake_in.
Proof.
  split; [|done]. intros s t timeout _ _. eexists. split; [reflexivity|]. unfold asleep_in.
  split; [done|]. split; [set_solver|]. split; [set_solver|done].
Qed.

(** ** Programs *)

(** The instructions; [L] are the control points, [U] the shared memory.  [ITry] is a computation that may fail.  A wait without a timeout is [Cond_Wait],
  one with a timeout [Cond_TimedWait]; the parent of the other threads executes them and waits for all of them. *)
Inductive instr (L U : Type) :=
  | ILocal (f : U -> U * L)
  | ITry (f : U -> outcome (U * L))
  | ILock (m : nat) (l : L)
  | IUnlock (m : nat) (l : L)
  | IWait (m c : nat) (timeout : option Z) (signalled timedout : L)
  | ISignal (c : nat) (l : L)
  | IBroadcast (c : nat) (l : L)
  | IExec (child : nat) (start l : L)
  | IWaitChildren (l : L)
  | IFail
  | IEnd.
Arguments ILocal {L U}.
Arguments ITry {L U}.
Arguments ILock {L U}.
Arguments IUnlock {L U}.
Arguments IWait {L U}.
Arguments ISignal {L U}.
Arguments IBroadcast {L U}.
Arguments IExec {L U}.
Arguments IWaitChildren {L U}.
Arguments IFail {L U}.
Arguments IEnd {L U}.

(** A thread is at a control point, or inside of the wait on [c], which ends with the mutex [m] locked again at the
  first point if the thread was signalled, else at the second. *)
Inductive mon_thread (L : Type) :=
  | At (l : L)
  | InCond (m c : nat) (timed : bool) (signalled timedout : L).
Arguments At {L}.
Arguments InCond {L}.

Record msys (L U : Type) := mkMon { sync : ccsys (T := nat) (S := gset nat); mem : U; thr : gmap nat (mon_thread L) }.
Arguments mkMon {L U}.
Arguments sync {L U}.
Arguments mem {L U}.
Arguments thr {L U}.

Section monitor.
Context {L U : Type} (timers : bool) (code : nat -> L -> instr L U).
Implicit Types (s : msys L U) (t m c : nat) (l : L).

Definition locks s : gset nat := held (cc (sync s)).
Definition sleepers s : gset nat := sch (cc (sync s)).

Definition at_point t l s : msys L U := mkMon (sync s) (mem s) (<[t := At l]> (thr s)).
Definition with_mem u s : msys L U := mkMon (sync s) u (thr s).
Definition with_sync y s : msys L U := mkMon y (mem s) (thr s).
Definition with_locks ms s : msys L U := with_sync (mkSys (with_held ms (cc (sync s))) (home (sync s))) s.

(** A call of the condition variables; the address of the waiter is the thread. *)
Definition cc_do (c : cc_call (T := nat)) s : outcome (option bool * msys L U) :=
  '(b, y) ← cc_perform c (sync s); Ret (b, with_sync y s).

Definition ended s t : bool :=
  match thr s !! t with Some (At l) => match code t l with IEnd => true | _ => false end | _ => false end.

(** [Cond_Wait] has no timeout, [Cond_TimedWait] one in milliseconds. *)
Definition timeout_of (o : option Z) : Z := match o with None => 2 ^ 64 - 1 | Some ms => u64 (ms * 1000) end.

Definition exec_instr t (i : instr L U) s : option (outcome (msys L U)) :=
  match i with
  | ILocal f => let '(u, l) := f (mem s) in Some (Ret (at_point t l (with_mem u s)))
  | ITry f => Some ('(u, l) ← f (mem s); Ret (at_point t l (with_mem u s)))
  | ILock m l => if decide (m ∈ locks s) then None else Some (Ret (at_point t l (with_locks ({[m]} ∪ locks s) s)))
  | IUnlock m l => Some (Ret (at_point t l (with_locks (locks s ∖ {[m]}) s)))
  | IWait m c o l l' => Some ('(_, s) ← cc_do (CallWait c t m t (timeout_of o)) s;
      Ret (mkMon (sync s) (mem s) (<[t := InCond m c (bool_decide (is_Some o)) l l']> (thr s))))
  | ISignal c l => Some ('(_, s) ← cc_do (CallSignal c) s; Ret (at_point t l s))
  | IBroadcast c l => Some ('(_, s) ← cc_do (CallBroadcast c) s; Ret (at_point t l s))
  | IExec child start l => Some (Ret (at_point t l (at_point child start s)))
  | IWaitChildren l =>
      if forallb (fun c => bool_decide (c = t) || ended s c) (elements (dom (thr s))) then Some (Ret (at_point t l s)) else None
  | IFail => Some (Err AssertFail)
  | IEnd => None
  end.

(** The next step of the thread [t]: [None] when it waits for a mutex or to be woken, or has ended. *)
Definition thread_turn t s : option (outcome (msys L U)) :=
  match thr s !! t with
  | Some (At l) => exec_instr t (code t l) s
  | Some (InCond m c timed l l') =>
      if decide (t ∈ sleepers s \/ m ∈ locks s) then None
      else Some ('(b, s) ← cc_do (CallWaitEnd c t m) s; Ret (at_point t (if default false b then l else l') s))
  | None => None
  end.

(** The timeout of the thread [t] is over. *)
Definition timer_turn t s : option (outcome (msys L U)) :=
  match thr s !! t with
  | Some (InCond m c true _ _) => if decide (t ∈ sleepers s) then Some ('(_, s) ← cc_do (CallOther t) s; Ret s) else None
  | _ => None
  end.

Inductive mmove := Turn (t : nat) | Timer (t : nat).
Definition mon_turn (a : mmove) s : option (outcome (msys L U)) :=
  match a with Turn t => thread_turn t s | Timer t => if timers then timer_turn t s else None end.

Inductive mon_step s : msys L U -> Prop :=
  | mon_step_at a s' : mon_turn a s = Some (Ret s') -> mon_step s s'.

(** The condition variables and the threads at the start. *)
Definition mon_start (cvs : gset nat) (u : U) (m : gmap nat (mon_thread L)) : msys L U := mkMon (cc_start cvs ∅ ∅) u m.
End monitor.

(** ** All schedules

  [explore] goes through all states that are reached by exactly [0], [1], .. steps, each once. *)

#[export] Instance cv_waiter_eq_dec : EqDecision (cv_waiter nat).
Proof. solve_decision. Defined.
#[export] Instance rlnode_eq_dec : EqDecision (rlnode nat (option nat)).
Proof. solve_decision. Defined.
#[export] Instance ccst_eq_dec : EqDecision (ccst nat (gset nat)).
Proof. solve_decision. Defined.
#[export] Instance ccsys_eq_dec : EqDecision (ccsys (T := nat) (S := gset nat)).
Proof. solve_decision. Defined.
#[export] Instance mon_thread_eq_dec {L} `{EqDecision L} : EqDecision (mon_thread L).
Proof. solve_decision. Defined.
#[export] Instance msys_eq_dec {L U} `{EqDecision L, EqDecision U} : EqDecision (msys L U).
Proof. solve_decision. Defined.

Section explore.
Context {L U : Type} `{EqDecision L, EqDecision U} (timers : bool) (code : nat -> L -> instr L U) (good : msys L U -> bool).
Implicit Types (s : msys L U) (l : list (msys L U)).

Definition mon_moves s : list mmove := elements (dom (thr s)) ≫= (fun t => [Turn t; Timer t]).

Definition mon_next s : list (outcome (msys L U)) := omap (fun a => mon_turn timers code a s) (mon_moves s).

Definition all_ended s : bool := forallb (ended code s) (elements (dom (thr s))).

(** No instruction fails, and who cannot move has ended well. *)
Definition state_fine s : bool :=
  forallb (fun o => match o with Ret _ => true | Err _ => false end) (mon_next s) &&
  match mon_next s with [] => all_ended s && good s | _ => true end.

Definition rets (os : list (outcome (msys L U))) : list (msys L U) := omap (fun o => match o with Ret s => Some s | Err _ => None end) os.

Fixpoint explore (fuel : nat) l : bool :=
  match l with
  | [] => true
  | _ => match fuel with
         | O => false
         | Datatypes.S fuel => forallb state_fine l && explore fuel (remove_dups (rets (l ≫= mon_next)))
         end
  end.

(** A run of [n] steps. *)
Inductive mon_run s : nat -> msys L U -> Prop :=
  | mon_run_0 : mon_run s 0 s
  | mon_run_S n s' s'' : mon_run s n s' -> mon_step timers code s' s'' -> mon_run s (Datatypes.S n) s''.
End explore.

Section explore_sound.
Context {L U : Type} `{EqDecision L, EqDecision U} (timers : bool) (code : nat -> L -> instr L U) (good : msys L U -> bool).
Implicit Types (s : msys L U) (l : list (msys L U)).

Lemma mon_turn_next a s o : mon_turn timers code a s = Some o -> o ∈ mon_next timers code s.
Proof.
  intros E. apply list_elem_of_omap. exists a. split; [|done]. apply list_elem_of_bind.
  assert (exists t, is_Some (thr s !! t) /\ (a = Turn t \/ a = Timer t)) as (t & Ht & Ha).
  { destruct a as [t|t]; exists t; (split; [|auto]); simpl in E; [|destruct timers; [|done]];
      unfold thread_turn, timer_turn in E; destruct (thr s !! t); (done || by eexists). }
  exists t. split; [destruct Ha as [-> | ->]; list_mem|]. by apply elem_of_elements, elem_of_dom.
Qed.

Lemma explore_step fuel l s s' : explore timers code good fuel l = true -> s ∈ l -> mon_step timers code s s' ->
  exists fuel', fuel = Datatypes.S fuel' /\ exists l', explore timers code good fuel' l' = true /\ s' ∈ l'.
Proof.
  intros Hx Hs [a s1 Ha]. destruct l as [|s0 l]; [by apply not_elem_of_nil in Hs|]. destruct fuel as [|fuel]; [done|].
  exists fuel. split; [done|]. cbn [explore] in Hx. apply andb_true_iff in Hx as [_ Hx]. eexists. split; [exact Hx|].
  apply elem_of_remove_dups. apply list_elem_of_omap. exists (Ret s1). split; [|done].
  apply list_elem_of_bind. exists s. split; [by eapply mon_turn_next|done].
Qed.

Lemma explore_run fuel l s n s' : explore timers code good fuel l = true -> s ∈ l -> mon_run timers code s n s' ->
  n <= fuel /\ exists l', explore timers code good (fuel - n) l' = true /\ s' ∈ l'.
Proof.
  intros Hx Hs. induction 1 as [|n s1 s2 Hr IH Hst].
  - split; [lia|]. rewrite Nat.sub_0_r. by exists l.
  - destruct IH as (Hn & l' & Hl' & Hs1). destruct (explore_step _ _ _ _ Hl' Hs1 Hst) as (f & Hf & l2 & Hl2 & Hs2).
    split; [lia|]. exists l2. replace (fuel - Datatypes.S n) with f by lia. done.
Qed.

(** Every schedule from [s] has fewer than [fuel] steps, no instruction fails, and a state in which nobody can move
  is one in which all have ended well. *)
Definition all_end (fuel : nat) s : Prop := forall n s', mon_run timers code s n s' ->
  n < fuel /\ (forall a o, mon_turn timers code a s' = Some o -> exists s'', o = Ret s'') /\
  ((exists s'', mon_step timers code s' s'') \/ all_ended code s' = true /\ good s' = true).

Lemma explore_sound fuel s : explore timers code good fuel [s] = true -> all_end fuel s.
Proof.
  intros Hx n s' Hr. destruct (explore_run _ _ _ _ _ Hx ltac:(by left) Hr) as (Hn & l & Hl & Hs).
  destruct l as [|s0 l]; [by apply not_elem_of_nil in Hs|]. destruct (fuel - n) as [|f] eqn:Hf; [done|].
  cbn [explore] in Hl. apply andb_true_iff in Hl as [Hl _]. rewrite forallb_forall in Hl.
  specialize (Hl s' (proj1 (list_elem_of_In _ _) Hs)). apply andb_true_iff in Hl as [Hl1 Hl2]. rewrite forallb_forall in Hl1.
  assert (forall o, o ∈ mon_next timers code s' -> exists s'', o = Ret s'') as Hret.
  { intros o Ho%list_elem_of_In%Hl1. destruct o; [by eexists|done]. }
  split; [lia|]. split; [intros a o Ha; by eapply Hret, mon_turn_next|].
  destruct (mon_next timers code s') as [|o os] eqn:En; [right; by apply andb_true_iff in Hl2|left].
  destruct (Hret o) as [s'' ->]; [by left|].
  assert (Ret s'' ∈ mon_next timers code s') as Hin by (rewrite En; by left).
  apply list_elem_of_omap in Hin as (a & _ & Ha). exists s''. by econstructor.
Qed.
End explore_sound.
