(* ===== verification/TimedTests.v ===== *)
(** * The tests of timed waits (validate_api.c)

  The tests of [Cond_TimedWait] as programs on monitors.  Thread 0 is the test, which executes the processes 1, 2, ..;
  the number of the children (100 in the source), their timeouts ([TIMEOUTS] in the source) and the times that they
  measure are parameters.  All schedules of small instances are explored at the end. *)

From S2P Require Import Prelude Rlist Iface CondVar Monitor.

(** ** A signal ends a timed wait *)

(** The control points of the test and of [long_blocking]; the memory is [flag]. *)
Inductive signal_pc :=
  | SExec | SLock | SWhile | SWait | SSignal | SUnlock | SWaitChild | SEnd
  | LLock | LFlag | LSignal | LWait | LUnlock | LEnd.
#[export] Instance signal_pc_eq_dec : EqDecision signal_pc.
Proof. solve_decision. Defined.

Definition LONG_WAIT : Z := 10000000.

Definition test_cond_timedwait_signal (_ : nat) (l : signal_pc) : instr signal_pc nat :=
  match l with
  | SExec => IExec 1 LLock SLock
  | SLock => ILock 0 SWhile
  | SWhile => ILocal (fun flag => (flag, if decide (flag = 0) then SWait else SSignal))
  | SWait => IWait 0 0 None SWhile SWhile
  | SSignal => ISignal 0 SUnlock
  | SUnlock => IUnlock 0 SWaitChild
  | SWaitChild => IWaitChildren SEnd
  | SEnd => IEnd
  | LLock => ILock 0 LFlag
  | LFlag => ILocal (fun _ => (1, LSignal))
  | LSignal => ISignal 0 LWait
  | LWait => IWait 0 0 (Some LONG_WAIT) LUnlock LUnlock
  | LUnlock => IUnlock 0 LEnd
  | LEnd => IEnd
  end.

Definition signal_test : msys signal_pc nat := mon_start {[0]} 0 {[0 := At SExec]}.

(** ** A broadcast ends the timed waits of all *)

(** The first condition variable is [cv], the second [pcv]; [N] is 100 in the source. *)
Inductive broadcast_pc :=
  | BExec (i : nat) | BLock | BWhile | BWait | BBroadcast | BUnlock | BWaitChild | BEnd
  | CLock | CFlag | CSignal | CWait | CUnlock | CEnd.
#[export] Instance broadcast_pc_eq_dec : EqDecision broadcast_pc.
Proof. solve_decision. Defined.

Definition test_cond_timedwait_broadcast (N : nat) (_ : nat) (l : broadcast_pc) : instr broadcast_pc nat :=
  match l with
  | BExec i => if decide (i < N) then IExec (S i) CLock (BExec (S i)) else ILocal (fun flag => (flag, BLock))
  | BLock => ILock 0 BWhile
  | BWhile => ILocal (fun flag => (flag, if decide (flag = N) then BBroadcast else BWait))
  | BWait => IWait 0 1 None BWhile BWhile
  | BBroadcast => IBroadcast 0 BUnlock
  | BUnlock => IUnlock 0 BWaitChild
  | BWaitChild => IWaitChildren BEnd
  | BEnd => IEnd
  | CLock => ILock 0 CFlag
  | CFlag => ILocal (fun flag => (S flag, CSignal))
  | CSignal => ISignal 1 CWait
  | CWait => IWait 0 0 (Some LONG_WAIT) CUnlock CUnlock
  | CUnlock => IUnlock 0 CEnd
  | CEnd => IEnd
  end.

Definition broadcast_test : msys broadcast_pc nat := mon_start {[0; 1]} 0 {[0 := At (BExec 0)]}.

(** ** The end of a timeout

  [elapsed t] is what the thread [t] measures, in milliseconds. *)

Section timeout.
#[local] Open Scope Z_scope.

Definition tspec2msec (tv_sec tv_nsec : Z) : Z := u64 (1000 * tv_sec + tv_nsec / 1000000).

(** [abs(Dt-t)*5 <= Dt]: the difference is converted to [int], the product to [unsigned long]. *)
Definition within_error (Dt t : Z) : bool := bool_decide (u64 (s32 (Z.abs (s32 (u64 (Dt - t))) * 5)) <= Dt).

Lemma within_error_ok Dt t : 0 <= t < 2 ^ 28 -> t <= Dt -> 4 * (Dt - t) <= t -> within_error Dt t = true.
Proof.
  intros Ht Hle He. unfold within_error. apply bool_decide_eq_true. rewrite (wrap_small 64 (Dt - t)) by lia.
  rewrite (s32_small (Dt - t)) by lia. rewrite Z.abs_eq by lia. rewrite s32_small by lia. rewrite wrap_small by lia. lia.
Qed.
End timeout.

Inductive timeout_pc :=
  | TExec (i : nat) | TWaitChild | TEnd
  | DLock | DWait | DCheck | DFail | DEnd.
#[export] Instance timeout_pc_eq_dec : EqDecision timeout_pc.
Proof. solve_decision. Defined.

(** The mutex and the condition variable of a child are its own. *)
Definition test_cond_timedwait_timeout (timeouts : list Z) (elapsed : nat -> Z) (t : nat) (l : timeout_pc) : instr timeout_pc unit :=
  match l with
  | TExec i => if decide (i < length timeouts) then IExec (S i) DLock (TExec (S i)) else ILocal (fun u => (u, TWaitChild))
  | TWaitChild => IWaitChildren TEnd
  | TEnd => IEnd
  | DLock => ILock t DWait
  | DWait => IWait t t (Some (default 0%Z (timeouts !! (t - 1)))) DCheck DCheck
  | DCheck => ILocal (fun u => (u, if within_error (elapsed t) (default 0%Z (timeouts !! (t - 1))) then DEnd else DFail))
  | DFail => IFail
  | DEnd => IEnd
  end.

(** [for(t=500; t<1000; t+=100)] and [for(t=550; t<1000; t+=100)]. *)
Definition TIMEOUTS : list Z := [500; 600; 700; 800; 900; 550; 650; 750; 850; 950]%Z.

Definition timeout_test (n : nat) : msys timeout_pc unit :=
  mon_start (list_to_set (seq 1 n)) tt {[0 := At (TExec 0)]}.

(** ** Small instances

  All schedules of the test of signals, with and without the timeout; of the test of broadcasts with 4 children when no
  timeout comes, and with 2 when one may; and of the test of timeouts with the first 3, each measured 20 milliseconds
  late.  No schedule has more steps than the bound, in none an assertion fails, and none gets stuck. *)
Example timed_waits_end :
  (forall timers, all_end timers test_cond_timedwait_signal (fun s => bool_decide (mem s = 1)) 40 signal_test) /\
  all_end false (test_cond_timedwait_broadcast 4) (fun s => bool_decide (mem s = 4)) 100 broadcast_test /\
  all_end true (test_cond_timedwait_broadcast 2) (fun s => bool_decide (mem s = 2)) 60 broadcast_test /\
  all_end true (test_cond_timedwait_timeout (take 3 TIMEOUTS) (fun t => 520 + 100 * Z.of_nat (t - 1))%Z) (fun _ => true) 60 (timeout_test 3).
Proof.
  split; [|split; [|split]]; [intros []|..]; apply explore_sound; vm_compute; reflexivity.
Qed.
