(* ===== verification/Bios.v ===== *)
(** * The virtual machine (bios.c)

  The cores with their interrupts, halting, timers and the clock; the serial ports; and the interrupt
  controller (the PIC thread).  What the host answers (which signals and file descriptors are ready,
  what a read or a write of a FIFO returns, the time) is an argument of the operations, and an
  interrupt handler is a function [run] that the kernel supplies.  The first argument [c] of the CPU
  functions is the core that calls them. *)

From S2P Require Import Prelude Rlist Iface.

(** ** Data *)

Inductive Interrupt := ICI | ALARM | SERIAL_RX_READY | SERIAL_TX_READY.

#[export] Instance interrupt_eq_dec : EqDecision Interrupt.
Proof. solve_decision. Defined.

#[export] Instance interrupt_countable : Countable Interrupt.
Proof.
  refine (inj_countable'
    (fun i => match i with ICI => 0 | ALARM => 1 | SERIAL_RX_READY => 2 | SERIAL_TX_READY => 3 end)
    (fun n => match n with 0 => ICI | 1 => ALARM | 2 => SERIAL_RX_READY | _ => SERIAL_TX_READY end) _); by intros [].
Defined.

(** The interrupts by number, the order in which they are dispatched. *)
Definition interrupts : list Interrupt := [ICI; ALARM; SERIAL_RX_READY; SERIAL_TX_READY].

Definition MAX_CORES : nat := 32.
Definition MAX_TERMINALS : nat := 4.
Definition SERIAL_TIMEOUT : Z := 300.

(** The POSIX timer of a core, as it was set: the time to its expiry, zero when it is not armed, and the period. *)
Record timespec := mkTime { tv_sec : Z; tv_nsec : Z }.
Record itimerspec := mkItimer { it_value : timespec; it_interval : timespec }.
#[export] Instance timespec_eq_dec : EqDecision timespec.
Proof. solve_decision. Defined.

(** A timer that expires once. *)
Definition mkTimer (sec nsec : Z) : itimerspec := mkItimer (mkTime sec nsec) (mkTime 0 0).
Definition one_shot (t : itimerspec) : Prop := it_interval t = mkTime 0 0.

(** [masked] and [signal] are the blocking and the pending state of SIGUSR1 in the core's thread. *)
Record Core (H : Type) := mkCore {
  intvec : gmap Interrupt H;
  intpending : gset Interrupt;
  int_disabled : bool;
  halted : bool;
  timer : itimerspec;
  masked : bool;
  signal : bool;
  irq_count : Z;
  irq_raised : gmap Interrupt Z;
  irq_delivered : gmap Interrupt Z
}.
Arguments mkCore {H}.
Arguments intvec {H}.
Arguments intpending {H}.
Arguments int_disabled {H}.
Arguments halted {H}.
Arguments timer {H}.
Arguments masked {H}.
Arguments signal {H}.
Arguments irq_count {H}.
Arguments irq_raised {H}.
Arguments irq_delivered {H}.

Inductive io_direction := IODIR_RX | IODIR_TX.

#[export] Instance io_direction_eq_dec : EqDecision io_direction.
Proof. solve_decision. Defined.

Record io_device := mkDevice {
  iodir : io_direction;
  int_core : nat;
  ready : bool;
  last_int : Z
}.

Record terminal := mkTerminal { con : io_device; kbd : io_device }.

(** The nodes of the list of halted cores. *)
Inductive hnode := halted_list | halted_node (c : nat).

#[export] Instance hnode_eq_dec : EqDecision hnode.
Proof. solve_decision. Defined.

#[export] Instance hnode_countable : Countable hnode.
Proof.
  refine (inj_countable' (fun n => match n with halted_list => None | halted_node c => Some c end)
    (fun o => match o with None => halted_list | Some c => halted_node c end) _); by intros [].
Defined.

#[export] Instance halted_node_inj : Inj (=) (=) halted_node.
Proof. by intros c d [=]. Qed.

Record vm (H : Type) := mkVm {
  CORE : gmap nat (Core H);
  hring : rlheap hnode (option nat);
  TERM : gmap nat terminal;
  system_clock : Z;
  PIC_active : bool;
  PIC_loops : Z;
  PIC_usr1_queued : Z;
  PIC_usr1_drained : Z
}.
Arguments mkVm {H}.
Arguments CORE {H}.
Arguments hring {H}.
Arguments TERM {H}.
Arguments system_clock {H}.
Arguments PIC_active {H}.
Arguments PIC_loops {H}.
Arguments PIC_usr1_queued {H}.
Arguments PIC_usr1_drained {H}.

(** ** Operations *)

Section operations.
Context {H : Type}.
Implicit Types (v : vm H) (c : nat) (i : Interrupt).

Definition with_CORE m v : vm H :=
  mkVm m (hring v) (TERM v) (system_clock v) (PIC_active v) (PIC_loops v) (PIC_usr1_queued v) (PIC_usr1_drained v).
Definition with_hring h v : vm H :=
  mkVm (CORE v) h (TERM v) (system_clock v) (PIC_active v) (PIC_loops v) (PIC_usr1_queued v) (PIC_usr1_drained v).
Definition with_TERM t v : vm H :=
  mkVm (CORE v) (hring v) t (system_clock v) (PIC_active v) (PIC_loops v) (PIC_usr1_queued v) (PIC_usr1_drained v).
Definition with_clock z v : vm H :=
  mkVm (CORE v) (hring v) (TERM v) z (PIC_active v) (PIC_loops v) (PIC_usr1_queued v) (PIC_usr1_drained v).
Definition with_PIC a l q d v : vm H := mkVm (CORE v) (hring v) (TERM v) (system_clock v) a l q d.

Definition upd_core c (f : Core H -> Core H) v : outcome (vm H) :=
  k ← deref (CORE v !! c); Ret (with_CORE (<[c := f k]> (CORE v)) v).

Definition set_intvec i (h : option H) (k : Core H) : Core H :=
  mkCore (match h with Some h => <[i := h]> (intvec k) | None => delete i (intvec k) end)
    (intpending k) (int_disabled k) (halted k) (timer k) (masked k) (signal k) (irq_count k) (irq_raised k) (irq_delivered k).
Definition set_pending (p : gset Interrupt) (k : Core H) : Core H :=
  mkCore (intvec k) p (int_disabled k) (halted k) (timer k) (masked k) (signal k) (irq_count k) (irq_raised k) (irq_delivered k).
Definition set_disabled (d m : bool) (k : Core H) : Core H :=
  mkCore (intvec k) (intpending k) d (halted k) (timer k) m (signal k) (irq_count k) (irq_raised k) (irq_delivered k).
Definition set_halted (b : bool) (k : Core H) : Core H :=
  mkCore (intvec k) (intpending k) (int_disabled k) b (timer k) (masked k) (signal k) (irq_count k) (irq_raised k) (irq_delivered k).
Definition set_timer (t : itimerspec) (k : Core H) : Core H :=
  mkCore (intvec k) (intpending k) (int_disabled k) (halted k) t (masked k) (signal k) (irq_count k) (irq_raised k) (irq_delivered k).
Definition set_masked (m : bool) (k : Core H) : Core H :=
  mkCore (intvec k) (intpending k) (int_disabled k) (halted k) (timer k) m (signal k) (irq_count k) (irq_raised k) (irq_delivered k).
Definition set_signal (s : bool) (k : Core H) : Core H :=
  mkCore (intvec k) (intpending k) (int_disabled k) (halted k) (timer k) (masked k) s (irq_count k) (irq_raised k) (irq_delivered k).
Definition bump (m : gmap Interrupt Z) i : gmap Interrupt Z := <[i := (default 0%Z (m !! i) + 1)%Z]> m.
Definition count_irq (k : Core H) : Core H :=
  mkCore (intvec k) (intpending k) (int_disabled k) (halted k) (timer k) (masked k) (signal k) (irq_count k + 1) (irq_raised k) (irq_delivered k).
Definition count_raised i (k : Core H) : Core H :=
  mkCore (intvec k) (intpending k) (int_disabled k) (halted k) (timer k) (masked k) (signal k) (irq_count k) (bump (irq_raised k) i) (irq_delivered k).
Definition count_delivered i (k : Core H) : Core H :=
  mkCore (intvec k) (intpending k) (int_disabled k) (halted k) (timer k) (masked k) (signal k) (irq_count k) (irq_raised k) (bump (irq_delivered k) i).

Definition interrupt_pic_thread v : vm H :=
  with_PIC (PIC_active v) (PIC_loops v) (PIC_usr1_queued v + 1) (PIC_usr1_drained v) v.

(** *** Halting *)

(** [cpu_core_halt] up to its wait: first it blocks the signal, then it goes on the list. *)
Definition cpu_core_halt_mask c v : outcome (vm H) :=
  k ← deref (CORE v !! c);
  _ ← c_assert (negb (int_disabled k));
  upd_core c (set_masked true) v.

Definition cpu_core_halt_sleep c v : outcome (vm H) :=
  v ← upd_core c (set_halted true) v;
  h ← rlist_push_front halted_list (halted_node c) (hring v);
  Ret (with_hring h v).

Definition core_restart c v : outcome (vm H) :=
  k ← deref (CORE v !! c);
  if halted k then
    v ← upd_core c (set_halted false) v;
    '(_, h) ← rlist_remove (halted_node c) (hring v);
    Ret (with_hring h v)
  else Ret v.

Definition cpu_core_restart c v : outcome (vm H) := core_restart c v.

Definition cpu_core_restart_one v : outcome (vm H) :=
  e ← is_rlist_empty halted_list (hring v);
  if (e : bool) then Ret v
  else
    '(n, h) ← rlist_pop_front halted_list (hring v);
    nd ← deref (h !! n);
    c ← deref (obj nd);
    core_restart c (with_hring h v).

Definition cpu_cores v : nat := size (CORE v).

Fixpoint restart_cores (cs : list nat) v : outcome (vm H) :=
  match cs with [] => Ret v | c :: cs => v ← core_restart c v; restart_cores cs v end.

Definition cpu_core_restart_all v : outcome (vm H) := restart_cores (seq 0 (cpu_cores v)) v.

(** *** Interrupts *)

Definition raise_interrupt c i v : outcome (vm H) :=
  k ← deref (CORE v !! c);
  v ← upd_core c (fun k => set_signal true (count_raised i (set_pending ({[i]} ∪ intpending k) k))) v;
  cpu_core_restart c v.

Definition cpu_ici c v : outcome (vm H) :=
  _ ← c_assert (bool_decide (c < cpu_cores v));
  raise_interrupt c ICI v.

Definition cpu_interrupt_handler c i (h : option H) v : outcome (vm H) := upd_core c (set_intvec i h) v.

Definition cpu_disable_interrupts c v : outcome (vm H) :=
  k ← deref (CORE v !! c);
  if int_disabled k then Ret v else upd_core c (set_disabled true true) v.

Section handlers.
Context (run : H -> nat -> vm H -> outcome (vm H)).

(** The loop of [dispatch_interrupts]. *)
Fixpoint dispatch_loop (ints : list Interrupt) c v : outcome (vm H) :=
  match ints with
  | [] => Ret v
  | i :: ints =>
      k ← deref (CORE v !! c);
      if int_disabled k then Ret v
      else if decide (i ∈ intpending k) then
        v ← upd_core c (fun k => count_delivered i (set_pending (intpending k ∖ {[i]}) k)) v;
        v ← match intvec k !! i with Some h => run h c v | None => Ret v end;
        dispatch_loop ints c v
      else dispatch_loop ints c v
  end.

Definition dispatch_interrupts c v : outcome (vm H) := dispatch_loop interrupts c v.

(** The delivery of the signal. *)
Definition sigusr1_handler c v : outcome (vm H) :=
  v ← upd_core c (fun k => count_irq (set_signal false k)) v;
  k ← deref (CORE v !! c);
  if int_disabled k then Ret v else dispatch_interrupts c v.

Definition cpu_enable_interrupts c v : outcome (vm H) :=
  k ← deref (CORE v !! c);
  if int_disabled k then
    v ← upd_core c (set_disabled false false) v;
    dispatch_interrupts c v
  else Ret v.

(** The rest of [cpu_core_halt], once [halted] is zero. *)
Definition cpu_core_halt_wake c v : outcome (vm H) :=
  k ← deref (CORE v !! c);
  _ ← c_assert (negb (halted k));
  v ← upd_core c (set_masked false) v;
  dispatch_interrupts c v.
End handlers.

(** *** Timers and the clock *)

(** [timer_settime]: [rest] is the time to the expiry that the host reports of the old setting. *)
Definition timer_settime (newtime : itimerspec) (rest : timespec) (k : Core H) : itimerspec * Core H :=
  (mkItimer rest (it_interval (timer k)), set_timer newtime k).

Definition bios_set_timer c (usec : Z) (rest : timespec) v : outcome (Z * vm H) :=
  k ← deref (CORE v !! c);
  let sec := (usec `div` 1000000)%Z in
  let nsec := ((usec `mod` 1000000) * 1000)%Z in
  let oldtime := (timer_settime (mkTimer sec nsec) rest k).1 in
  v ← upd_core c (fun k => set_pending (intpending k ∖ {[ALARM]}) (timer_settime (mkTimer sec nsec) rest k).2) v;
  _ ← c_assert (bool_decide (it_interval oldtime = mkTime 0 0));
  Ret (u64 (1000000 * tv_sec (it_value oldtime) + tv_nsec (it_value oldtime) `div` 1000), v).

Definition bios_cancel_timer c (rest : timespec) v : outcome (Z * vm H) := bios_set_timer c 0 rest v.

Definition bios_clock v : Z := u64 (system_clock v * 1000).

(** *** Serial ports *)

Definition bios_serial_ports v : nat := size (TERM v).

Definition io_device_init (d : io_direction) (is_ready : bool) (clock : Z) : io_device :=
  mkDevice d 0 is_ready clock.

(** [got] is the byte that [read] returned, [None] when it returned 0 or would block. *)
Definition io_device_read (got : option Z) (d : io_device) : outcome (bool * io_device * bool) :=
  _ ← c_assert (bool_decide (iodir d = IODIR_RX));
  match got with
  | Some _ => Ret (true, d, false)
  | None => if ready d then Ret (false, mkDevice (iodir d) (int_core d) false (last_int d), true)
            else Ret (false, d, false)
  end.

(** [sent] tells whether [write] took the byte. *)
Definition io_device_write (sent : bool) (d : io_device) : outcome (bool * io_device * bool) :=
  _ ← c_assert (bool_decide (iodir d = IODIR_TX));
  if sent then Ret (true, d, false)
  else if ready d then Ret (false, mkDevice (iodir d) (int_core d) false (last_int d), true)
  else Ret (false, d, false).

Definition bios_read_serial (serial : nat) (got : option Z) v : outcome (option Z * vm H) :=
  t ← deref (TERM v !! serial);
  '(ok, d, pic) ← io_device_read got (kbd t);
  let v := with_TERM (<[serial := mkTerminal (con t) d]> (TERM v)) v in
  let v := if (pic : bool) then interrupt_pic_thread v else v in
  Ret (if (ok : bool) then got else None, v).

Definition bios_write_serial (serial : nat) (sent : bool) v : outcome (bool * vm H) :=
  t ← deref (TERM v !! serial);
  '(ok, d, pic) ← io_device_write sent (con t);
  let v := with_TERM (<[serial := mkTerminal d (kbd t)]> (TERM v)) v in
  let v := if (pic : bool) then interrupt_pic_thread v else v in
  Ret (ok, v).

Definition bios_serial_interrupt_core (serial : nat) i (coreid : nat) v : outcome (vm H) :=
  _ ← c_assert (bool_decide (serial < bios_serial_ports v));
  _ ← c_assert (bool_decide (i = SERIAL_RX_READY \/ i = SERIAL_TX_READY));
  _ ← c_assert (bool_decide (coreid < cpu_cores v));
  t ← deref (TERM v !! serial);
  let set d := mkDevice (iodir d) coreid (ready d) (last_int d) in
  Ret (with_TERM (<[serial := if decide (i = SERIAL_RX_READY) then mkTerminal (con t) (set (kbd t))
                              else mkTerminal (set (con t)) (kbd t)]> (TERM v)) v).
End operations.

(** *** The interrupt controller *)

(** What one round of [PIC_daemon] sees: whether [select] succeeded, the time, the cores whose timer
  expired, the keyboards and consoles that [select] reports, and the number of drained signals. *)
Record pic_events := mkEvents {
  ev_select : bool;
  ev_clock : Z;
  ev_alarms : list nat;
  ev_kbd : gset nat;
  ev_con : gset nat;
  ev_usr1 : nat;
  ev_hung : gset nat
}.

Section pic.
Context {H : Type}.
Implicit Types (v : vm H) (ev : pic_events).

(** The sets passed to [select]: the devices that are not ready, of the terminals that are connected. *)
Definition readfds ev v : gset nat :=
  dom (filter (fun p => ready (kbd p.2) = false /\ p.1 ∉ ev_hung ev) (TERM v)).
Definition writefds ev v : gset nat :=
  dom (filter (fun p => ready (con p.2) = false /\ p.1 ∉ ev_hung ev) (TERM v)).

Fixpoint raise_alarms (cs : list nat) v : outcome (vm H) :=
  match cs with [] => Ret v | c :: cs => v ← raise_interrupt c ALARM v; raise_alarms cs v end.

Definition timed_out (clock : Z) (d : io_device) : bool := (SERIAL_TIMEOUT <? u64 (clock - last_int d))%Z.

Definition wake_device (clock : Z) (d : io_device) : io_device := mkDevice (iodir d) (int_core d) true clock.

(** The loop over the devices; [rs] and [ws] are the sets that [select] returned. *)
Fixpoint pic_devices (rs ws : gset nat) (ts : list nat) v : outcome (vm H) :=
  match ts with
  | [] => Ret v
  | n :: ts =>
      t ← deref (TERM v !! n);
      let clock := system_clock v in
      v ← (if decide (n ∈ ws \/ timed_out clock (con t) = true) then
             raise_interrupt (int_core (con t)) SERIAL_TX_READY
               (with_TERM (<[n := mkTerminal (wake_device clock (con t)) (kbd t)]> (TERM v)) v)
           else Ret v);
      t ← deref (TERM v !! n);
      v ← (if decide (n ∈ rs \/ timed_out clock (kbd t) = true) then
             raise_interrupt (int_core (kbd t)) SERIAL_RX_READY
               (with_TERM (<[n := mkTerminal (con t) (wake_device clock (kbd t))]> (TERM v)) v)
           else Ret v);
      pic_devices rs ws ts v
  end.

(** One round of the loop of [PIC_daemon]. *)
Definition pic_round ev v : outcome (vm H) :=
  let rs := readfds ev v ∩ ev_kbd ev in
  let ws := writefds ev v ∩ ev_con ev in
  let v := with_clock (ev_clock ev) v in
  if ev_select ev then
    let v := with_PIC (PIC_active v) (PIC_loops v + 1) (PIC_usr1_queued v) (PIC_usr1_drained v) v in
    v ← raise_alarms (ev_alarms ev) v;
    let v := with_PIC (PIC_active v) (PIC_loops v) (PIC_usr1_queued v) (PIC_usr1_drained v + Z.of_nat (ev_usr1 ev)) v in
    pic_devices rs ws (seq 0 (bios_serial_ports v)) v
  else Ret v.

Fixpoint pic_rounds (evs : list pic_events) v : outcome (vm H) :=
  match evs with
  | [] => Ret v
  | ev :: evs => if PIC_active v then v ← pic_round ev v; pic_rounds evs v else Ret v
  end.

Definition core0 : Core H := mkCore ∅ ∅ false false (mkTimer 0 0) false false 0 ∅ ∅.

Fixpoint boot_cores (cs : list nat) (h : rlheap hnode (option nat)) : rlheap hnode (option nat) :=
  match cs with [] => h | c :: cs => boot_cores cs (rlnode_init (halted_node c) (Some c) h).2 end.

(** [vm_boot] and [bootfunc_wrapper], up to the boot code of the cores: [ready] is what [io_ready]
  answers for the consoles and the keyboards; [ncores] is zero unless a machine is running. *)
Definition vm_boot (ncores cores serialno : nat) (time : Z) (is_ready : nat -> io_direction -> bool) : outcome (vm H) :=
  _ ← check_condition (bool_decide (0 < cores <= MAX_CORES));
  _ ← check_condition (bool_decide (ncores = 0));
  _ ← check_condition (bool_decide (serialno <= MAX_TERMINALS));
  let h := boot_cores (seq 0 cores) (rlnode_init halted_list None ∅).2 in
  let terms := list_to_map (map (fun n => (n, mkTerminal (io_device_init IODIR_TX (is_ready n IODIR_TX) time)
                                              (io_device_init IODIR_RX (is_ready n IODIR_RX) time))) (seq 0 serialno)) in
  Ret (mkVm (list_to_map (map (fun c => (c, core0)) (seq 0 cores))) h terms time true 0 0 0).

(** The end of [bootfunc_wrapper]: the core drops its handlers and its timer, and core 0 stops the PIC. *)
Definition core_shutdown (c : nat) v : outcome (vm H) :=
  v ← upd_core c (fun k => mkCore ∅ (intpending k) (int_disabled k) (halted k) (mkTimer 0 0) (masked k) (signal k)
                       (irq_count k) (irq_raised k) (irq_delivered k)) v;
  if decide (c = 0) then
    Ret (interrupt_pic_thread (with_PIC false (PIC_loops v) (PIC_usr1_queued v) (PIC_usr1_drained v) v))
  else Ret v.
End pic.

(** What a round of the PIC makes of the terminal [n]. *)
Definition served_terminal (rs ws : gset nat) (clock : Z) (n : nat) (t : terminal) : terminal :=
  mkTerminal (if decide (n ∈ ws \/ timed_out clock (con t) = true) then wake_device clock (con t) else con t)
    (if decide (n ∈ rs \/ timed_out clock (kbd t) = true) then wake_device clock (kbd t) else kbd t).

Definition is_pending {H} (v : vm H) (c : nat) (i : Interrupt) : Prop :=
  exists k, CORE v !! c = Some k /\ i ∈ intpending k.

(** ** The machine as a transition system *)

Section vm_system.
Context {H : Type} (run : H -> nat -> vm H -> outcome (vm H)).
Implicit Types (v : vm H) (c : nat).

Inductive vm_req :=
  | VHaltMask (c : nat)
  | VHaltSleep (c : nat)
  | VHaltWake (c : nat)
  | VRestart (c : nat)
  | VRestartOne
  | VRestartAll
  | VIci (c : nat)
  | VSignal (c : nat)
  | VDisable (c : nat)
  | VEnable (c : nat)
  | VSetTimer (c : nat) (usec : Z) (rest : timespec)
  | VSetHandler (c : nat) (i : Interrupt) (h : option H)
  | VPic (ev : pic_events)
  | VReadSerial (n : nat) (got : option Z)
  | VWriteSerial (n : nat) (sent : bool)
  | VSerialCore (n : nat) (i : Interrupt) (c : nat)
  | VShutdown (c : nat).

Definition core_is c (f : Core H -> bool) v : bool := match CORE v !! c with Some k => f k | None => false end.

(** What the callers respect: a core halts with interrupts enabled, and wakes when it was restarted; its
  signal is delivered when it is not blocked; cores and ports exist. *)
Definition vm_enabled (r : vm_req) v : bool :=
  match r with
  | VHaltMask c => core_is c (fun k => negb (int_disabled k) && negb (halted k)) v
  | VHaltSleep c => core_is c (fun k => masked k && negb (halted k)) v
  | VHaltWake c => core_is c (fun k => masked k && negb (halted k)) v
  | VSignal c => core_is c (fun k => signal k && negb (masked k)) v
  | VRestart c | VIci c | VDisable c | VEnable c | VSetTimer c _ _ | VSetHandler c _ _ | VShutdown c =>
      core_is c (fun _ => true) v
  | VRestartOne | VRestartAll => true
  | VPic ev => forallb (fun c => core_is c (fun _ => true) v) (ev_alarms ev)
  | VReadSerial n _ | VWriteSerial n _ => bool_decide (n < bios_serial_ports v)
  | VSerialCore n i c => bool_decide (n < bios_serial_ports v) && bool_decide (c < cpu_cores v) &&
      bool_decide (i = SERIAL_RX_READY \/ i = SERIAL_TX_READY)
  end.

Definition vm_perform (r : vm_req) v : outcome (vm H) :=
  match r with
  | VHaltMask c => cpu_core_halt_mask c v
  | VHaltSleep c => cpu_core_halt_sleep c v
  | VHaltWake c => cpu_core_halt_wake run c v
  | VRestart c => cpu_core_restart c v
  | VRestartOne => cpu_core_restart_one v
  | VRestartAll => cpu_core_restart_all v
  | VIci c => cpu_ici c v
  | VSignal c => sigusr1_handler run c v
  | VDisable c => cpu_disable_interrupts c v
  | VEnable c => cpu_enable_interrupts run c v
  | VSetTimer c usec rest => '(_, v) ← bios_set_timer c usec rest v; Ret v
  | VSetHandler c i h => cpu_interrupt_handler c i h v
  | VPic ev => pic_round ev v
  | VReadSerial n got => '(_, v) ← bios_read_serial n got v; Ret v
  | VWriteSerial n sent => '(_, v) ← bios_write_serial n sent v; Ret v
  | VSerialCore n i c => bios_serial_interrupt_core n i c v
  | VShutdown c => core_shutdown c v
  end.

Inductive vm_step v : vm H -> Prop :=
  | vm_do r v' : vm_enabled r v = true -> vm_perform r v = Ret v' -> vm_step v v'.
End vm_system.
Arguments vm_req H : clear implicits.

(** ** The list of halted cores *)

Section halting.
Context {H : Type}.
Implicit Types (v : vm H) (c d : nat) (hs : list nat).

(** The cores of [hs], the last to halt first, are those that are halted, and the list holds them. *)
Record halt_inv v hs : Prop := {
  hi_list : rlist (hring v) halted_list (halted_node <$> hs);
  hi_halted c : c ∈ hs <-> exists k, CORE v !! c = Some k /\ halted k = true;
  hi_alone c : is_Some (CORE v !! c) -> c ∉ hs -> ring (hring v) [halted_node c];
  hi_key c : is_Some (CORE v !! c) -> obj_of (hring v) (halted_node c) = Some (Some c);
  hi_cores c : is_Some (CORE v !! c) <-> c < cpu_cores v
}.

Lemma in_halted c hs : halted_node c ∈ (halted_node <$> hs) <-> c ∈ hs.
Proof. rewrite list_elem_of_fmap. naive_solver. Qed.

Lemma halt_NoDup v hs : halt_inv v hs -> NoDup hs.
Proof.
  intros [H1 _ _ _ _]. pose proof (ring_NoDup _ _ H1) as [_ Hn]%NoDup_cons. by eapply NoDup_fmap_1.
Qed.

Lemma upd_core_eq c f k v : CORE v !! c = Some k -> upd_core c f v = Ret (with_CORE (<[c := f k]> (CORE v)) v).
Proof. intros Hk. unfold upd_core. by rewrite Hk. Qed.

Lemma cpu_cores_insert c k k' v : CORE v !! c = Some k -> size (<[c := k']> (CORE v)) = cpu_cores v.
Proof. intros Hk. rewrite map_size_insert_Some by eauto. done. Qed.

(** A change of the core [c] and of the list. *)
Lemma halt_inv_upd v hs c k k' h' hs' :
  halt_inv v hs -> CORE v !! c = Some k ->
  rlist h' halted_list (halted_node <$> hs') ->
  (c ∈ hs' <-> halted k' = true) -> (forall d, d <> c -> d ∈ hs' <-> d ∈ hs) ->
  (forall d, is_Some (CORE v !! d) -> d ∉ hs' -> ring h' [halted_node d]) ->
  (forall n, obj_of h' n = obj_of (hring v) n) ->
  halt_inv (with_hring h' (with_CORE (<[c := k']> (CORE v)) v)) hs'.
Proof.
  intros [H1 H2 H3 H4 H5] Hk Hl Hc Hd Ha Ho.
  assert (forall d, is_Some (<[c := k']> (CORE v) !! d) <-> is_Some (CORE v !! d)) as Hdom.
  { intros d. rewrite lookup_insert_is_Some. destruct (decide (c = d)) as [<-|]; [|tauto].
    split; [by eexists|by left]. }
  split; cbn [hring CORE with_hring with_CORE].
  - done.
  - intros d. destruct (decide (d = c)) as [->|Hne].
    + rewrite lookup_insert_eq, Hc. split; [intros ?; by eexists|intros (? & [= <-] & ?); done].
    + rewrite Hd, H2 by done. by rewrite lookup_insert_ne.
  - intros d Hs. apply Ha. by apply Hdom.
  - intros d Hs. rewrite Ho. apply H4. by apply Hdom.
  - intros d. rewrite Hdom, H5. unfold cpu_cores. cbn [CORE with_hring with_CORE].
    by erewrite cpu_cores_insert.
Qed.

(** A change of the core [c] that keeps its [halted] flag. *)
Lemma halt_inv_core v hs c k k' :
  halt_inv v hs -> CORE v !! c = Some k -> halted k' = halted k ->
  halt_inv (with_CORE (<[c := k']> (CORE v)) v) hs.
Proof.
  intros I Hk Hh. pose proof I as [H1 H2 H3 H4 H5].
  assert (halt_inv (with_hring (hring v) (with_CORE (<[c := k']> (CORE v)) v)) hs) as I'; [|by destruct v].
  eapply halt_inv_upd; try done. rewrite H2, Hh. split; [|by exists k]. intros (k1 & ? & ?). congruence.
Qed.

Lemma halt_sleep_ok v hs c k :
  halt_inv v hs -> CORE v !! c = Some k -> halted k = false ->
  exists h', cpu_core_halt_sleep c v = Ret (with_hring h' (with_CORE (<[c := set_halted true k]> (CORE v)) v)) /\
    halt_inv (with_hring h' (with_CORE (<[c := set_halted true k]> (CORE v)) v)) (c :: hs).
Proof.
  intros I Hk Hh. pose proof I as [H1 H2 H3 H4 H5].
  assert (c ∉ hs) as Hn. { rewrite H2. intros (k' & ? & ?). congruence. }
  destruct (rlist_push_front_spec (hring v) halted_list (halted_node <$> hs) (halted_node c) [] H1)
    as (h' & E & Hr & Hf).
  { apply H3; [by exists k|done]. }
  { intros x Hx ->%list_elem_of_singleton. apply elem_of_cons in Hx as [?|Hx]; [done|]. by apply in_halted in Hx. }
  exists h'. unfold cpu_core_halt_sleep. rewrite (upd_core_eq _ _ _ _ Hk), ret_bind.
  change (hring (with_CORE (<[c:=set_halted true k]> (CORE v)) v)) with (hring v). rewrite E. split; [done|].
  eapply halt_inv_upd; try done.
  - split; [done|]. intros _. by left.
  - intros d Hd. rewrite elem_of_cons. tauto.
  - intros d Hd Hnd. apply (frame_ring _ _ _ Hf [halted_node d]).
    + apply H3; [done|]. intros ?. apply Hnd. by right.
    + apply singleton_disjoint. rewrite !elem_of_cons, elem_of_nil. intros [?|[[= ->]|?]]; [done| |done]. apply Hnd. by left.
  - apply Hf.
Qed.

Lemma core_restart_ok v hs c k :
  halt_inv v hs -> CORE v !! c = Some k ->
  exists h', core_restart c v = Ret (with_hring h' (with_CORE (<[c := set_halted false k]> (CORE v)) v)) /\
    halt_inv (with_hring h' (with_CORE (<[c := set_halted false k]> (CORE v)) v)) (filter (fun d => d <> c) hs).
Proof.
  intros I Hk. pose proof I as [H1 H2 H3 H4 H5]. unfold core_restart. rewrite Hk. cbn [deref]. rewrite ret_bind.
  assert (set_halted (halted k) k = k) as Hid by (by destruct k).
  destruct (halted k) eqn:Hh.
  - assert (c ∈ hs) as (ls & rs & ->)%list_elem_of_split by (apply H2; by exists k).
    pose proof (halt_NoDup _ _ I) as Hnd. rewrite fmap_app in H1. simpl in H1.
    destruct (rlist_remove_spec _ _ _ _ _ H1) as (h' & E & Hr & Ha & Hf).
    rewrite filter_remove by done. exists h'. rewrite (upd_core_eq _ _ _ _ Hk), ret_bind.
    change (hring (with_CORE (<[c:=set_halted false k]> (CORE v)) v)) with (hring v). rewrite E. split; [done|].
    eapply halt_inv_upd; try done.
    + by rewrite fmap_app.
    + split; [|done]. intros Hc. apply NoDup_app in Hnd as (_ & Hd & [Hn _]%NoDup_cons).
      apply elem_of_app in Hc as [Hc|Hc]; [|done]. destruct (Hd _ Hc). by left.
    + intros d Hd. list_mem.
    + intros d Hs Hn. destruct (decide (d = c)) as [->|Hne]; [done|].
      apply (frame_ring _ _ _ Hf [halted_node d]); [apply H3; [done|list_mem]|].
      apply singleton_disjoint. rewrite list_elem_of_singleton. congruence.
    + apply Hf.
  - assert (c ∉ hs) as Hn. { rewrite H2. intros (k' & ? & ?). congruence. }
    rewrite filter_all by (intros x Hx ->; done). exists (hring v). rewrite Hid, insert_id by done.
    assert (with_hring (hring v) (with_CORE (CORE v) v) = v) as -> by (by destruct v). done.
Qed.

(** [cpu_core_restart_one] restarts the core that halted last. *)
Lemma restart_one_ok v hs :
  halt_inv v hs ->
  match hs with
  | [] => cpu_core_restart_one v = Ret v
  | c :: hs' => exists k h', CORE v !! c = Some k /\
      cpu_core_restart_one v = Ret (with_hring h' (with_CORE (<[c := set_halted false k]> (CORE v)) v)) /\
      halt_inv (with_hring h' (with_CORE (<[c := set_halted false k]> (CORE v)) v)) hs'
  end.
Proof.
  intros I. pose proof I as [H1 H2 H3 H4 H5]. unfold cpu_core_restart_one.
  rewrite (is_rlist_empty_spec _ _ _ H1), ret_bind. destruct hs as [|c hs]; [done|]. simpl.
  destruct (proj1 (H2 c)) as (k & Hk & Hh); [by left|].
  destruct (rlist_pop_front_spec _ _ _ _ H1) as (h1 & -> & Hr & Ha & Hf). rewrite ret_bind.
  pose proof (frame_obj _ _ _ Hf (halted_node c)) as Ho. rewrite H4 in Ho by (by exists k).
  unfold obj_of in Ho. destruct (h1 !! halted_node c) as [nd|]; [|done]. simpl in Ho. injection Ho as Ho.
  cbn [deref]. rewrite ret_bind, Ho. cbn [deref]. rewrite ret_bind.
  exists k, h1. split; [done|]. split.
  - unfold core_restart. cbn [CORE with_hring]. rewrite Hk. cbn [deref]. rewrite ret_bind, Hh.
    rewrite (upd_core_eq _ _ k) by done. rewrite ret_bind.
    cbn [hring with_hring with_CORE]. rewrite (rlist_remove_single h1 (halted_node c) Ha). done.
  - pose proof (halt_NoDup _ _ I) as [Hn _]%NoDup_cons. eapply halt_inv_upd; try done.
    + intros d Hd. rewrite elem_of_cons. tauto.
    + intros d Hs Hnd. destruct (decide (d = c)) as [->|Hne]; [done|].
      apply (frame_ring _ _ _ Hf [halted_node d]); [apply H3; [done|rewrite elem_of_cons; tauto]|].
      apply singleton_disjoint. rewrite list_elem_of_singleton. congruence.
    + apply Hf.
Qed.

Lemma restart_cores_ok v hs cs :
  halt_inv v hs -> (forall c, c ∈ cs -> is_Some (CORE v !! c)) ->
  exists v', restart_cores cs v = Ret v' /\ halt_inv v' (filter (fun d => d ∉ cs) hs) /\
    (forall c, CORE v' !! c = (if decide (c ∈ cs) then set_halted false else id) <$> CORE v !! c) /\
    system_clock v' = system_clock v /\ TERM v' = TERM v.
Proof.
  revert v hs. induction cs as [|c cs IH]; intros v hs I Hcs; cbn [restart_cores].
  - exists v. split; [done|]. split.
    { rewrite filter_all; [done|]. intros x _. apply not_elem_of_nil. }
    split; [|done]. intros d. rewrite decide_False by apply not_elem_of_nil. by rewrite option_fmap_id.
  - destruct (Hcs c) as [k Hk]; [by left|]. destruct (core_restart_ok v hs c k I Hk) as (h' & -> & I1).
    rewrite ret_bind. destruct (IH _ _ I1) as (v' & -> & I' & Hc & Hclk & Ht).
    { intros d Hd. cbn [CORE with_hring with_CORE]. rewrite lookup_insert_is_Some.
      destruct (decide (c = d)); [by left|right]. split; [done|]. apply Hcs. by right. }
    exists v'. split; [done|]. split; [|split; [|done]].
    + rewrite list_filter_filter in I'. rewrite (list_filter_iff _ (fun x => (x ∉ cs) /\ x <> c)); [done|].
      intros x. rewrite elem_of_cons. naive_solver.
    + intros d. rewrite Hc. cbn [CORE with_hring with_CORE]. destruct (decide (c = d)) as [<-|Hne].
      * rewrite lookup_insert_eq, Hk. rewrite (decide_True (P := c ∈ c :: cs)) by (by left).
        case_decide; simpl; done.
      * rewrite lookup_insert_ne by done. rewrite (decide_ext (d ∈ c :: cs) (d ∈ cs)); [done|].
        rewrite elem_of_cons. naive_solver.
Qed.

Record term_ok v : Prop := {
  to_ports n : is_Some (TERM v !! n) <-> n < bios_serial_ports v;
  to_term n t : TERM v !! n = Some t -> iodir (con t) = IODIR_TX /\ iodir (kbd t) = IODIR_RX /\
    int_core (con t) < cpu_cores v /\ int_core (kbd t) < cpu_cores v
}.

(** Nobody sets a period. *)
Definition timers_ok v : Prop := forall c k, CORE v !! c = Some k -> one_shot (timer k).

Definition vm_inv v : Prop := (exists hs, halt_inv v hs) /\ term_ok v /\ timers_ok v.

Lemma term_ok_cores v v' : term_ok v -> TERM v' = TERM v -> cpu_cores v' = cpu_cores v -> term_ok v'.
Proof.
  intros [T1 T2] Ht Hc. split; unfold bios_serial_ports in *; rewrite Ht; [done|]. rewrite Hc. done.
Qed.

Lemma vm_core v c : vm_inv v -> c < cpu_cores v -> exists k, CORE v !! c = Some k.
Proof. intros [[hs I] _] Hc. by apply (hi_cores _ _ I) in Hc. Qed.

Lemma timers_ok_insert v v' c k : timers_ok v -> CORE v' = <[c := k]> (CORE v) -> one_shot (timer k) -> timers_ok v'.
Proof. intros Tm E Hk d kd Hd. rewrite E in Hd. apply lookup_insert_Some in Hd as [[<- <-]|[_ Hd]]; [done|by eapply Tm]. Qed.

Lemma vm_inv_core v c k k' :
  vm_inv v -> CORE v !! c = Some k -> halted k' = halted k -> (one_shot (timer k) -> one_shot (timer k')) ->
  vm_inv (with_CORE (<[c := k']> (CORE v)) v).
Proof.
  intros [[hs I] [T Tm]] Hk Hh Ht. split; [exists hs; by eapply halt_inv_core|]. split.
  2: { eapply timers_ok_insert; [exact Tm|done|]. by eapply Ht, Tm. }
  eapply term_ok_cores; [done|done|]. unfold cpu_cores at 1. cbn [CORE with_CORE]. by eapply cpu_cores_insert.
Qed.

(** One core is put on the list of halted cores, or taken off it. *)
Lemma vm_inv_halt v v' hs c k k' : term_ok v -> timers_ok v -> halt_inv v' hs -> CORE v !! c = Some k ->
  CORE v' = <[c := k']> (CORE v) -> TERM v' = TERM v -> timer k' = timer k -> vm_inv v'.
Proof.
  intros T Tm I Hk E Et Ht. split; [by exists hs|]. split.
  - eapply term_ok_cores; [exact T|done|]. unfold cpu_cores at 1. rewrite E. by eapply cpu_cores_insert.
  - eapply timers_ok_insert; [exact Tm|exact E|]. unfold one_shot. rewrite Ht. by eapply Tm.
Qed.

Lemma vm_inv_term v m :
  vm_inv v -> term_ok (with_TERM m v) -> vm_inv (with_TERM m v).
Proof. intros [[hs [H1 H2 H3 H4 H5]] [_ Tm]] T. split; [by exists hs|done]. Qed.

Lemma term_ok_insert v n t t' :
  term_ok v -> TERM v !! n = Some t -> iodir (con t') = IODIR_TX -> iodir (kbd t') = IODIR_RX ->
  int_core (con t') < cpu_cores v -> int_core (kbd t') < cpu_cores v ->
  term_ok (with_TERM (<[n := t']> (TERM v)) v).
Proof.
  intros [T1 T2] Ht ????. split; unfold bios_serial_ports; cbn [TERM with_TERM].
  - intros d. rewrite map_size_insert_Some by eauto. fold (bios_serial_ports v). rewrite <- T1, lookup_insert_is_Some.
    destruct (decide (n = d)) as [<-|]; [|tauto]. split; [by eexists|by left].
  - intros d td Hd. apply lookup_insert_Some in Hd as [[<- <-]|[_ Hd]]; [done|by apply T2 in Hd].
Qed.

Lemma raise_ok v c i k :
  vm_inv v -> CORE v !! c = Some k ->
  exists v' k', raise_interrupt c i v = Ret v' /\ vm_inv v' /\ CORE v' !! c = Some k' /\
    i ∈ intpending k' /\ halted k' = false /\ intpending k ⊆ intpending k' /\
    (forall d, d <> c -> CORE v' !! d = CORE v !! d) /\
    TERM v' = TERM v /\ system_clock v' = system_clock v /\ PIC_active v' = PIC_active v /\ cpu_cores v' = cpu_cores v.
Proof.
  intros I Hk. unfold raise_interrupt. rewrite Hk. cbn [deref]. rewrite ret_bind, (upd_core_eq _ _ _ _ Hk), ret_bind.
  set (k1 := set_signal _ _). set (v1 := with_CORE (<[c := k1]> (CORE v)) v).
  assert (vm_inv v1) as [[hs I1] [T1 Tm1]] by (by eapply vm_inv_core).
  assert (CORE v1 !! c = Some k1) as Hk1 by apply lookup_insert_eq.
  destruct (core_restart_ok v1 hs c k1 I1 Hk1) as (h' & E & I2). unfold cpu_core_restart. rewrite E.
  eexists _, (set_halted false k1). split; [done|].
  assert (size (<[c := set_halted false k1]> (CORE v1)) = cpu_cores v) as Hsz.
  { erewrite cpu_cores_insert by done. unfold cpu_cores, v1. cbn [CORE with_CORE]. by erewrite cpu_cores_insert. }
  split; [split; [by eexists|split; [eapply term_ok_cores; [exact T1|done|]|]]|].
  { unfold cpu_cores at 1. cbn [CORE with_CORE with_hring]. rewrite Hsz. unfold cpu_cores, v1. cbn [CORE with_CORE].
    by erewrite cpu_cores_insert. }
  { eapply timers_ok_insert; [exact Tm1|done|]. exact (Tm1 c k1 Hk1). }
  cbn [CORE with_CORE with_hring]. rewrite lookup_insert_eq. split; [done|].
  split; [simpl; set_solver|]. split; [done|]. split; [simpl; set_solver|]. split.
  { intros d Hd. unfold v1. cbn [CORE with_CORE]. by rewrite !lookup_insert_ne. }
  do 3 (split; [done|]). exact Hsz.
Qed.
End halting.

(** ** Every operation keeps the machine well formed *)

Section requests.
Context {H : Type} (run : H -> nat -> vm H -> outcome (vm H)).
Hypothesis run_ok : forall h c v, vm_inv v -> is_Some (CORE v !! c) ->
  exists v', run h c v = Ret v' /\ vm_inv v' /\ is_Some (CORE v' !! c).
Implicit Types (v : vm H) (c : nat).

Definition good (m : outcome (vm H)) (c : nat) : Prop :=
  exists v', m = Ret v' /\ vm_inv v' /\ is_Some (CORE v' !! c).

Lemma good_core v c k k' : vm_inv v -> CORE v !! c = Some k -> halted k' = halted k -> (one_shot (timer k) -> one_shot (timer k')) ->
  good (Ret (with_CORE (<[c := k']> (CORE v)) v)) c.
Proof.
  intros I Hk Hh. eexists. split; [done|]. split; [by eapply vm_inv_core|].
  cbn [CORE with_CORE]. rewrite lookup_insert_eq. by eexists.
Qed.

Lemma dispatch_loop_ok ints c v :
  vm_inv v -> is_Some (CORE v !! c) -> good (dispatch_loop run ints c v) c.
Proof.
  revert v. induction ints as [|i ints IH]; intros v I [k Hk]; simpl; [by exists v|].
  rewrite Hk. cbn [deref]. rewrite ret_bind. destruct (int_disabled k); [by exists v|].
  case_decide; [|by apply IH]. rewrite (upd_core_eq _ _ _ _ Hk), ret_bind.
  destruct (good_core v c k (count_delivered i (set_pending (intpending k ∖ {[i]}) k)))
    as (v1 & E1 & I1 & Hk1); [done..|]. injection E1 as <-.
  destruct (intvec k !! i) as [h|].
  - destruct (run_ok h c _ I1 Hk1) as (v2 & E2 & I2 & Hk2). rewrite E2, ret_bind. by apply IH.
  - rewrite ret_bind. by apply IH.
Qed.

Lemma cpu_enable_ok c v : vm_inv v -> is_Some (CORE v !! c) -> good (cpu_enable_interrupts run c v) c.
Proof.
  intros I [k Hk]. unfold cpu_enable_interrupts. rewrite Hk. cbn [deref]. rewrite ret_bind.
  destruct (int_disabled k); [|by exists v]. rewrite (upd_core_eq _ _ _ _ Hk), ret_bind.
  apply dispatch_loop_ok; [by eapply vm_inv_core|]. cbn [CORE with_CORE]. rewrite lookup_insert_eq. by eexists.
Qed.

Lemma sigusr1_ok c v : vm_inv v -> is_Some (CORE v !! c) -> good (sigusr1_handler run c v) c.
Proof.
  intros I [k Hk]. unfold sigusr1_handler. rewrite (upd_core_eq _ _ _ _ Hk), ret_bind.
  cbn [CORE with_CORE]. rewrite lookup_insert_eq. cbn [deref]. rewrite ret_bind.
  case_match; [by eapply good_core|]. apply dispatch_loop_ok; [by eapply vm_inv_core|].
  cbn [CORE with_CORE]. rewrite lookup_insert_eq. by eexists.
Qed.

Lemma halt_wake_ok c v k :
  vm_inv v -> CORE v !! c = Some k -> halted k = false -> good (cpu_core_halt_wake run c v) c.
Proof.
  intros I Hk Hh. unfold cpu_core_halt_wake. rewrite Hk. cbn [deref]. rewrite ret_bind, Hh. cbn [negb c_assert].
  rewrite ret_bind, (upd_core_eq _ _ _ _ Hk), ret_bind.
  apply dispatch_loop_ok; [by eapply vm_inv_core|]. cbn [CORE with_CORE]. rewrite lookup_insert_eq. by eexists.
Qed.

End requests.

Section pic_requests.
Context {H : Type}.
Implicit Types (v : vm H) (c : nat).

Lemma raise_alarms_ok cs v :
  vm_inv v -> Forall (fun c => is_Some (CORE v !! c)) cs ->
  exists v', raise_alarms cs v = Ret v' /\ vm_inv v' /\ TERM v' = TERM v /\ system_clock v' = system_clock v /\
    PIC_active v' = PIC_active v /\ cpu_cores v' = cpu_cores v /\
    (forall d k, CORE v !! d = Some k -> exists k', CORE v' !! d = Some k' /\ intpending k ⊆ intpending k' /\
       (d ∈ cs -> ALARM ∈ intpending k')).
Proof.
  revert v. induction cs as [|c cs IH]; intros v I Hcs; simpl.
  { exists v. do 6 (split; [done|]). intros d k Hk. exists k. do 2 (split; [done|]). by intros ?%not_elem_of_nil. }
  apply Forall_cons in Hcs as [[k Hk] Hcs].
  destruct (raise_ok v c ALARM k I Hk) as (v1 & k1 & -> & I1 & Hk1 & Ha & _ & Hsub & Hoth & Ht & Hcl & Hp & Hn).
  rewrite ret_bind. assert (forall d, is_Some (CORE v !! d) -> is_Some (CORE v1 !! d)) as Hmono.
  { intros d Hd. destruct (decide (d = c)) as [->|]; [by exists k1|by rewrite Hoth]. }
  destruct (IH v1 I1) as (v2 & -> & I2 & Ht2 & Hcl2 & Hp2 & Hn2 & Hcores).
  { eapply Forall_impl; [done|]. simpl. auto. }
  exists v2. split; [done|]. split; [done|]. do 4 (split; [congruence|]). intros d kd Hd.
  destruct (decide (d = c)) as [->|Hne].
  - destruct (Hcores c k1 Hk1) as (k2 & Hk2 & Hs2 & _). exists k2. split; [done|].
    assert (kd = k) as -> by congruence. split; [set_solver|]. intros _. by apply Hs2.
  - destruct (Hcores d kd) as (k2 & Hk2 & Hs2 & Ha2); [by rewrite Hoth|]. exists k2. do 2 (split; [done|]).
    intros [?|?]%elem_of_cons; [done|auto].
Qed.

Lemma pic_serve_ok v n t (c : nat) i t' :
  vm_inv v -> TERM v !! n = Some t -> iodir (con t') = IODIR_TX -> iodir (kbd t') = IODIR_RX ->
  int_core (con t') < cpu_cores v -> int_core (kbd t') < cpu_cores v -> c < cpu_cores v ->
  exists v', raise_interrupt c i (with_TERM (<[n := t']> (TERM v)) v) = Ret v' /\ vm_inv v' /\
    TERM v' = <[n := t']> (TERM v) /\ system_clock v' = system_clock v /\ cpu_cores v' = cpu_cores v /\
    (exists k', CORE v' !! c = Some k' /\ i ∈ intpending k') /\
    (forall d k, CORE v !! d = Some k -> exists k', CORE v' !! d = Some k' /\ intpending k ⊆ intpending k').
Proof.
  intros I Ht H1 H2 H3 H4 Hc. destruct (vm_core v c I Hc) as [k Hk].
  assert (vm_inv (with_TERM (<[n := t']> (TERM v)) v)) as I1.
  { apply vm_inv_term; [done|]. eapply term_ok_insert; try done. apply I. }
  destruct (raise_ok (with_TERM (<[n := t']> (TERM v)) v) c i k I1 Hk)
    as (v' & k' & -> & I' & Hk' & Hi & _ & Hsub & Hoth & Htm & Hcl & _ & Hn).
  exists v'. do 5 (split; [done|]). split; [by exists k'|].
  intros d kd Hd. destruct (decide (d = c)) as [->|Hne].
  - exists k'. split; [done|]. assert (kd = k) as -> by congruence. done.
  - exists kd. split; [|done]. rewrite Hoth by done. done.
Qed.

Definition keeps_pending v v' : Prop := forall d i, is_pending v d i -> is_pending v' d i.

(** One half of the body of the loop over the devices. *)
Lemma pic_half_ok v n t t' (P : Prop) `{!Decision P} (c : nat) i :
  vm_inv v -> TERM v !! n = Some t -> iodir (con t') = IODIR_TX -> iodir (kbd t') = IODIR_RX ->
  int_core (con t') < cpu_cores v -> int_core (kbd t') < cpu_cores v -> c < cpu_cores v ->
  exists v', (if decide P then raise_interrupt c i (with_TERM (<[n := t']> (TERM v)) v) else Ret v) = Ret v' /\
    vm_inv v' /\ TERM v' = <[n := if decide P then t' else t]> (TERM v) /\ system_clock v' = system_clock v /\
    cpu_cores v' = cpu_cores v /\ (P -> is_pending v' c i) /\ keeps_pending v v'.
Proof.
  intros I Ht H1 H2 H3 H4 Hc. case_decide as HP.
  - destruct (pic_serve_ok v n t c i t' I Ht H1 H2 H3 H4 Hc) as (v' & -> & I' & Htm & Hcl & Hn & Hp & Hk).
    exists v'. do 5 (split; [done|]). split; [done|]. intros d j (k & Hd & Hj).
    destruct (Hk d k Hd) as (k' & Hd' & Hsub). exists k'. split; [done|]. by apply Hsub.
  - exists v. do 2 (split; [done|]). split; [by rewrite insert_id|]. do 2 (split; [done|]). split; [done|by intros d j].
Qed.

Lemma pic_devices_ok rs ws ts v :
  vm_inv v -> NoDup ts -> (forall n, n ∈ ts -> n < bios_serial_ports v) ->
  exists v', pic_devices rs ws ts v = Ret v' /\ vm_inv v' /\ system_clock v' = system_clock v /\ keeps_pending v v' /\
    (forall n t, TERM v !! n = Some t -> TERM v' !! n =
       Some (if decide (n ∈ ts) then served_terminal rs ws (system_clock v) n t else t)) /\
    (forall n t, n ∈ ts -> TERM v !! n = Some t ->
       (n ∈ ws \/ timed_out (system_clock v) (con t) = true -> is_pending v' (int_core (con t)) SERIAL_TX_READY) /\
       (n ∈ rs \/ timed_out (system_clock v) (kbd t) = true -> is_pending v' (int_core (kbd t)) SERIAL_RX_READY)).
Proof.
  revert v. induction ts as [|n ts IH]; intros v I Hnd Hts; cbn [pic_devices].
  { exists v. do 3 (split; [done|]). split; [by intros d i|]. split.
    - intros n t Ht. by rewrite decide_False by apply not_elem_of_nil.
    - by intros n t ?%not_elem_of_nil. }
  apply NoDup_cons in Hnd as [Hn Hnd]. pose proof I as [_ [T _]].
  destruct (proj2 (to_ports _ T n)) as [t Ht]; [apply Hts; by left|].
  rewrite Ht. cbn [deref]. rewrite ret_bind. cbv zeta.
  destruct (to_term _ T _ _ Ht) as (D1 & D2 & C1 & C2).
  set (clock := system_clock v).
  destruct (pic_half_ok v n t (mkTerminal (wake_device clock (con t)) (kbd t))
    (n ∈ ws \/ timed_out clock (con t) = true) (int_core (con t)) SERIAL_TX_READY)
    as (v1 & -> & I1 & Ht1 & Hcl1 & Hn1 & Hp1 & Hk1); [done..|].
  rewrite ret_bind, Ht1, lookup_insert_eq. cbn [deref]. rewrite ret_bind.
  set (t1 := if decide (n ∈ ws \/ timed_out clock (con t) = true) then _ else t) in *.
  assert (kbd t1 = kbd t /\ iodir (con t1) = IODIR_TX /\ int_core (con t1) = int_core (con t)) as (Hkt & Hd1 & Hc1)
    by (unfold t1; by case_decide).
  rewrite Hkt. destruct (pic_half_ok v1 n t1 (mkTerminal (con t1) (wake_device clock (kbd t)))
    (n ∈ rs \/ timed_out clock (kbd t) = true) (int_core (kbd t)) SERIAL_RX_READY)
    as (v2 & E2 & I2 & Ht2 & Hcl2 & Hn2 & Hp2 & Hk2); [done| |done|done| | | |].
  { by rewrite Ht1, lookup_insert_eq. } { simpl. by rewrite Hn1, Hc1. } { simpl. by rewrite Hn1. } { by rewrite Hn1. }
  rewrite Ht1 in E2. rewrite (bind_eq _ _ _ E2).
  assert (bios_serial_ports v2 = bios_serial_ports v) as Hports.
  { unfold bios_serial_ports. rewrite Ht2, Ht1. rewrite !map_size_insert_Some; [done|by eexists|].
    rewrite lookup_insert_eq. by eexists. }
  destruct (IH v2 I2 Hnd) as (v3 & E3 & I3 & Hcl3 & Hk3 & Hother & Hserved).
  { intros m Hm. rewrite Hports. apply Hts. by right. }
  assert (system_clock v2 = clock) as Hclk by (rewrite Hcl2; exact Hcl1). rewrite Hclk in *.
  assert (TERM v2 !! n = Some (served_terminal rs ws clock n t)) as Htn.
  { rewrite Ht2, lookup_insert_eq. f_equal. unfold served_terminal, t1. repeat case_decide; by destruct t. }
  assert (forall m, m <> n -> TERM v2 !! m = TERM v !! m) as Htm.
  { intros m Hm. by rewrite Ht2, Ht1, !lookup_insert_ne by done. }
  exists v3. split; [done|]. split; [done|]. split; [congruence|]. split.
  { intros d i Hd. by apply Hk3, Hk2, Hk1. } split.
  - intros m tm Hm. destruct (decide (m = n)) as [->|Hne].
    + rewrite (Hother n _ Htn), decide_False by done. rewrite decide_True by (by left). congruence.
    + rewrite (Hother m tm) by (by rewrite Htm). f_equal. apply decide_ext. rewrite elem_of_cons. naive_solver.
  - intros m tm [->|Hm]%elem_of_cons Htm'.
    + assert (tm = t) as -> by congruence. split; intros Hs.
      * by apply Hk3, Hk2, Hp1.
      * by apply Hk3, Hp2.
    + assert (m <> n) by congruence. apply Hserved; [done|]. by rewrite Htm.
Qed.

Lemma pic_round_ok ev v :
  vm_inv v -> Forall (fun c => is_Some (CORE v !! c)) (ev_alarms ev) ->
  exists v', pic_round ev v = Ret v' /\ vm_inv v' /\ system_clock v' = ev_clock ev /\
    (ev_select ev = true ->
      let rs := readfds ev v ∩ ev_kbd ev in let ws := writefds ev v ∩ ev_con ev in
      (forall c, c ∈ ev_alarms ev -> is_pending v' c ALARM) /\
      (forall n t, TERM v !! n = Some t -> TERM v' !! n = Some (served_terminal rs ws (ev_clock ev) n t) /\
         (n ∈ ws \/ timed_out (ev_clock ev) (con t) = true -> is_pending v' (int_core (con t)) SERIAL_TX_READY) /\
         (n ∈ rs \/ timed_out (ev_clock ev) (kbd t) = true -> is_pending v' (int_core (kbd t)) SERIAL_RX_READY))).
Proof.
  intros I Ha. unfold pic_round. set (rs := readfds ev v ∩ _). set (ws := writefds ev v ∩ _).
  destruct (ev_select ev).
  2: { eexists. split; [done|]. split; [|done]. destruct I as [[hs [? ? ? ? ?]] [[? ?] ?]]. split; [by exists hs|done]. }
  set (v0 := with_PIC _ _ _ _ (with_clock _ _)).
  assert (vm_inv v0) as I0 by (destruct I as [[hs [? ? ? ? ?]] [[? ?] ?]]; split; [by exists hs|done]).
  destruct (raise_alarms_ok (ev_alarms ev) v0 I0 Ha) as (v1 & -> & I1 & Ht1 & Hcl1 & _ & Hn1 & Hk1). rewrite ret_bind.
  set (v2 := with_PIC _ _ _ _ v1).
  assert (vm_inv v2) as I2 by (destruct I1 as [[hs [? ? ? ? ?]] [[? ?] ?]]; split; [by exists hs|done]).
  destruct (pic_devices_ok rs ws (seq 0 (bios_serial_ports v2)) v2 I2) as (v3 & -> & I3 & Hcl3 & Hk3 & Hterm & Hs).
  { apply NoDup_seq. } { intros n Hn%elem_of_seq. lia. }
  assert (system_clock v2 = ev_clock ev) as Hclk by done. rewrite Hclk in *.
  exists v3. do 3 (split; [done|]). intros _. split.
  - intros c Hc. apply Hk3. eapply Forall_forall in Ha as [k Hk]; [|done].
    destruct (Hk1 c k Hk) as (k' & Hk' & _ & Hal). exists k'. split; [done|]. by apply Hal.
  - intros n t Ht. assert (TERM v2 !! n = Some t) as Ht2 by (unfold v2; cbn [TERM with_PIC]; by rewrite Ht1).
    assert (n ∈ seq 0 (bios_serial_ports v2)) as Hin.
    { apply elem_of_seq. split; [lia|]. apply (to_ports _ (proj1 (proj2 I2))). by exists t. }
    split; [|by apply Hs]. by rewrite (Hterm n t Ht2), decide_True.
Qed.
End pic_requests.

Section performs.
Context {H : Type} (run : H -> nat -> vm H -> outcome (vm H)).
Hypothesis run_ok : forall h c v, vm_inv v -> is_Some (CORE v !! c) ->
  exists v', run h c v = Ret v' /\ vm_inv v' /\ is_Some (CORE v' !! c).
Implicit Types (v : vm H) (c : nat).

Lemma core_is_true c f v : core_is c f v = true -> exists k, CORE v !! c = Some k /\ f k = true.
Proof. unfold core_is. destruct (CORE v !! c) as [k|]; [by exists k|done]. Qed.

Lemma good_ret (m : outcome (vm H)) c : good m c -> exists v', m = Ret v' /\ vm_inv v'.
Proof. intros (v' & ? & ? & _). by exists v'. Qed.

Lemma with_device_ok v n t t' :
  vm_inv v -> TERM v !! n = Some t -> iodir (con t') = iodir (con t) -> iodir (kbd t') = iodir (kbd t) ->
  int_core (con t') < cpu_cores v -> int_core (kbd t') < cpu_cores v ->
  vm_inv (with_TERM (<[n := t']> (TERM v)) v).
Proof.
  intros I Ht H1 H2 H3 H4. pose proof I as [_ [T _]]. destruct (to_term _ T _ _ Ht) as (D1 & D2 & _).
  apply vm_inv_term; [done|]. eapply term_ok_insert; try done; congruence.
Qed.

Lemma pic_thread_ok v : vm_inv v -> vm_inv (interrupt_pic_thread v).
Proof. intros [[hs [? ? ? ? ?]] [[? ?] ?]]. split; [by exists hs|done]. Qed.

Lemma serial_ok r v :
  match r with VReadSerial _ _ | VWriteSerial _ _ | VSerialCore _ _ _ => True | _ => False end ->
  vm_inv v -> vm_enabled r v = true -> exists v', vm_perform run r v = Ret v' /\ vm_inv v'.
Proof.
  destruct r as [| | | | | | | | | | | | |n got|n sent|n i c|]; try done; intros _ I He; simpl in He; unfold vm_perform.
  - apply bool_decide_eq_true in He. pose proof I as [_ [T _]]. apply (to_ports _ T) in He as [t Ht].
    destruct (to_term _ T _ _ Ht) as (D1 & D2 & C1 & C2).
    unfold bios_read_serial, io_device_read. rewrite Ht. cbn [deref]. rewrite ret_bind, c_assert_True, ret_bind by done.
    destruct got; [|destruct (ready (kbd t))]; rewrite !ret_bind; (eexists; split; [done|]);
      try apply pic_thread_ok; by eapply with_device_ok.
  - apply bool_decide_eq_true in He. pose proof I as [_ [T _]]. apply (to_ports _ T) in He as [t Ht].
    destruct (to_term _ T _ _ Ht) as (D1 & D2 & C1 & C2).
    unfold bios_write_serial, io_device_write. rewrite Ht. cbn [deref]. rewrite ret_bind, c_assert_True, ret_bind by done.
    destruct sent; [|destruct (ready (con t))]; rewrite !ret_bind; (eexists; split; [done|]);
      try apply pic_thread_ok; by eapply with_device_ok.
  - rewrite !andb_true_iff, !bool_decide_eq_true in He. destruct He as [[Hn Hc] Hi]. pose proof I as [_ [T _]].
    destruct (proj2 (to_ports _ T n) Hn) as [t Ht]. destruct (to_term _ T _ _ Ht) as (D1 & D2 & C1 & C2).
    unfold bios_serial_interrupt_core. rewrite !c_assert_True, !ret_bind by done. rewrite Ht. cbn [deref]. rewrite ret_bind.
    eexists. split; [done|]. eapply with_device_ok; try done; by case_decide.
Qed.

Lemma vm_perform_ok r v : vm_inv v -> vm_enabled r v = true -> exists v', vm_perform run r v = Ret v' /\ vm_inv v'.
Proof.
  intros I He. pose proof I as [[hs Ih] [T Tm]].
  destruct r as [c|c|c|c| | |c|c|c|c|c usec rest|c i h|ev|n got|n sent|n i c|c];
    try (by apply serial_ok); simpl in He; unfold vm_perform.
  all: try (apply core_is_true in He as (k & Hk & He)).
  - apply andb_true_iff in He as [Hd _]. unfold cpu_core_halt_mask. rewrite Hk. cbn [deref]. rewrite ret_bind, Hd.
    cbn [c_assert]. rewrite ret_bind, (upd_core_eq _ _ _ _ Hk). eexists. split; [done|]. by eapply vm_inv_core.
  - apply andb_true_iff in He as [_ Hh%negb_true_iff]. destruct (halt_sleep_ok v hs c k Ih Hk Hh) as (h' & -> & I').
    eexists. split; [done|]. by eapply vm_inv_halt.
  - apply andb_true_iff in He as [_ Hh%negb_true_iff]. eapply good_ret. by eapply halt_wake_ok.
  - unfold cpu_core_restart. destruct (core_restart_ok v hs c k Ih Hk) as (h' & -> & I').
    eexists. split; [done|]. by eapply vm_inv_halt.
  - pose proof (restart_one_ok v hs Ih) as Ho. destruct hs as [|c hs]; [by exists v|].
    destruct Ho as (k & h' & Hk & -> & I'). eexists. split; [done|]. by eapply vm_inv_halt.
  - unfold cpu_core_restart_all. destruct (restart_cores_ok v hs (seq 0 (cpu_cores v)) Ih) as (v' & -> & I' & Hc & _ & Ht).
    { intros d Hd%elem_of_seq. apply (hi_cores _ _ Ih). lia. }
    exists v'. split; [done|]. split; [by eexists|]. split.
    2: { intros d kd Hd. rewrite Hc in Hd. destruct (CORE v !! d) as [k|] eqn:Hk; [|done]. injection Hd as <-.
      destruct (decide _); exact (Tm d k Hk). }
    eapply term_ok_cores; [done|done|].
    unfold cpu_cores. rewrite <- !size_dom. f_equal. apply set_eq. intros d. rewrite !elem_of_dom, Hc. by rewrite fmap_is_Some.
  - unfold cpu_ici. rewrite c_assert_True, ret_bind by (by apply (hi_cores _ _ Ih); eexists).
    destruct (raise_ok v c ICI k I Hk) as (v' & k' & -> & I' & _). by exists v'.
  - eapply good_ret, sigusr1_ok; [done|done|by exists k].
  - unfold cpu_disable_interrupts. rewrite Hk. cbn [deref]. rewrite ret_bind. case_match; [by exists v|].
    rewrite (upd_core_eq _ _ _ _ Hk). eexists. split; [done|]. by eapply vm_inv_core.
  - eapply good_ret, cpu_enable_ok; [done|done|by exists k].
  - unfold bios_set_timer. rewrite Hk. cbn [deref]. rewrite ret_bind, (upd_core_eq _ _ _ _ Hk), ret_bind.
    rewrite c_assert_True, !ret_bind by (exact (Tm c k Hk)). eexists. split; [done|]. by eapply vm_inv_core.
  - unfold cpu_interrupt_handler. rewrite (upd_core_eq _ _ _ _ Hk). eexists. split; [done|]. by eapply vm_inv_core.
  - destruct (pic_round_ok ev v I) as (v' & -> & I' & _); [|by exists v'].
    apply Forall_forall. intros c Hc. rewrite forallb_forall in He.
    assert (core_is c (fun _ => true) v = true) as Hci by (by apply He, list_elem_of_In).
    apply core_is_true in Hci as (k & Hk & _). by exists k.
  - unfold core_shutdown. rewrite (upd_core_eq _ _ _ _ Hk), ret_bind.
    assert (vm_inv (with_CORE (<[c := mkCore ∅ (intpending k) (int_disabled k) (halted k) (mkTimer 0 0) (masked k)
      (signal k) (irq_count k) (irq_raised k) (irq_delivered k)]> (CORE v)) v)) as I' by (by eapply vm_inv_core).
    case_decide; (eexists; split; [done|]); [|done]. apply pic_thread_ok.
    destruct I' as [[hs' [? ? ? ? ?]] [[? ?] ?]]. split; [by exists hs'|done].
Qed.
End performs.

(** ** The machine at boot *)

Section boot_lemmas.
Context {H : Type}.
Implicit Types (v : vm H) (c : nat).

Lemma boot_cores_keep cs h n :
  (forall c, c ∈ cs -> n <> halted_node c) -> ring h [n] ->
  ring (boot_cores cs h) [n] /\ obj_of (boot_cores cs h) n = obj_of h n.
Proof.
  revert h. induction cs as [|c cs IH]; intros h Hn Hr; cbn [boot_cores]; [done|].
  assert (n <> halted_node c) as Hc by (apply Hn; by left).
  destruct (IH (rlnode_init (halted_node c) (Some c) h).2) as [Hr' Ho'].
  - intros d Hd. apply Hn. by right.
  - apply ring_insert_ne; [done|]. rewrite list_elem_of_singleton. congruence.
  - split; [done|]. rewrite Ho'. unfold obj_of. simpl. by rewrite lookup_insert_ne.
Qed.

Lemma boot_cores_node cs h c :
  NoDup cs -> c ∈ cs ->
  ring (boot_cores cs h) [halted_node c] /\ obj_of (boot_cores cs h) (halted_node c) = Some (Some c).
Proof.
  revert h. induction cs as [|d cs IH]; intros h Hnd Hc; [by apply elem_of_nil in Hc|].
  apply NoDup_cons in Hnd as [Hd Hnd]. cbn [boot_cores].
  apply elem_of_cons in Hc as [->|Hc]; [|by apply IH].
  destruct (boot_cores_keep cs (rlnode_init (halted_node d) (Some d) h).2 (halted_node d)) as [Hr Ho].
  - intros e He [= <-]. done.
  - apply ring_init.
  - split; [done|]. rewrite Ho. unfold obj_of. simpl. by rewrite lookup_insert_eq.
Qed.

Lemma seq_map_lookup {A} (f : nat -> A) n c :
  (list_to_map (map (fun c => (c, f c)) (seq 0 n)) : gmap nat A) !! c = if decide (c < n) then Some (f c) else None.
Proof.
  assert (NoDup (map (fun c => (c, f c)) (seq 0 n)).*1) as Hnd.
  { rewrite <- list_fmap_compose. apply NoDup_fmap; [by intros x y|apply NoDup_seq]. }
  case_decide as Hc.
  - apply elem_of_list_to_map_1; [done|]. apply list_elem_of_fmap. exists c. split; [done|]. apply elem_of_seq. lia.
  - apply not_elem_of_list_to_map_1. intros Hin. apply list_elem_of_fmap in Hin as ([x y] & -> & Hin).
    apply list_elem_of_fmap in Hin as (d & [= -> ->] & Hd%elem_of_seq). simpl in Hc. lia.
Qed.

Lemma seq_map_is_Some {A} (f : nat -> A) n c :
  is_Some ((list_to_map (map (fun c => (c, f c)) (seq 0 n)) : gmap nat A) !! c) <-> c < n.
Proof.
  rewrite seq_map_lookup. by case_decide.
Qed.

Lemma seq_map_size {A} (f : nat -> A) n :
  size (list_to_map (map (fun c => (c, f c)) (seq 0 n)) : gmap nat A) = n.
Proof.
  rewrite <- size_dom. transitivity (size (list_to_set (seq 0 n) : gset nat)).
  - f_equal. apply set_eq. intros c. rewrite elem_of_dom, elem_of_list_to_set, elem_of_seq, seq_map_is_Some. lia.
  - by rewrite size_list_to_set, length_seq by apply NoDup_seq.
Qed.

Lemma vm_boot_ok ncores cores serialno time is_ready v :
  vm_boot (H := H) ncores cores serialno time is_ready = Ret v -> vm_inv v /\ halt_inv v [] /\ cpu_cores v = cores.
Proof.
  unfold vm_boot. intros E. inv_ret. set (v := mkVm _ _ _ _ _ _ _ _). apply bool_decide_eq_true in Hr as [Hpos _].
  assert (cpu_cores v = cores) as Hn by apply seq_map_size.
  assert (bios_serial_ports v = serialno) as Hp by apply seq_map_size.
  assert (halt_inv v []) as I.
  { split.
    - apply boot_cores_keep; [done|]. apply ring_init.
    - intros c. split; [by intros ?%not_elem_of_nil|]. intros (k & Hk & Hh). simpl in Hk.
      rewrite seq_map_lookup in Hk. case_decide; [|done]. by injection Hk as <-.
    - intros c Hc _. simpl in Hc. apply seq_map_is_Some in Hc.
      apply boot_cores_node; [apply NoDup_seq|]. apply elem_of_seq. lia.
    - intros c Hc. simpl in Hc. apply seq_map_is_Some in Hc.
      apply boot_cores_node; [apply NoDup_seq|]. apply elem_of_seq. lia.
    - intros c. rewrite Hn. simpl. apply seq_map_is_Some. }
  split; [|done]. split; [by exists []|]. split; [split|].
  - intros n. rewrite Hp. simpl. apply seq_map_is_Some.
  - intros n t Ht. rewrite Hn. simpl in Ht. rewrite seq_map_lookup in Ht. case_decide; [|done]. injection Ht as <-. do 2 (split; [done|]). simpl. lia.
  - intros c k Hk. simpl in Hk. rewrite seq_map_lookup in Hk. case_decide; [|done]. by injection Hk as <-.
Qed.
End boot_lemmas.

(** ** Properties of the machine *)

Section machine.
Context {H : Type} (run : H -> nat -> vm H -> outcome (vm H)).
Implicit Types (v : vm H) (c : nat) (i : Interrupt).

(** What the kernel promises of its interrupt handlers. *)
Definition handlers_ok : Prop :=
  forall h c v, vm_inv v -> is_Some (CORE v !! c) -> good (run h c v) c.

Lemma vm_reach_inv v v' : handlers_ok -> vm_inv v -> reach (vm_step run) v v' -> vm_inv v'.
Proof.
  intros Hrun I Hr. revert I. eapply reach_invariant, Hr. intros s1 s2 I [r s3 He E].
  destruct (vm_perform_ok run Hrun r s1 I He) as (s2' & E' & I'). congruence.
Qed.

(** C29.  In every state that the cores, the PIC and the serial ports bring the machine to after
    [vm_boot], every enabled operation returns (no assertion of bios.c fails), and the list of halted
    cores holds, once each, exactly the cores whose [halted] flag is set. *)
Theorem machine_never_faults ncores cores serialno time is_ready v0 v :
  handlers_ok -> vm_boot ncores cores serialno time is_ready = Ret v0 -> reach (vm_step run) v0 v ->
  (forall r, vm_enabled r v = true -> exists v', vm_perform run r v = Ret v') /\
  exists hs, NoDup hs /\ rlist (hring v) halted_list (halted_node <$> hs) /\
    forall c, c ∈ hs <-> exists k, CORE v !! c = Some k /\ halted k = true.
Proof.
  intros Hrun Hb Hr. apply vm_boot_ok in Hb as (I0 & _).
  pose proof (vm_reach_inv v0 v Hrun I0 Hr) as I. split.
  - intros r He. destruct (vm_perform_ok run Hrun r v I He) as (v' & ? & _). by exists v'.
  - destruct I as [[hs I] _]. exists hs. split; [by eapply halt_NoDup|]. split; apply I.
Qed.

(** [raise_interrupt] never loses a wakeup of a core that sleeps: the interrupt is pending and the
    core's signal sent, the core is not halted and off the list, whose other cores and their order stay;
    nothing else of the core changes but the count of raised interrupts. *)
Theorem raise_interrupt_effect v hs c i k :
  halt_inv v hs -> CORE v !! c = Some k ->
  exists v', raise_interrupt c i v = Ret v' /\
    CORE v' = <[c := mkCore (intvec k) ({[i]} ∪ intpending k) (int_disabled k) false (timer k) (masked k) true
                (irq_count k) (bump (irq_raised k) i) (irq_delivered k)]> (CORE v) /\
    rlist (hring v') halted_list (halted_node <$> filter (fun d => d <> c) hs) /\
    TERM v' = TERM v /\ system_clock v' = system_clock v.
Proof.
  intros I Hk. unfold raise_interrupt. rewrite Hk. cbn [deref]. rewrite ret_bind, (upd_core_eq _ _ _ _ Hk), ret_bind.
  set (k1 := set_signal _ _). set (v1 := with_CORE (<[c := k1]> (CORE v)) v).
  assert (CORE v1 !! c = Some k1) as Hk1 by apply lookup_insert_eq.
  destruct (core_restart_ok v1 hs c k1) as (h' & E & I2); [by eapply halt_inv_core|done|].
  unfold cpu_core_restart. rewrite E. eexists. split; [done|]. split; [|split; [apply I2|done]].
  unfold v1. cbn [CORE with_CORE with_hring]. by rewrite insert_insert_eq.
Qed.

(** [cpu_core_restart_one] called [n] times restarts the [n] cores that halted last, and leaves the
    others halted in their order. *)
Theorem restart_one_lifo n v hs :
  halt_inv v hs ->
  exists v', Nat.iter n (fun m => m ≫= cpu_core_restart_one) (Ret v) = Ret v' /\ halt_inv v' (drop n hs) /\
    forall c, CORE v' !! c = (if decide (c ∈ take n hs) then set_halted false else id) <$> CORE v !! c.
Proof.
  intros I. induction n as [|n (v1 & E & I1 & Hc1)].
  { exists v. split; [done|]. rewrite drop_0. split; [done|]. intros c. rewrite decide_False by apply not_elem_of_nil.
    by rewrite option_fmap_id. }
  simpl. rewrite E, ret_bind. pose proof (restart_one_ok v1 (drop n hs) I1) as Ho.
  destruct (drop n hs) as [|c rest] eqn:Ed.
  - exists v1. split; [done|]. assert (length hs <= n) as Hle by (rewrite <- length_zero_iff_nil, length_drop in Ed; lia).
    rewrite drop_ge by lia. split; [done|]. by rewrite take_ge in * by lia.
  - destruct Ho as (k & h' & Hk & E' & I'). assert (hs !! n = Some c) as Hn.
    { rewrite <- (Nat.add_0_r n), <- lookup_drop, Ed. done. }
    assert (drop (S n) hs = rest) as ->. { rewrite <- Nat.add_1_r, <- drop_drop, Ed. done. }
    eexists. split; [exact E'|]. split; [done|]. intros d. cbn [CORE with_CORE with_hring].
    rewrite (take_S_r _ _ _ Hn). destruct (decide (c = d)) as [<-|Hne].
    + rewrite lookup_insert_eq. rewrite decide_True by (rewrite elem_of_app; right; by left).
      rewrite Hc1 in Hk. destruct (CORE v !! c) as [k0|]; [|done]. simpl in *. case_decide; by injection Hk as <-.
    + rewrite lookup_insert_ne, Hc1 by done. rewrite (decide_ext (d ∈ take n hs ++ [c]) (d ∈ take n hs)); [done|].
      rewrite elem_of_app, list_elem_of_singleton. naive_solver.
Qed.

(** [i] is delivered at [c] more often in [v'], or it is still pending there. *)
Definition not_lost i c v v' : Prop :=
  exists k k', CORE v !! c = Some k /\ CORE v' !! c = Some k' /\
    (default 0 (irq_delivered k !! i) <= default 0 (irq_delivered k' !! i))%Z /\
    (i ∈ intpending k -> (i ∈ intpending k' \/ default 0 (irq_delivered k !! i) < default 0 (irq_delivered k' !! i))%Z).

Lemma not_lost_refl i c k v : CORE v !! c = Some k -> not_lost i c v v.
Proof. intros Hk. exists k, k. do 2 (split; [done|]). split; [lia|by left]. Qed.

Lemma not_lost_trans i c v1 v2 v3 : not_lost i c v1 v2 -> not_lost i c v2 v3 -> not_lost i c v1 v3.
Proof.
  intros (k1 & k2 & H1 & H2 & Hle & Hp) (k2' & k3 & H2' & H3 & Hle' & Hp').
  assert (k2' = k2) as -> by congruence. exists k1, k3. do 2 (split; [done|]). split; [lia|].
  intros [Hi|Hi]%Hp; [apply Hp' in Hi as [?|?]; [by left|right; lia]|right; lia].
Qed.

Lemma deliver_not_lost i j c k v : CORE v !! c = Some k ->
  not_lost i c v (with_CORE (<[c := count_delivered j (set_pending (intpending k ∖ {[j]}) k)]> (CORE v)) v).
Proof.
  intros Hk. exists k. eexists. split; [done|]. split; [apply lookup_insert_eq|]. cbn. unfold bump.
  destruct (decide (i = j)) as [->|Hne].
  - rewrite lookup_insert_eq. simpl. split; [lia|]. right. lia.
  - rewrite lookup_insert_ne by done. split; [lia|]. left. set_solver.
Qed.

Lemma dispatch_loop_not_lost i ints c v v' :
  (forall h v v', run h c v = Ret v' -> not_lost i c v v') -> is_Some (CORE v !! c) ->
  dispatch_loop run ints c v = Ret v' ->
  not_lost i c v v' /\ (i ∈ ints -> is_pending v c i ->
    (exists k', CORE v' !! c = Some k' /\ int_disabled k' = true /\ i ∈ intpending k') \/
    exists k k', CORE v !! c = Some k /\ CORE v' !! c = Some k' /\
      (default 0 (irq_delivered k !! i) < default 0 (irq_delivered k' !! i))%Z).
Proof.
  intros Hrun. revert v. induction ints as [|j ints IH]; intros v [k Hk] E; simpl in E.
  { injection E as <-. split; [by eapply not_lost_refl|]. by intros ?%elem_of_nil. }
  rewrite Hk in E. cbn [deref] in E. rewrite ret_bind in E. destruct (int_disabled k) eqn:Hd.
  { injection E as <-. split; [by eapply not_lost_refl|]. intros _ (k1 & Hk1 & Hi). left. exists k.
    assert (k1 = k) as -> by congruence. done. }
  destruct (decide (j ∈ intpending k)) as [Hj|Hj].
  - rewrite (upd_core_eq _ _ _ _ Hk), ret_bind in E. pose proof (deliver_not_lost i j c k v Hk) as Hl.
    set (v1 := with_CORE _ v) in *.
    apply bind_Ret in E as (v2 & E2 & E). assert (not_lost i c v1 v2) as Hl2.
    { destruct (intvec k !! j); [by eapply Hrun|]. injection E2 as <-. eapply not_lost_refl, lookup_insert_eq. }
    assert (not_lost i c v v2) as Hv2 by (by eapply not_lost_trans).
    pose proof Hv2 as (k0 & k2 & Hk0 & Hk2 & Hle & Hp). assert (k0 = k) as -> by congruence. clear Hk0.
    destruct (IH v2) as [Hl3 Hd3]; [by exists k2|done|]. split; [by eapply not_lost_trans|].
    pose proof Hl3 as (k2' & k' & Hk2' & Hk' & Hle' & _). assert (k2' = k2) as -> by congruence.
    intros Hin (k0 & Hk0 & Hi). assert (k0 = k) as -> by congruence.
    destruct (decide (i = j)) as [->|Hne].
    + right. exists k, k'. do 2 (split; [done|]). destruct Hl2 as (k1 & k2'' & Hk1 & Hk2'' & Hle1 & _).
      assert (k2'' = k2) as -> by congruence. unfold v1 in Hk1. cbn [CORE with_CORE] in Hk1.
      rewrite lookup_insert_eq in Hk1. injection Hk1 as <-. cbn in Hle1. unfold bump in Hle1.
      rewrite lookup_insert_eq in Hle1. simpl in Hle1. lia.
    + destruct (Hp Hi) as [Hi2|Hlt]; [|right; exists k, k'; split; [done|]; split; [done|lia]].
      assert (i ∈ ints) as Hin' by (apply elem_of_cons in Hin as [?|?]; done).
      destruct (Hd3 Hin') as [?|(k2a & k'' & Hk2a & Hk'' & Hlt)]; [by exists k2|by left|].
      right. exists k, k''. do 2 (split; [done|]). assert (k2a = k2) as -> by congruence. lia.
  - destruct (IH v) as [Hl3 Hd3]; [by exists k|done|]. split; [done|].
    intros [->|Hin]%elem_of_cons Hp; [|by apply Hd3]. destruct Hp as (k1 & Hk1 & Hi). congruence.
Qed.

(** A pending interrupt is not lost by [dispatch_interrupts]: when it returns, the interrupt was
    delivered, or a handler has disabled the interrupts of the core and it is still pending.  The
    handlers are assumed not to drop pending interrupts themselves. *)
Theorem dispatch_loses_nothing i c v v' :
  (forall h v v', run h c v = Ret v' -> not_lost i c v v') -> is_pending v c i ->
  dispatch_interrupts run c v = Ret v' ->
  (exists k', CORE v' !! c = Some k' /\ int_disabled k' = true /\ i ∈ intpending k') \/
  exists k k', CORE v !! c = Some k /\ CORE v' !! c = Some k' /\
    (default 0 (irq_delivered k !! i) < default 0 (irq_delivered k' !! i))%Z.
Proof.
  intros Hrun Hp E. destruct (dispatch_loop_not_lost i interrupts c v v' Hrun) as [_ Hd].
  - destruct Hp as (k & Hk & _). by exists k.
  - done.
  - apply Hd; [|done]. destruct i; unfold interrupts; repeat (first [by left|right]).
Qed.
End machine.

Section machine_devices.
Context {H : Type}.
Implicit Types (v : vm H) (c : nat).

(** [bios_set_timer] arms the core's timer with the duration and drops a pending ALARM; the next
    call (or [bios_cancel_timer]) answers, to the microsecond, the time that the host reports to be left, which
    is the duration itself when the timer did not run meanwhile, for every 64-bit duration: no microsecond is
    lost in the conversion to seconds and nanoseconds. *)
Theorem timer_roundtrip c k usec usec' rest rest' v :
  CORE v !! c = Some k -> one_shot (timer k) -> (0 <= usec < 2 ^ 64)%Z ->
  exists old v1 k1 v2, bios_set_timer c usec rest v = Ret (old, v1) /\ CORE v1 !! c = Some k1 /\
    bios_set_timer c usec' rest' v1 = Ret (u64 (1000000 * tv_sec rest' + tv_nsec rest' `div` 1000), v2) /\
    u64 (1000000 * tv_sec (it_value (timer k1)) + tv_nsec (it_value (timer k1)) `div` 1000) = usec /\
    intpending k1 = intpending k ∖ {[ALARM]} /\ (0 <= tv_nsec (it_value (timer k1)) < 10 ^ 9)%Z /\
    intvec k1 = intvec k /\ halted k1 = halted k /\ int_disabled k1 = int_disabled k /\
    (forall d, d <> c -> CORE v1 !! d = CORE v !! d) /\ hring v1 = hring v.
Proof.
  intros Hk Ht Hu. unfold bios_set_timer. rewrite Hk. cbn [deref].
  rewrite ret_bind, (upd_core_eq _ _ _ _ Hk), ret_bind, c_assert_True, ret_bind by (exact Ht).
  eexists _, _, _, _. split; [done|]. split; [apply lookup_insert_eq|].
  cbn [CORE with_CORE]. rewrite lookup_insert_eq. cbn [deref]. rewrite ret_bind.
  set (k1 := set_pending _ _). rewrite (upd_core_eq c _ k1) by apply lookup_insert_eq. rewrite ret_bind.
  pose proof (Z.mod_pos_bound usec 1000000). split; [done|].
  cbn [timer k1 set_pending set_timer timer_settime snd mkTimer it_value tv_sec tv_nsec]. split; [|do 5 (split; [done || lia|])].
  - rewrite Z.div_mul by done. rewrite <- Z_div_mod_eq_full. by apply wrap_small.
  - split; [|done]. intros d Hd. by rewrite lookup_insert_ne.
Qed.

(** One round of the PIC raises ALARM at every core whose timer expired, and serves each terminal
    exactly: a device that [select] reports, or whose last interrupt is older than [SERIAL_TIMEOUT], gets
    ready and stamped and its interrupt is pending at its core; the other devices are untouched. *)
Theorem pic_round_serves ev v :
  vm_inv v -> Forall (fun c => is_Some (CORE v !! c)) (ev_alarms ev) -> ev_select ev = true ->
  let rs := readfds ev v ∩ ev_kbd ev in let ws := writefds ev v ∩ ev_con ev in
  exists v', pic_round ev v = Ret v' /\ system_clock v' = ev_clock ev /\
    (forall c, c ∈ ev_alarms ev -> is_pending v' c ALARM) /\
    forall n t, TERM v !! n = Some t -> TERM v' !! n = Some (served_terminal rs ws (ev_clock ev) n t) /\
      (n ∈ ws \/ timed_out (ev_clock ev) (con t) = true -> is_pending v' (int_core (con t)) SERIAL_TX_READY) /\
      (n ∈ rs \/ timed_out (ev_clock ev) (kbd t) = true -> is_pending v' (int_core (kbd t)) SERIAL_RX_READY).
Proof.
  intros I Ha Hs. destruct (pic_round_ok ev v I Ha) as (v' & E & _ & Hc & Hd).
  exists v'. split; [done|]. split; [done|]. by apply Hd.
Qed.

(** A core may sleep through an interrupt: one raised after [cpu_core_halt] has blocked SIGUSR1 and
    before it takes the lock finds a core that is not halted, so it restarts nothing; the core then goes on
    the list and waits with the interrupt pending and its signal blocked. *)
Theorem halt_misses_interrupt v hs c i k :
  halt_inv v hs -> CORE v !! c = Some k -> int_disabled k = false -> halted k = false ->
  exists v' k', (v ← cpu_core_halt_mask c v; v ← raise_interrupt c i v; cpu_core_halt_sleep c v) = Ret v' /\
    halt_inv v' (c :: hs) /\ CORE v' !! c = Some k' /\
    halted k' = true /\ masked k' = true /\ signal k' = true /\ i ∈ intpending k'.
Proof.
  intros I Hk Hd Hh. unfold cpu_core_halt_mask. rewrite Hk. cbn [deref].
  rewrite ret_bind, Hd. cbn [negb c_assert]. rewrite ret_bind, (upd_core_eq _ _ _ _ Hk), ret_bind.
  set (k1 := set_masked true k). set (v1 := with_CORE _ v).
  assert (CORE v1 !! c = Some k1) as Hk1 by apply lookup_insert_eq.
  unfold raise_interrupt. rewrite Hk1. cbn [deref]. rewrite ret_bind, (upd_core_eq _ _ _ _ Hk1), ret_bind.
  set (k2 := set_signal _ _). set (v2 := with_CORE _ v1).
  assert (CORE v2 !! c = Some k2) as Hk2 by apply lookup_insert_eq.
  unfold cpu_core_restart, core_restart. rewrite Hk2. cbn [deref]. rewrite ret_bind.
  change (halted k2) with (halted k). rewrite Hh, ret_bind.
  destruct (halt_sleep_ok v2 hs c k2) as (h' & E & I'); [|done..|].
  { unfold v2, v1. eapply halt_inv_core; [eapply halt_inv_core|..]; done. }
  rewrite E. eexists _, (set_halted true k2). split; [done|]. split; [done|].
  cbn [CORE with_hring with_CORE]. rewrite lookup_insert_eq. do 4 (split; [done|]). simpl. set_solver.
Qed.
End machine_devices.

(** ** The machine as the scheduler sees it *)

Section scheduler_view.
Context {H : Type} (run : H -> nat -> vm H -> outcome (vm H)).
Implicit Types (v : vm H) (c : nat).

(** A call of the scheduler that cannot fail on a machine that was booted; it does not look at the time that was left. *)
Definition returned v (m : outcome (vm H)) : vm H := match m with Ret v' => v' | Err _ => v end.

Definition vm_bios_ops : BiosOps (vm H) := {|
  Iface.bios_clock := bios_clock;
  Iface.bios_set_timer c d v := returned v ('(_, v') ← bios_set_timer c d (mkTime 0 0) v; Ret v');
  Iface.cpu_core_restart_one v := returned v (cpu_core_restart_one v);
  Iface.cpu_core_restart_all v := returned v (cpu_core_restart_all v);
  Iface.cpu_enable_interrupts c v := returned v (cpu_enable_interrupts run c v);
  Iface.cpu_disable_interrupts c v := returned v (cpu_disable_interrupts c v)
|}.

Hypothesis run_clock : forall h c v v', run h c v = Ret v' -> system_clock v' = system_clock v.

Lemma upd_core_clock c f v v' : upd_core c f v = Ret v' -> system_clock v' = system_clock v.
Proof. intros E. unfold upd_core in E. by inv_ret. Qed.

Lemma core_restart_clock c v v' : core_restart c v = Ret v' -> system_clock v' = system_clock v.
Proof.
  unfold core_restart. intros E. apply bind_Ret in E as (k & _ & E). destruct (halted k); [|by inv_ret].
  apply bind_Ret in E as (v1 & E1 & E). apply upd_core_clock in E1. inv_ret. done.
Qed.

Lemma dispatch_clock ints c v v' : dispatch_loop run ints c v = Ret v' -> system_clock v' = system_clock v.
Proof.
  revert v. induction ints as [|i ints IH]; intros v E; cbn [dispatch_loop] in E; [by inv_ret|].
  apply bind_Ret in E as (k & _ & E). destruct (int_disabled k); [by inv_ret|]. case_decide; [|by apply IH].
  apply bind_Ret in E as (v1 & E1%upd_core_clock & E). apply bind_Ret in E as (v2 & E2 & E).
  rewrite (IH _ E), <- E1. destruct (intvec k !! i); [by eapply run_clock|by inv_ret].
Qed.

Lemma vm_bios_laws : @BiosLaws (vm H) vm_bios_ops.
Proof.
  split; cbn; intros; unfold bios_clock; try (by apply wrap_range); do 2 f_equal;
    (match goal with |- system_clock (returned _ ?m) = _ => destruct m as [v'|] eqn:E end; [|done]); cbn [returned].
  - unfold bios_set_timer in E. apply bind_Ret in E as ([z v1] & E & E2).
    apply bind_Ret in E as (k & _ & E). apply bind_Ret in E as (v2 & E%upd_core_clock & E3). apply bind_Ret in E3 as (_ & _ & E3). by inv_ret.
  - unfold cpu_core_restart_one in E. apply bind_Ret in E as (e & _ & E). destruct e; [by inv_ret|].
    apply bind_Ret in E as ([n h] & _ & E). apply bind_Ret in E as (nd & _ & E). apply bind_Ret in E as (d & _ & E).
    by apply core_restart_clock in E.
  - unfold cpu_enable_interrupts in E. apply bind_Ret in E as (k & _ & E). destruct (int_disabled k); [|by inv_ret].
    apply bind_Ret in E as (v1 & E1%upd_core_clock & E). rewrite <- E1. by eapply dispatch_clock.
  - unfold cpu_disable_interrupts in E. apply bind_Ret in E as (k & _ & E). destruct (int_disabled k); [by inv_ret|].
    by apply upd_core_clock in E.
Qed.
End scheduler_view.

(** ** Witnesses *)

(** A machine whose handlers program the timer of their core, as the scheduler's do. *)
Definition rearm (_ : unit) (c : nat) (v : vm unit) : outcome (vm unit) :=
  '(_, v) ← bios_set_timer c 10000 (mkTime 0 0) v; Ret v.

Lemma rearm_ok : handlers_ok rearm.
Proof.
  intros h c v I [k Hk]. unfold rearm, bios_set_timer. rewrite Hk. cbn [deref].
  rewrite ret_bind, (upd_core_eq _ _ _ _ Hk), ret_bind, c_assert_True, !ret_bind by (exact (proj2 (proj2 I) c k Hk)).
  by eapply good_core.
Qed.

Definition dual : vm unit := default (mkVm ∅ ∅ ∅ 0 true 0 0 0)
  (match vm_boot 0 2 1 1000 (fun _ _ => true) with Ret v => Some v | Err _ => None end).

Lemma dual_boot : vm_boot 0 2 1 1000 (fun _ _ => true) = Ret dual.
Proof. by vm_compute. Qed.

Definition dual_core (k : Core unit) : vm unit := with_CORE (<[0 := k]> (CORE dual)) dual.

Lemma machine_never_faults_witness :
  exists v', vm_perform rearm (VEnable 0) dual = Ret v'.
Proof.
  destruct (machine_never_faults rearm 0 2 1 1000 (fun _ _ => true) dual dual rearm_ok dual_boot (reach_refl _ _)) as [Hp _].
  apply Hp. by vm_compute.
Defined.

Lemma raise_interrupt_effect_witness :
  exists v', raise_interrupt 1 ICI dual = Ret v' /\ rlist (hring v') halted_list [].
Proof.
  destruct (raise_interrupt_effect dual [] 1 ICI core0) as (v' & E & _ & Hl & _).
  - by eapply vm_boot_ok, dual_boot.
  - by vm_compute.
  - exists v'. split; [exact E|exact Hl].
Defined.

Lemma restart_one_lifo_witness :
  exists v', Nat.iter 2 (fun m => m ≫= cpu_core_restart_one) (Ret dual) = Ret v' /\ halt_inv v' [].
Proof.
  destruct (restart_one_lifo 2 dual []) as (v' & E & I & _).
  - by eapply vm_boot_ok, dual_boot.
  - exists v'. split; [exact E|exact I].
Defined.

Lemma rearm_keeps i c h v v' : i <> ALARM -> rearm h c v = Ret v' -> not_lost i c v v'.
Proof.
  unfold rearm, bios_set_timer. intros Hi E. apply bind_Ret in E as ([z v2] & E & [= <-]).
  apply bind_Ret in E as (k & Hk & E). apply deref_Ret in Hk. rewrite (upd_core_eq _ _ _ _ Hk), ret_bind in E.
  apply bind_Ret in E as (_ & _ & E). injection E as _ <-. exists k. eexists. split; [done|]. split; [apply lookup_insert_eq|]. simpl.
  split; [lia|]. intros Hp. left. set_solver.
Qed.

Definition rung : Core unit := mkCore {[ICI := tt]} {[ICI; ALARM]} false false (mkTimer 0 0) false true 0 ∅ ∅.

Lemma dispatch_loses_nothing_witness :
  exists v', dispatch_interrupts rearm 0 (dual_core rung) = Ret v' /\
    exists k k', CORE (dual_core rung) !! 0 = Some k /\ CORE v' !! 0 = Some k' /\
    (default 0 (irq_delivered k !! ICI) < default 0 (irq_delivered k' !! ICI))%Z.
Proof.
  eexists. split; [by vm_compute|].
  destruct (dispatch_loses_nothing rearm ICI 0 (dual_core rung)
    (match dispatch_interrupts rearm 0 (dual_core rung) with Ret v => v | Err _ => dual end)) as [(k' & Hk & Hd & _)|Hd].
  - intros h v v'. by apply rearm_keeps.
  - exists rung. split; [by vm_compute|]. by apply (bool_decide_unpack _); vm_compute.
  - by vm_compute.
  - exfalso. vm_compute in Hk. injection Hk as <-. discriminate Hd.
  - exact Hd.
Defined.

Lemma timer_roundtrip_witness :
  exists old v1 v2, bios_set_timer 0 1234567 (mkTime 0 0) dual = Ret (old, v1) /\ bios_set_timer 0 0 (mkTime 1 34567000) v1 = Ret (1034567%Z, v2).
Proof.
  destruct (timer_roundtrip 0 core0 1234567 0 (mkTime 0 0) (mkTime 1 34567000) dual) as (old & v1 & k1 & v2 & E1 & _ & E2 & _).
  - by vm_compute.
  - done.
  - lia.
  - exists old, v1, v2. split; [exact E1|exact E2].
Defined.

Lemma pic_round_serves_witness :
  exists v', pic_round (mkEvents true 2000 [1] {[0]} ∅ 0 ∅) dual = Ret v' /\ is_pending v' 1 ALARM.
Proof.
  destruct (pic_round_serves (mkEvents true 2000 [1] {[0]} ∅ 0 ∅) dual) as (v' & E & _ & Ha & _).
  - eapply vm_boot_ok, dual_boot.
  - constructor; [by vm_compute; eexists|constructor].
  - done.
  - exists v'. split; [exact E|]. apply Ha. by left.
Defined.

Lemma halt_misses_interrupt_witness :
  exists v' k', (v ← cpu_core_halt_mask 0 dual; v ← raise_interrupt 0 ICI v; cpu_core_halt_sleep 0 v) = Ret v' /\
    CORE v' !! 0 = Some k' /\ halted k' = true /\ ICI ∈ intpending k'.
Proof.
  destruct (halt_misses_interrupt dual [] 0 ICI core0) as (v' & k' & E & _ & Hk & Hh & _ & _ & Hp).
  - by eapply vm_boot_ok, dual_boot.
  - by vm_compute.
  - done.
  - done.
  - exists v', k'. split; [exact E|]. split; [exact Hk|]. split; [exact Hh|exact Hp].
Defined.
