(* ===== verification/VmLife.v ===== *)
(** * The life of the virtual machine (bios.c)

  [vm_boot] from its start to its end: the thread of each core ([bootfunc_wrapper]), which runs the boot code between
  two barriers, and the interrupt controller ([PIC_daemon]).  The boot code is given by its control points, as in
  [Monitor].  An interrupt handler prints its name and does nothing else. *)

From Stdlib Require Import String.
From S2P Require Import Prelude Rlist Bios.

(** ** Barriers

  [pthread_barrier_wait]: the generation counts the times that the barrier opened. *)

Record barrier := mkBarrier { arrived : nat; generation : nat }.

(** A thread that arrives goes on if it is the last of [n], else it waits for the present generation to end. *)
Definition barrier_wait (n : nat) (b : barrier) : barrier * option nat :=
  if decide (S (arrived b) = n) then (mkBarrier 0 (S (generation b)), None)
  else (mkBarrier (S (arrived b)) (generation b), Some (generation b)).

Definition opened (g : nat) (b : barrier) : bool := bool_decide (generation b <> g).

(** What a barrier knows of a thread: how many times it has passed, or that it waits. *)
Inductive part := Free (k : nat) | Waits (g : nat).
#[export] Instance part_eq_dec : EqDecision part.
Proof. solve_decision. Defined.

Definition waiting_now (b : barrier) (ps : list part) : nat := length (filter (fun p => p = Waits (generation b)) ps).

Record bar_ok (b : barrier) (ps : list part) : Prop := {
  bk_part p : p ∈ ps -> match p with Free k => k = generation b | Waits g => g = generation b \/ S g = generation b end;
  bk_arrived : arrived b = waiting_now b ps;
  bk_open : arrived b < length ps
}.

(** One participant changes. *)
Lemma filter_insert_length {A} (P : A -> Prop) `{!forall x, Decision (P x)} (l : list A) i x y : l !! i = Some x ->
  length (filter P (<[i := y]> l)) + (if decide (P x) then 1 else 0) = length (filter P l) + (if decide (P y) then 1 else 0).
Proof.
  revert i. induction l as [|z l IH]; intros [|i] Hi; [done..| |]; simpl in Hi; simplify_eq.
  - simpl. rewrite !filter_cons. repeat case_decide; simpl; lia.
  - simpl. rewrite !filter_cons. specialize (IH i Hi). destruct (decide (P z)); simpl; lia.
Qed.

Lemma filter_full {A} (P : A -> Prop) `{!forall x, Decision (P x)} (l : list A) x : length l <= length (filter P l) -> x ∈ l -> P x.
Proof.
  induction l as [|z l IH]; intros Hl Hx; [by apply not_elem_of_nil in Hx|]. rewrite filter_cons in Hl.
  pose proof (length_filter P l). destruct (decide (P z)) as [Hz|]; simpl in Hl; [|lia].
  apply elem_of_cons in Hx as [->|Hx]; [done|]. apply IH; [lia|done].
Qed.

Lemma filter_none {A} (P : A -> Prop) `{!forall x, Decision (P x)} (l : list A) : (forall x, x ∈ l -> ~ P x) -> filter P l = [].
Proof.
  induction l as [|z l IH]; intros Hl; [done|]. rewrite filter_cons_False by (apply Hl; by left). apply IH. intros x Hx. apply Hl. by right.
Qed.

Lemma elem_of_insert {A} (l : list A) i x p : p ∈ <[i := x]> l -> p = x \/ p ∈ l.
Proof. intros [j Hj]%list_elem_of_lookup. apply list_lookup_insert_Some in Hj as [(_ & <- & _)|[_ Hj]]; [by left|right; by eapply list_elem_of_lookup_2]. Qed.

Lemma bar_arrive b ps i k : bar_ok b ps -> ps !! i = Some (Free k) ->
  bar_ok (barrier_wait (length ps) b).1 (<[i := match (barrier_wait (length ps) b).2 with None => Free (S k) | Some g => Waits g end]> ps) /\
  forall g, (barrier_wait (length ps) b).2 = Some g -> g = k.
Proof.
  intros [H1 H2 H3] Hi. pose proof (H1 _ (list_elem_of_lookup_2 _ _ _ Hi)) as ->.
  pose proof (fun y => filter_insert_length (fun p => p = Waits (generation b)) ps i _ y Hi) as Hc. simpl in Hc.
  unfold barrier_wait. destruct (decide _) as [Hn|Hn]; simpl; (split; [|by intros g [=]]).
  - assert (forall p, p ∈ <[i := Waits (generation b)]> ps -> p = Waits (generation b)) as Hall.
    { intros p Hp. eapply (filter_full (fun p => p = Waits (generation b))); [|exact Hp].
      pose proof (Hc (Waits (generation b))) as Hc'. rewrite decide_True in Hc' by done. unfold waiting_now in H2.
      rewrite length_insert. lia. }
    assert (forall j p, j <> i -> ps !! j = Some p -> p = Waits (generation b)) as Hoth.
    { intros j p Hne Hj. apply Hall. eapply list_elem_of_lookup_2. by rewrite list_lookup_insert_ne. }
    assert (forall p, p ∈ <[i := Free (S (generation b))]> ps -> p = Free (S (generation b)) \/ p = Waits (generation b)) as Hnew.
    { intros p [j Hj]%list_elem_of_lookup. apply list_lookup_insert_Some in Hj as [(_ & <- & _)|[Hne Hj]]; [by left|right; by eapply Hoth]. }
    split; simpl; [|unfold waiting_now; simpl|rewrite length_insert; lia].
    + intros p [-> | ->]%Hnew; [done|by right].
    + rewrite filter_none; [done|]. intros p [-> | ->]%Hnew; [done|]. intros [= E]. lia.
  - split; simpl; [|unfold waiting_now; simpl|rewrite length_insert; lia].
    + intros p [-> |Hp]%elem_of_insert; [by left|by apply H1].
    + specialize (Hc (Waits (generation b))). rewrite decide_True in Hc by done. unfold waiting_now in H2. lia.
Qed.

Lemma bar_leave b ps i g : bar_ok b ps -> ps !! i = Some (Waits g) -> opened g b = true -> bar_ok b (<[i := Free (S g)]> ps).
Proof.
  intros [H1 H2 H3] Hi Ho%bool_decide_eq_true. destruct (H1 _ (list_elem_of_lookup_2 _ _ _ Hi)) as [?|Hg]; [done|].
  split; [|unfold waiting_now|by rewrite length_insert].
  - intros p [-> |Hp]%elem_of_insert; [done|by apply H1].
  - pose proof (filter_insert_length (fun p => p = Waits (generation b)) ps i _ (Free (S g)) Hi) as Hc.
    rewrite !decide_False in Hc by (congruence || done). unfold waiting_now in H2. lia.
Qed.

(** Not everybody waits for a barrier that does not open. *)
Lemma bar_progress b ps : bar_ok b ps -> exists p, p ∈ ps /\ match p with Free _ => True | Waits g => opened g b = true end.
Proof.
  intros [H1 H2 H3]. destruct (decide (Forall (fun p => p = Waits (generation b)) ps)) as [Ha|Ha].
  - exfalso. unfold waiting_now in H2. rewrite filter_all in H2 by (by apply Forall_forall). lia.
  - apply not_Forall_Exists in Ha; [|apply _]. apply Exists_exists in Ha as (p & Hp & Hn). exists p. split; [done|].
    destruct p as [k|g]; [done|]. apply bool_decide_eq_true. congruence.
Qed.

(** ** The machine *)

(** A handler is the message that it prints, with the number of the core. *)
Abbreviation hdl := string.
Definition print_only (_ : hdl) (_ : nat) (v : vm hdl) : outcome (vm hdl) := Ret v.

(** What a core does next; the control points [L] hold the local variables.  [BCall] is a call of bios.h that returns
  without waiting, [BHalt] is [cpu_core_halt], [BSync] is [cpu_core_barrier_sync]; [BLocal] stands for what concerns no
  other core, as [usleep]. *)
Inductive binstr (L : Type) :=
  | BPrint (fmt : string) (args : list nat) (l : L)
  | BLocal (l : L)
  | BCall (r : vm_req hdl) (l : L)
  | BDisable (l : L)
  | BEnable (l : L)
  | BHalt (l : L)
  | BSync (l : L)
  | BRead (serial : nat) (k : option Z -> L)
  | BWrite (serial : nat) (c : Z) (k : bool -> L)
  | BReturn.
Arguments BPrint {L}.
Arguments BLocal {L}.
Arguments BCall {L}.
Arguments BDisable {L}.
Arguments BEnable {L}.
Arguments BHalt {L}.
Arguments BSync {L}.
Arguments BRead {L}.
Arguments BWrite {L}.
Arguments BReturn {L}.

(** Where the thread of a core is: before the boot code, in it, and after it. *)
Inductive core_place (L : Type) :=
  | Booting | AtStart (g : nat)
  | Boot (l : L) | InSync (g : nat) (l : L) | Halting (l : L) | Halted (l : L)
  | Ending | AtEnd (g : nat) | Closing | Stopping | AtStop (g : nat) | Finished.
Arguments Booting {L}.
Arguments AtStart {L}.
Arguments Boot {L}.
Arguments InSync {L}.
Arguments Halting {L}.
Arguments Halted {L}.
Arguments Ending {L}.
Arguments AtEnd {L}.
Arguments Closing {L}.
Arguments Stopping {L}.
Arguments AtStop {L}.
Arguments Finished {L}.

(** The thread of [vm_boot]. *)
Inductive pic_place := PicStart | PicAtStart (g : nat) | PicLoop | PicAtStop (g : nat) | PicDone.

Inductive event :=
  | Printed (fmt : string) (args : list nat)
  | Handler (h : hdl) (core : nat)
  | Sent (serial : nat) (c : Z)
  | Got (serial : nat) (c : Z).

Record machine (L : Type) := mkMachine {
  hw : vm hdl;
  threads : list (core_place L);
  pic : pic_place;
  system_barrier : barrier;
  core_barrier : barrier;
  trace : list event
}.
Arguments mkMachine {L}.
Arguments hw {L}.
Arguments threads {L}.
Arguments pic {L}.
Arguments system_barrier {L}.
Arguments core_barrier {L}.
Arguments trace {L}.

Section life.
Context {L : Type} (start : nat -> L) (code : nat -> L -> binstr L).
Implicit Types (m : machine L) (c : nat) (l : L) (v : vm hdl).

Definition with_hw v m : machine L := mkMachine v (threads m) (pic m) (system_barrier m) (core_barrier m) (trace m).
Definition to c (p : core_place L) m : machine L :=
  mkMachine (hw m) (<[c := p]> (threads m)) (pic m) (system_barrier m) (core_barrier m) (trace m).
Definition pic_to (p : pic_place) m : machine L := mkMachine (hw m) (threads m) p (system_barrier m) (core_barrier m) (trace m).
Definition with_system_barrier b m : machine L := mkMachine (hw m) (threads m) (pic m) b (core_barrier m) (trace m).
Definition with_core_barrier b m : machine L := mkMachine (hw m) (threads m) (pic m) (system_barrier m) b (trace m).
Definition log (es : list event) m : machine L := mkMachine (hw m) (threads m) (pic m) (system_barrier m) (core_barrier m) (trace m ++ es).

(** The messages of the handlers that were run when the core [c] went from [v] to [v']. *)
Definition handled c v v' : list event :=
  match CORE v !! c, CORE v' !! c with
  | Some k, Some k' => omap (fun i => if decide (irq_delivered k !! i = irq_delivered k' !! i) then None
                                      else (fun h => Handler h c) <$> intvec k !! i) interrupts
  | _, _ => []
  end.

(** A call of the machine by the core [c]. *)
Definition bios c (r : vm_req hdl) m : outcome (machine L) :=
  v ← vm_perform print_only r (hw m); Ret (log (handled c (hw m) v) (with_hw v m)).

(** The handlers and the timer are dropped when the boot code has returned. *)
Definition leave_boot c v : outcome (vm hdl) :=
  upd_core c (fun k => mkCore ∅ (intpending k) (int_disabled k) (halted k) (mkTimer 0 0) (masked k) (signal k)
    (irq_count k) (irq_raised k) (irq_delivered k)) v.

Definition stop_PIC v : vm hdl := interrupt_pic_thread (with_PIC false (PIC_loops v) (PIC_usr1_queued v) (PIC_usr1_drained v) v).

(** Arriving at a barrier. *)
Definition sync_system c (waiting : nat -> core_place L) (next : core_place L) m : machine L :=
  let r := barrier_wait (S (length (threads m))) (system_barrier m) in
  to c (match r.2 with None => next | Some g => waiting g end) (with_system_barrier r.1 m).
Definition sync_cores c (waiting : nat -> core_place L) (next : core_place L) m : machine L :=
  let r := barrier_wait (length (threads m)) (core_barrier m) in
  to c (match r.2 with None => next | Some g => waiting g end) (with_core_barrier r.1 m).

(** An instruction of the boot code; [got] and [sent] are what the host answers to a read and to a write. *)
Definition boot_instr c (i : binstr L) (got : option Z) (sent : bool) m : outcome (machine L) :=
  match i with
  | BPrint f args l => Ret (to c (Boot l) (log [Printed f args] m))
  | BLocal l => Ret (to c (Boot l) m)
  | BCall r l => m ← bios c r m; Ret (to c (Boot l) m)
  | BDisable l => m ← bios c (VDisable c) m; Ret (to c (Boot l) m)
  | BEnable l => m ← bios c (VEnable c) m; Ret (to c (Boot l) m)
  | BHalt l => m ← bios c (VHaltMask c) m; Ret (to c (Halting l) m)
  | BSync l => Ret (sync_cores c (fun g => InSync g l) (Boot l) m)
  | BRead s k => '(o, v) ← bios_read_serial s got (hw m);
      Ret (to c (Boot (k o)) (log (match o with Some x => [Got s x] | None => [] end) (with_hw v m)))
  | BWrite s x k => '(b, v) ← bios_write_serial s sent (hw m);
      Ret (to c (Boot (k b)) (log (if (b : bool) then [Sent s x] else []) (with_hw v m)))
  | BReturn => v ← leave_boot c (hw m); Ret (to c Ending (with_hw v m))
  end.

(** The thread of the core [c]: [bootfunc_wrapper]. *)
Definition bootfunc_wrapper c (got : option Z) (sent : bool) m : option (outcome (machine L)) :=
  p ← threads m !! c;
  match p with
  | Booting => Some (Ret (sync_system c AtStart (Boot (start c)) m))
  | AtStart g => if opened g (system_barrier m) then Some (Ret (to c (Boot (start c)) m)) else None
  | Boot l => Some (boot_instr c (code c l) got sent m)
  | InSync g l => if opened g (core_barrier m) then Some (Ret (to c (Boot l) m)) else None
  | Halting l => Some (m ← bios c (VHaltSleep c) m; Ret (to c (Halted l) m))
  | Halted l => if core_is c halted (hw m) then None else Some (m ← bios c (VHaltWake c) m; Ret (to c (Boot l) m))
  | Ending => Some (Ret (sync_cores c AtEnd Closing m))
  | AtEnd g => if opened g (core_barrier m) then Some (Ret (to c Closing m)) else None
  | Closing => Some (Ret (to c Stopping (if decide (c = 0) then with_hw (stop_PIC (hw m)) m else m)))
  | Stopping => Some (Ret (sync_system c AtStop Finished m))
  | AtStop g => if opened g (system_barrier m) then Some (Ret (to c Finished m)) else None
  | Finished => None
  end.

(** The signal of the core [c] is delivered. *)
Definition signal_turn c m : option (outcome (machine L)) :=
  if vm_enabled (VSignal c) (hw m) then Some (bios c (VSignal c) m) else None.

(** The thread of the interrupt controller: [PIC_daemon]; [ev] is what it sees in a round. *)
Definition PIC_daemon (ev : pic_events) m : option (outcome (machine L)) :=
  let arrive waiting next :=
    let r := barrier_wait (S (length (threads m))) (system_barrier m) in
    Some (Ret (pic_to (match r.2 with None => next | Some g => waiting g end) (with_system_barrier r.1 m))) in
  match pic m with
  | PicStart => arrive PicAtStart PicLoop
  | PicAtStart g => if opened g (system_barrier m) then Some (Ret (pic_to PicLoop m)) else None
  | PicLoop => if PIC_active (hw m) then
                 if vm_enabled (VPic ev) (hw m) then Some (v ← pic_round ev (hw m); Ret (with_hw v m)) else None
               else arrive PicAtStop PicDone
  | PicAtStop g => if opened g (system_barrier m) then Some (Ret (pic_to PicDone m)) else None
  | PicDone => None
  end.

Inductive move := CoreMove (c : nat) (got : option Z) (sent : bool) | SignalMove (c : nat) | PicMove (ev : pic_events).
Definition machine_turn (a : move) m : option (outcome (machine L)) :=
  match a with
  | CoreMove c got sent => bootfunc_wrapper c got sent m
  | SignalMove c => signal_turn c m
  | PicMove ev => PIC_daemon ev m
  end.

Inductive machine_step m : machine L -> Prop :=
  | machine_step_at a m' : machine_turn a m = Some (Ret m') -> machine_step m m'.

(** [vm_boot], when it has started the cores. *)
Definition vm_started (cores serialno : nat) (time : Z) (is_ready : nat -> io_direction -> bool) : outcome (machine L) :=
  v ← vm_boot 0 cores serialno time is_ready;
  Ret (mkMachine v (replicate cores Booting) PicStart (mkBarrier 0 0) (mkBarrier 0 0) []).
End life.

(** ** What the calls of the machine keep

  [kept P v v']: nothing happens to the interrupts of the cores in [P], and none of them is put to sleep. *)

Record kept (P : nat -> Prop) (v v' : vm hdl) : Prop := {
  kp_cores : cpu_cores v' = cpu_cores v;
  kp_pic : PIC_active v' = PIC_active v;
  kp_ports : bios_serial_ports v' = bios_serial_ports v;
  kp_core d k : CORE v !! d = Some k -> exists k', CORE v' !! d = Some k' /\
    (P d -> masked k' = masked k /\ int_disabled k' = int_disabled k /\ (halted k' = true -> halted k = true))
}.

Section kept.
Implicit Types (P : nat -> Prop) (v : vm hdl) (c d : nat).

Lemma kept_refl P v : kept P v v.
Proof. split; [done..|]. intros d k Hk. by exists k. Qed.

Lemma kept_trans P v1 v2 v3 : kept P v1 v2 -> kept P v2 v3 -> kept P v1 v3.
Proof.
  intros [A1 A2 A3 A4] [B1 B2 B3 B4]. split; [congruence..|]. intros d k Hk. destruct (A4 d k Hk) as (k1 & Hk1 & H1).
  destruct (B4 d k1 Hk1) as (k2 & Hk2 & H2). exists k2. split; [done|]. intros Hd. destruct (H1 Hd) as (? & ? & ?), (H2 Hd) as (? & ? & ?).
  split; [congruence|]. split; [congruence|]. auto.
Qed.

Lemma kept_upd P c f v v' : upd_core c f v = Ret v' ->
  (forall k, P c -> masked (f k) = masked k /\ int_disabled (f k) = int_disabled k /\ (halted (f k) = true -> halted k = true)) -> kept P v v'.
Proof.
  intros E Hf. unfold upd_core in E. inv_ret. split; [by erewrite <- (cpu_cores_insert c r (f r) v)|done..|].
  intros d k Hk. simpl. destruct (decide (d = c)) as [->|Hne].
  - rewrite lookup_insert_eq. eexists. split; [done|]. rewrite Hr in Hk. injection Hk as ->. apply Hf.
  - rewrite lookup_insert_ne by done. by exists k.
Qed.

(** What is no matter of the cores. *)
Lemma kept_other P v v' : CORE v' = CORE v -> PIC_active v' = PIC_active v -> bios_serial_ports v' = bios_serial_ports v -> kept P v v'.
Proof. intros E1 E2 E3. split; [unfold cpu_cores; by rewrite E1|done..|]. intros d k Hk. rewrite E1. by exists k. Qed.

Lemma kept_restart P c v v' : core_restart c v = Ret v' -> kept P v v'.
Proof.
  unfold core_restart. intros E. apply bind_Ret in E as (k & Hk & E). destruct (halted k); [|by injection E as <-; apply kept_refl].
  apply bind_Ret in E as (v1 & Hv1 & E). apply bind_Ret in E as ([n h] & Hh & E). injection E as <-.
  eapply kept_trans; [by eapply (kept_upd P c (set_halted false))|]. by apply kept_other.
Qed.

Lemma kept_restarts P cs v v' : restart_cores cs v = Ret v' -> kept P v v'.
Proof.
  revert v. induction cs as [|c cs IH]; intros v E; simpl in E; [injection E as <-; apply kept_refl|].
  apply bind_Ret in E as (v1 & Hv1 & E). eapply kept_trans; [by eapply kept_restart|by apply IH].
Qed.

Lemma kept_restart_one P v v' : cpu_core_restart_one v = Ret v' -> kept P v v'.
Proof.
  unfold cpu_core_restart_one. intros E. apply bind_Ret in E as (e & _ & E). destruct e; [injection E as <-; apply kept_refl|].
  apply bind_Ret in E as ([n h] & _ & E). apply bind_Ret in E as (nd & _ & E). apply bind_Ret in E as (c & _ & E).
  eapply kept_trans; [|by eapply kept_restart]. by apply kept_other.
Qed.

Lemma kept_raise P c i v v' : raise_interrupt c i v = Ret v' -> kept P v v'.
Proof.
  unfold raise_interrupt. intros E. apply bind_Ret in E as (k & _ & E). apply bind_Ret in E as (v1 & Hv1 & E).
  eapply kept_trans; [by eapply kept_upd|by eapply kept_restart].
Qed.

Lemma kept_dispatch P ints c v v' : dispatch_loop print_only ints c v = Ret v' -> kept P v v'.
Proof.
  revert v. induction ints as [|i ints IH]; intros v E; cbn [dispatch_loop] in E; [injection E as <-; apply kept_refl|].
  apply bind_Ret in E as (k & _ & E). destruct (int_disabled k); [injection E as <-; apply kept_refl|].
  destruct (decide _); [|by apply IH]. apply bind_Ret in E as (v1 & Hv1 & E). apply bind_Ret in E as (v2 & Hv2 & E).
  assert (v2 = v1) as -> by (destruct (intvec k !! i); injection Hv2 as <-; done).
  eapply kept_trans; [by eapply kept_upd|by apply IH].
Qed.

Lemma kept_alarms P cs v v' : raise_alarms cs v = Ret v' -> kept P v v'.
Proof.
  revert v. induction cs as [|c cs IH]; intros v E; simpl in E; [injection E as <-; apply kept_refl|].
  apply bind_Ret in E as (v1 & Hv1 & E). eapply kept_trans; [by eapply kept_raise|by apply IH].
Qed.

Lemma kept_term P n t v : is_Some (TERM v !! n) -> kept P v (with_TERM (<[n := t]> (TERM v)) v).
Proof. intros Hn. apply kept_other; [done..|]. unfold bios_serial_ports. cbn [TERM with_TERM]. by rewrite map_size_insert_Some. Qed.

Lemma kept_devices P rs ws ts v v' : pic_devices rs ws ts v = Ret v' -> kept P v v'.
Proof.
  revert v. induction ts as [|n ts IH]; intros v E; cbn [pic_devices] in E; [injection E as <-; apply kept_refl|].
  apply bind_Ret in E as (t & Ht%deref_Ret & E). apply bind_Ret in E as (v1 & Hv1 & E).
  apply bind_Ret in E as (t1 & Ht1%deref_Ret & E). apply bind_Ret in E as (v2 & Hv2 & E).
  eapply kept_trans; [|eapply kept_trans; [|by apply IH]].
  - destruct (decide _); [|injection Hv1 as <-; apply kept_refl].
    eapply kept_trans; [|by eapply kept_raise]. apply kept_term. by eexists.
  - destruct (decide _) in Hv2; [|injection Hv2 as <-; apply kept_refl].
    eapply kept_trans; [|by eapply kept_raise]. apply kept_term. by eexists.
Qed.

Lemma kept_pic_round P ev v v' : pic_round ev v = Ret v' -> kept P v v'.
Proof.
  unfold pic_round. intros E. destruct (ev_select ev); [|injection E as <-; by apply kept_other].
  apply bind_Ret in E as (v1 & Hv1 & E). eapply kept_trans; [|by eapply kept_devices].
  eapply kept_trans; [|eapply kept_trans; [by eapply kept_alarms|]]; by apply kept_other.
Qed.

Lemma kept_read P n got v o v' : bios_read_serial n got v = Ret (o, v') -> kept P v v'.
Proof.
  unfold bios_read_serial. intros E. apply bind_Ret in E as (t & Ht%deref_Ret & E). apply bind_Ret in E as ([[ok d] p] & _ & E).
  injection E as _ <-. eapply kept_trans; [apply (kept_term P n (mkTerminal (con t) d)); by eexists|]. destruct p; [by apply kept_other|apply kept_refl].
Qed.

Lemma kept_write P n sent v o v' : bios_write_serial n sent v = Ret (o, v') -> kept P v v'.
Proof.
  unfold bios_write_serial. intros E. apply bind_Ret in E as (t & Ht%deref_Ret & E). apply bind_Ret in E as ([[ok d] p] & _ & E).
  injection E as _ <-. eapply kept_trans; [apply (kept_term P n (mkTerminal d (kbd t))); by eexists|]. destruct p; [by apply kept_other|apply kept_refl].
Qed.

(** The calls that do not concern the interrupts of the caller. *)
Definition callable (n ports c : nat) (r : vm_req hdl) : bool :=
  match r with
  | VSetTimer d _ _ | VSetHandler d _ _ => bool_decide (d = c)
  | VRestart d | VIci d => bool_decide (d < n)
  | VRestartOne | VRestartAll => true
  | VSerialCore s i d => bool_decide (s < ports) && bool_decide (d < n) && bool_decide (i = SERIAL_RX_READY \/ i = SERIAL_TX_READY)
  | _ => false
  end.

Lemma kept_call P n ports c r v v' : callable n ports c r = true -> vm_perform print_only r v = Ret v' -> kept P v v'.
Proof.
  intros Hc E. destruct r as [d|d|d|d| | |d|d|d|d|d usec rest|d i h|ev|s got|s sent|s i d|d]; try done; cbn [vm_perform] in E.
  - by eapply kept_restart.
  - by eapply kept_restart_one.
  - by eapply kept_restarts.
  - unfold cpu_ici in E. apply bind_Ret in E as (_ & _ & E). by eapply kept_raise.
  - apply bind_Ret in E as ([z v1] & E1 & E). injection E as <-. unfold bios_set_timer in E1.
    apply bind_Ret in E1 as (k & _ & E1). apply bind_Ret in E1 as (v1' & E1' & E1). apply bind_Ret in E1 as (_ & _ & E1). injection E1 as _ <-. by eapply kept_upd.
  - by eapply kept_upd.
  - unfold bios_serial_interrupt_core in E. do 3 apply bind_Ret in E as (? & _ & E). apply bind_Ret in E as (t & Ht%deref_Ret & E).
    injection E as <-. apply kept_term. by eexists.
Qed.
End kept.

(** ** Balanced boot code

  All cores call [cpu_core_barrier_sync] equally often: [left l] times after the control point [l].  [off l] says
  whether interrupts are disabled there. *)

Record balanced {L} (n ports : nat) (start : nat -> L) (code : nat -> L -> binstr L) (syncs : nat) (left : L -> nat) (off : L -> bool) : Prop := {
  bl_start c : c < n -> left (start c) = syncs /\ off (start c) = false;
  bl_code c l : c < n ->
    match code c l with
    | BPrint _ _ l' | BLocal l' => left l' = left l /\ off l' = off l
    | BCall r l' => callable n ports c r = true /\ left l' = left l /\ off l' = off l
    | BDisable l' => left l' = left l /\ off l' = true
    | BEnable l' => left l' = left l /\ off l' = false
    | BHalt l' => off l = false /\ left l' = left l /\ off l' = false
    | BSync l' => left l = S (left l') /\ off l' = off l
    | BRead s k => s < ports /\ forall x, left (k x) = left l /\ off (k x) = off l
    | BWrite s _ k => s < ports /\ forall b, left (k b) = left l /\ off (k b) = off l
    | BReturn => left l = 0
    end
}.

Section balanced.
Context {L : Type} (n ports : nat) (start : nat -> L) (code : nat -> L -> binstr L) (syncs : nat) (left : L -> nat) (off : L -> bool).
Context (Hb : balanced n ports start code syncs left off).
Implicit Types (m : machine L) (c d : nat) (l : L) (v : vm hdl) (p : core_place L).

(** The place of a core, as the barriers see it. *)
Definition core_part p : part :=
  match p with
  | Booting | AtStart _ => Free 0
  | Boot l | Halting l | Halted l => Free (syncs - left l)
  | InSync g _ => Waits g
  | Ending => Free syncs
  | AtEnd g => Waits g
  | _ => Free (S syncs)
  end.
Definition sys_part p : part :=
  match p with
  | Booting => Free 0
  | AtStart g => Waits g
  | AtStop g => Waits g
  | Finished => Free 2
  | _ => Free 1
  end.
Definition pic_part (p : pic_place) : part :=
  match p with
  | PicStart => Free 0
  | PicAtStart g => Waits g
  | PicLoop => Free 1
  | PicAtStop g => Waits g
  | PicDone => Free 2
  end.

Definition core_at c v (a b d : bool) : Prop := exists k, CORE v !! c = Some k /\ masked k = a /\ int_disabled k = b /\ (halted k = true -> d = true).

Definition place_fine c v p : Prop :=
  match p with
  | Booting => core_at c v false false false
  | AtStart g => g = 0 /\ core_at c v false false false
  | Boot l => left l <= syncs /\ core_at c v (off l) (off l) false
  | InSync g l => g + 1 + left l = syncs /\ core_at c v (off l) (off l) false
  | Halting l => left l <= syncs /\ off l = false /\ core_at c v true false false
  | Halted l => left l <= syncs /\ off l = false /\ core_at c v true false true
  | AtEnd g => g = syncs
  | AtStop g => g = 1
  | _ => True
  end.

Definition stopped p : bool := match p with Stopping | AtStop _ | Finished => true | _ => false end.
Definition pic_fine v (p : pic_place) : Prop :=
  match p with
  | PicAtStart g => g = 0
  | PicAtStop g => g = 1 /\ PIC_active v = false
  | PicDone => PIC_active v = false
  | _ => True
  end.

Record minv m : Prop := {
  mi_vm : vm_inv (hw m);
  mi_n : 0 < n;
  mi_len : length (threads m) = n;
  mi_cores : cpu_cores (hw m) = n;
  mi_ports : bios_serial_ports (hw m) = ports;
  mi_core : bar_ok (core_barrier m) (core_part <$> threads m);
  mi_sys : bar_ok (system_barrier m) (pic_part (pic m) :: (sys_part <$> threads m));
  mi_place c p : threads m !! c = Some p -> place_fine c (hw m) p;
  mi_active p : threads m !! 0 = Some p -> PIC_active (hw m) = negb (stopped p);
  mi_pic : pic_fine (hw m) (pic m)
}.

Lemma core_at_kept P c v v' (a b e : bool) : kept P v v' -> P c -> core_at c v a b e -> core_at c v' a b e.
Proof.
  intros K Hc (k & Hk & H1 & H2 & H3). destruct (kp_core _ _ _ K c k Hk) as (k' & Hk' & H). destruct (H Hc) as (? & ? & ?).
  exists k'. split; [done|]. split; [congruence|]. split; [congruence|]. auto.
Qed.

Lemma place_fine_kept P c v v' p : kept P v v' -> P c -> place_fine c v p -> place_fine c v' p.
Proof.
  intros K Hc. pose proof (fun a b e => core_at_kept P c v v' a b e K Hc) as Hk. destruct p; simpl; intuition auto.
Qed.

(** The core [c] goes to another place, as its barriers allow it. *)
Lemma minv_move m m' c p p' : minv m -> threads m !! c = Some p -> threads m' = <[c := p']> (threads m) -> pic m' = pic m ->
  vm_inv (hw m') -> kept (fun d => d <> c) (hw m) (hw m') ->
  bar_ok (core_barrier m') (<[c := core_part p']> (core_part <$> threads m)) ->
  bar_ok (system_barrier m') (<[S c := sys_part p']> (pic_part (pic m) :: (sys_part <$> threads m))) ->
  place_fine c (hw m') p' -> (c = 0 -> stopped p' = stopped p) -> minv m'.
Proof.
  intros [I1 I2 I3 I4 I5 I6 I7 I8 I9 I10] Hp Ht Hpic Hv Hk Hcb Hsb Hf Hst. split; try done.
  - by rewrite Ht, length_insert.
  - by rewrite (kp_cores _ _ _ Hk).
  - by rewrite (kp_ports _ _ _ Hk).
  - by rewrite Ht, list_fmap_insert.
  - by rewrite Ht, list_fmap_insert, Hpic.
  - intros d q Hd. rewrite Ht in Hd. apply list_lookup_insert_Some in Hd as [(<- & <- & _)|[Hne Hd]]; [done|].
    eapply place_fine_kept; [done|congruence|by apply I8].
  - intros q Hq. rewrite Ht in Hq. rewrite (kp_pic _ _ _ Hk).
    apply list_lookup_insert_Some in Hq as [(-> & <- & _)|[Hne Hq]]; [rewrite Hst by done|]; by apply I9.
  - rewrite Hpic. destruct (pic m); simpl in *; by rewrite ?(kp_pic _ _ _ Hk).
Qed.

(** A move that no barrier sees. *)
Lemma minv_local m m' c p p' : minv m -> threads m !! c = Some p -> threads m' = <[c := p']> (threads m) -> pic m' = pic m ->
  core_barrier m' = core_barrier m -> system_barrier m' = system_barrier m ->
  vm_inv (hw m') -> kept (fun d => d <> c) (hw m) (hw m') ->
  core_part p' = core_part p -> sys_part p' = sys_part p -> place_fine c (hw m') p' -> (c = 0 -> stopped p' = stopped p) -> minv m'.
Proof.
  intros I Hp Ht Hpic Hcb Hsb Hv Hk Hc Hs Hf Hst. eapply minv_move; try done.
  - rewrite Hcb, Hc, list_insert_id; [apply I|by rewrite list_lookup_fmap, Hp].
  - rewrite Hsb, Hs, list_insert_id; [apply I|].
    change ((sys_part <$> threads m) !! c = Some (sys_part p)). by rewrite list_lookup_fmap, Hp.
Qed.

(** *** The calls of the boot code *)

Lemma core_at_upd c f v v' (a b e a' b' e' : bool) : core_at c v a b e -> upd_core c f v = Ret v' ->
  (forall k, masked k = a -> int_disabled k = b -> (halted k = true -> e = true) ->
     masked (f k) = a' /\ int_disabled (f k) = b' /\ (halted (f k) = true -> e' = true)) ->
  kept (fun d => d <> c) v v' /\ core_at c v' a' b' e'.
Proof.
  intros (k & Hk & H1 & H2 & H3) E Hf. split; [by eapply kept_upd|].
  rewrite (upd_core_eq _ _ _ _ Hk) in E. injection E as <-. exists (f k). split; [apply lookup_insert_eq|by apply Hf].
Qed.

Lemma core_at_dispatch c ints v v' (a b e : bool) (P : nat -> Prop) v0 : kept P v0 v /\ core_at c v a b e -> dispatch_loop print_only ints c v = Ret v' ->
  kept P v0 v' /\ core_at c v' a b e.
Proof.
  intros [K A] E. split; [eapply kept_trans; [exact K|by eapply kept_dispatch]|].
  eapply (core_at_kept (fun _ => True)); [by eapply kept_dispatch|done|done].
Qed.

(** How a call on the interrupts of the caller changes them. *)
Lemma own_call c v v' (a b e : bool) r : core_at c v a b e -> vm_perform print_only r v = Ret v' ->
  match r with
  | VDisable d => d = c -> a = b -> kept (fun d => d <> c) v v' /\ core_at c v' true true e
  | VEnable d => d = c -> a = b -> kept (fun d => d <> c) v v' /\ core_at c v' false false e
  | VHaltMask d => d = c -> kept (fun d => d <> c) v v' /\ core_at c v' true b e
  | VHaltSleep d => d = c -> kept (fun d => d <> c) v v' /\ core_at c v' a b true
  | VHaltWake d => d = c -> kept (fun d => d <> c) v v' /\ core_at c v' false b false
  | VSignal d => kept (fun _ => True) v v'
  | _ => True
  end.
Proof.
  intros A E. pose proof A as (k & Hk & H1 & H2 & H3). destruct r as [d|d|d|d| | |d|d|d|d|d usec rest|d i h|ev|s got|s sent|s i d|d]; try done; cbn [vm_perform] in E.
  - intros ->. unfold cpu_core_halt_mask in E. rewrite Hk in E. cbn in E. apply bind_Ret in E as (_ & _ & E). by eapply core_at_upd.
  - intros ->. unfold cpu_core_halt_sleep in E. apply bind_Ret in E as (v1 & E1 & E). apply bind_Ret in E as (h & _ & E). injection E as <-.
    destruct (core_at_upd c _ v v1 a b e a b true A E1) as [K A1]; [done|]. split; [|exact A1].
    eapply kept_trans; [exact K|]. by apply kept_other.
  - intros ->. unfold cpu_core_halt_wake in E. rewrite Hk in E. cbn [deref] in E. rewrite ret_bind in E.
    apply bind_Ret in E as (u & Hh%c_assert_Ret & E). apply negb_true_iff in Hh. apply bind_Ret in E as (v1 & E1 & E).
    eapply core_at_dispatch; [|exact E]. rewrite (upd_core_eq _ _ _ _ Hk) in E1. split; [by eapply (kept_upd _ c (set_masked false)); rewrite ?(upd_core_eq _ _ _ _ Hk)|].
    injection E1 as <-. eexists. split; [apply lookup_insert_eq|]. split; [done|]. split; [done|]. simpl. congruence.
  - unfold sigusr1_handler in E. apply bind_Ret in E as (v1 & E1 & E). apply bind_Ret in E as (k1 & _ & E).
    eapply kept_trans; [by eapply kept_upd|]. destruct (int_disabled k1); [injection E as <-; apply kept_refl|by eapply kept_dispatch].
  - intros -> <-. unfold cpu_disable_interrupts in E. rewrite Hk in E. cbn [deref] in E. rewrite ret_bind in E. destruct (int_disabled k) eqn:Hd.
    + injection E as <-. split; [apply kept_refl|]. exists k. split; [done|]. split; [congruence|]. split; [done|done].
    + by eapply core_at_upd.
  - intros -> <-. unfold cpu_enable_interrupts in E. rewrite Hk in E. cbn [deref] in E. rewrite ret_bind in E. destruct (int_disabled k) eqn:Hd.
    + apply bind_Ret in E as (v1 & E1 & E). eapply core_at_dispatch; [|exact E]. by eapply core_at_upd.
    + injection E as <-. split; [apply kept_refl|]. exists k. split; [done|]. split; [congruence|]. split; [done|done].
Qed.

(** *** A core moves *)

Lemma print_only_ok h c v : vm_inv v -> is_Some (CORE v !! c) ->
  exists v', print_only h c v = Ret v' /\ vm_inv v' /\ is_Some (CORE v' !! c).
Proof. intros I Hc. by exists v. Qed.

Lemma bios_ok c r m : minv m -> vm_enabled r (hw m) = true ->
  exists v es, bios c r m = Ret (log es (with_hw v m)) /\ vm_perform print_only r (hw m) = Ret v /\ vm_inv v.
Proof.
  intros I He. destruct (vm_perform_ok print_only print_only_ok r (hw m) (mi_vm _ I) He) as (v & E & Iv).
  exists v, (handled c (hw m) v). unfold bios. by rewrite (bind_eq _ _ _ E).
Qed.

Lemma core_is_at c v (a b e : bool) (f : Core hdl -> bool) : core_at c v a b e ->
  (forall k, masked k = a -> int_disabled k = b -> (halted k = true -> e = true) -> f k = true) -> core_is c f v = true.
Proof. intros (k & Hk & H1 & H2 & H3) Hf. unfold core_is. rewrite Hk. by apply Hf. Qed.

Lemma callable_enabled c r m : minv m -> c < n -> callable n ports c r = true -> vm_enabled r (hw m) = true.
Proof.
  intros I Hc Hr. assert (forall d, d < n -> core_is d (fun _ => true) (hw m) = true) as Hd.
  { intros d Hd. destruct (vm_core _ d (mi_vm _ I)) as [k Hk]; [by rewrite (mi_cores _ I)|]. unfold core_is. by rewrite Hk. }
  destruct r; try done; simpl in *.
  - apply Hd. by apply bool_decide_eq_true in Hr.
  - apply Hd. by apply bool_decide_eq_true in Hr.
  - apply bool_decide_eq_true in Hr as ->. by apply Hd.
  - apply bool_decide_eq_true in Hr as ->. by apply Hd.
  - by rewrite (mi_ports _ I), (mi_cores _ I).
Qed.

Lemma thread_lt m c p : minv m -> threads m !! c = Some p -> c < n.
Proof. intros I Hp. rewrite <- (mi_len _ I). by eapply lookup_lt_Some. Qed.

Lemma sync_cores_ok m c p k waiting next : minv m -> threads m !! c = Some p -> core_part p = Free k ->
  (forall g, core_part (waiting g) = Waits g) -> core_part next = Free (S k) ->
  (forall g, sys_part (waiting g) = sys_part p) -> sys_part next = sys_part p ->
  place_fine c (hw m) (waiting k) -> place_fine c (hw m) next -> (forall g, stopped (waiting g) = stopped p) -> stopped next = stopped p ->
  minv (sync_cores c waiting next m).
Proof.
  intros I Hp Hk Hw Hn Hsw Hsn Hfw Hfn Htw Htn.
  destruct (bar_arrive (core_barrier m) (core_part <$> threads m) c k (mi_core _ I)) as [Hbar Hg]; [by rewrite list_lookup_fmap, Hp, <- Hk|].
  rewrite length_fmap in Hbar, Hg. set (r := barrier_wait (length (threads m)) (core_barrier m)) in *.
  unfold sync_cores. fold r. assert (forall g, r.2 = Some g -> place_fine c (hw m) (waiting g)) as Hf by (intros g ->%Hg; done).
  destruct (r.2) as [g|]; (eapply minv_move; [exact I|exact Hp|done|done|apply I|apply kept_refl| | | |]); simpl; rewrite ?Hw, ?Hn, ?Hsw, ?Hsn; auto.
  all: rewrite list_insert_id; [apply I|]; change ((sys_part <$> threads m) !! c = Some (sys_part p)); by rewrite list_lookup_fmap, Hp.
Qed.

Lemma sync_system_ok m c p k waiting next : minv m -> threads m !! c = Some p -> sys_part p = Free k ->
  (forall g, sys_part (waiting g) = Waits g) -> sys_part next = Free (S k) ->
  (forall g, core_part (waiting g) = core_part p) -> core_part next = core_part p ->
  place_fine c (hw m) (waiting k) -> place_fine c (hw m) next -> (forall g, stopped (waiting g) = stopped p) -> stopped next = stopped p ->
  minv (sync_system c waiting next m).
Proof.
  intros I Hp Hk Hw Hn Hsw Hsn Hfw Hfn Htw Htn.
  destruct (bar_arrive (system_barrier m) (pic_part (pic m) :: (sys_part <$> threads m)) (S c) k (mi_sys _ I)) as [Hbar Hg].
  { change ((sys_part <$> threads m) !! c = Some (Free k)). by rewrite list_lookup_fmap, Hp, <- Hk. }
  cbn [length] in Hbar, Hg. rewrite length_fmap in Hbar, Hg. set (r := barrier_wait (S (length (threads m))) (system_barrier m)) in *.
  unfold sync_system. fold r. assert (forall g, r.2 = Some g -> place_fine c (hw m) (waiting g)) as Hf by (intros g ->%Hg; done).
  destruct (r.2) as [g|]; (eapply minv_move; [exact I|exact Hp|done|done|apply I|apply kept_refl| | | |]); simpl; rewrite ?Hw, ?Hn, ?Hsw, ?Hsn; auto.
  all: rewrite list_insert_id; [apply I|]; by rewrite list_lookup_fmap, Hp.
Qed.

Lemma leave_cores_ok m c p g next : minv m -> threads m !! c = Some p -> core_part p = Waits g -> opened g (core_barrier m) = true ->
  core_part next = Free (S g) -> sys_part next = sys_part p -> place_fine c (hw m) next -> stopped next = stopped p -> minv (to c next m).
Proof.
  intros I Hp Hk Ho Hn Hs Hf Ht. eapply minv_move; [exact I|exact Hp|done|done|apply I|apply kept_refl| | |done|done]; simpl.
  - rewrite Hn. apply bar_leave; [apply I| |done]. by rewrite list_lookup_fmap, Hp, <- Hk.
  - rewrite Hs, list_insert_id; [apply I|]. by rewrite list_lookup_fmap, Hp.
Qed.

Lemma leave_system_ok m c p g next : minv m -> threads m !! c = Some p -> sys_part p = Waits g -> opened g (system_barrier m) = true ->
  sys_part next = Free (S g) -> core_part next = core_part p -> place_fine c (hw m) next -> stopped next = stopped p -> minv (to c next m).
Proof.
  intros I Hp Hk Ho Hn Hs Hf Ht. eapply minv_move; [exact I|exact Hp|done|done|apply I|apply kept_refl| | |done|done]; simpl.
  - rewrite Hs, list_insert_id; [apply I|]. by rewrite list_lookup_fmap, Hp.
  - rewrite Hn. change (bar_ok (system_barrier m) (<[S c := Free (S g)]> (pic_part (pic m) :: (sys_part <$> threads m)))).
    apply bar_leave; [apply I| |done].
    change ((sys_part <$> threads m) !! c = Some (Waits g)). by rewrite list_lookup_fmap, Hp, <- Hk.
Qed.

(** Instructions and calls that no barrier sees. *)
Lemma call_ok m c p p' r : minv m -> threads m !! c = Some p -> vm_enabled r (hw m) = true ->
  (forall v, vm_perform print_only r (hw m) = Ret v -> kept (fun d => d <> c) (hw m) v /\ place_fine c v p') ->
  core_part p' = core_part p -> sys_part p' = sys_part p -> stopped p' = stopped p ->
  exists m', (m ← bios c r m; Ret (to c p' m)) = Ret m' /\ minv m'.
Proof.
  intros I Hp He Hr Hc Hs Ht. destruct (bios_ok c r m I He) as (v & es & E & E' & Iv). rewrite (bind_eq _ _ _ E).
  destruct (Hr v E') as [K F]. eexists. split; [done|]. by eapply minv_local.
Qed.

Lemma leave_boot_ok c v k : vm_inv v -> CORE v !! c = Some k ->
  exists v', leave_boot c v = Ret v' /\ vm_inv v' /\ kept (fun d => d <> c) v v'.
Proof.
  intros Iv Hk. pose proof (upd_core_eq c _ k v Hk : leave_boot c v = _) as E. eexists. split; [exact E|].
  split; [by eapply vm_inv_core|by eapply kept_upd].
Qed.

Lemma boot_instr_ok c l got sent m : minv m -> threads m !! c = Some (Boot l) ->
  exists m', boot_instr c (code c l) got sent m = Ret m' /\ minv m'.
Proof.
  intros I Hp. pose proof (thread_lt m c _ I Hp) as Hc. pose proof (mi_place _ I c _ Hp) as [Hl A]. pose proof (bl_code _ _ _ _ _ _ _ Hb c l Hc) as Hcode.
  assert (forall m' v l', left l' = left l -> off l' = off l -> kept (fun d => d <> c) (hw m) v -> vm_inv v -> core_at c v (off l) (off l) false ->
    threads m' = <[c := Boot l']> (threads m) -> pic m' = pic m -> core_barrier m' = core_barrier m -> system_barrier m' = system_barrier m -> hw m' = v -> minv m') as Hloc.
  { intros m' v l' E1 E2 K Iv A' Ht Hpic Hcb Hsb Hv. eapply (minv_local m m' c (Boot l) (Boot l')); try done; rewrite ?Hv; try done.
    - simpl. by rewrite E1.
    - simpl. rewrite E1, E2. done. }
  destruct (code c l) as [f args l'|l'|r l'|l'|l'|l'|l'|s k|s x k|]; cbn [boot_instr].
  - destruct Hcode. eexists. split; [done|]. eapply (Hloc _ (hw m)); try done; [apply kept_refl|apply I].
  - destruct Hcode. eexists. split; [done|]. eapply (Hloc _ (hw m)); try done; [apply kept_refl|apply I].
  - destruct Hcode as (Hr & E1 & E2). eapply call_ok; [done|exact Hp|by apply (callable_enabled c)| | |done|done]; simpl; rewrite E1; [|done].
    intros v E. assert (forall P, kept P (hw m) v) as K by (intros P; by eapply kept_call). split; [done|]. split; [done|].
    rewrite E2. by eapply (core_at_kept (fun _ => True)).
  - destruct Hcode as [E1 E2]. eapply call_ok; [done|exact Hp| | | |done|done]; simpl; rewrite ?E1, ?E2; [by eapply core_is_at| |done].
    intros v E. by destruct (own_call c (hw m) v _ _ _ (VDisable c) A E eq_refl eq_refl).
  - destruct Hcode as [E1 E2]. eapply call_ok; [done|exact Hp| | | |done|done]; simpl; rewrite ?E1, ?E2; [by eapply core_is_at| |done].
    intros v E. by destruct (own_call c (hw m) v _ _ _ (VEnable c) A E eq_refl eq_refl).
  - destruct Hcode as (E0 & E1 & E2). rewrite E0 in A. eapply call_ok; [done|exact Hp| | | |done|done]; simpl; rewrite ?E1, ?E2; [| |done].
    + eapply core_is_at; [exact A|]. intros k _ -> Hh. simpl. destruct (halted k); [by specialize (Hh eq_refl)|done].
    + intros v E. by destruct (own_call c (hw m) v _ _ _ (VHaltMask c) A E eq_refl).
  - destruct Hcode as [E1 E2]. eexists. split; [done|]. eapply (sync_cores_ok m c _ (syncs - left l)); try done; simpl; rewrite ?E2; try done.
    + f_equal. lia.
    + split; [lia|done].
    + split; [lia|done].
  - destruct Hcode as [Hs Hk]. destruct (vm_perform_ok print_only print_only_ok (VReadSerial s got) (hw m) (mi_vm _ I)) as (v & E & Iv).
    { simpl. by rewrite (mi_ports _ I), bool_decide_true. }
    simpl in E. apply bind_Ret in E as ([o v'] & E & [= ->]). rewrite (bind_eq _ _ _ E). destruct (Hk o). eexists. split; [done|].
    eapply (Hloc _ v); try done; [by eapply kept_read|]. by eapply (core_at_kept (fun _ => True)); [eapply kept_read|..].
  - destruct Hcode as [Hs Hk]. destruct (vm_perform_ok print_only print_only_ok (VWriteSerial s sent) (hw m) (mi_vm _ I)) as (v & E & Iv).
    { simpl. by rewrite (mi_ports _ I), bool_decide_true. }
    simpl in E. apply bind_Ret in E as ([b v'] & E & [= ->]). rewrite (bind_eq _ _ _ E). destruct (Hk b). eexists. split; [done|].
    eapply (Hloc _ v); try done; [by eapply kept_write|]. by eapply (core_at_kept (fun _ => True)); [eapply kept_write|..].
  - destruct A as (k & Hk & _). destruct (leave_boot_ok c (hw m) k (mi_vm _ I) Hk) as (v & -> & Iv & K). rewrite ret_bind.
    eexists. split; [done|]. eapply (minv_local m _ c (Boot l) Ending); try done. simpl. by rewrite Hcode, Nat.sub_0_r.
Qed.

Lemma stop_ok m : minv m -> threads m !! 0 = Some Closing -> minv (to 0 Stopping (with_hw (stop_PIC (hw m)) m)).
Proof.
  intros [I1 I2 I3 I4 I5 I6 I7 I8 I9 I10] Hp. split; simpl; try done.
  - destruct I1 as [[hs [? ? ? ? ?]] [[? ?] ?]]. split; [by exists hs|done].
  - by rewrite length_insert.
  - rewrite list_fmap_insert, list_insert_id; [done|]. by rewrite list_lookup_fmap, Hp.
  - rewrite list_fmap_insert, list_insert_id; [done|]. by rewrite list_lookup_fmap, Hp.
  - intros d q Hd. apply list_lookup_insert_Some in Hd as [(<- & <- & _)|[Hne Hd]]; [done|]. exact (I8 d q Hd).
  - intros q Hq. by rewrite list_lookup_insert_eq in Hq by lia; injection Hq as <-.
  - destruct (pic m); simpl in *; tauto.
Qed.

Lemma bootfunc_wrapper_ok c got sent m o : minv m -> bootfunc_wrapper start code c got sent m = Some o -> exists m', o = Ret m' /\ minv m'.
Proof.
  intros I E. unfold bootfunc_wrapper in E. destruct (threads m !! c) as [p|] eqn:Hp; [|done]. cbn [mbind option_bind] in E.
  pose proof (thread_lt m c p I Hp) as Hc. pose proof (mi_place _ I c p Hp) as Hf. destruct (bl_start _ _ _ _ _ _ _ Hb c Hc) as [Hs1 Hs2].
  destruct p as [|g|l|g l|l|l| |g| | |g|]; simpl in Hf; cbn iota in E.
  - injection E as <-. eexists. split; [done|]. eapply (sync_system_ok m c _ 0); try done; simpl; rewrite ?Hs1, ?Hs2, ?Nat.sub_diag; done.
  - destruct (opened g _) eqn:Ho; [|done]. injection E as <-. destruct Hf as [-> Hf]. eexists. split; [done|].
    eapply (leave_system_ok m c _ 0); try done; simpl; rewrite ?Hs1, ?Hs2, ?Nat.sub_diag; done.
  - injection E as <-. by apply boot_instr_ok.
  - destruct (opened g _) eqn:Ho; [|done]. injection E as <-. destruct Hf as [Hg Hf]. eexists. split; [done|].
    eapply (leave_cores_ok m c _ g); try done; simpl; [f_equal; lia|split; [lia|done]].
  - injection E as <-. destruct Hf as (Hl & Hoff & A). eapply call_ok; [done|exact Hp| | |done|done|done].
    + eapply core_is_at; [exact A|]. intros k -> _ Hh. simpl. destruct (halted k); [by specialize (Hh eq_refl)|done].
    + intros v E. by destruct (own_call c (hw m) v _ _ _ (VHaltSleep c) A E eq_refl).
  - destruct (core_is c halted (hw m)) eqn:Hh; [done|]. injection E as <-. destruct Hf as (Hl & Hoff & A). eapply call_ok; [done|exact Hp| | |done|done|done].
    + destruct A as (k & Hk & H1 & _). unfold core_is in *. simpl. unfold core_is. rewrite Hk in *. by rewrite H1, Hh.
    + intros v E. destruct (own_call c (hw m) v _ _ _ (VHaltWake c) A E eq_refl). simpl. by rewrite Hoff.
  - injection E as <-. eexists. split; [done|]. by eapply (sync_cores_ok m c _ syncs).
  - destruct (opened g _) eqn:Ho; [|done]. injection E as <-. subst g. eexists. split; [done|]. by eapply (leave_cores_ok m c _ syncs).
  - injection E as <-. eexists. split; [done|]. destruct (decide (c = 0)) as [->|Hne].
    + by apply stop_ok.
    + eapply (minv_local m _ c Closing Stopping); try done; [apply I|apply kept_refl].
  - injection E as <-. eexists. split; [done|]. by eapply (sync_system_ok m c _ 1).
  - destruct (opened g _) eqn:Ho; [|done]. injection E as <-. subst g. eexists. split; [done|]. by eapply (leave_system_ok m c _ 1).
  - done.
Qed.

(** *** The interrupt controller *)

Lemma minv_hw m v : minv m -> vm_inv v -> kept (fun _ => True) (hw m) v -> minv (with_hw v m).
Proof.
  intros [I1 I2 I3 I4 I5 I6 I7 I8 I9 I10] Hv K. split; simpl; try done.
  - by rewrite (kp_cores _ _ _ K).
  - by rewrite (kp_ports _ _ _ K).
  - intros c p Hp. eapply (place_fine_kept (fun _ => True)); [done|done|by apply I8].
  - intros p Hp. rewrite (kp_pic _ _ _ K). by apply I9.
  - destruct (pic m); simpl in *; by rewrite ?(kp_pic _ _ _ K).
Qed.

Lemma signal_turn_ok c m o : minv m -> signal_turn c m = Some o -> exists m', o = Ret m' /\ minv m'.
Proof.
  unfold signal_turn. intros I E. destruct (vm_enabled _ _) eqn:He; [|done]. injection E as <-.
  destruct (bios_ok c _ m I He) as (v & es & -> & E & Iv). eexists. split; [done|].
  apply core_is_true in He as (k & Hk & _).
  assert (minv (with_hw v m)) as I'; [|by destruct I'; split].
  apply minv_hw; [done|done|]. exact (own_call c (hw m) v _ _ _ (VSignal c) (ex_intro _ k (conj Hk (conj eq_refl (conj eq_refl (fun H => H))))) E).
Qed.

Lemma pic_to_ok m b (p : pic_place) : minv m -> bar_ok b (pic_part p :: (sys_part <$> threads m)) -> pic_fine (hw m) p -> minv (pic_to p (with_system_barrier b m)).
Proof. intros [I1 I2 I3 I4 I5 I6 I7 I8 I9 I10] Hb' Hf. by split. Qed.

Lemma pic_arrive_ok m k waiting next : minv m -> pic_part (pic m) = Free k -> (forall g, pic_part (waiting g) = Waits g) -> pic_part next = Free (S k) ->
  pic_fine (hw m) (waiting k) -> pic_fine (hw m) next ->
  let r := barrier_wait (S (length (threads m))) (system_barrier m) in
  minv (pic_to (match r.2 with None => next | Some g => waiting g end) (with_system_barrier r.1 m)).
Proof.
  intros I Hk Hw Hn Hfw Hfn r.
  destruct (bar_arrive (system_barrier m) (pic_part (pic m) :: (sys_part <$> threads m)) 0 k (mi_sys _ I)) as [Hbar Hg]; [by rewrite Hk|].
  cbn [length] in Hbar, Hg. rewrite length_fmap in Hbar, Hg. fold r in Hbar, Hg. cbn [insert list_insert] in Hbar.
  destruct (r.2) as [g|]; apply pic_to_ok; rewrite ?Hw, ?Hn; try done. by rewrite (Hg g).
Qed.

Lemma PIC_daemon_ok ev m o : minv m -> PIC_daemon ev m = Some o -> exists m', o = Ret m' /\ minv m'.
Proof.
  intros I E. pose proof (mi_pic _ I) as Hf. pose proof (mi_sys _ I) as Hs. unfold PIC_daemon in E. destruct (pic m) as [|g| |g|] eqn:Hp; simpl in Hf.
  - injection E as <-. eexists. split; [done|]. by apply (pic_arrive_ok m 0); rewrite ?Hp.
  - destruct (opened g _) eqn:Ho; [|done]. injection E as <-. subst g. eexists. split; [done|].
    apply (pic_to_ok m (system_barrier m)); [done| |done]. by apply (bar_leave _ _ 0 0 Hs).
  - destruct (PIC_active (hw m)) eqn:Ha.
    + destruct (vm_enabled _ _) eqn:He; [|done]. injection E as <-.
      destruct (vm_perform_ok print_only print_only_ok (VPic ev) (hw m) (mi_vm _ I) He) as (v & Ev & Iv). cbn [vm_perform] in Ev.
      rewrite (bind_eq _ _ _ Ev). eexists. split; [done|]. apply minv_hw; [done|done|by eapply kept_pic_round].
    + injection E as <-. eexists. split; [done|]. by apply (pic_arrive_ok m 1); rewrite ?Hp.
  - destruct (opened g _) eqn:Ho; [|done]. injection E as <-. destruct Hf as [-> Ha]. eexists. split; [done|].
    apply (pic_to_ok m (system_barrier m)); [done| |done]. by apply (bar_leave _ _ 0 1 Hs).
  - done.
Qed.

Lemma machine_turn_ok a m o : minv m -> machine_turn start code a m = Some o -> exists m', o = Ret m' /\ minv m'.
Proof. destruct a; simpl; [apply bootfunc_wrapper_ok|apply signal_turn_ok|apply PIC_daemon_ok]. Qed.

Lemma vm_started_ok time is_ready m : vm_started n ports time is_ready = Ret m -> minv m.
Proof.
  unfold vm_started. intros E. apply bind_Ret in E as (v & Ev & E). injection E as <-.
  destruct (vm_boot_ok _ _ _ _ _ _ Ev) as (Iv & _ & Hn). unfold vm_boot in Ev. inv_ret. apply bool_decide_eq_true in Hr as [Hpos _].
  assert (forall q : part, q ∈ sys_part <$> replicate n (@Booting L) -> q = Free 0) as H1.
  { intros ? (q & -> & Hq)%list_elem_of_fmap. by apply elem_of_replicate_inv in Hq as ->. }
  assert (forall q : part, q ∈ core_part <$> replicate n (@Booting L) -> q = Free 0) as H2.
  { intros ? (q & -> & Hq)%list_elem_of_fmap. by apply elem_of_replicate_inv in Hq as ->. }
  split; simpl; try done.
  - apply length_replicate.
  - apply seq_map_size.
  - split; simpl.
    + by intros p ->%H2.
    + unfold waiting_now. rewrite filter_none; [done|]. by intros p ->%H2.
    + rewrite length_fmap, length_replicate. lia.
  - split; simpl.
    + intros p [-> | ->%H1]%elem_of_cons; done.
    + unfold waiting_now. rewrite filter_none; [done|]. intros p [-> | ->%H1]%elem_of_cons; done.
    + lia.
  - intros c p [-> Hc]%lookup_replicate. exists core0. split; [|done]. simpl. rewrite seq_map_lookup. by rewrite decide_True.
  - intros p [-> _]%lookup_replicate. done.
Qed.

Lemma machine_reach_inv m m' : minv m -> reach (machine_step start code) m m' -> minv m'.
Proof.
  intros I Hr. revert I. eapply reach_invariant, Hr. intros m1 m2 I [a m2' E]. destruct (machine_turn_ok a m1 _ I E) as (m3 & [= <-] & I'). done.
Qed.

(** *** What the barriers separate *)

Definition in_boot p : bool := match p with Boot _ | InSync _ _ | Halting _ | Halted _ => true | _ => false end.

Lemma sys_of m c p : minv m -> threads m !! c = Some p ->
  match sys_part p with Free k => k = generation (system_barrier m) | Waits g => g = generation (system_barrier m) \/ S g = generation (system_barrier m) end.
Proof. intros I Hp. apply (bk_part _ _ (mi_sys _ I)). right. apply list_elem_of_fmap. exists p. split; [done|by eapply list_elem_of_lookup_2]. Qed.

Lemma core_of m c p : minv m -> threads m !! c = Some p ->
  match core_part p with Free k => k = generation (core_barrier m) | Waits g => g = generation (core_barrier m) \/ S g = generation (core_barrier m) end.
Proof. intros I Hp. apply (bk_part _ _ (mi_core _ I)). apply list_elem_of_fmap. exists p. split; [done|by eapply list_elem_of_lookup_2]. Qed.

Lemma pic_of m : minv m ->
  match pic_part (pic m) with Free k => k = generation (system_barrier m) | Waits g => g = generation (system_barrier m) \/ S g = generation (system_barrier m) end.
Proof. intros I. apply (bk_part _ _ (mi_sys _ I)). by left. Qed.

Lemma core_0 m : minv m -> exists p, threads m !! 0 = Some p.
Proof. intros I. apply lookup_lt_is_Some_2. rewrite (mi_len _ I). apply I. Qed.

(** When core 0 has stopped the controller nobody is in the boot code any more. *)
Lemma stopped_after m c p : minv m -> PIC_active (hw m) = false -> threads m !! c = Some p ->
  match p with AtEnd _ | Closing | Stopping | AtStop _ | Finished => True | _ => False end /\ generation (core_barrier m) = S syncs.
Proof.
  intros I Ha Hp. destruct (core_0 m I) as [p0 Hp0]. pose proof (mi_active _ I p0 Hp0) as Hs. rewrite Ha in Hs.
  assert (generation (core_barrier m) = S syncs) as Hg.
  { pose proof (core_of m 0 p0 I Hp0) as Hc. by destruct p0. }
  split; [|done]. pose proof (core_of m c p I Hp) as Hc. pose proof (mi_place _ I c p Hp) as Hf. rewrite Hg in Hc.
  destruct p; simpl in *; try done; lia.
Qed.

Lemma boot_between m c p : minv m -> threads m !! c = Some p -> in_boot p = true ->
  PIC_active (hw m) = true /\ pic m <> PicStart /\ Booting ∉ threads m.
Proof.
  intros I Hp Hb'. split; [|split].
  - destruct (PIC_active (hw m)) eqn:Ha; [done|]. destruct (stopped_after m c p I Ha Hp) as [Hf _]. by destruct p.
  - intros E. pose proof (pic_of m I) as Hg. pose proof (sys_of m c p I Hp) as Hs. rewrite E in Hg. destruct p; simpl in *; (done || lia).
  - intros [d Hd]%list_elem_of_lookup. pose proof (sys_of m d _ I Hd) as Hg. pose proof (sys_of m c p I Hp) as Hs. destruct p; simpl in *; (done || lia).
Qed.

Lemma finished_after m : minv m -> Finished ∈ threads m ->
  PIC_active (hw m) = false /\ (pic m = PicDone \/ exists g, pic m = PicAtStop g) /\ forall p, p ∈ threads m -> p = Finished \/ exists g, p = AtStop g.
Proof.
  intros I [d Hd]%list_elem_of_lookup. pose proof (sys_of m d _ I Hd) as Hg. simpl in Hg.
  pose proof (pic_of m I) as Hp. pose proof (mi_pic _ I) as Hf.
  assert (pic m = PicDone \/ exists g, pic m = PicAtStop g) as Hpic.
  { destruct (pic m); simpl in *; try lia; [right; by eexists|by left]. }
  split; [destruct Hpic as [E|[g E]]; rewrite E in Hf; simpl in Hf; tauto|]. split; [done|].
  intros p [c Hc]%list_elem_of_lookup. pose proof (sys_of m c p I Hc) as Hs. pose proof (mi_place _ I c p Hc) as Hpl.
  destruct p; simpl in *; try lia; [right; by eexists|by left].
Qed.

(** A core that cannot go on waits at a barrier, sleeps or has finished. *)
Lemma blocked_cases m c p : threads m !! c = Some p -> bootfunc_wrapper start code c None false m = None ->
  match p with
  | AtStart g | AtStop g => g = generation (system_barrier m)
  | InSync g _ | AtEnd g => g = generation (core_barrier m)
  | Halted _ => core_is c halted (hw m) = true
  | Finished => True
  | _ => False
  end.
Proof.
  intros Hp E. unfold bootfunc_wrapper in E. rewrite Hp in E. cbn [mbind option_bind] in E.
  destruct p as [|g|l|g l|l|l| |g| | |g|]; try done; [..|by destruct (core_is c halted (hw m))| |];
    (destruct (opened g _) eqn:Ho; [done|]); apply bool_decide_eq_false in Ho; destruct (decide (generation (system_barrier m) = g)), (decide (generation (core_barrier m) = g)); naive_solver.
Qed.

Lemma no_progress b ps : bar_ok b ps -> (forall q : part, q ∈ ps -> q = Waits (generation b)) -> False.
Proof.
  intros Hok Ha. destruct (bar_progress b ps Hok) as (p & Hp & Hn). rewrite (Ha p Hp) in Hn. by apply bool_decide_eq_true in Hn.
Qed.

(** A core that sleeps in [cpu_core_halt], and no interrupt has woken. *)
Definition asleep_at m c : bool := match threads m !! c with Some (Halted _) => core_is c halted (hw m) | _ => false end.

Lemma machine_progress m : minv m ->
  (pic m = PicDone /\ forall p, p ∈ threads m -> p = Finished) \/
  (exists c o, bootfunc_wrapper start code c None false m = Some o) \/
  ((pic m = PicLoop -> PIC_active (hw m) = false) /\ forall ev, exists o, PIC_daemon ev m = Some o) \/
  exists c, asleep_at m c = true.
Proof.
  intros I. destruct (decide (Exists (fun c => is_Some (bootfunc_wrapper start code c None false m)) (seq 0 n))) as [Hx|Hx].
  { apply Exists_exists in Hx as (c & _ & o & E). right. left. by exists c, o. }
  destruct (decide (Exists (fun c => asleep_at m c = true) (seq 0 n))) as [Hh|Hh].
  { apply Exists_exists in Hh as (c & _ & E). do 3 right. by exists c. }
  apply not_Exists_Forall in Hx; [|apply _]. apply not_Exists_Forall in Hh; [|apply _]. rewrite Forall_forall in Hx. rewrite Forall_forall in Hh.
  assert (forall c p, threads m !! c = Some p ->
    match p with AtStart g | AtStop g => g = generation (system_barrier m) | InSync g _ | AtEnd g => g = generation (core_barrier m) | Finished => True | _ => False end) as Hbl.
  { intros c p Hp. pose proof (thread_lt m c p I Hp). assert (bootfunc_wrapper start code c None false m = None) as E by (apply eq_None_not_Some, Hx, elem_of_seq; lia).
    pose proof (blocked_cases m c p Hp E). assert (asleep_at m c <> true) as Hno by (apply Hh, elem_of_seq; lia).
    unfold asleep_at in Hno. rewrite Hp in Hno. by destruct p. }
  pose proof (pic_of m I) as Hg. pose proof (mi_pic _ I) as Hf. destruct (core_0 m I) as [p0 Hp0].
  pose proof (Hbl 0 p0 Hp0) as Hb0. pose proof (mi_active _ I p0 Hp0) as Ha0. pose proof (mi_place _ I 0 p0 Hp0) as Hf0. pose proof (core_of m 0 p0 I Hp0) as Hc0. pose proof (sys_of m 0 p0 I Hp0) as Hs0.
  unfold PIC_daemon. destruct (pic m) as [|g| |g|] eqn:Hpic; simpl in Hg, Hf.
  - do 2 right. left. split; [done|]. intros ev. by eexists.
  - destruct (opened g (system_barrier m)) eqn:Ho; [do 2 right; left; split; [done|intros ev; by eexists]|exfalso].
    subst g. apply bool_decide_eq_false in Ho. assert (generation (system_barrier m) = 0) as G by lia.
    apply (no_progress _ _ (mi_sys _ I)). rewrite Hpic, G. intros q [-> |(p & -> & [c Hp]%list_elem_of_lookup)%list_elem_of_fmap]%elem_of_cons; [done|].
    pose proof (Hbl c p Hp). pose proof (sys_of m c p I Hp) as Hs. pose proof (mi_place _ I c p Hp). destruct p; simpl in *; try done; try lia. f_equal. lia.
  - destruct (PIC_active (hw m)) eqn:Ha; [exfalso|do 2 right; left; split; [done|intros ev; by eexists]].
    assert (generation (core_barrier m) <= syncs) as G by (destruct p0; simpl in *; try done; lia).
    apply (no_progress _ _ (mi_core _ I)). intros q (p & -> & [c Hp]%list_elem_of_lookup)%list_elem_of_fmap.
    pose proof (Hbl c p Hp). pose proof (sys_of m c p I Hp) as Hs. pose proof (core_of m c p I Hp) as Hc. pose proof (mi_place _ I c p Hp). destruct p; simpl in *; try done; try lia; by f_equal.
  - destruct (opened g (system_barrier m)) eqn:Ho; [do 2 right; left; split; [done|intros ev; by eexists]|exfalso].
    destruct Hf as [-> Ha]. apply bool_decide_eq_false in Ho. assert (generation (system_barrier m) = 1) as G by lia.
    apply (no_progress _ _ (mi_sys _ I)). rewrite Hpic, G. intros q [-> |(p & -> & [c Hp]%list_elem_of_lookup)%list_elem_of_fmap]%elem_of_cons; [done|].
    pose proof (Hbl c p Hp). pose proof (sys_of m c p I Hp) as Hs. destruct (stopped_after m c p I Ha Hp). pose proof (mi_place _ I c p Hp).
    destruct p; simpl in *; try done; try lia. f_equal. lia.
  - left. split; [done|]. intros p [c Hp]%list_elem_of_lookup. pose proof (Hbl c p Hp). pose proof (sys_of m c p I Hp) as Hs. pose proof (mi_place _ I c p Hp).
    destruct p; simpl in *; try done; lia.
Qed.
End balanced.

(** ** Moves and what they log *)

Section moves.
Context {L : Type} (start : nat -> L) (code : nat -> L -> binstr L).
Implicit Types (m : machine L) (c d : nat) (l : L) (p : core_place L) (es : list event).

Definition by_program (e : event) : bool := match e with Handler _ _ => false | _ => true end.

(** A move of the core [c] from [p] to [p'], and what its program logs. *)
Definition moves c p p' es : Prop :=
  match p with
  | Boot l =>
      match code c l with
      | BPrint f args l' => p' = Boot l' /\ es = [Printed f args]
      | BLocal l' | BCall _ l' | BDisable l' | BEnable l' => p' = Boot l' /\ es = []
      | BHalt l' => p' = Halting l' /\ es = []
      | BSync l' => (p' = Boot l' \/ exists g, p' = InSync g l') /\ es = []
      | BRead s k => exists o, p' = Boot (k o) /\ es = match o with Some x => [Got s x] | None => [] end
      | BWrite s x k => exists b, p' = Boot (k b) /\ es = if (b : bool) then [Sent s x] else []
      | BReturn => p' = Ending /\ es = []
      end
  | Booting | AtStart _ => (p' = Boot (start c) \/ exists g, p' = AtStart g) /\ es = []
  | InSync _ l => p' = Boot l /\ es = []
  | Halting l => p' = Halted l /\ es = []
  | Halted l => p' = Boot l /\ es = []
  | _ => match p' with AtEnd _ | Closing | Stopping | AtStop _ | Finished => True | _ => False end /\ es = []
  end.

Lemma handled_quiet c v v' : filter (fun e => by_program e = true) (handled c v v') = [].
Proof.
  apply filter_none. intros e He. unfold handled in He. destruct (CORE v !! c), (CORE v' !! c); try (by apply not_elem_of_nil in He).
  apply list_elem_of_omap in He as (i & _ & Hi). destruct (decide _); [done|]. by destruct (intvec _ !! i); simplify_eq/=.
Qed.

(** What a turn does: one core moves, or none, and the log gets longer. *)
Definition turn_does m m' : Prop :=
  generation (core_barrier m) <= generation (core_barrier m') /\
  exists es, trace m' = trace m ++ es /\
    let out := filter (fun e => by_program e = true) es in
    (threads m' = threads m /\ out = []) \/
    exists c p p', threads m !! c = Some p /\ threads m' = <[c := p']> (threads m) /\ moves c p p' out.

Lemma bios_does c r m m' : bios c r m = Ret m' -> threads m' = threads m /\ core_barrier m' = core_barrier m /\
  exists es, trace m' = trace m ++ es /\ filter (fun e => by_program e = true) es = [].
Proof.
  unfold bios. intros E. apply bind_Ret in E as (v & _ & E). injection E as <-. split; [done|]. split; [done|].
  eexists. split; [done|]. apply handled_quiet.
Qed.

(** A move that logs [es] itself. *)
Lemma does_to m m' c p p' es : threads m !! c = Some p -> threads m' = <[c := p']> (threads m) ->
  generation (core_barrier m) <= generation (core_barrier m') -> trace m' = trace m ++ es ->
  moves c p p' (filter (fun e => by_program e = true) es) -> turn_does m m'.
Proof. intros Hp Ht Hg He Hm. split; [done|]. exists es. split; [done|]. right. by exists c, p, p'. Qed.

Lemma sync_cores_does m c p waiting next : threads m !! c = Some p -> (forall p', p' = next \/ (exists g, p' = waiting g) -> moves c p p' []) ->
  turn_does m (sync_cores c waiting next m).
Proof.
  intros Hp Hm. unfold sync_cores, barrier_wait. destruct (decide _); simpl;
    (eapply (does_to _ _ c p _ []); [done|done|simpl; lia|by rewrite app_nil_r|]; apply Hm; eauto).
Qed.

Lemma sync_system_does m c p waiting next : threads m !! c = Some p -> (forall p', p' = next \/ (exists g, p' = waiting g) -> moves c p p' []) ->
  turn_does m (sync_system c waiting next m).
Proof.
  intros Hp Hm. unfold sync_system, barrier_wait. destruct (decide _); simpl;
    (eapply (does_to _ _ c p _ []); [done|done|simpl; lia|by rewrite app_nil_r|]; apply Hm; eauto).
Qed.

Lemma call_does m m' c p p' r : threads m !! c = Some p -> (m ← bios c r m; Ret (to c p' m)) = Ret m' -> moves c p p' [] -> turn_does m m'.
Proof.
  intros Hp E Hm. apply bind_Ret in E as (m1 & E & [= <-]). destruct (bios_does c r m m1 E) as (Ht & Hc & es & He & Hq).
  eapply (does_to _ _ c p p' es); [done|simpl; by rewrite Ht|simpl; by rewrite Hc|done|by rewrite Hq].
Qed.

Lemma boot_instr_does m m' c l got sent : threads m !! c = Some (Boot l) -> boot_instr c (code c l) got sent m = Ret m' -> turn_does m m'.
Proof.
  intros Hp E. destruct (code c l) as [f args l'|l'|r l'|l'|l'|l'|l'|s k|s x k|] eqn:Hc; cbn [boot_instr] in E.
  - injection E as <-. eapply (does_to _ _ c _ _ [Printed f args]); [done|done|done|done|]. simpl. by rewrite Hc.
  - injection E as <-. eapply (does_to _ _ c _ _ []); [done|done|done|by rewrite app_nil_r|]. simpl. by rewrite Hc.
  - eapply call_does; [done|exact E|]. simpl. by rewrite Hc.
  - eapply call_does; [done|exact E|]. simpl. by rewrite Hc.
  - eapply call_does; [done|exact E|]. simpl. by rewrite Hc.
  - eapply call_does; [done|exact E|]. simpl. by rewrite Hc.
  - injection E as <-. eapply sync_cores_does; [done|]. intros p' Hp'. simpl. by rewrite Hc.
  - apply bind_Ret in E as ([o v] & _ & [= <-]). eapply (does_to _ _ c _ _ (match o with Some x => [Got s x] | None => [] end)); [done|done|done|done|].
    simpl. rewrite Hc. exists o. split; [done|]. by destruct o.
  - apply bind_Ret in E as ([b v] & _ & [= <-]). eapply (does_to _ _ c _ _ (if b then [Sent s x] else [])); [done|done|done|done|].
    simpl. rewrite Hc. exists b. split; [done|]. by destruct b.
  - apply bind_Ret in E as (v & _ & [= <-]). eapply (does_to _ _ c _ _ []); [done|done|done|by rewrite app_nil_r|]. simpl. by rewrite Hc.
Qed.

Lemma turn_effect a m m' : machine_turn start code a m = Some (Ret m') -> turn_does m m'.
Proof.
  destruct a as [c got sent|c|ev]; cbn [machine_turn]; intros E.
  - unfold bootfunc_wrapper in E. destruct (threads m !! c) as [p|] eqn:Hp; [|done]. cbn [mbind option_bind] in E.
    assert (forall p', Some (Ret (to c p' m)) = Some (Ret m') -> moves c p p' [] -> turn_does m m') as Hto.
    { intros p' [= <-] Hm. eapply (does_to _ _ c p p' []); [done|done|done|by rewrite app_nil_r|done]. }
    destruct p as [|g|l|g l|l|l| |g| | |g|]; cbn iota in E.
    + injection E as <-. eapply sync_system_does; [done|]. by intros p' Hp'.
    + destruct (opened _ _); [|done]. eapply Hto; [exact E|]. split; [by left|done].
    + injection E as E. by eapply boot_instr_does.
    + destruct (opened _ _); [|done]. by eapply Hto.
    + injection E as E. by eapply call_does.
    + destruct (core_is _ _ _); [done|]. injection E as E. by eapply call_does.
    + injection E as <-. eapply sync_cores_does; [done|]. by intros p' [-> |[g ->]].
    + destruct (opened _ _); [|done]. by eapply Hto.
    + injection E as <-. destruct (decide (c = 0)); (eapply (does_to _ _ c Closing Stopping []); [done|done|done|by rewrite app_nil_r|done]).
    + injection E as <-. eapply sync_system_does; [done|]. by intros p' [-> |[g ->]].
    + destruct (opened _ _); [|done]. by eapply Hto.
    + done.
  - unfold signal_turn in E. destruct (vm_enabled _ _); [|done]. injection E as E. destruct (bios_does c _ m m' E) as (Ht & Hc & es & He & Hq).
    split; [by rewrite Hc|]. exists es. split; [done|]. by left.
  - assert (threads m' = threads m /\ trace m' = trace m /\ core_barrier m' = core_barrier m) as (Ht & He & Hc).
    { unfold PIC_daemon in E. destruct (pic m); repeat case_match; simplify_eq/=; try done. by apply bind_Ret in E as (v & _ & [= <-]). }
    split; [by rewrite Hc|]. exists []. split; [by rewrite app_nil_r|]. by left.
Qed.
End moves.

(** ** The end of the life

  [ends_by code rank]: every instruction of the boot code makes [rank] smaller, so that it returns. *)
Section ending.
Context {L : Type} (start : nat -> L) (code : nat -> L -> binstr L) (rank : nat -> L -> nat).
Implicit Types (m : machine L) (c : nat) (p : core_place L).

Definition ends_by : Prop := forall c l,
  match code c l with
  | BPrint _ _ l' | BLocal l' | BCall _ l' | BDisable l' | BEnable l' | BHalt l' | BSync l' => rank c l' < rank c l
  | BRead _ k => forall o, rank c (k o) < rank c l
  | BWrite _ _ k => forall b, rank c (k b) < rank c l
  | BReturn => True
  end.

(** How many moves a core has left, at most, and the interrupt controller when it does not serve. *)
Definition place_left c p : nat :=
  match p with
  | Booting => 8 + 3 * rank c (start c)
  | AtStart _ => 7 + 3 * rank c (start c)
  | Boot l => 6 + 3 * rank c l
  | InSync _ l | Halted l => 7 + 3 * rank c l
  | Halting l => 8 + 3 * rank c l
  | Ending => 5 | AtEnd _ => 4 | Closing => 3 | Stopping => 2 | AtStop _ => 1 | Finished => 0
  end.
Definition pic_left (p : pic_place) : nat :=
  match p with PicStart => 4 | PicAtStart _ => 3 | PicLoop => 2 | PicAtStop _ => 1 | PicDone => 0 end.
Definition life_left m : nat := sum_list (imap place_left (threads m)) + pic_left (pic m).

Lemma sum_imap_insert {A} (f : nat -> A -> nat) (l : list A) i x y :
  l !! i = Some x -> sum_list (imap f (<[i := y]> l)) + f i x = sum_list (imap f l) + f i y.
Proof.
  revert f i. induction l as [|z l IH]; intros f [|i] Hi; simpl in *; [done..|simplify_eq; lia|]. specialize (IH (f ∘ S) i Hi). simpl in IH. lia.
Qed.

Lemma life_moves m m' c p p' : threads m !! c = Some p -> threads m' = <[c := p']> (threads m) -> pic m' = pic m ->
  place_left c p' < place_left c p -> life_left m' < life_left m.
Proof.
  intros Hp Ht Hpic Hlt. unfold life_left. rewrite Ht, Hpic. pose proof (sum_imap_insert place_left (threads m) c p p' Hp). lia.
Qed.

(** A call of the machine moves no thread. *)
Lemma bios_places c r m m' : bios c r m = Ret m' -> threads m' = threads m /\ pic m' = pic m.
Proof. unfold bios. intros E. by apply bind_Ret in E as (v & _ & [= <-]). Qed.

Lemma call_down m m' c p p' r : threads m !! c = Some p -> (m ← bios c r m; Ret (to c p' m)) = Ret m' ->
  place_left c p' < place_left c p -> life_left m' < life_left m.
Proof.
  intros Hp E Hlt. apply bind_Ret in E as (m1 & E & [= <-]). destruct (bios_places c r m m1 E) as [Ht Hpic].
  eapply (life_moves _ _ c p p'); [done|simpl; by rewrite Ht|done|done].
Qed.

Lemma sync_down m c p waiting next : threads m !! c = Some p -> (forall g, place_left c (waiting g) < place_left c p) ->
  place_left c next < place_left c p -> life_left (sync_cores c waiting next m) < life_left m /\ life_left (sync_system c waiting next m) < life_left m.
Proof.
  intros Hp Hw Hn. unfold sync_cores, sync_system, barrier_wait. split; destruct (decide _); simpl; (eapply life_moves; [done..|auto]).
Qed.

Lemma boot_instr_down m m' c l got sent : ends_by -> threads m !! c = Some (Boot l) -> boot_instr c (code c l) got sent m = Ret m' ->
  life_left m' < life_left m.
Proof.
  intros He Hp E. specialize (He c l). destruct (code c l) as [f args l'|l'|r l'|l'|l'|l'|l'|s k|s x k|]; cbn [boot_instr] in E.
  - injection E as <-. eapply life_moves; [done..|simpl; lia].
  - injection E as <-. eapply life_moves; [done..|simpl; lia].
  - eapply call_down; [done|exact E|simpl; lia].
  - eapply call_down; [done|exact E|simpl; lia].
  - eapply call_down; [done|exact E|simpl; lia].
  - eapply call_down; [done|exact E|simpl; lia].
  - injection E as <-. eapply sync_down; [done|intros g|]; simpl; lia.
  - apply bind_Ret in E as ([o v] & _ & [= <-]). specialize (He o). eapply life_moves; [done..|simpl; lia].
  - apply bind_Ret in E as ([b v] & _ & [= <-]). specialize (He b). eapply life_moves; [done..|simpl; lia].
  - apply bind_Ret in E as (v & _ & [= <-]). eapply life_moves; [done..|simpl; lia].
Qed.

Lemma core_down m m' c got sent : ends_by -> bootfunc_wrapper start code c got sent m = Some (Ret m') -> life_left m' < life_left m.
Proof.
  intros He E. unfold bootfunc_wrapper in E. destruct (threads m !! c) as [p|] eqn:Hp; [|done]. cbn [mbind option_bind] in E.
  destruct p as [|g|l|g l|l|l| |g| | |g|]; try done.
  - injection E as <-. eapply sync_down; [done|intros g|]; simpl; lia.
  - destruct (opened _ _); [|done]. injection E as <-. eapply life_moves; [done..|simpl; lia].
  - injection E as E. by eapply boot_instr_down.
  - destruct (opened _ _); [|done]. injection E as <-. eapply life_moves; [done..|simpl; lia].
  - injection E as E. eapply call_down; [done|exact E|simpl; lia].
  - destruct (core_is _ _ _); [done|]. injection E as E. eapply call_down; [done|exact E|simpl; lia].
  - injection E as <-. eapply sync_down; [done|intros g|]; simpl; lia.
  - destruct (opened _ _); [|done]. injection E as <-. eapply life_moves; [done..|simpl; lia].
  - injection E as <-. destruct (decide (c = 0)); (eapply life_moves; [done..|simpl; lia]).
  - injection E as <-. eapply sync_down; [done|intros g|]; simpl; lia.
  - destruct (opened _ _); [|done]. injection E as <-. eapply life_moves; [done..|simpl; lia].
Qed.

(** The controller comes nearer to its end, except in a round of its loop. *)
Lemma pic_down ev m m' : PIC_daemon ev m = Some (Ret m') ->
  pic m = PicLoop /\ PIC_active (hw m) = true /\ life_left m' = life_left m \/ life_left m' < life_left m.
Proof.
  unfold PIC_daemon, life_left. destruct (pic m) as [|g| |g|] eqn:Hp; intros E.
  - right. injection E as <-. unfold barrier_wait. destruct (decide _); simpl; lia.
  - right. destruct (opened _ _); [|done]. injection E as <-. simpl. lia.
  - destruct (PIC_active (hw m)); [left|right].
    + destruct (vm_enabled _ _); [|done]. injection E as E. apply bind_Ret in E as (v & _ & [= <-]). simpl. by rewrite Hp.
    + injection E as <-. unfold barrier_wait. destruct (decide _); simpl; lia.
  - right. destruct (opened _ _); [|done]. injection E as <-. simpl. lia.
  - done.
Qed.

Lemma turn_down a m m' : ends_by -> machine_turn start code a m = Some (Ret m') ->
  match a with
  | CoreMove _ _ _ => life_left m' < life_left m
  | SignalMove _ => life_left m' = life_left m
  | PicMove _ => pic m = PicLoop /\ PIC_active (hw m) = true /\ life_left m' = life_left m \/ life_left m' < life_left m
  end.
Proof.
  intros He. destruct a as [c got sent|c|ev]; cbn [machine_turn]; intros E.
  - by eapply core_down.
  - unfold signal_turn in E. destruct (vm_enabled _ _); [|done]. injection E as E. destruct (bios_places c _ m m' E) as [Ht Hp].
    unfold life_left. by rewrite Ht, Hp.
  - by eapply pic_down.
Qed.
End ending.

(** ** Properties *)

(** C30.  The life of the virtual machine, for boot code whose cores call [cpu_core_barrier_sync] equally often and
  whose interrupt handlers only print: no call of bios.c fails; while a core runs its boot code every other one has been
  set up, and the interrupt controller serves; a core thread ends only when all have left their boot code and the
  controller has stopped, so that no interrupt is raised at a thread that has ended.  Until [vm_boot] has returned a core
  can go on, or the controller can come nearer to its end, or a core sleeps in [cpu_core_halt]; and if the boot code is
  such that it returns ([ends_by]), every such move makes what is left of the life shorter, so that [vm_boot] returns
  when cores that can go on do and none sleeps for ever. *)
Theorem machine_lifecycle {L : Type} n ports start (code : nat -> L -> binstr L) syncs left off time is_ready m0 m :
  balanced n ports start code syncs left off -> vm_started n ports time is_ready = Ret m0 -> reach (machine_step start code) m0 m ->
  (forall a o, machine_turn start code a m = Some o -> exists m', o = Ret m') /\
  (forall c p, threads m !! c = Some p -> in_boot p = true -> PIC_active (hw m) = true /\ pic m <> PicStart /\ Booting ∉ threads m) /\
  (Finished ∈ threads m -> PIC_active (hw m) = false /\ (pic m = PicDone \/ exists g, pic m = PicAtStop g) /\
     forall p, p ∈ threads m -> p = Finished \/ exists g, p = AtStop g) /\
  ((pic m = PicDone /\ forall p, p ∈ threads m -> p = Finished) \/
   (exists c o, bootfunc_wrapper start code c None false m = Some o) \/
   ((pic m = PicLoop -> PIC_active (hw m) = false) /\ forall ev, exists o, PIC_daemon ev m = Some o) \/
   exists c, asleep_at m c = true) /\
  (forall rank, ends_by code rank -> forall a m', machine_turn start code a m = Some (Ret m') ->
     match a with
     | CoreMove _ _ _ => life_left start rank m' < life_left start rank m
     | SignalMove _ => life_left start rank m' = life_left start rank m
     | PicMove _ => pic m = PicLoop /\ PIC_active (hw m) = true /\ life_left start rank m' = life_left start rank m \/
         life_left start rank m' < life_left start rank m
     end).
Proof.
  intros Hb Hs Hr. assert (minv n ports syncs left off m) as I by (eapply machine_reach_inv; [exact Hb|by eapply vm_started_ok|exact Hr]).
  split; [|split; [|split; [|split]]].
  - intros a o E. edestruct (machine_turn_ok n ports start code syncs left off Hb a m o I E) as (m' & ? & _). by exists m'.
  - intros c p. by eapply boot_between.
  - by eapply finished_after.
  - by eapply machine_progress.
  - intros rank He a m'. by apply turn_down.
Qed.

(** Two cores that meet once. *)
Definition meet (c : nat) (l : bool) : binstr bool := if l then BSync false else BReturn.
Definition met : machine bool :=
  match vm_started 2 0 1000 (fun _ _ => false) with
  | Ret m => m
  | Err _ => mkMachine (mkVm ∅ ∅ ∅ 0 true 0 0 0) [] PicStart (mkBarrier 0 0) (mkBarrier 0 0) []
  end.
Definition cores_moves (cs : list nat) : list move := (fun c => CoreMove c None false) <$> cs.
Definition quiet : pic_events := mkEvents true 1000 [] ∅ ∅ 0 ∅.

(** The moves of a list, as far as they can be made. *)
Definition machine_run {L : Type} (start : nat -> L) (code : nat -> L -> binstr L) (ms : list move) (m : machine L) : machine L :=
  foldl (fun m a => match machine_turn start code a m with Some (Ret m') => m' | _ => m end) m ms.

Lemma machine_run_reach {L : Type} (start : nat -> L) code ms m : reach (machine_step start code) m (machine_run start code ms m).
Proof.
  unfold machine_run. induction ms as [|a ms IH] using rev_ind; [apply reach_refl|]. rewrite foldl_snoc.
  destruct (machine_turn _ _ _ _) as [[m'|]|] eqn:E; [|done..]. eapply reach_step; [exact IH|]. by econstructor.
Qed.

Definition meeting (k : nat) : machine bool :=
  machine_run (fun _ => true) meet (take k (PicMove quiet :: cores_moves [0; 1; 0; 0] ++ [PicMove quiet] ++ cores_moves [1; 1; 0; 0; 1; 0; 0; 1; 1; 1; 0] ++
    [PicMove quiet] ++ cores_moves [0; 1])) met.

(** Core 1 has returned while core 0 still runs its boot code; and all have ended. *)
Example meeting_ex : (threads (meeting 9), pic (meeting 9)) = ([Boot false; Ending], PicLoop) /\
  (threads (meeting 20), pic (meeting 20)) = ([Finished; Finished], PicDone).
Proof. vm_compute. done. Qed.

Lemma meet_balanced : balanced 2 0 (fun _ => true) meet 1 (fun l => if l then 1 else 0) (fun _ => false).
Proof. split; [by split|]. by intros c [] _. Qed.

Definition meet_rank (c : nat) (l : bool) : nat := if l then 1 else 0.

Lemma machine_lifecycle_witness :
  (PIC_active (hw (meeting 9)) = true /\ pic (meeting 9) <> PicStart /\ Booting ∉ threads (meeting 9)) /\
  life_left (fun _ => true) meet_rank (meeting 10) < life_left (fun _ => true) meet_rank (meeting 9).
Proof.
  destruct (machine_lifecycle 2 0 (fun _ => true) meet 1 (fun l => if l then 1 else 0) (fun _ => false) 1000 (fun _ _ => false) met (meeting 9))
    as (_ & Hb & _ & _ & He); [apply meet_balanced|vm_compute; reflexivity|apply machine_run_reach|]. split.
  - apply (Hb 0 (Boot false)); vm_compute; reflexivity.
  - apply (He meet_rank) with (a := CoreMove 0 None false) (m' := meeting 10); [|vm_compute; reflexivity].
    intros c []; [left|exact I].
Defined.

(** The barrier at the end of [bootfunc_wrapper] is the one of [cpu_core_barrier_sync]: when core 0 returns from its boot
  code core 1 goes on as if core 0 had called [cpu_core_barrier_sync], and the controller stops while core 1 still runs. *)
Definition meet_alone (c : nat) (l : bool) : binstr bool := if l then if decide (c = 0) then BReturn else BSync false else BReturn.
Definition alone : machine bool :=
  machine_run (fun _ => true) meet_alone (PicMove quiet :: cores_moves [0; 1; 0; 0; 1; 0; 1; 0]) met.

Example return_opens_barrier : threads alone = [Stopping; Boot false] /\ PIC_active (hw alone) = false.
Proof. vm_compute. done. Qed.
