(* ===== verification/Host.v ===== *)
(** * What the machine asks of the host (bios.c)

  The system calls of the host that bios.c makes, with the loops over interrupted calls, and what they hand to the
  operations of [Bios].  The answers of the host are arguments: a list gives those of a repeated call. *)

From Stdlib Require Import String.
From S2P Require Import Prelude Rlist Bios.
#[local] Open Scope nat_scope.

(** ** Answers *)

Inductive errno := EINTR | EAGAIN | EWOULDBLOCK | EPIPE | EOTHER (code : Z).
#[export] Instance errno_eq_dec : EqDecision errno.
Proof. solve_decision. Defined.

(** A call answers, or is [-1] with [errno]. *)
Inductive answer (A : Type) := Ok (a : A) | Failed (e : errno).
Arguments Ok {A}.
Arguments Failed {A}.

(** [while((rc=call)==-1 && errno==EINTR);]: the first answer that is not an interruption. *)
Fixpoint retry {A} (answers : list (answer A)) : option (answer A) :=
  match answers with
  | [] => None
  | Failed EINTR :: answers => retry answers
  | a :: _ => Some a
  end.

(** [CHECK]: an error is fatal. *)
Definition CHECK {A} (a : answer A) : outcome A := match a with Ok x => Ret x | Failed _ => Err Fatal end.

Definition would_block (e : errno) : bool := bool_decide (e = EAGAIN \/ e = EWOULDBLOCK).

(** The loop ends with the first answer that is not an interruption, whatever comes before it. *)
Lemma retry_first {A} (n : nat) (a : answer A) rest : a <> Failed EINTR -> retry (replicate n (Failed EINTR) ++ a :: rest) = Some a.
Proof. intros Ha. induction n as [|n IH]; [|exact IH]. simpl. by destruct a as [x|[]]. Qed.

(** ** Time *)

Definition get_coarse_time (tv_sec tv_nsec : Z) : Z := u64 (tv_nsec / 1000000 + tv_sec * 1000).

(** ** Devices *)

(** The bits of [revents] that matter. *)
Record poll_revents := mkRevents { pollin : bool; pollout : bool; pollhup : bool; pollerr : bool }.

Definition io_ready (dir : io_direction) (poll : answer poll_revents) : outcome bool :=
  r ← CHECK poll; Ret (match dir with IODIR_RX => pollin r | IODIR_TX => pollout r end).

(** [Bios.io_device_init] when the descriptor could be made non-blocking. *)
Definition io_device_open (dir : io_direction) (poll : answer poll_revents) (clock : Z) (fcntl : answer unit) : outcome io_device :=
  ready ← io_ready dir poll;
  _ ← CHECK fcntl;
  Ret (io_device_init dir ready clock).

(** [io_device_read] and [io_device_write] with the calls that they make; a read of length 0 is [Ok None]. *)
Definition io_device_read_host (reads : list (answer (option Z))) (d : io_device) : option (outcome (option Z * io_device * bool)) :=
  a ← retry reads;
  Some (_ ← c_assert (match a with Ok _ => true | Failed e => would_block e end);
        let got := match a with Ok o => o | Failed _ => None end in
        '(ok, d, pic) ← io_device_read got d;
        Ret (if (ok : bool) then got else None, d, pic)).

Definition io_device_write_host (writes : list (answer unit)) (d : io_device) : option (outcome (bool * io_device * bool)) :=
  a ← retry writes;
  Some (_ ← c_assert (match a with Ok _ => true | Failed e => would_block e || bool_decide (e = EPIPE) end);
        io_device_write (match a with Ok _ => true | Failed _ => false end) d).

(** ** Terminals *)

(** [terminal_init]: the two devices; [None] when a FIFO cannot be opened. *)
Definition terminal_init (open_con open_kbd : answer nat) (con_poll kbd_poll : answer poll_revents) (con_fcntl kbd_fcntl : answer unit) (clock : Z) :
    outcome (option terminal) :=
  match open_con with
  | Failed _ => Ret None
  | Ok _ =>
      con ← io_device_open IODIR_TX con_poll clock con_fcntl;
      match open_kbd with
      | Failed _ => Ret None
      | Ok _ =>
          kbd ← io_device_open IODIR_RX kbd_poll clock kbd_fcntl;
          Ret (Some (mkTerminal con kbd))
      end
  end.

(** [open_terminal] makes a failure fatal. *)
Definition open_terminal (t : outcome (option terminal)) : outcome terminal := o ← t; match o with Some t => Ret t | None => Err Fatal end.

(** [terminal_destroy]: whether both descriptors could be closed; [None] while the host interrupts. *)
Definition terminal_destroy (con_closes kbd_closes : list (answer unit)) : option bool :=
  a ← retry con_closes;
  match a with
  | Failed _ => Some false
  | Ok _ => b ← retry kbd_closes; Some (match b with Ok _ => true | Failed _ => false end)
  end.
Definition close_terminal (con_closes kbd_closes : list (answer unit)) : option (outcome unit) :=
  b ← terminal_destroy con_closes kbd_closes; Some (check_condition b).

(** Is the terminal connected? *)
Definition check_terminal (polls : list (answer poll_revents)) : option (outcome bool) :=
  a ← retry polls; Some (r ← CHECK a; Ret (negb (pollhup r) && negb (pollerr r))).

(** ** Signals of the interrupt controller *)

(** [pic_drain_sigusr1]: the number of signals that are read; a read answers the number of its bytes. *)
Fixpoint pic_drain_sigusr1 (size : Z) (reads : list (answer Z)) : option (outcome nat) :=
  match reads with
  | [] => None
  | Failed e :: _ => Some (_ ← c_assert (would_block e); Ret 0)
  | Ok rc :: reads =>
      o ← pic_drain_sigusr1 size reads;
      Some (_ ← c_assert (bool_decide (rc = size)); n ← o; Ret (S n))
  end.

(** [fdset_add]: the set, and [nfds]. *)
Definition fdset_add (fd : nat) (s : gset nat * nat) : gset nat * nat := ({[fd]} ∪ s.1, if decide (s.2 <= fd) then fd + 1 else s.2).

(** ** Properties *)

(** [select] looks at every descriptor of the set. *)
Lemma fdset_add_bound fds fd : fd ∈ (foldr fdset_add (∅, 0) fds).1 -> fd < (foldr fdset_add (∅, 0) fds).2.
Proof.
  induction fds as [|x fds IH]; [set_solver|]. cbn [foldr]. destruct (foldr fdset_add (∅, 0) fds) as [s n]. unfold fdset_add. simpl in *.
  intros [->%elem_of_singleton|Hin]%elem_of_union; destruct (decide _); try lia; specialize (IH Hin); lia.
Qed.

(** All signals that were queued are counted. *)
Lemma pic_drain_counts size n e rest : would_block e = true -> pic_drain_sigusr1 size (replicate n (Ok size) ++ Failed e :: rest) = Some (Ret n).
Proof.
  intros He. induction n as [|n IH]; simpl; [by rewrite He|]. rewrite IH. simpl. by rewrite bool_decide_true.
Qed.

(** Time does not run backwards, and goes on with the milliseconds. *)
Lemma coarse_time_monotone s n s' n' : (0 <= n < 10 ^ 9 -> 0 <= n' < 10 ^ 9 -> 0 <= s <= s' -> (s = s' -> n <= n') -> s' < 2 ^ 50 ->
  get_coarse_time s n <= get_coarse_time s' n' /\ 1000 * s <= get_coarse_time s n < 1000 * s + 1000)%Z.
Proof.
  intros Hn Hn' Hs Hle Hb. unfold get_coarse_time.
  assert (0 <= n / 1000000 < 1000 /\ 0 <= n' / 1000000 < 1000)%Z as [H1 H2].
  { split; (split; [apply Z.div_pos; lia|apply Z.div_lt_upper_bound; lia]). }
  rewrite !wrap_small by lia. split; [|lia]. destruct (decide (s = s')) as [->|]; [|lia].
  assert (n / 1000000 <= n' / 1000000)%Z by (apply Z.div_le_mono; [lia|by apply Hle]). lia.
Qed.

(** Whatever the host interrupts, a transfer on a device that the host lets make progress does not fail: the loops
  over interrupted calls end with the first other answer, no assertion fails on the answers that the calls are documented
  to give, and the device is transferred a byte, or becomes not ready and the interrupt controller is told, exactly once. *)
Theorem transfers_tolerate_interrupts n (a : answer (option Z)) (b : answer unit) rs ws d d' :
  match a with Ok _ => True | Failed e => would_block e = true end ->
  match b with Ok _ => True | Failed e => would_block e = true \/ e = EPIPE end ->
  iodir d = IODIR_RX -> iodir d' = IODIR_TX ->
  io_device_read_host (replicate n (Failed EINTR) ++ a :: rs) d =
    Some (Ret (match a with
      | Ok (Some c) => (Some c, d, false)
      | _ => (None, mkDevice IODIR_RX (int_core d) false (last_int d), ready d)
      end)) /\
  io_device_write_host (replicate n (Failed EINTR) ++ b :: ws) d' =
    Some (Ret (match b with
      | Ok _ => (true, d', false)
      | Failed _ => (false, mkDevice IODIR_TX (int_core d') false (last_int d'), ready d')
      end)).
Proof.
  intros Ha Hb Hd Hd'. destruct d as [dir ic rdy li], d' as [dir' ic' rdy' li']. simpl in Hd, Hd'. subst. split.
  - unfold io_device_read_host. rewrite retry_first by (by intros ->). cbn [mbind option_bind].
    destruct a as [[c|]|e]; cbn [c_assert]; [..|rewrite Ha]; destruct rdy; reflexivity.
  - unfold io_device_write_host. rewrite retry_first by (intros ->; destruct Hb as [?|?]; done). cbn [mbind option_bind].
    destruct b as [[]|e]; [destruct rdy'; reflexivity|]. assert (would_block e || bool_decide (e = EPIPE) = true) as ->.
    { destruct Hb as [-> | ->]; [done|]. apply orb_true_r. }
    destruct rdy'; reflexivity.
Qed.

Lemma transfers_tolerate_interrupts_witness :
  io_device_read_host [Failed EINTR; Failed EINTR; Failed EAGAIN] (mkDevice IODIR_RX 0 true 5) = Some (Ret (None, mkDevice IODIR_RX 0 false 5, true)).
Proof.
  apply (transfers_tolerate_interrupts 2 (Failed EAGAIN) (Ok tt) [] [] (mkDevice IODIR_RX 0 true 5) (mkDevice IODIR_TX 0 true 5));
    [reflexivity|exact I|reflexivity|reflexivity].
Defined.
