(* ===== verification/Kernel.v ===== *)
(** * The tables of the kernel (kernel_proc.h, kernel_streams.h, kernel_dev.h)

  The process table, the file control blocks and the device table, which the system calls of
  [Streams] and [Proc] share, as one state.  [Task] is the type of the entry points of programs, [T] that of
  threads, [S] the state of the scheduler and [B] that of the serial ports.  The tables have the sizes of
  their maps, so the sizes are not in the model but in its initial states. *)

From S2P Require Import Prelude Rlist Iface.

(** ** Data *)

Inductive pid_state := FREE | ALIVE | ZOMBIE.

#[export] Instance pid_state_eq_dec : EqDecision pid_state.
Proof. solve_decision. Defined.

Definition MAX_PROC : nat := N.to_nat 65536.
Definition MAX_FILES : nat := MAX_PROC.
Definition MAX_FILEID : nat := 16.
Definition NOPROC : Z := (-1)%Z.
Definition NOFILE : Z := (-1)%Z.
Definition NOTHREAD : Z := 0%Z.

Inductive Device_type := DEV_NULL | DEV_SERIAL.

#[export] Instance device_type_eq_dec : EqDecision Device_type.
Proof. solve_decision. Defined.

#[export] Instance device_type_countable : Countable Device_type.
Proof.
  refine (inj_countable' (fun d => match d with DEV_NULL => false | DEV_SERIAL => true end)
    (fun b => if b then DEV_SERIAL else DEV_NULL) _); by intros [].
Defined.

(** The list nodes that are embedded in the process table and in the file table. *)
Inductive pnode := children_list (p : nat) | exited_list (p : nat) | children_node (p : nat) | exited_node (p : nat).

#[export] Instance pnode_eq_dec : EqDecision pnode.
Proof. solve_decision. Defined.

#[export] Instance pnode_countable : Countable pnode.
Proof.
  refine (inj_countable'
    (fun n => match n with children_list p => (0, p) | exited_list p => (1, p) | children_node p => (2, p)
                       | exited_node p => (3, p) end)
    (fun x => match x with (0, p) => children_list p | (1, p) => exited_list p | (2, p) => children_node p
                       | (_, p) => exited_node p end) _); by intros [].
Defined.

Inductive fnode := FCB_freelist | freelist_node (f : nat).

#[export] Instance fnode_eq_dec : EqDecision fnode.
Proof. solve_decision. Defined.

#[export] Instance fnode_countable : Countable fnode.
Proof.
  refine (inj_countable' (fun n => match n with FCB_freelist => None | freelist_node f => Some f end)
    (fun o => match o with None => FCB_freelist | Some f => freelist_node f end) _); by intros [].
Defined.

Abbreviation bytes := (list Z).

(** [child_exit] is the condition variable: the processes whose main thread sleeps on it. *)
Record PCB (Task T : Type) := mkPCB {
  pstate : pid_state;
  parent : option nat;
  exitval : Z;
  main_thread : option T;
  main_task : option Task;
  argl : Z;
  args : option bytes;
  child_exit : list nat;
  FIDT : list (option nat)
}.
Arguments mkPCB {Task T}.
Arguments pstate {Task T}.
Arguments parent {Task T}.
Arguments exitval {Task T}.
Arguments main_thread {Task T}.
Arguments main_task {Task T}.
Arguments argl {Task T}.
Arguments args {Task T}.
Arguments child_exit {Task T}.
Arguments FIDT {Task T}.

(** [streamobj] is the serial device ([NULL] for the null device); [streamfunc] points to the
  operations of a driver, and is not set in a block that was only reserved. *)
Record FCB := mkFCB {
  refcount : Z;
  streamobj : option nat;
  streamfunc : option Device_type
}.

Record serial_dcb_t := mkSerial { devno : nat; rx_ready : list nat }.

Record DCB := mkDCB { devnum : nat; dev_fops : Device_type }.

Record kernel (Task T S B : Type) := mkKernel {
  PT : gmap nat (PCB Task T);
  plists : rlheap pnode (option nat);
  pcb_freelist : option nat;
  process_count : Z;
  FT : gmap nat FCB;
  flists : rlheap fnode (option nat);
  devtable : gmap Device_type DCB;
  serial_dcb : gmap nat serial_dcb_t;
  sched : S;
  ports : B
}.
Arguments mkKernel {Task T S B}.
Arguments PT {Task T S B}.
Arguments plists {Task T S B}.
Arguments pcb_freelist {Task T S B}.
Arguments process_count {Task T S B}.
Arguments FT {Task T S B}.
Arguments flists {Task T S B}.
Arguments devtable {Task T S B}.
Arguments serial_dcb {Task T S B}.
Arguments sched {Task T S B}.
Arguments ports {Task T S B}.

(** ** Access to the tables *)

Section fields.
Context {Task T S B : Type}.
Implicit Types (k : kernel Task T S B) (pc : PCB Task T) (p f : nat).

Definition with_PT m k : kernel Task T S B :=
  mkKernel m (plists k) (pcb_freelist k) (process_count k) (FT k) (flists k) (devtable k) (serial_dcb k) (sched k) (ports k).
Definition with_plists h k : kernel Task T S B :=
  mkKernel (PT k) h (pcb_freelist k) (process_count k) (FT k) (flists k) (devtable k) (serial_dcb k) (sched k) (ports k).
Definition with_freelist l n k : kernel Task T S B :=
  mkKernel (PT k) (plists k) l n (FT k) (flists k) (devtable k) (serial_dcb k) (sched k) (ports k).
Definition with_FT m k : kernel Task T S B :=
  mkKernel (PT k) (plists k) (pcb_freelist k) (process_count k) m (flists k) (devtable k) (serial_dcb k) (sched k) (ports k).
Definition with_flists h k : kernel Task T S B :=
  mkKernel (PT k) (plists k) (pcb_freelist k) (process_count k) (FT k) h (devtable k) (serial_dcb k) (sched k) (ports k).
Definition with_devices d s k : kernel Task T S B :=
  mkKernel (PT k) (plists k) (pcb_freelist k) (process_count k) (FT k) (flists k) d s (sched k) (ports k).
Definition with_sched s k : kernel Task T S B :=
  mkKernel (PT k) (plists k) (pcb_freelist k) (process_count k) (FT k) (flists k) (devtable k) (serial_dcb k) s (ports k).
Definition with_ports b k : kernel Task T S B :=
  mkKernel (PT k) (plists k) (pcb_freelist k) (process_count k) (FT k) (flists k) (devtable k) (serial_dcb k) (sched k) b.

Definition upd_PCB p (u : PCB Task T -> PCB Task T) k : outcome (kernel Task T S B) :=
  pc ← deref (PT k !! p); Ret (with_PT (<[p := u pc]> (PT k)) k).
Definition upd_FCB f (u : FCB -> FCB) k : outcome (kernel Task T S B) :=
  fc ← deref (FT k !! f); Ret (with_FT (<[f := u fc]> (FT k)) k).

Definition set_pstate s pc : PCB Task T :=
  mkPCB s (parent pc) (exitval pc) (main_thread pc) (main_task pc) (argl pc) (args pc) (child_exit pc) (FIDT pc).
Definition set_parent q pc : PCB Task T :=
  mkPCB (pstate pc) q (exitval pc) (main_thread pc) (main_task pc) (argl pc) (args pc) (child_exit pc) (FIDT pc).
Definition set_exitval v pc : PCB Task T :=
  mkPCB (pstate pc) (parent pc) v (main_thread pc) (main_task pc) (argl pc) (args pc) (child_exit pc) (FIDT pc).
Definition set_main_thread t pc : PCB Task T :=
  mkPCB (pstate pc) (parent pc) (exitval pc) t (main_task pc) (argl pc) (args pc) (child_exit pc) (FIDT pc).
Definition set_task c n a pc : PCB Task T :=
  mkPCB (pstate pc) (parent pc) (exitval pc) (main_thread pc) c n a (child_exit pc) (FIDT pc).
Definition set_args a pc : PCB Task T :=
  mkPCB (pstate pc) (parent pc) (exitval pc) (main_thread pc) (main_task pc) (argl pc) a (child_exit pc) (FIDT pc).
Definition set_child_exit w pc : PCB Task T :=
  mkPCB (pstate pc) (parent pc) (exitval pc) (main_thread pc) (main_task pc) (argl pc) (args pc) w (FIDT pc).
Definition set_FIDT l pc : PCB Task T :=
  mkPCB (pstate pc) (parent pc) (exitval pc) (main_thread pc) (main_task pc) (argl pc) (args pc) (child_exit pc) l.
Definition set_fid (i : nat) (o : option nat) pc : PCB Task T := set_FIDT (<[i := o]> (FIDT pc)) pc.

Lemma upd_PCB_eq p u pc k : PT k !! p = Some pc -> upd_PCB p u k = Ret (with_PT (<[p := u pc]> (PT k)) k).
Proof. intros Hp. unfold upd_PCB. by rewrite Hp. Qed.

Lemma upd_FCB_eq f u fc k : FT k !! f = Some fc -> upd_FCB f u k = Ret (with_FT (<[f := u fc]> (FT k)) k).
Proof. intros Hf. unfold upd_FCB. by rewrite Hf. Qed.

(** The file id table of a process, and its entry [i]. *)
Definition fids k p : list (option nat) := match PT k !! p with Some pc => FIDT pc | None => [] end.
Definition fid_of k p (i : nat) : option nat := mjoin (fids k p !! i).
End fields.
