(* ===== verification/Dev.v ===== *)
(** * Devices and their drivers (kernel_dev.c)

  The null device and the serial devices, over the serial ports of the machine, and the device table.
  Preemption is not visible here: a driver runs under the kernel lock, which it gives up only in
  [kernel_wait], where [serial_read] ends with [None]. *)

From S2P Require Import Prelude Rlist Iface Kernel.

Section dev.
Context {Task T S B : Type} `{SerialOps B}.
Implicit Types (k : kernel Task T S B) (cur : nat) (buf : bytes).

(** ** The null device *)

Definition nulldev_read (dev : option nat) (size : nat) : bytes := repeat 0%Z size.
Definition nulldev_write (dev : option nat) buf (size : nat) : nat := size.
Definition nulldev_close (dev : option nat) : Z := 0.
Definition nulldev_open (minor : nat) : option nat := None.

(** ** The serial devices *)

Definition set_rx_ready (i : nat) (w : list nat) k : outcome (kernel Task T S B) :=
  d ← deref (serial_dcb k !! i);
  Ret (with_devices (devtable k) (<[i := mkSerial (devno d) w]> (serial_dcb k)) k).

Fixpoint serial_rx_loop (ns : list nat) k : outcome (kernel Task T S B) :=
  match ns with [] => Ret k | i :: ns => k ← set_rx_ready i [] k; serial_rx_loop ns k end.

Definition serial_rx_handler k : outcome (kernel Task T S B) := serial_rx_loop (seq 0 (serial_ports (ports k))) k.

(** The loop of [serial_read]; [None] is the call of [kernel_wait]. *)
Fixpoint serial_read_loop (fuel : nat) (n size : nat) buf k : outcome (option bytes * kernel Task T S B) :=
  match fuel with
  | O => Err OutOfFuel
  | Datatypes.S fuel =>
      if decide (length buf < size) then
        '(o, b) ← read_serial n (ports k);
        match o with
        | Some c => serial_read_loop fuel n size (buf ++ [c]) (with_ports b k)
        | None => if decide (length buf = 0) then Ret (None, with_ports b k) else Ret (Some buf, with_ports b k)
        end
      else Ret (Some buf, k)
  end.

Definition serial_read cur (dev : option nat) (size : nat) k : outcome (option bytes * kernel Task T S B) :=
  i ← deref dev;
  dcb ← deref (serial_dcb k !! i);
  '(r, k) ← serial_read_loop (Datatypes.S size) (devno dcb) size [] k;
  match r with
  | Some buf => Ret (Some buf, k)
  | None => k ← set_rx_ready i (rx_ready dcb ++ [cur]) k; Ret (None, k)
  end.

(** The loop of [serial_write]; [relax] is its call of [yield].  The code polls a port that refuses the first byte
  without bound; after [polls] polls the call has not returned, and the driver polls on. *)
Fixpoint serial_write_loop (fuel polls : nat) (n size count : nat) buf k : outcome (nat * kernel Task T S B) :=
  match fuel with
  | O => Err OutOfFuel
  | Datatypes.S fuel =>
      if decide (count < size) then
        c ← deref (buf !! count);
        '(success, b) ← write_serial n c (ports k);
        if (success : bool) then serial_write_loop fuel polls n size (count + 1) buf (with_ports b k)
        else if decide (count = 0) then
          match polls with
          | O => Err Stalled
          | Datatypes.S polls => serial_write_loop fuel polls n size count buf (with_ports (relax b) k)
          end
        else Ret (count, with_ports b k)
      else Ret (count, k)
  end.

Definition serial_write (dev : option nat) buf (size : nat) k : outcome (nat * kernel Task T S B) :=
  i ← deref dev;
  dcb ← deref (serial_dcb k !! i);
  let polls := patience (devno dcb) (ports k) in
  serial_write_loop (Datatypes.S (polls + size)) polls (devno dcb) size 0 buf k.

Definition serial_close (dev : option nat) : Z := 0.

Definition serial_open (term : nat) k : outcome (option nat) :=
  _ ← c_assert (bool_decide (term < serial_ports (ports k)));
  Ret (Some term).

(** ** The operations of a driver, through its table *)

Definition dev_open (d : Device_type) (minor : nat) k : outcome (option nat) :=
  match d with DEV_NULL => Ret (nulldev_open minor) | DEV_SERIAL => serial_open minor k end.

Definition dev_read (d : Device_type) cur (dev : option nat) (size : nat) k : outcome (option bytes * kernel Task T S B) :=
  match d with DEV_NULL => Ret (Some (nulldev_read dev size), k) | DEV_SERIAL => serial_read cur dev size k end.

Definition dev_write (d : Device_type) (dev : option nat) buf (size : nat) k : outcome (nat * kernel Task T S B) :=
  match d with DEV_NULL => Ret (nulldev_write dev buf size, k) | DEV_SERIAL => serial_write dev buf size k end.

Definition dev_close (d : Device_type) (dev : option nat) : Z :=
  match d with DEV_NULL => nulldev_close dev | DEV_SERIAL => serial_close dev end.

(** ** The device table *)

Definition initialize_devices k : kernel Task T S B :=
  let n := serial_ports (ports k) in
  with_devices (<[DEV_SERIAL := mkDCB n DEV_SERIAL]> (<[DEV_NULL := mkDCB 1 DEV_NULL]> ∅))
    (list_to_map (map (fun i => (i, mkSerial i [])) (seq 0 n))) k.

(** [None] is the error return. *)
Definition device_open (major : Device_type) (minor : nat) k : outcome (option (option nat * Device_type)) :=
  d ← deref (devtable k !! major);
  if decide (devnum d <= minor) then Ret None
  else obj ← dev_open (dev_fops d) minor k; Ret (Some (obj, major)).

Definition device_no (major : Device_type) k : outcome nat := d ← deref (devtable k !! major); Ret (devnum d).

(** ** Well-formed devices *)

Record devices_ok k : Prop := {
  do_null : devtable k !! DEV_NULL = Some (mkDCB 1 DEV_NULL);
  do_serial : devtable k !! DEV_SERIAL = Some (mkDCB (serial_ports (ports k)) DEV_SERIAL);
  do_dcb i : i < serial_ports (ports k) <-> is_Some (serial_dcb k !! i);
  do_devno i d : serial_dcb k !! i = Some d -> devno d = i
}.

(** What a stream object of the driver [d] is. *)
Definition stream_ok k (d : Device_type) (obj : option nat) : Prop :=
  match d with DEV_NULL => obj = None | DEV_SERIAL => exists i, obj = Some i /\ i < serial_ports (ports k) end.

(** [k'] differs from [k] in the ports and in who waits for them, only. *)
Record same_tables k k' : Prop := {
  st_PT : PT k' = PT k;
  st_plists : plists k' = plists k;
  st_freelist : pcb_freelist k' = pcb_freelist k;
  st_count : process_count k' = process_count k;
  st_FT : FT k' = FT k;
  st_flists : flists k' = flists k;
  st_sched : sched k' = sched k;
  st_ports : serial_ports (ports k') = serial_ports (ports k)
}.

Lemma same_tables_refl k : same_tables k k.
Proof. by split. Qed.

Lemma same_tables_trans k1 k2 k3 : same_tables k1 k2 -> same_tables k2 k3 -> same_tables k1 k3.
Proof. intros [] []. split; congruence. Qed.

Lemma with_ports_same b k : serial_ports b = serial_ports (ports k) -> same_tables k (with_ports b k).
Proof. by split. Qed.

Lemma with_ports_ok b k : serial_ports b = serial_ports (ports k) -> devices_ok k -> devices_ok (with_ports b k).
Proof. intros Hb [D1 D2 D3 D4]. split; cbn [devtable serial_dcb ports with_ports]; rewrite ?Hb; done. Qed.

Lemma set_rx_ready_ok i w d k : devices_ok k -> serial_dcb k !! i = Some d ->
  exists k', set_rx_ready i w k = Ret k' /\ devices_ok k' /\ same_tables k k' /\ ports k' = ports k /\
    serial_dcb k' = <[i := mkSerial (devno d) w]> (serial_dcb k).
Proof.
  intros [D1 D2 D3 D4] Hd. unfold set_rx_ready. rewrite Hd. cbn [deref]. rewrite ret_bind.
  eexists. split; [done|]. split; [|done]. split; try done.
  - intros j. rewrite D3. cbn. rewrite lookup_insert_is_Some. destruct (decide (i = j)) as [<-|]; [|tauto].
    split; [by left|by eexists].
  - intros j dj. cbn. intros [[<- <-]|[_ Hj]]%lookup_insert_Some; [simpl; by apply D4|by apply D4].
Qed.

Lemma serial_rx_ok ns k : devices_ok k -> (forall i, i ∈ ns -> i < serial_ports (ports k)) ->
  exists k', serial_rx_loop ns k = Ret k' /\ devices_ok k' /\ same_tables k k' /\ ports k' = ports k /\
    forall i d, serial_dcb k !! i = Some d -> serial_dcb k' !! i = Some (if decide (i ∈ ns) then mkSerial (devno d) [] else d).
Proof.
  revert k. induction ns as [|i ns IH]; intros k D His; cbn [serial_rx_loop].
  { exists k. split; [done|]. split; [done|]. split; [apply same_tables_refl|]. split; [done|]. intros i d Hd.
    by rewrite decide_False by apply not_elem_of_nil. }
  destruct (proj1 (do_dcb _ D i)) as [d Hd]; [apply His; by left|].
  destruct (set_rx_ready_ok i [] d k D Hd) as (k1 & -> & D1 & S1 & P1 & E1). rewrite ret_bind.
  destruct (IH k1 D1) as (k2 & -> & D2 & S2 & P2 & E2). { intros j Hj. rewrite P1. apply His. by right. }
  exists k2. split; [done|]. split; [done|]. split; [by eapply same_tables_trans|]. split; [congruence|].
  intros j dj Hj. destruct (decide (j = i)) as [->|Hne].
  - assert (dj = d) as -> by congruence. rewrite (E2 i (mkSerial (devno d) [])) by (by rewrite E1, lookup_insert_eq).
    rewrite (decide_True (P := i ∈ i :: ns)) by (by left). by case_decide.
  - rewrite (E2 j dj) by (by rewrite E1, lookup_insert_ne). rewrite (decide_ext (j ∈ i :: ns) (j ∈ ns)); [done|].
    rewrite elem_of_cons. naive_solver.
Qed.

Section laws.
Context `{!SerialLaws B}.

(** The loop of [serial_read] returns what it read, and waits only when it read nothing. *)
Lemma serial_read_loop_ok fuel n size buf k :
  n < serial_ports (ports k) -> length buf <= size -> size < fuel + length buf ->
  exists r b, serial_read_loop fuel n size buf k = Ret (r, with_ports b k) /\
    serial_ports b = serial_ports (ports k) /\
    match r with
    | Some buf' => (exists t, buf' = buf ++ t) /\ length buf' <= size /\ (0 < size -> 0 < length buf')
    | None => buf = [] /\ 0 < size
    end.
Proof.
  revert buf k. induction fuel as [|fuel IH]; intros buf k Hn Hb Hf; [lia|]. cbn [serial_read_loop].
  case_decide as Hlt.
  - destruct (read_returns (ports k) n Hn) as (o & b & -> & Hports). rewrite ret_bind. destruct o as [c|].
    + destruct (IH (buf ++ [c]) (with_ports b k)) as (r & b' & -> & Hp' & Hr); [by cbn; lia|rewrite length_app; simpl; lia..|].
      exists r, b'. split; [by destruct k|]. split; [by rewrite Hp'|]. destruct r as [buf'|].
      * destruct Hr as ((t & ->) & ? & ?). rewrite <- app_assoc in *. split; [by eexists|done].
      * destruct Hr as [Hr _]. by destruct buf.
    + case_decide as Hz.
      * exists None, b. split; [done|]. split; [done|]. split; [by apply length_zero_iff_nil|lia].
      * exists (Some buf), b. split; [done|]. split; [done|]. split; [exists []; by rewrite app_nil_r|lia].
  - exists (Some buf), (ports k). split; [by destruct k|]. split; [done|].
    split; [exists []; by rewrite app_nil_r|lia].
Qed.

Lemma serial_read_ok cur i size k :
  devices_ok k -> i < serial_ports (ports k) ->
  exists r k', serial_read cur (Some i) size k = Ret (r, k') /\ devices_ok k' /\ same_tables k k' /\
    match r with
    | Some buf => length buf <= size /\ (0 < size -> 0 < length buf) /\ serial_dcb k' = serial_dcb k
    | None => exists d, serial_dcb k !! i = Some d /\ serial_dcb k' = <[i := mkSerial i (rx_ready d ++ [cur])]> (serial_dcb k)
    end.
Proof.
  intros D Hi. destruct (proj1 (do_dcb _ D i) Hi) as [d Hd]. pose proof (do_devno _ D _ _ Hd) as Hno.
  unfold serial_read. cbn [deref]. rewrite ret_bind, Hd. cbn [deref]. rewrite ret_bind, Hno.
  destruct (serial_read_loop_ok (Datatypes.S size) i size [] k) as (r & b & -> & Hp & Hr); [done|simpl; lia..|].
  rewrite ret_bind. pose proof (with_ports_ok b k Hp D) as D1. pose proof (with_ports_same b k Hp) as S1.
  destruct r as [buf|].
  - exists (Some buf), (with_ports b k). split; [done|]. split; [done|]. split; [done|]. naive_solver.
  - destruct (set_rx_ready_ok i (rx_ready d ++ [cur]) d (with_ports b k) D1 Hd) as (k' & -> & D' & S' & _ & E').
    rewrite ret_bind. exists None, k'. split; [done|]. split; [done|]. split; [by eapply same_tables_trans|].
    exists d. rewrite Hno in E'. split; [done|exact E'].
Qed.

(** It returns, having written at least a byte, or the port refused the first byte at each poll. *)
Lemma serial_write_loop_ok fuel polls n size count buf k :
  n < serial_ports (ports k) -> count <= size -> size <= length buf ->
  (if decide (count = 0) then polls else 0) + size < fuel + count ->
  (exists c b, serial_write_loop fuel polls n size count buf k = Ret (c, with_ports b k) /\
    serial_ports b = serial_ports (ports k) /\ count <= c <= size /\ (0 < size -> 0 < c)) \/
  serial_write_loop fuel polls n size count buf k = Err Stalled.
Proof.
  revert polls count k. induction fuel as [|fuel IH]; intros polls count k Hn Hc Hb Hf; [case_decide; lia|]. cbn [serial_write_loop].
  destruct (decide (count < size)) as [Hlt|Hlt]; [|left; exists count, (ports k); split; [by destruct k|]; split; [done|]; lia].
  destruct (lookup_lt_is_Some_2 buf count) as [c Ec]; [lia|]. rewrite Ec. cbn [deref]. rewrite ret_bind.
  destruct (write_returns (ports k) n c Hn) as (o & b & -> & Hports). rewrite ret_bind. destruct o.
  - destruct (IH polls (count + 1) (with_ports b k)) as [(c' & b' & -> & Hp' & Hc')|E]; [by cbn; lia|lia|lia| | |by right].
    { rewrite decide_False by lia. destruct (decide (count = 0)); lia. }
    left. exists c', b'. split; [by destruct k|]. split; [by rewrite Hp'|]. lia.
  - destruct (decide (count = 0)) as [Hz|Hz]; [|left; exists count, b; split; [done|]; split; [done|]; lia].
    destruct polls as [|polls]; [by right|].
    destruct (IH polls count (with_ports (relax b) k)) as [(c' & b' & -> & Hp' & Hc')|E]; [cbn; rewrite relax_ports; lia|lia|lia| | |by right].
    { rewrite decide_True by done. lia. }
    left. exists c', b'. split; [by destruct k|]. cbn in Hp'. rewrite relax_ports in Hp'. split; [lia|]. lia.
Qed.

Lemma serial_write_ok i buf size k :
  devices_ok k -> i < serial_ports (ports k) -> size <= length buf ->
  (exists c b, serial_write (Some i) buf size k = Ret (c, with_ports b k) /\ serial_ports b = serial_ports (ports k) /\
    c <= size /\ (0 < size -> 0 < c)) \/
  serial_write (Some i) buf size k = Err Stalled.
Proof.
  intros D Hi Hb. destruct (proj1 (do_dcb _ D i) Hi) as [d Hd]. pose proof (do_devno _ D _ _ Hd) as Hno.
  unfold serial_write. cbn [deref]. rewrite ret_bind, Hd. cbn [deref]. rewrite ret_bind, Hno. cbv zeta.
  destruct (serial_write_loop_ok (Datatypes.S (patience i (ports k) + size)) (patience i (ports k)) i size 0 buf k)
    as [(c & b & -> & Hp & Hc & Hz)|E]; [done|lia|done|rewrite decide_True by done; lia| |by right].
  left. exists c, b. split; [done|]. split; [done|]. lia.
Qed.

(** Through the table: every stream object of a driver can be read, written and closed. *)
Lemma dev_read_ok d cur obj size k :
  devices_ok k -> stream_ok k d obj ->
  exists r k', dev_read d cur obj size k = Ret (r, k') /\ devices_ok k' /\ same_tables k k' /\
    match r with
    | Some buf => length buf <= size /\ (0 < size -> 0 < length buf) /\ serial_dcb k' = serial_dcb k
    | None => d = DEV_SERIAL /\ exists i sd, obj = Some i /\ serial_dcb k !! i = Some sd /\
        serial_dcb k' = <[i := mkSerial i (rx_ready sd ++ [cur])]> (serial_dcb k)
    end.
Proof.
  intros D Ho. destruct d; simpl in Ho; cbn [dev_read].
  - eexists _, k. split; [done|]. split; [done|]. split; [apply same_tables_refl|]. unfold nulldev_read.
    rewrite repeat_length. split; [done|]. split; [lia|done].
  - destruct Ho as (i & -> & Hi). destruct (serial_read_ok cur i size k D Hi) as (r & k' & -> & D' & S' & Hr).
    exists r, k'. do 3 (split; [done|]). destruct r; [done|]. destruct Hr as (sd & ? & ?). split; [done|]. by exists i, sd.
Qed.

Lemma dev_write_ok d obj buf size k :
  devices_ok k -> stream_ok k d obj -> size <= length buf ->
  (exists c b, dev_write d obj buf size k = Ret (c, with_ports b k) /\ serial_ports b = serial_ports (ports k) /\
    c <= size /\ (0 < size -> 0 < c)) \/
  dev_write d obj buf size k = Err Stalled.
Proof.
  intros D Ho Hb. destruct d; simpl in Ho; cbn [dev_write].
  - left. exists size, (ports k). split; [by destruct k|]. split; [done|]. lia.
  - destruct Ho as (i & -> & Hi). by apply serial_write_ok.
Qed.
End laws.

Lemma device_open_ok major minor k : devices_ok k ->
  exists r, device_open major minor k = Ret r /\
    match r with
    | None => match major with DEV_NULL => 1 <= minor | DEV_SERIAL => serial_ports (ports k) <= minor end
    | Some (obj, d) => d = major /\ stream_ok k d obj /\
        match major with DEV_NULL => minor = 0 /\ obj = None | DEV_SERIAL => obj = Some minor end
    end.
Proof.
  intros [D1 D2 D3 D4]. unfold device_open. destruct major; [rewrite D1|rewrite D2]; cbn [deref]; rewrite ret_bind; cbn [devnum].
  - case_decide; [by exists None|]. eexists. split; [done|]. simpl. split; [done|]. split; [done|]. split; [lia|done].
  - case_decide; [by exists None|]. cbn [dev_fops dev_open]. unfold serial_open.
    rewrite c_assert_True, !ret_bind by lia. eexists. split; [done|]. simpl. split; [done|]. split; [|done].
    exists minor. split; [done|lia].
Qed.
End dev.
