(* ===== verification/Streams.v ===== *)
(** * Streams (kernel_streams.c)

  File control blocks with their reference counts and free list, the file id tables, and the system
  calls on streams.  [cur] is the calling process ([CURPROC]). *)

From S2P Require Import Prelude Rlist Lists Iface Kernel Dev.

(** ** Operations *)

Section operations.
Context {Task T S B : Type} `{SerialOps B}.
Implicit Types (k : kernel Task T S B) (f cur : nat).

Definition set_refcount (n : Z) (fc : FCB) : FCB := mkFCB n (streamobj fc) (streamfunc fc).
Definition set_stream (obj : option nat) (d : Device_type) (fc : FCB) : FCB := mkFCB (refcount fc) obj (Some d).

Fixpoint initialize_files_loop (fs : list nat) k : outcome (kernel Task T S B) :=
  match fs with
  | [] => Ret k
  | f :: fs =>
      k ← upd_FCB f (set_refcount 0) k;
      let '(_, h) := rlnode_init (freelist_node f) (Some f) (flists k) in
      h ← rlist_push_back FCB_freelist (freelist_node f) h;
      initialize_files_loop fs (with_flists h k)
  end.

(** The table has [n] blocks; it is static, so they exist before. *)
Definition initialize_files (n : nat) k : outcome (kernel Task T S B) :=
  let '(_, h) := rlnode_init FCB_freelist None (flists k) in
  initialize_files_loop (seq 0 n) (with_flists h k).

Definition acquire_FCB k : outcome (option nat * kernel Task T S B) :=
  e ← is_rlist_empty FCB_freelist (flists k);
  if (e : bool) then Ret (None, k)
  else
    '(n, h) ← rlist_pop_front FCB_freelist (flists k);
    nd ← deref (h !! n);
    f ← deref (obj nd);
    k ← upd_FCB f (set_refcount 0) (with_flists h k);
    Ret (Some f, k).

Definition release_FCB f k : outcome (kernel Task T S B) :=
  h ← rlist_push_back FCB_freelist (freelist_node f) (flists k);
  Ret (with_flists h k).

Definition FCB_incref f k : outcome (kernel Task T S B) :=
  upd_FCB f (fun fc => set_refcount (u32 (refcount fc + 1)) fc) k.

Definition FCB_decref f k : outcome (Z * kernel Task T S B) :=
  k ← upd_FCB f (fun fc => set_refcount (u32 (refcount fc - 1)) fc) k;
  fc ← deref (FT k !! f);
  if decide (refcount fc = 0%Z) then
    d ← deref (streamfunc fc);
    let retval := dev_close d (streamobj fc) in
    k ← release_FCB f k;
    Ret (retval, k)
  else Ret (0%Z, k).

(** [while(f<MAX_FILEID && cur->FIDT[f]!=NULL) f++], with [fuel] the ids that are left. *)
Fixpoint next_free (fuel f : nat) (l : list (option nat)) : nat :=
  match fuel with
  | O => f
  | Datatypes.S fuel => match l !! f with Some (Some _) => next_free fuel (f + 1) l | _ => f end
  end.

Fixpoint find_fids (num f : nat) (l : list (option nat)) : option (list nat) :=
  match num with
  | O => Some []
  | Datatypes.S num =>
      let f := next_free (MAX_FILEID - f) f l in
      if decide (f = MAX_FILEID) then None
      else rest ← find_fids num (f + 1) l; Some (f :: rest)
  end.

(** The blocks that were acquired, all [num] of them or those before the list was empty. *)
Fixpoint acquire_FCBs (num : nat) (acc : list nat) k : outcome (list nat * kernel Task T S B) :=
  match num with
  | O => Ret (acc, k)
  | Datatypes.S num =>
      '(o, k) ← acquire_FCB k;
      match o with None => Ret (acc, k) | Some f => acquire_FCBs num (acc ++ [f]) k end
  end.

Fixpoint release_FCBs (fs : list nat) k : outcome (kernel Task T S B) :=
  match fs with [] => Ret k | f :: fs => k ← release_FCB f k; release_FCBs fs k end.

Fixpoint install_FCBs (fid fcb : list nat) cur k : outcome (kernel Task T S B) :=
  match fid, fcb with
  | i :: fid, f :: fcb =>
      k ← upd_PCB cur (set_fid i (Some f)) k;
      k ← FCB_incref f k;
      install_FCBs fid fcb cur k
  | _, _ => Ret k
  end.

(** The two arrays, [None] for failure. *)
Definition FCB_reserve (num cur : nat) k : outcome (option (list nat * list nat) * kernel Task T S B) :=
  pc ← deref (PT k !! cur);
  match find_fids num 0 (FIDT pc) with
  | None => Ret (None, k)
  | Some fid =>
      '(fcb, k) ← acquire_FCBs num [] k;
      if decide (length fcb < num) then k ← release_FCBs (reverse fcb) k; Ret (None, k)
      else k ← install_FCBs fid fcb cur k; Ret (Some (fid, fcb), k)
  end.

Fixpoint FCB_unreserve (fid fcb : list nat) cur k : outcome (kernel Task T S B) :=
  match fid, fcb with
  | i :: fid, f :: fcb =>
      pc ← deref (PT k !! cur);
      o ← deref (FIDT pc !! i);
      _ ← c_assert (bool_decide (o = Some f));
      k ← upd_PCB cur (set_fid i None) k;
      k ← release_FCB f k;
      FCB_unreserve fid fcb cur k
  | _, _ => Ret k
  end.

(** ** System calls *)

Definition get_fcb cur (fid : Z) k : outcome (option nat) :=
  if decide (fid < 0 \/ Z.of_nat MAX_FILEID <= fid)%Z then Ret None
  else pc ← deref (PT k !! cur); deref (FIDT pc !! Z.to_nat fid).

(** A read returns, or sleeps inside the driver with a reference to the block [f]. *)
Inductive read_result :=
  | RdDone (retcode : Z) (buf : bytes)
  | RdWait (f : nat) (devread : Device_type) (sobj : option nat).

(** The call of the driver, and what follows it. *)
Definition read_stream cur f (d : Device_type) (sobj : option nat) (size : nat) k : outcome (read_result * kernel Task T S B) :=
  '(r, k) ← dev_read d cur sobj size k;
  match r with
  | None => Ret (RdWait f d sobj, k)
  | Some buf => '(_, k) ← FCB_decref f k; Ret (RdDone (s32 (Z.of_nat (length buf))) buf, k)
  end.

Definition sys_Read cur (fd : Z) (size : nat) k : outcome (read_result * kernel Task T S B) :=
  fcb ← get_fcb cur fd k;
  match fcb with
  | None => Ret (RdDone (-1) [], k)
  | Some f =>
      fc ← deref (FT k !! f);
      d ← deref (streamfunc fc);
      k ← FCB_incref f k;
      read_stream cur f d (streamobj fc) size k
  end.

Definition sys_Write cur (fd : Z) (buf : bytes) (size : nat) k : outcome (Z * kernel Task T S B) :=
  fcb ← get_fcb cur fd k;
  match fcb with
  | None => Ret ((-1)%Z, k)
  | Some f =>
      fc ← deref (FT k !! f);
      d ← deref (streamfunc fc);
      k ← FCB_incref f k;
      '(n, k) ← dev_write d (streamobj fc) buf size k;
      '(_, k) ← FCB_decref f k;
      Ret (s32 (Z.of_nat n), k)
  end.

Definition sys_Close cur (fd : Z) k : outcome (Z * kernel Task T S B) :=
  let retcode := if decide (0 <= fd < Z.of_nat MAX_FILEID)%Z then 0%Z else (-1)%Z in
  fcb ← get_fcb cur fd k;
  match fcb with
  | None => Ret (retcode, k)
  | Some f => k ← upd_PCB cur (set_fid (Z.to_nat fd) None) k; FCB_decref f k
  end.

Definition sys_Dup2 cur (oldfd newfd : Z) k : outcome (Z * kernel Task T S B) :=
  if decide (oldfd < 0 \/ newfd < 0 \/ Z.of_nat MAX_FILEID <= oldfd \/ Z.of_nat MAX_FILEID <= newfd)%Z then Ret ((-1)%Z, k)
  else
    old ← get_fcb cur oldfd k;
    new ← get_fcb cur newfd k;
    match old with
    | None => Ret ((-1)%Z, k)
    | Some f =>
        if decide (old = new) then Ret (0%Z, k)
        else
          k ← match new with Some g => '(_, k) ← FCB_decref g k; Ret k | None => Ret k end;
          k ← FCB_incref f k;
          k ← upd_PCB cur (set_fid (Z.to_nat newfd) (Some f)) k;
          Ret (0%Z, k)
    end.

Definition sys_GetTerminalDevices k : outcome nat := device_no DEV_SERIAL k.

Definition open_stream cur (major : Device_type) (minor : nat) k : outcome (Z * kernel Task T S B) :=
  '(r, k) ← FCB_reserve 1 cur k;
  match r with
  | None => Ret (NOFILE, k)
  | Some (fid, fcb) =>
      o ← device_open major minor k;
      match o with
      | None => k ← FCB_unreserve fid fcb cur k; Ret (NOFILE, k)
      | Some (obj, d) =>
          f ← deref (fcb !! 0);
          i ← deref (fid !! 0);
          k ← upd_FCB f (set_stream obj d) k;
          Ret (Z.of_nat i, k)
      end
  end.

Definition sys_OpenNull cur k : outcome (Z * kernel Task T S B) := open_stream cur DEV_NULL 0 k.
Definition sys_OpenTerminal cur (termno : nat) k : outcome (Z * kernel Task T S B) := open_stream cur DEV_SERIAL termno k.
End operations.

(** ** Reference counts

  [R f] is the number of references to the block [f]; [ffl] are the free blocks, in order. *)

Definition occ (f : nat) (l : list (option nat)) : Z := Z.of_nat (length (filter (fun o => o = Some f) l)).

(** The references from the processes below [n]: [use p] are those of [p]. *)
Definition refs (n : nat) (use : nat -> list (option nat)) (f : nat) : Z := zsum (fun p => occ f (use p)) n.

Definition flist (ffl : list nat) (S : fnode) : option (list fnode) :=
  match S with FCB_freelist => Some (freelist_node <$> ffl) | _ => None end.

Section counts.
Context {Task T S B : Type} `{SerialOps B}.
Implicit Types (k : kernel Task T S B) (f g cur : nat) (R : nat -> Z) (ffl : list nat).

Definition ffree ffl k (x : fnode) : Prop :=
  match x with freelist_node f => is_Some (FT k !! f) /\ f ∉ ffl | FCB_freelist => False end.

Record fcbs_ok R ffl k : Prop := {
  fk_forest : forest (flists k) (flist ffl) (ffree ffl k);
  fk_key f : is_Some (FT k !! f) -> obj_of (flists k) (freelist_node f) = Some (Some f);
  fk_free f : f ∈ ffl -> is_Some (FT k !! f) /\ R f = 0%Z;
  fk_count f fc : FT k !! f = Some fc -> f ∉ ffl -> refcount fc = R f;
  fk_dom f : R f <> 0%Z -> is_Some (FT k !! f);
  fk_range f : (0 <= R f < 2 ^ 32)%Z
}.

(** Every block that is not free is referenced, and is a stream of its driver. *)
Definition streams_ok R ffl k : Prop :=
  forall f fc, FT k !! f = Some fc -> f ∉ ffl ->
    (0 < R f)%Z /\ exists d, streamfunc fc = Some d /\ stream_ok k d (streamobj fc).

#[export] Instance freelist_node_inj : Inj (=) (=) freelist_node.
Proof. by intros f g [=]. Qed.

Lemma fcbs_ext R R' ffl k k' :
  fcbs_ok R ffl k -> (forall f, R' f = R f) -> FT k' = FT k -> flists k' = flists k -> fcbs_ok R' ffl k'.
Proof.
  intros [K1 K2 K3 K4 K5 K6] HR HF HL. split; intros *; rewrite ?HF, ?HL, ?HR; [|apply K2|apply K3|apply K4|apply K5|apply K6].
  eapply forest_ext; [exact K1|done|]. intros []; simpl; by rewrite ?HF.
Qed.

Lemma ffl_nodup R ffl k : fcbs_ok R ffl k -> NoDup ffl.
Proof. intros K. eapply NoDup_fmap_1, (forest_NoDup _ _ _ FCB_freelist); [apply K|done]. Qed.

(** Writing a block, but for its reference count. *)
Lemma fcbs_write R ffl k f fc fc' :
  fcbs_ok R ffl k -> FT k !! f = Some fc -> (f ∉ ffl -> refcount fc' = R f) ->
  fcbs_ok R ffl (with_FT (<[f := fc']> (FT k)) k).
Proof.
  intros [K1 K2 K3 K4 K5 K6] Hf Hc.
  assert (forall g, is_Some (<[f := fc']> (FT k) !! g) <-> is_Some (FT k !! g)) as Hdom.
  { intros g. rewrite lookup_insert_is_Some. destruct (decide (f = g)) as [<-|]; [|tauto]. split; [by eexists|by left]. }
  split; cbn [FT flists with_FT]; intros *; rewrite ?Hdom; [|apply K2|apply K3| |apply K5|apply K6].
  - eapply forest_ext; [exact K1|done|]. intros []; simpl; by rewrite ?Hdom.
  - intros [[<- <-]|[_ Hg]]%lookup_insert_Some; [done|by apply K4].
Qed.

Lemma refcount_write R ffl k f fc (z : Z) :
  fcbs_ok R ffl k -> FT k !! f = Some fc -> (f ∉ ffl) -> (0 <= z < 2 ^ 32)%Z ->
  fcbs_ok (fun g => if decide (g = f) then z else R g) ffl (with_FT (<[f := set_refcount z fc]> (FT k)) k).
Proof.
  intros [K1 K2 K3 K4 K5 K6] Hf Hn Hz.
  assert (forall g, is_Some (<[f := set_refcount z fc]> (FT k) !! g) <-> is_Some (FT k !! g)) as Hdom.
  { intros g. rewrite lookup_insert_is_Some. destruct (decide (f = g)) as [<-|]; [|tauto]. split; [by eexists|by left]. }
  split; cbn [FT flists with_FT]; intros *; rewrite ?Hdom; [|apply K2| | | |].
  - eapply forest_ext; [exact K1|done|]. intros []; simpl; by rewrite ?Hdom.
  - intros Hg. rewrite decide_False by (by intros ->). by apply K3.
  - intros [[<- <-]|[Hne Hg]]%lookup_insert_Some Hg'; [by rewrite decide_True|].
    rewrite decide_False by done. by apply K4.
  - case_decide as E; [subst; by eexists|apply K5].
  - case_decide; [done|apply K6].
Qed.

Lemma incref_ok R ffl k f fc :
  fcbs_ok R ffl k -> FT k !! f = Some fc -> (f ∉ ffl) -> (R f + 1 < 2 ^ 32)%Z ->
  FCB_incref f k = Ret (with_FT (<[f := set_refcount (R f + 1) fc]> (FT k)) k) /\
  fcbs_ok (fun g => if decide (g = f) then (R f + 1)%Z else R g) ffl (with_FT (<[f := set_refcount (R f + 1) fc]> (FT k)) k).
Proof.
  intros K Hf Hn Hlt. pose proof (fk_range _ _ _ K f). unfold FCB_incref. rewrite (upd_FCB_eq _ _ _ _ Hf).
  rewrite (fk_count _ _ _ K _ _ Hf Hn), wrap_small by lia. split; [done|]. apply refcount_write; [done..|lia].
Qed.

Lemma release_ok R ffl k f fc :
  fcbs_ok R ffl k -> FT k !! f = Some fc -> (f ∉ ffl) ->
  exists h, release_FCB f k = Ret (with_flists h k) /\
    fcbs_ok (fun g => if decide (g = f) then 0%Z else R g) (ffl ++ [f]) (with_flists h k).
Proof.
  intros [K1 K2 K3 K4 K5 K6] Hf Hn. unfold release_FCB.
  destruct (forest_push_back _ _ _ FCB_freelist _ (freelist_node f) K1 eq_refl) as (h & -> & Hfo & Ho).
  { simpl. split; [by eexists|done]. }
  rewrite ret_bind. exists h. split; [done|]. split; cbn [FT flists with_flists].
  - eapply forest_ext; [exact Hfo| |]; intros [|g]; simpl; rewrite ?fmap_app; try done; try tauto.
    rewrite elem_of_app, list_elem_of_singleton. split; [|naive_solver].
    intros [? Hg]. split; [split; [done|tauto]|]. intros [= ->]. tauto.
  - intros g Hg. rewrite Ho. by apply K2.
  - intros g [Hg|Hg%list_elem_of_singleton]%elem_of_app; [|subst; rewrite decide_True by done; split; [by eexists|done]].
    rewrite decide_False by (by intros ->). by apply K3.
  - intros g gc Hg Hng. rewrite elem_of_app, list_elem_of_singleton in Hng. rewrite decide_False by tauto. apply K4; tauto.
  - intros g. case_decide; [done|apply K5].
  - intros g. case_decide; [lia|apply K6].
Qed.

(** [FCB_decref]: the last reference closes the stream, and the block goes to the end of the free list. *)
Lemma decref_ok R ffl k f fc :
  fcbs_ok R ffl k -> streams_ok R ffl k -> FT k !! f = Some fc -> (f ∉ ffl) ->
  exists m h, FCB_decref f k = Ret (0%Z, with_flists h (with_FT m k)) /\
    fcbs_ok (fun g => if decide (g = f) then (R f - 1)%Z else R g) (if decide (R f = 1%Z) then ffl ++ [f] else ffl)
      (with_flists h (with_FT m k)) /\
    m = <[f := set_refcount (R f - 1) fc]> (FT k).
Proof.
  intros K Hs Hf Hn. destruct (Hs f fc Hf Hn) as (Hpos & d & Hd & _). pose proof (fk_range _ _ _ K f).
  unfold FCB_decref. rewrite (upd_FCB_eq _ _ _ _ Hf), ret_bind, (fk_count _ _ _ K _ _ Hf Hn), wrap_small by lia.
  pose proof (refcount_write R ffl k f fc (R f - 1) K Hf Hn ltac:(lia)) as K1.
  set (k1 := with_FT _ k) in *. assert (FT k1 !! f = Some (set_refcount (R f - 1) fc)) as Hf1 by apply lookup_insert_eq.
  rewrite Hf1. cbn [deref]. rewrite ret_bind. cbn [refcount set_refcount].
  destruct (decide (R f = 1%Z)) as [Hone|Hone].
  - rewrite decide_True by lia. cbn [streamfunc set_refcount streamobj]. rewrite Hd. cbn [deref]. rewrite ret_bind.
    destruct (release_ok _ _ _ _ _ K1 Hf1 Hn) as (h & -> & K2). rewrite ret_bind.
    eexists _, h. split; [by destruct d|]. split; [|done]. eapply fcbs_ext; [exact K2| |done|done].
    intros g. simpl. case_decide; [lia|done].
  - rewrite decide_False by lia. exists (FT k1), (flists k). split; [by destruct k|]. split; [|done].
    eapply fcbs_ext; [exact K1|done..].
Qed.

(** [acquire_FCB]: the first free block, with no references yet. *)
Lemma acquire_ok R ffl k :
  fcbs_ok R ffl k ->
  match ffl with
  | [] => acquire_FCB k = Ret (None, k)
  | f :: ffl' => exists fc h, FT k !! f = Some fc /\
      acquire_FCB k = Ret (Some f, with_FT (<[f := set_refcount 0 fc]> (FT k)) (with_flists h k)) /\
      fcbs_ok R ffl' (with_FT (<[f := set_refcount 0 fc]> (FT k)) (with_flists h k))
  end.
Proof.
  intros K. pose proof K as [K1 K2 K3 K4 K5 K6]. unfold acquire_FCB.
  rewrite (forest_empty _ _ _ FCB_freelist _ K1 eq_refl), ret_bind. destruct ffl as [|f ffl]; [done|]. simpl bool_decide.
  destruct (K3 f) as [[fc Hf] Hz]; [by left|]. pose proof (ffl_nodup _ _ _ K) as [Hnf Hnd]%NoDup_cons.
  destruct (forest_pop_front _ _ _ FCB_freelist (freelist_node f) _ K1 eq_refl) as (h & E & Hfo & Ho).
  rewrite (bind_eq _ _ _ E). pose proof (Ho (freelist_node f)) as Hkey. rewrite K2 in Hkey by (by eexists).
  unfold obj_of in Hkey. destruct (h !! freelist_node f) as [nd|]; [|done]. simpl in Hkey. injection Hkey as Hkey.
  cbn [deref]. rewrite ret_bind, Hkey. cbn [deref]. rewrite ret_bind.
  rewrite (upd_FCB_eq _ _ fc) by done. rewrite ret_bind. exists fc, h. split; [done|]. split; [done|].
  assert (forall g, is_Some (<[f := set_refcount 0 fc]> (FT k) !! g) <-> is_Some (FT k !! g)) as Hdom.
  { intros g. rewrite lookup_insert_is_Some. destruct (decide (f = g)) as [<-|]; [|tauto]. split; [by eexists|by left]. }
  split; cbn [FT flists with_flists with_FT]; intros *; rewrite ?Hdom; [| | | |apply K5|apply K6].
  - eapply forest_ext; [exact Hfo| |]; intros [|g]; simpl; rewrite ?Hdom, ?elem_of_cons; try done; [by split; [|by intros [?|?]]|].
    + split; [intros [? ?]; destruct (decide (g = f)) as [->|]; [by right|left; tauto]|].
      intros [[? ?]|[= ->]]; [tauto|]. split; [by eexists|done].
  - intros Hg. rewrite Ho. by apply K2.
  - intros Hg. apply K3. by right.
  - intros [[<- <-]|[Hne Hg]]%lookup_insert_Some Hng; [done|]. apply K4; [done|]. rewrite elem_of_cons. intros [->|?]; done.
Qed.
End counts.

(** ** The file table

  [fcb_inv R k]: every block has as many references as [R] says, those with none are free, and the
  others are streams. *)

Section fcb_inv.
Context {Task T S B : Type} `{SerialOps B}.
Implicit Types (k : kernel Task T S B) (f g cur : nat) (R : nat -> Z).

Definition fcb_inv R k : Prop := exists ffl, fcbs_ok R ffl k /\ streams_ok R ffl k.

Definition stream (fc : FCB) : option nat * option Device_type := (streamobj fc, streamfunc fc).

(** No stream changes. *)
Definition same_streams (m m' : gmap nat FCB) : Prop := forall f, stream <$> m' !! f = stream <$> m !! f.

Lemma same_streams_write (m : gmap nat FCB) f fc z : m !! f = Some fc -> same_streams m (<[f := set_refcount z fc]> m).
Proof.
  intros Hf g. destruct (decide (f = g)) as [<-|Hne]; [by rewrite lookup_insert_eq, Hf|by rewrite lookup_insert_ne].
Qed.

Lemma same_streams_trans m1 m2 m3 : same_streams m1 m2 -> same_streams m2 m3 -> same_streams m1 m3.
Proof. intros H1 H2 f. by rewrite H2, H1. Qed.

Lemma fcb_inv_ext R R' k k' :
  fcb_inv R k -> (forall f, R' f = R f) -> FT k' = FT k -> flists k' = flists k ->
  serial_ports (ports k') = serial_ports (ports k) -> fcb_inv R' k'.
Proof.
  intros (ffl & K & Hs) HR HF HL HP. exists ffl. split; [by eapply fcbs_ext|].
  intros f fc Hf Hn. rewrite HF in Hf. destruct (Hs f fc Hf Hn) as (? & d & ? & Hok). rewrite HR. split; [done|].
  exists d. split; [done|]. destruct d; [done|]. simpl in *. by rewrite HP.
Qed.

Lemma fcb_live R k f : fcb_inv R k -> (R f <> 0)%Z ->
  exists fc d, FT k !! f = Some fc /\ refcount fc = R f /\ streamfunc fc = Some d /\ stream_ok k d (streamobj fc).
Proof.
  intros (ffl & K & Hs) Hne. destruct (fk_dom _ _ _ K f Hne) as [fc Hf].
  assert (f ∉ ffl) as Hn by (intros Hin; by apply (fk_free _ _ _ K) in Hin as [_ ?]).
  destruct (Hs f fc Hf Hn) as (_ & d & ? & ?). exists fc, d. split; [done|]. split; [by eapply fk_count|done].
Qed.

Lemma streams_write R R' ffl ffl' k f fc z :
  streams_ok R ffl k -> FT k !! f = Some fc -> (f ∉ ffl) ->
  (f ∈ ffl' \/ 0 < R' f)%Z -> (forall g, g <> f -> R' g = R g) -> (forall g, g <> f -> g ∈ ffl' <-> g ∈ ffl) ->
  streams_ok R' ffl' (with_FT (<[f := set_refcount z fc]> (FT k)) k).
Proof.
  intros Hs Hf Hn Hpos HR Hffl g gc. cbn [FT with_FT]. intros [[<- <-]|[Hne Hg]]%lookup_insert_Some Hng.
  - destruct Hpos as [?|Hpos]; [done|]. split; [done|]. by apply (Hs f fc).
  - rewrite HR by done. apply Hs; [done|]. rewrite <- Hffl; [done|congruence].
Qed.

Lemma incref_inv R k f : fcb_inv R k -> (R f <> 0)%Z -> (R f + 1 < 2 ^ 32)%Z ->
  exists m, FCB_incref f k = Ret (with_FT m k) /\ same_streams (FT k) m /\
    fcb_inv (fun g => if decide (g = f) then R f + 1 else R g)%Z (with_FT m k).
Proof.
  intros I Hne Hlt. pose proof I as (ffl & K & Hs). destruct (fcb_live R k f I Hne) as (fc & d & Hf & _).
  assert (f ∉ ffl) as Hn by (intros Hin; by apply (fk_free _ _ _ K) in Hin as [_ ?]).
  destruct (incref_ok R ffl k f fc K Hf Hn Hlt) as [-> K']. eexists. split; [done|].
  split; [by apply same_streams_write|]. exists ffl. split; [done|]. pose proof (fk_range _ _ _ K f).
  eapply streams_write; try done; [right; rewrite decide_True by done; lia|]. intros g ?. by rewrite decide_False.
Qed.

Lemma decref_inv R k f : fcb_inv R k -> (R f <> 0)%Z ->
  exists m h, FCB_decref f k = Ret (0%Z, with_flists h (with_FT m k)) /\ same_streams (FT k) m /\
    fcb_inv (fun g => if decide (g = f) then R f - 1 else R g)%Z (with_flists h (with_FT m k)).
Proof.
  intros I Hne. pose proof I as (ffl & K & Hs). destruct (fcb_live R k f I Hne) as (fc & d & Hf & _).
  assert (f ∉ ffl) as Hn by (intros Hin; by apply (fk_free _ _ _ K) in Hin as [_ ?]).
  destruct (decref_ok R ffl k f fc K Hs Hf Hn) as (m & h & -> & K' & ->). eexists _, h. split; [done|].
  split; [by apply same_streams_write|]. eexists. split; [done|]. pose proof (fk_range _ _ _ K f).
  assert (streams_ok (fun g => if decide (g = f) then R f - 1 else R g)%Z (if decide (R f = 1%Z) then ffl ++ [f] else ffl)
    (with_FT (<[f := set_refcount (R f - 1) fc]> (FT k)) k)) as Hs'; [|done].
  eapply streams_write; try done.
  - rewrite (decide_True (P := f = f)) by done. case_decide; [left; list_mem|right; lia].
  - intros g ?. by rewrite decide_False.
  - intros g Hg. case_decide; [|done]. rewrite elem_of_app, list_elem_of_singleton. tauto.
Qed.
End fcb_inv.

(** ** Counting the references *)

Section refs.
Implicit Types (l : list (option nat)) (u : nat -> list (option nat)).

Definition one (o : option nat) (f : nat) : Z := if decide (o = Some f) then 1 else 0.

Lemma occ_cons f o l : occ f (o :: l) = (one o f + occ f l)%Z.
Proof. unfold occ, one. rewrite filter_cons. case_decide; simpl length; lia. Qed.

Lemma occ_app f l1 l2 : occ f (l1 ++ l2) = (occ f l1 + occ f l2)%Z.
Proof. unfold occ. rewrite filter_app, length_app. lia. Qed.

Lemma occ_range f l : (0 <= occ f l <= Z.of_nat (length l))%Z.
Proof. unfold occ. pose proof (length_filter (fun o => o = Some f) l). lia. Qed.

Lemma occ_pos f l : Some f ∈ l -> (0 < occ f l)%Z.
Proof.
  intros Hin. apply list_elem_of_split in Hin as (l1 & l2 & ->). rewrite occ_app, occ_cons. unfold one.
  rewrite decide_True by done. pose proof (occ_range f l1). pose proof (occ_range f l2). lia.
Qed.

Lemma occ_insert f l i o o' : l !! i = Some o -> occ f (<[i := o']> l) = (occ f l - one o f + one o' f)%Z.
Proof.
  intros Hi. rewrite <- (take_drop_middle l i o Hi) at 2.
  rewrite insert_take_drop by (by eapply lookup_lt_Some). rewrite !occ_app, !occ_cons. lia.
Qed.

Lemma refs_range n u f m : (forall p, p < n -> length (u p) <= m) -> (0 <= refs n u f <= Z.of_nat n * Z.of_nat m)%Z.
Proof. intros Hu. apply zsum_le. intros p Hp. pose proof (occ_range f (u p)). specialize (Hu p Hp). lia. Qed.

Lemma refs_pos n u p f : p < n -> Some f ∈ u p -> (0 < refs n u f)%Z.
Proof.
  intros Hp Hin. pose proof (occ_pos f (u p) Hin).
  pose proof (zsum_ge (fun q => occ f (u q)) n p Hp (fun q _ => proj1 (occ_range f (u q)))). unfold refs. simpl in *. lia.
Qed.

Lemma refs_ext n u u' f : (forall p, p < n -> u' p = u p) -> refs n u' f = refs n u f.
Proof. intros Hu. apply zsum_ext. intros p Hp. by rewrite Hu. Qed.

Lemma refs_upd n u u' p f : p < n -> (forall q, q <> p -> u' q = u q) ->
  refs n u' f = (refs n u f + occ f (u' p) - occ f (u p))%Z.
Proof. intros Hp Hu. apply (zsum_upd (fun q => occ f (u q)) (fun q => occ f (u' q))); [done|]. intros q Hq. by rewrite Hu. Qed.
End refs.

(** ** The system calls keep the file table exact

  [hold p] are the blocks to which process [p] has a reference inside a system call. *)

Section files.
Context {Task T S B : Type} `{SerialOps B}.
Implicit Types (k : kernel Task T S B) (pc : PCB Task T) (f g cur : nat) (hold : nat -> list nat) (l : list (option nat)).

Definition uses hold k (p : nat) : list (option nat) := fids k p ++ (Some <$> hold p).

Record files_ok (n : nat) hold k : Prop := {
  fl_inv : fcb_inv (refs n (uses hold k)) k;
  fl_len p pc : PT k !! p = Some pc -> p < n /\ length (FIDT pc) = MAX_FILEID;
  fl_hold p : length (hold p) <= 1;
  fl_bound : (17 * Z.of_nat n + 1 < 2 ^ 32)%Z
}.

(** Only the file table, and the file ids of [cur], change. *)
Record same_rest k k' : Prop := {
  sr_plists : plists k' = plists k;
  sr_freelist : pcb_freelist k' = pcb_freelist k;
  sr_count : process_count k' = process_count k;
  sr_devtable : devtable k' = devtable k;
  sr_serial : serial_dcb k' = serial_dcb k;
  sr_sched : sched k' = sched k;
  sr_ports : ports k' = ports k
}.

Definition set_fids cur l pc k : gmap nat (PCB Task T) := <[cur := set_FIDT l pc]> (PT k).

Lemma uses_length n hold k p : files_ok n hold k -> length (uses hold k p) <= 17.
Proof.
  intros [_ Hl Hh _]. unfold uses, fids. rewrite length_app, length_fmap. specialize (Hh p).
  destruct (PT k !! p) as [pc|] eqn:E; [apply Hl in E as [_ E]; rewrite E; unfold MAX_FILEID; lia|simpl; lia].
Qed.

Lemma refs_bound n hold k f : files_ok n hold k -> (0 <= refs n (uses hold k) f <= 17 * Z.of_nat n)%Z.
Proof.
  intros F. pose proof (refs_range n (uses hold k) f 17). destruct H0; [|lia]. intros p _. by eapply uses_length.
Qed.

(** The count after the ids of [cur] change. *)
Lemma refs_set_fids n hold k k' cur pc l f :
  cur < n -> PT k !! cur = Some pc -> PT k' = set_fids cur l pc k ->
  refs n (uses hold k') f = (refs n (uses hold k) f + occ f l - occ f (FIDT pc))%Z.
Proof.
  intros Hn Hp E. rewrite (refs_upd n (uses hold k) (uses hold k') cur f Hn).
  - unfold uses, fids. rewrite E, Hp. unfold set_fids. rewrite lookup_insert_eq, !occ_app. simpl. lia.
  - intros q Hq. unfold uses, fids. rewrite E. unfold set_fids. by rewrite lookup_insert_ne.
Qed.

Lemma set_fids_len n hold k cur pc l p pc' :
  files_ok n hold k -> PT k !! cur = Some pc -> length l = MAX_FILEID ->
  set_fids cur l pc k !! p = Some pc' -> p < n /\ length (FIDT pc') = MAX_FILEID.
Proof.
  intros F Hp Hl. unfold set_fids. intros [[<- <-]|[_ Hp']]%lookup_insert_Some; [|by eapply fl_len].
  split; [by eapply fl_len|done].
Qed.

Lemma uses_live n hold k cur pc i f :
  files_ok n hold k -> PT k !! cur = Some pc -> FIDT pc !! i = Some (Some f) -> refs n (uses hold k) f <> 0%Z.
Proof.
  intros F Hp Hi. assert (0 < refs n (uses hold k) f)%Z; [|lia]. apply (refs_pos _ _ cur); [by eapply fl_len|].
  unfold uses, fids. rewrite Hp, elem_of_app. left. by eapply list_elem_of_lookup_2.
Qed.

Lemma get_fcb_ok n hold k cur pc fd : files_ok n hold k -> PT k !! cur = Some pc ->
  exists o, get_fcb cur fd k = Ret o /\
    if decide (0 <= fd < Z.of_nat MAX_FILEID)%Z then FIDT pc !! Z.to_nat fd = Some o else o = None.
Proof.
  intros F Hp. unfold get_fcb. destruct (decide (0 <= fd < Z.of_nat MAX_FILEID)%Z) as [Hr|Hr].
  - rewrite decide_False by lia. rewrite Hp. cbn [deref]. rewrite ret_bind.
    destruct (lookup_lt_is_Some_2 (FIDT pc) (Z.to_nat fd)) as [o Ho].
    { destruct (fl_len _ _ _ F _ _ Hp) as [_ ->]. unfold MAX_FILEID in *. lia. }
    exists o. by rewrite Ho.
  - rewrite decide_True by lia. by exists None.
Qed.

Lemma set_fids_id k cur pc : PT k !! cur = Some pc -> set_fids cur (FIDT pc) pc k = PT k.
Proof. intros Hp. unfold set_fids. apply insert_id. by destruct pc. Qed.

(** The result of a system call on streams: its effect on the file ids of [cur]. *)
Record stream_effect (n : nat) hold k k' cur pc l : Prop := {
  se_files : files_ok n hold k';
  se_rest : same_rest k k';
  se_streams : same_streams (FT k) (FT k');
  se_PT : PT k' = set_fids cur l pc k
}.

Lemma effect_none n hold k cur pc : files_ok n hold k -> PT k !! cur = Some pc -> stream_effect n hold k k cur pc (FIDT pc).
Proof. intros F Hp. split; [done|done|done|by rewrite set_fids_id]. Qed.

Lemma close_ok n hold k cur pc fd : files_ok n hold k -> PT k !! cur = Some pc ->
  exists k', sys_Close cur fd k = Ret (if decide (0 <= fd < Z.of_nat MAX_FILEID)%Z then 0 else -1, k')%Z /\
    stream_effect n hold k k' cur pc
      (if decide (0 <= fd < Z.of_nat MAX_FILEID)%Z then <[Z.to_nat fd := None]> (FIDT pc) else FIDT pc).
Proof.
  intros F Hp. unfold sys_Close. destruct (get_fcb_ok n hold k cur pc fd F Hp) as (o & -> & Ho). rewrite ret_bind.
  destruct (fl_len _ _ _ F _ _ Hp) as [Hn Hlen].
  destruct (decide (0 <= fd < Z.of_nat MAX_FILEID)%Z) as [Hr|Hr].
  2: { subst o. exists k. split; [done|]. by apply effect_none. }
  destruct o as [f|].
  2: { exists k. split; [done|]. rewrite (list_insert_id _ _ _ Ho). by apply effect_none. }
  rewrite (upd_PCB_eq _ _ _ _ Hp), ret_bind. set (k1 := with_PT _ k).
  assert (fcb_inv (refs n (uses hold k)) k1) as I1 by (eapply fcb_inv_ext; [by eapply fl_inv|done..]).
  destruct (decref_inv _ k1 f I1) as (m & h & -> & Hss & I2); [by eapply uses_live|].
  eexists. split; [done|]. split; [split| | |]; try done.
  - eapply fcb_inv_ext; [exact I2| |done..]. intros g. simpl.
    rewrite (refs_set_fids n hold k _ cur pc (<[Z.to_nat fd:=None]> (FIDT pc)) g Hn Hp) by done.
    rewrite (occ_insert g _ _ _ _ Ho). unfold one. rewrite (decide_False (P := None = _)) by done.
    case_decide as E1; case_decide as E2; subst; try congruence; lia.
  - intros p pc' Hp'. refine (set_fids_len n hold k cur pc _ p pc' F Hp _ Hp'). by rewrite length_insert.
  - apply F.
  - apply F.
Qed.
Lemma dup2_ok n hold k cur pc oldfd newfd : files_ok n hold k -> PT k !! cur = Some pc ->
  exists r l k', sys_Dup2 cur oldfd newfd k = Ret (r, k') /\ stream_effect n hold k k' cur pc l /\
    let legal := (0 <= oldfd < Z.of_nat MAX_FILEID)%Z /\ (0 <= newfd < Z.of_nat MAX_FILEID)%Z in
    match FIDT pc !! Z.to_nat oldfd with
    | Some (Some f) => if decide legal then r = 0%Z /\ l = <[Z.to_nat newfd := Some f]> (FIDT pc) else r = (-1)%Z /\ l = FIDT pc
    | _ => r = (-1)%Z /\ l = FIDT pc
    end.
Proof.
  intros F Hp. unfold sys_Dup2. cbv zeta.
  destruct (get_fcb_ok n hold k cur pc oldfd F Hp) as (o & Eo & Ho).
  destruct (get_fcb_ok n hold k cur pc newfd F Hp) as (w & Ew & Hw).
  destruct (fl_len _ _ _ F _ _ Hp) as [Hn Hlen].
  destruct (decide (oldfd < 0 \/ _)%Z) as [Hbad|Hok].
  { exists (-1)%Z, (FIDT pc), k. split; [done|]. split; [by apply effect_none|].
    destruct (FIDT pc !! Z.to_nat oldfd) as [[f|]|]; try done. rewrite decide_False by lia. done. }
  rewrite Eo, Ew, !ret_bind. rewrite decide_True in Ho by lia. rewrite decide_True in Hw by lia. rewrite Ho.
  destruct o as [f|]; [|exists (-1)%Z, (FIDT pc), k; split; [done|]; split; [by apply effect_none|done]].
  destruct (decide (Some f = w)) as [<-|Hne].
  { exists 0%Z, (FIDT pc), k. split; [done|]. split; [by apply effect_none|].
    rewrite decide_True by lia. by rewrite (list_insert_id _ _ _ Hw). }
  pose proof (uses_live _ _ _ _ _ _ _ F Hp Ho) as Hlive. pose proof (fl_inv _ _ _ F) as I.
  set (R := refs n (uses hold k)) in *.
  assert (exists m h, (match w with Some g => '(_, k) ← FCB_decref g k; Ret k | None => Ret k end) = Ret (with_flists h (with_FT m k)) /\
    same_streams (FT k) m /\ fcb_inv (fun g => R g - one w g)%Z (with_flists h (with_FT m k))) as (m & h & -> & Hss & I1).
  { destruct w as [g|].
    - destruct (decref_inv R k g I) as (m & h & -> & Hss & I1); [by eapply uses_live|]. rewrite ret_bind.
      exists m, h. split; [done|]. split; [done|]. eapply fcb_inv_ext; [exact I1| |done..].
      intros x. unfold one. repeat case_decide; simplify_eq; try done; lia.
    - exists (FT k), (flists k). split; [by destruct k|]. split; [done|]. eapply fcb_inv_ext; [exact I| |done..].
      intros x. unfold one. case_decide; [done|lia]. }
  rewrite ret_bind. set (k1 := with_flists h (with_FT m k)) in *.
  pose proof (refs_bound n hold k f F) as Hb. fold R in Hb. pose proof (fl_bound _ _ _ F).
  destruct (incref_inv _ k1 f I1) as (m' & -> & Hss' & I2).
  { unfold one. rewrite decide_False by congruence. lia. }
  { unfold one. rewrite decide_False by congruence. lia. }
  rewrite ret_bind, (upd_PCB_eq _ _ pc) by done. rewrite ret_bind.
  exists 0%Z, (<[Z.to_nat newfd := Some f]> (FIDT pc)). eexists. split; [done|]. split; [|by rewrite decide_True by lia].
  split; [split| | |]; try done.
  - eapply fcb_inv_ext; [exact I2| |done..]. intros g. simpl.
    rewrite (refs_set_fids n hold k _ cur pc (<[Z.to_nat newfd := Some f]> (FIDT pc)) g Hn Hp) by done.
    rewrite (occ_insert g _ _ _ _ Hw). fold R. unfold one. repeat case_decide; simplify_eq; try done; lia.
  - intros p pc' Hp'. refine (set_fids_len n hold k cur pc _ p pc' F Hp _ Hp'). by rewrite length_insert.
  - apply F.
  - exact (same_streams_trans _ _ _ Hss Hss').
Qed.
End files.

(** ** Reading and writing *)

Section io.
Context {Task T S B : Type} `{SerialOps B} `{!SerialLaws B}.
Implicit Types (k : kernel Task T S B) (pc : PCB Task T) (f g cur : nat) (hold : nat -> list nat).

Definition upd_hold (cur : nat) (l : list nat) hold : nat -> list nat := fun p => if decide (p = cur) then l else hold p.

(** An operation on a stream: the process table stays, and the streams stay what they are. *)
Record io_effect (n : nat) hold k k' : Prop := {
  io_files : files_ok n hold k';
  io_devices : devices_ok k';
  io_PT : PT k' = PT k;
  io_plists : plists k' = plists k;
  io_freelist : pcb_freelist k' = pcb_freelist k;
  io_count : process_count k' = process_count k;
  io_sched : sched k' = sched k;
  io_streams : same_streams (FT k) (FT k');
  io_ports : serial_ports (ports k') = serial_ports (ports k)
}.

Lemma fids_eq k k' p : PT k' = PT k -> fids k' p = fids k p.
Proof. unfold fids. by intros ->. Qed.

(** Taking or dropping references inside a call. *)
Lemma refs_hold n hold k k' cur l f :
  cur < n -> PT k' = PT k ->
  refs n (uses (upd_hold cur l hold) k') f =
    (refs n (uses hold k) f + occ f (Some <$> l) - occ f (Some <$> hold cur))%Z.
Proof.
  intros Hn E. rewrite (refs_upd n (uses hold k) (uses (upd_hold cur l hold) k') cur f Hn).
  - unfold uses, upd_hold. rewrite (fids_eq k k' cur E), !occ_app, decide_True by done. lia.
  - intros q Hq. unfold uses, upd_hold. by rewrite (fids_eq k k' q E), decide_False.
Qed.

Lemma files_hold_ext n hold hold' k : (forall p, hold' p = hold p) -> files_ok n hold k -> files_ok n hold' k.
Proof.
  intros Hh [F1 F2 F3 F4]. split; [|done| |done].
  - eapply fcb_inv_ext; [exact F1| |done..]. intros f. apply refs_ext. intros p _. unfold uses. by rewrite Hh.
  - intros p. by rewrite Hh.
Qed.

Lemma occ_some f l : occ f (Some <$> [l]) = one (Some l) f.
Proof. rewrite list_fmap_singleton, occ_cons. unfold occ. simpl. lia. Qed.

(** The tables after an operation that left the process table alone. *)
Lemma files_after n hold hold' k k' :
  files_ok n hold k -> fcb_inv (refs n (uses hold' k')) k' -> PT k' = PT k -> (forall p, length (hold' p) <= 1) ->
  files_ok n hold' k'.
Proof. intros [_ F2 _ F4] I E Hh. split; [done| |done|done]. intros p pc. rewrite E. apply F2. Qed.

Lemma upd_hold_length hold cur l p : (forall p, length (hold p) <= 1) -> length l <= 1 -> length (upd_hold cur l hold p) <= 1.
Proof. intros Hh Hl. unfold upd_hold. by case_decide. Qed.

Lemma hold_ref n hold k cur f :
  files_ok n hold k -> cur < n -> refs n (uses hold k) f <> 0%Z -> hold cur = [] ->
  exists m, FCB_incref f k = Ret (with_FT m k) /\ same_streams (FT k) m /\
    files_ok n (upd_hold cur [f] hold) (with_FT m k).
Proof.
  intros F Hn Hlive Hh. pose proof (refs_bound n hold k f F). pose proof (fl_bound _ _ _ F).
  destruct (incref_inv _ k f (fl_inv _ _ _ F) Hlive) as (m & -> & Hss & I); [lia|].
  exists m. split; [done|]. split; [done|]. eapply files_after; [exact F| |done|].
  - eapply fcb_inv_ext; [exact I| |done..]. intros g. rewrite (refs_hold n hold k) by done. rewrite Hh, occ_some.
    unfold one. simpl. unfold occ. simpl. repeat case_decide; simplify_eq; lia.
  - intros p. apply upd_hold_length; [by apply F|simpl; lia].
Qed.

Lemma drop_ref n hold k cur f :
  files_ok n hold k -> cur < n -> hold cur = [f] ->
  exists m h, FCB_decref f k = Ret (0%Z, with_flists h (with_FT m k)) /\ same_streams (FT k) m /\
    files_ok n (upd_hold cur [] hold) (with_flists h (with_FT m k)).
Proof.
  intros F Hn Hh. assert (refs n (uses hold k) f <> 0%Z) as Hlive.
  { assert (0 < refs n (uses hold k) f)%Z; [|lia]. apply (refs_pos _ _ cur); [done|]. unfold uses. rewrite Hh.
    rewrite elem_of_app. right. by left. }
  destruct (decref_inv _ k f (fl_inv _ _ _ F) Hlive) as (m & h & -> & Hss & I).
  exists m, h. split; [done|]. split; [done|]. eapply files_after; [exact F| |done|].
  - eapply fcb_inv_ext; [exact I| |done..]. intros g. rewrite (refs_hold n hold k) by done. rewrite Hh, occ_some.
    unfold one. simpl. unfold occ. simpl. repeat case_decide; simplify_eq; lia.
  - intros p. apply upd_hold_length; [by apply F|simpl; lia].
Qed.

Lemma same_tables_files n hold k k' : files_ok n hold k -> same_tables k k' -> files_ok n hold k'.
Proof.
  intros F [E1 E2 E3 E4 E5 E6 E7 E8]. eapply files_after; [done| |done|apply F].
  eapply fcb_inv_ext; [by eapply fl_inv| |done..]. intros f. apply refs_ext. intros p _. unfold uses, fids. by rewrite E1.
Qed.

Lemma drop_effect n hold hold' k k1 m h :
  same_tables k k1 -> devices_ok k1 -> same_streams (FT k1) m -> files_ok n hold' (with_flists h (with_FT m k1)) ->
  io_effect n hold' k (with_flists h (with_FT m k1)).
Proof.
  intros [E1 E2 E3 E4 E5 E6 E7 E8] [] Hss F. split; try done. intros f. cbn [FT with_flists with_FT]. rewrite Hss. by rewrite E5.
Qed.

(** The part of a read that is repeated after each sleep. *)
Lemma read_stream_ok n hold k cur f d obj size :
  files_ok n hold k -> devices_ok k -> cur < n -> hold cur = [f] -> stream_ok k d obj ->
  exists r k', read_stream cur f d obj size k = Ret (r, k') /\
    match r with
    | RdDone z buf => io_effect n (upd_hold cur [] hold) k k' /\ z = s32 (Z.of_nat (length buf)) /\
        length buf <= size /\ (0 < size -> 0 < length buf) /\ serial_dcb k' = serial_dcb k
    | RdWait f' d' obj' => (f', d', obj') = (f, DEV_SERIAL, obj) /\ d = DEV_SERIAL /\ io_effect n hold k k' /\
        exists i sd, obj = Some i /\ serial_dcb k !! i = Some sd /\
          serial_dcb k' = <[i := mkSerial i (rx_ready sd ++ [cur])]> (serial_dcb k)
    end.
Proof.
  intros F D Hn Hh Hok. unfold read_stream.
  destruct (dev_read_ok d cur obj size k D Hok) as (r & k1 & -> & D1 & S1 & Hr). rewrite ret_bind.
  pose proof (same_tables_files n hold k k1 F S1) as F1. destruct r as [buf|].
  - destruct (drop_ref n hold k1 cur f F1 Hn Hh) as (m & h & -> & Hss & F2). rewrite ret_bind.
    eexists _, _. split; [done|]. simpl. split; [by eapply drop_effect|]. split; [done|]. destruct Hr as (? & ? & ?). done.
  - destruct Hr as (-> & i & sd & ? & ? & ?). eexists _, _. split; [done|]. simpl. split; [done|]. split; [done|].
    split; [|by exists i, sd]. destruct S1 as [E1 E2 E3 E4 E5 E6 E7 E8]. split; try done. intros x. by rewrite E5.
Qed.

(** The block of a file id. *)
Definition file_at pc (fd : Z) : option nat := if decide (0 <= fd < Z.of_nat MAX_FILEID)%Z then mjoin (FIDT pc !! Z.to_nat fd) else None.

Lemma get_file_at n hold k cur pc fd : files_ok n hold k -> PT k !! cur = Some pc -> get_fcb cur fd k = Ret (file_at pc fd).
Proof.
  intros F Hp. destruct (get_fcb_ok n hold k cur pc fd F Hp) as (o & -> & Ho). unfold file_at. case_decide; [|by rewrite Ho].
  by rewrite Ho.
Qed.

Lemma read_ok n hold k cur pc fd size :
  files_ok n hold k -> devices_ok k -> PT k !! cur = Some pc -> hold cur = [] ->
  exists r k', sys_Read cur fd size k = Ret (r, k') /\
    match r with
    | RdDone z buf => io_effect n hold k k' /\ serial_dcb k' = serial_dcb k /\
        match file_at pc fd with
        | None => z = (-1)%Z /\ buf = []
        | Some _ => z = s32 (Z.of_nat (length buf)) /\ length buf <= size /\ (0 < size -> 0 < length buf)
        end
    | RdWait f d obj => io_effect n (upd_hold cur [f] hold) k k' /\ d = DEV_SERIAL /\ file_at pc fd = Some f /\
        exists i sd, obj = Some i /\ serial_dcb k !! i = Some sd /\
          serial_dcb k' = <[i := mkSerial i (rx_ready sd ++ [cur])]> (serial_dcb k)
    end.
Proof.
  intros F D Hp Hh. unfold sys_Read. pose proof (get_file_at n hold k cur pc fd F Hp) as Eg.
  destruct (get_fcb_ok n hold k cur pc fd F Hp) as (o & Eo & Ho). rewrite Eo in Eg. injection Eg as <-. rewrite Eo, ret_bind.
  destruct o as [f|]; [|exists (RdDone (-1) []), k; split; [done|]; split; [by split|]; split; done].
  case_decide; [|done]. pose proof (uses_live _ _ _ _ _ _ _ F Hp Ho) as Hlive.
  destruct (fcb_live _ _ _ (fl_inv _ _ _ F) Hlive) as (fc & d & Hf & _ & Hd & Hok).
  rewrite Hf. cbn [deref]. rewrite ret_bind, Hd. cbn [deref]. rewrite ret_bind.
  destruct (fl_len _ _ _ F _ _ Hp) as [Hn _].
  destruct (hold_ref n hold k cur f F Hn Hlive Hh) as (m & -> & Hss & F1). rewrite ret_bind.
  assert (devices_ok (with_FT m k)) as D1 by (destruct D; by split).
  destruct (read_stream_ok n (upd_hold cur [f] hold) (with_FT m k) cur f d (streamobj fc) size F1 D1 Hn)
    as (r & k' & E & Hr).
  { unfold upd_hold. by rewrite decide_True. } { by destruct d. }
  exists r, k'. split; [exact E|].
  assert (forall hold', io_effect n hold' (with_FT m k) k' -> io_effect n hold' k k') as Hio.
  { intros hold' []. split; try done. exact (same_streams_trans _ _ _ Hss io_streams0). }
  destruct r as [z buf|f' d' obj'].
  - destruct Hr as (Hr & ? & ? & ? & ?). split; [|split; [done|done]]. apply Hio. destruct Hr. split; try done.
    eapply files_hold_ext; [|done]. intros p. unfold upd_hold. case_decide; [by subst|done].
  - destruct Hr as ([= -> -> ->] & -> & Hr & i & sd & ? & ? & ?). split; [by apply Hio|]. split; [done|]. split; [done|]. by exists i, sd.
Qed.

Lemma write_ok n hold k cur pc fd buf size :
  files_ok n hold k -> devices_ok k -> PT k !! cur = Some pc -> hold cur = [] -> size <= length buf ->
  (exists z k', sys_Write cur fd buf size k = Ret (z, k') /\ io_effect n hold k k' /\ serial_dcb k' = serial_dcb k /\
    match file_at pc fd with
    | None => z = (-1)%Z
    | Some _ => exists c, z = s32 (Z.of_nat c) /\ c <= size /\ (0 < size -> 0 < c)
    end) \/
  sys_Write cur fd buf size k = Err Stalled.
Proof.
  intros F D Hp Hh Hsz. unfold sys_Write. pose proof (get_file_at n hold k cur pc fd F Hp) as Eg.
  destruct (get_fcb_ok n hold k cur pc fd F Hp) as (o & Eo & Ho). rewrite Eo in Eg. injection Eg as <-. rewrite Eo, ret_bind.
  destruct o as [f|]; [|left; exists (-1)%Z, k; split; [done|]; split; [by split|]; split; done].
  case_decide; [|done]. pose proof (uses_live _ _ _ _ _ _ _ F Hp Ho) as Hlive.
  destruct (fcb_live _ _ _ (fl_inv _ _ _ F) Hlive) as (fc & d & Hf & _ & Hd & Hok).
  rewrite Hf. cbn [deref]. rewrite ret_bind, Hd. cbn [deref]. rewrite ret_bind.
  destruct (fl_len _ _ _ F _ _ Hp) as [Hn _].
  destruct (hold_ref n hold k cur f F Hn Hlive Hh) as (m & -> & Hss & F1). rewrite ret_bind.
  assert (devices_ok (with_FT m k)) as D1 by (destruct D; by split).
  destruct (dev_write_ok d (streamobj fc) buf size (with_FT m k) D1) as [(c & b & -> & Hb & Hc & Hpos)| ->]; [by destruct d|done| |by right].
  left.
  rewrite ret_bind. pose proof (with_ports_ok b _ Hb D1) as D2. pose proof (with_ports_same b _ Hb) as S2.
  pose proof (same_tables_files _ _ _ _ F1 S2) as F2.
  destruct (drop_ref n _ _ cur f F2 Hn) as (m' & h & -> & Hss' & F3); [unfold upd_hold; by rewrite decide_True|].
  rewrite ret_bind. eexists _, _. split; [done|]. split; [|split; [done|by exists c]].
  assert (io_effect n hold (with_FT m k) (with_flists h (with_FT m' (with_ports b (with_FT m k))))) as [].
  { apply drop_effect; try done. eapply files_hold_ext; [|done]. intros p. unfold upd_hold. case_decide; [by subst|done]. }
  split; try done. exact (same_streams_trans _ _ _ Hss io_streams0).
Qed.
End io.

(** ** Reserving ids and blocks *)

Section reserve.
Context {Task T S B : Type} `{SerialOps B}.
Implicit Types (k : kernel Task T S B) (pc : PCB Task T) (f g cur : nat) (hold : nat -> list nat) (l : list (option nat)) (ffl : list nat).

Lemma NoDup_take {A} num (x : list A) : NoDup x -> NoDup (take num x).
Proof. intros Hx. rewrite <- (take_drop num x) in Hx. by apply NoDup_app in Hx as [? _]. Qed.

(** The free ids of a table from [i] on, in order. *)
Fixpoint free_ids (i : nat) l : list nat :=
  match l with [] => [] | None :: l => i :: free_ids (Datatypes.S i) l | Some _ :: l => free_ids (Datatypes.S i) l end.

Lemma next_free_spec l i : length l + i = MAX_FILEID -> forall l0, length l0 = i ->
  match free_ids i l with
  | [] => next_free (length l) i (l0 ++ l) = MAX_FILEID
  | j :: r => next_free (length l) i (l0 ++ l) = j /\ i <= j < MAX_FILEID /\
      r = free_ids (Datatypes.S j) (drop (Datatypes.S j - i) l)
  end.
Proof.
  revert i. induction l as [|o l IH]; intros i Hi l0 Hl0; [simpl in *; lia|]. cbn [free_ids length next_free].
  rewrite lookup_app_r by lia. rewrite Hl0, Nat.sub_diag. cbn [lookup list_lookup]. destruct o as [f|].
  - specialize (IH (Datatypes.S i) ltac:(simpl in Hi; lia) (l0 ++ [Some f]) ltac:(rewrite length_app; simpl; lia)).
    rewrite <- app_assoc in IH. simpl in IH. rewrite Nat.add_1_r.
    destruct (free_ids (Datatypes.S i) l) as [|j r]; [done|]. destruct IH as (? & ? & ->). split; [done|]. split; [lia|].
    by replace (Datatypes.S j - i) with (Datatypes.S (Datatypes.S j - Datatypes.S i)) by lia.
  - split; [done|]. split; [simpl in Hi; lia|]. by replace (Datatypes.S i - i) with 1 by lia.
Qed.

Lemma find_fids_spec num l i : i <= MAX_FILEID -> length l = MAX_FILEID ->
  find_fids num i l =
    if decide (num <= length (free_ids i (drop i l))) then Some (take num (free_ids i (drop i l))) else None.
Proof.
  revert i. induction num as [|num IH]; intros i Hi Hl; cbn [find_fids]; [by rewrite decide_True by lia|].
  pose proof (next_free_spec (drop i l) i) as Hn. rewrite length_drop, Hl in Hn.
  specialize (Hn ltac:(lia) (take i l) ltac:(rewrite length_take; lia)). rewrite take_drop in Hn.
  destruct (free_ids i (drop i l)) as [|j r] eqn:E.
  - rewrite Hn, decide_True by done. by rewrite decide_False by (simpl; lia).
  - destruct Hn as (-> & Hj & Hr). rewrite drop_drop in Hr.
    replace (i + (Datatypes.S j - i)) with (Datatypes.S j) in Hr by lia.
    rewrite decide_False, Nat.add_1_r, (IH (Datatypes.S j)), <- Hr by lia. simpl length.
    repeat case_decide; try lia; done.
Qed.

Lemma free_ids_lookup l i j : j ∈ free_ids i l -> i <= j /\ l !! (j - i) = Some None.
Proof.
  revert i. induction l as [|[f|] l IH]; intros i; cbn [free_ids].
  - by intros ?%elem_of_nil.
  - intros [? Hl]%IH. split; [lia|]. replace (j - i) with (Datatypes.S (j - Datatypes.S i)) by lia. done.
  - intros [->|[? Hl]%IH]%elem_of_cons; [by rewrite Nat.sub_diag|]. split; [lia|].
    by replace (j - i) with (Datatypes.S (j - Datatypes.S i)) by lia.
Qed.

Lemma free_ids_complete l i j : l !! j = Some None -> i + j ∈ free_ids i l.
Proof.
  revert i j. induction l as [|o l IH]; intros i j; [done|]. destruct j as [|j]; simpl.
  - intros [= ->]. rewrite Nat.add_0_r. by left.
  - intros Hj. specialize (IH (Datatypes.S i) j Hj). replace (i + Datatypes.S j) with (Datatypes.S i + j) by lia.
    destruct o; [done|by right].
Qed.

Lemma free_ids_none l i : free_ids 0 l = [] -> l !! i <> Some None.
Proof. intros E Hi. pose proof (free_ids_complete l 0 i Hi) as Hin. rewrite E in Hin. by apply elem_of_nil in Hin. Qed.

(** The first one is the lowest. *)
Lemma free_ids_first l i rest : free_ids 0 l = i :: rest -> l !! i = Some None /\ forall j, j < i -> l !! j <> Some None.
Proof.
  intros E. split.
  - destruct (free_ids_lookup l 0 i) as [_ Hi]; [rewrite E; by left|]. by rewrite Nat.sub_0_r in Hi.
  - assert (forall l b i rest j, free_ids b l = i :: rest -> b + j < i -> l !! j <> Some None) as Hmin.
    { clear. induction l as [|o l IH]; intros b i rest j; cbn [free_ids]; [done|]. destruct o as [f|].
      - intros E Hlt. destruct j as [|j]; [done|]. simpl. eapply (IH (Datatypes.S b)); [exact E|lia].
      - intros [= <- _] Hlt. lia. }
    intros j Hj. by eapply (Hmin l 0).
Qed.

Lemma free_ids_NoDup l i : NoDup (free_ids i l).
Proof.
  revert i. induction l as [|[f|] l IH]; intros i; cbn [free_ids]; [constructor|done|]. constructor; [|done].
  intros [? _]%free_ids_lookup. lia.
Qed.

(** *** The blocks *)

Lemma streams_sub R ffl ffl' k : streams_ok R ffl k -> (forall f, f ∈ ffl -> f ∈ ffl') -> streams_ok R ffl' k.
Proof. intros Hs Hsub f fc Hf Hn. apply Hs; [done|]. intros ?. by apply Hn, Hsub. Qed.

Lemma acquire_FCBs_ok num acc R ffl all k :
  fcbs_ok R ffl k -> streams_ok R all k -> (forall f, f ∈ ffl -> f ∈ all) ->
  exists m h, acquire_FCBs num acc k = Ret (acc ++ take num ffl, with_FT m (with_flists h k)) /\
    fcbs_ok R (drop num ffl) (with_FT m (with_flists h k)) /\ streams_ok R all (with_FT m (with_flists h k)) /\
    same_streams (FT k) m.
Proof.
  revert acc ffl k. induction num as [|num IH]; intros acc ffl k K Hs Hall; cbn [acquire_FCBs].
  { exists (FT k), (flists k). rewrite take_0, app_nil_r, drop_0. destruct k. done. }
  pose proof (acquire_ok R ffl k K) as Ha. destruct ffl as [|f ffl].
  { rewrite Ha, ret_bind. exists (FT k), (flists k). rewrite take_nil, app_nil_r. destruct k. done. }
  destruct Ha as (fc & h & Hf & -> & K1). rewrite ret_bind. set (k1 := with_FT _ _) in *.
  destruct (IH (acc ++ [f]) ffl k1 K1) as (m' & h' & -> & K2 & Hs2 & Hss).
  - intros g gc. unfold k1. cbn [FT with_FT]. intros [[<- <-]|[_ Hg]]%lookup_insert_Some Hng.
    + exfalso. apply Hng, Hall. by left.
    + by apply Hs.
  - intros g Hg. apply Hall. by right.
  - exists m', h'. rewrite <- app_assoc. split; [done|]. split; [done|]. split; [done|].
    refine (same_streams_trans _ _ _ _ Hss). by apply same_streams_write.
Qed.

Lemma release_FCBs_ok fs R ffl k :
  fcbs_ok R ffl k -> NoDup fs -> (forall f, f ∈ fs -> (f ∉ ffl) /\ is_Some (FT k !! f) /\ R f = 0%Z) ->
  exists h, release_FCBs fs k = Ret (with_flists h k) /\ fcbs_ok R (ffl ++ fs) (with_flists h k).
Proof.
  revert ffl k. induction fs as [|f fs IH]; intros ffl k K Hnd Hfs; cbn [release_FCBs].
  { exists (flists k). rewrite app_nil_r. destruct k. done. }
  apply NoDup_cons in Hnd as [Hf Hnd]. destruct (Hfs f) as (Hn & [fc Hfc] & Hz); [by left|].
  destruct (release_ok R ffl k f fc K Hfc Hn) as (h & -> & K1). rewrite ret_bind.
  destruct (IH (ffl ++ [f]) (with_flists h k)) as (h' & -> & K2).
  - eapply fcbs_ext; [exact K1| |done|done]. intros g. simpl. by case_decide; subst.
  - done.
  - intros g Hg. destruct (Hfs g) as (Hng & ? & ?); [by right|]. split; [|done].
    rewrite elem_of_app, list_elem_of_singleton. intros [?| ->]; done.
  - exists h'. split; [done|]. by rewrite <- app_assoc in K2.
Qed.

(** The references that a reservation adds. *)
Definition taken (fs : list nat) f : Z := if decide (f ∈ fs) then 1 else 0.

Lemma taken_cons f fs g : (f ∉ fs) -> taken (f :: fs) g = (taken fs g + if decide (g = f) then 1 else 0)%Z.
Proof.
  intros Hf. unfold taken. destruct (decide (g = f)) as [->|Hne].
  - rewrite decide_True by (by left). by rewrite decide_False.
  - rewrite (decide_ext (g ∈ f :: fs) (g ∈ fs)); [lia|]. rewrite elem_of_cons. tauto.
Qed.

Fixpoint set_many (fid fcb : list nat) l : list (option nat) :=
  match fid, fcb with i :: fid, f :: fcb => set_many fid fcb (<[i := Some f]> l) | _, _ => l end.

Lemma set_many_length fid fcb l : length (set_many fid fcb l) = length l.
Proof. revert fcb l. induction fid as [|i fid IH]; intros [|f fcb] l; try done. simpl. by rewrite IH, length_insert. Qed.

Lemma install_ok fid fcb cur pc R ffl all k :
  fcbs_ok R ffl k -> streams_ok R all k -> PT k !! cur = Some pc -> length fid = length fcb -> NoDup fcb ->
  (forall f, f ∈ fcb -> (f ∉ ffl) /\ f ∈ all /\ is_Some (FT k !! f) /\ R f = 0%Z) ->
  exists m, install_FCBs fid fcb cur k = Ret (with_PT (set_fids cur (set_many fid fcb (FIDT pc)) pc k) (with_FT m k)) /\
    fcbs_ok (fun f => R f + taken fcb f)%Z ffl (with_FT m k) /\ streams_ok (fun f => R f + taken fcb f)%Z all (with_FT m k) /\
    same_streams (FT k) m.
Proof.
  revert fid R pc k. induction fcb as [|f fcb IH]; intros [|i fid] R pc k K Hs Hp Hlen Hnd Hf; try done; cbn [install_FCBs].
  { exists (FT k). assert (with_FT (FT k) k = k) as E by (by destruct k). rewrite E. split; [|split; [|split; [|done]]].
    - simpl. rewrite set_fids_id by done. by destruct k.
    - eapply fcbs_ext; [exact K| |done|done]. intros g. unfold taken. rewrite decide_False by apply not_elem_of_nil. simpl. lia.
    - intros g gc Hg Hng. destruct (Hs g gc Hg Hng) as [? ?]. unfold taken. rewrite decide_False by apply not_elem_of_nil.
      split; [lia|done]. }
  apply NoDup_cons in Hnd as [Hnf Hnd]. destruct (Hf f) as (Hn & Hall & [fc Hfc] & Hz); [by left|].
  rewrite (upd_PCB_eq _ _ _ _ Hp), ret_bind. set (k1 := with_PT _ k).
  assert (fcbs_ok R ffl k1) as K1 by (eapply fcbs_ext; [exact K|done..]).
  destruct (incref_ok R ffl k1 f fc K1 Hfc Hn) as [-> K2]; [rewrite Hz; lia|]. rewrite ret_bind.
  rewrite Hz in *. set (k2 := with_FT _ k1) in *.
  destruct (IH fid (fun g => if decide (g = f) then 0 + 1 else R g)%Z (set_FIDT (<[i := Some f]> (FIDT pc)) pc) k2 K2)
    as (m & -> & K3 & Hs3 & Hss).
  - intros g gc. unfold k2. cbn [FT with_FT]. intros [[<- <-]|[Hne Hg]]%lookup_insert_Some Hng; [done|].
    rewrite decide_False by done. by apply Hs.
  - apply lookup_insert_eq.
  - simpl in Hlen. lia.
  - done.
  - intros g Hg. assert (g <> f) by (by intros ->). destruct (Hf g) as (? & ? & ? & ?); [by right|].
    rewrite decide_False by done. split; [done|]. split; [done|]. split; [|done].
    unfold k2. cbn [FT with_FT]. by rewrite lookup_insert_ne.
  - exists m. assert (forall g, (R g + taken (f :: fcb) g = (if decide (g = f) then 0 + 1 else R g) + taken fcb g)%Z) as HR.
    { intros g. rewrite taken_cons by done. case_decide; [subst|]; lia. }
    split; [|split; [|split]].
    + unfold k2, k1, set_fids, with_PT, with_FT. cbn. by rewrite insert_insert_eq.
    + eapply fcbs_ext; [exact K3|exact HR|done|done].
    + intros g gc Hg Hng. rewrite HR. by apply Hs3.
    + refine (same_streams_trans _ _ _ _ Hss). by apply same_streams_write.
Qed.
(** *** [FCB_reserve] and [open_stream] *)

Lemma reserve_ok n hold k cur pc num ffl :
  files_ok n hold k -> PT k !! cur = Some pc ->
  fcbs_ok (refs n (uses hold k)) ffl k -> streams_ok (refs n (uses hold k)) ffl k ->
  let free := free_ids 0 (FIDT pc) in
  exists m h, same_streams (FT k) m /\
    if decide (num <= length free /\ num <= length ffl) then
      let k1 := with_FT m (with_flists h k) in
      FCB_reserve num cur k = Ret (Some (take num free, take num ffl),
        with_PT (set_fids cur (set_many (take num free) (take num ffl) (FIDT pc)) pc k) k1) /\
      fcbs_ok (fun f => refs n (uses hold k) f + taken (take num ffl) f)%Z (drop num ffl) k1 /\
      streams_ok (fun f => refs n (uses hold k) f + taken (take num ffl) f)%Z ffl k1
    else
      FCB_reserve num cur k = Ret (None, with_FT m (with_flists h k)) /\ files_ok n hold (with_FT m (with_flists h k)).
Proof.
  intros F Hp K Hs free. unfold FCB_reserve. rewrite Hp. cbn [deref]. rewrite ret_bind.
  destruct (fl_len _ _ _ F _ _ Hp) as [Hn Hlen]. rewrite find_fids_spec by (done || unfold MAX_FILEID; lia).
  rewrite drop_0. fold free. destruct (decide (num <= length free)) as [Hfr|Hfr].
  2: { exists (FT k), (flists k). rewrite (decide_False (P := _ /\ _)) by tauto. assert (with_FT (FT k) (with_flists (flists k) k) = k) as -> by (by destruct k).
       done. }
  destruct (acquire_FCBs_ok num [] _ ffl ffl k K Hs ltac:(done)) as (m & h & -> & K1 & Hs1 & Hss). rewrite ret_bind.
  rewrite app_nil_l. set (k1 := with_FT m (with_flists h k)) in *.
  pose proof (ffl_nodup _ _ _ K) as Hnd. rewrite length_take.
  assert (forall f, f ∈ take num ffl -> (f ∉ drop num ffl) /\ f ∈ ffl /\ is_Some (FT k1 !! f) /\ refs n (uses hold k) f = 0%Z) as Htk.
  { intros f Hf. assert (f ∈ ffl) as Hin by (apply elem_of_take in Hf as (i & Hi & _); by eapply list_elem_of_lookup_2).
    destruct (fk_free _ _ _ K f Hin) as [Hx Hz]. split; [|split; [done|split; [|done]]].
    - rewrite <- (take_drop num ffl) in Hnd. apply NoDup_app in Hnd as (_ & Hd & _). by apply Hd.
    - specialize (Hss f). destruct Hx as [x Hx]. rewrite Hx in Hss. cbn [FT k1 with_FT].
      destruct (m !! f); [by eexists|done]. }
  destruct (decide (num `min` length ffl < num)) as [Hlt|Hge].
  - destruct (release_FCBs_ok (reverse (take num ffl)) (refs n (uses hold k)) (drop num ffl) k1 K1) as (h' & -> & K2).
    { rewrite reverse_Permutation. by apply NoDup_take. }
    { intros f Hf. rewrite elem_of_reverse in Hf. destruct (Htk f Hf) as (? & _ & ? & ?). done. }
    rewrite ret_bind. exists m, h'. split; [done|]. rewrite decide_False by lia. split; [done|].
    eapply files_after; [done| |done|apply F]. eexists. split.
    + eapply fcbs_ext; [exact K2|done..].
    + intros f fc Hf Hnf. apply Hs1; [done|]. intros Hin. apply Hnf. rewrite elem_of_app, elem_of_reverse.
      rewrite <- (take_drop num ffl), elem_of_app in Hin. tauto.
  - destruct (install_ok (take num free) (take num ffl) cur pc _ (drop num ffl) ffl k1 K1 Hs1 Hp)
      as (m' & -> & K2 & Hs2 & Hss'); [rewrite !length_take; lia|by apply NoDup_take|exact Htk|].
    rewrite ret_bind. exists m', h. split; [exact (same_streams_trans _ _ _ Hss Hss')|].
    rewrite decide_True by lia. split; [done|]. split; done.
Qed.
End reserve.

Section opening.
Context {Task T S B : Type} `{SerialOps B}.
Implicit Types (k : kernel Task T S B) (pc : PCB Task T) (f g cur : nat) (hold : nat -> list nat) (l : list (option nat)) (ffl : list nat).

Lemma taken_one f g : taken [f] g = if decide (g = f) then 1%Z else 0%Z.
Proof. unfold taken. apply decide_ext. by rewrite list_elem_of_singleton. Qed.

(** A failed [device_open] gives the id and the block back. *)
Lemma unreserve_ok n hold k cur pc i f m h ffl' :
  files_ok n hold k -> PT k !! cur = Some pc -> FIDT pc !! i = Some None -> (f ∉ ffl') ->
  fcbs_ok (fun g => refs n (uses hold k) g + taken [f] g)%Z ffl' (with_FT m (with_flists h k)) ->
  streams_ok (fun g => refs n (uses hold k) g + taken [f] g)%Z (f :: ffl') (with_FT m (with_flists h k)) ->
  refs n (uses hold k) f = 0%Z -> is_Some (m !! f) ->
  exists h', FCB_unreserve [i] [f] cur (with_PT (set_fids cur (<[i := Some f]> (FIDT pc)) pc k) (with_FT m (with_flists h k))) =
    Ret (with_FT m (with_flists h' k)) /\ files_ok n hold (with_FT m (with_flists h' k)).
Proof.
  intros F Hp Hi Hn K Hs Hz [fc Hf]. cbn [FCB_unreserve]. set (k1 := with_PT _ _).
  assert (i < length (FIDT pc)) as Hlt by (by eapply lookup_lt_Some).
  assert (PT k1 !! cur = Some (set_FIDT (<[i := Some f]> (FIDT pc)) pc)) as Hp1 by apply lookup_insert_eq.
  rewrite Hp1. cbn [deref]. rewrite ret_bind. cbn [FIDT set_FIDT]. rewrite list_lookup_insert_eq by done. cbn [deref].
  rewrite ret_bind, c_assert_True, ret_bind by done. rewrite (upd_PCB_eq _ _ _ _ Hp1), ret_bind. set (k2 := with_PT _ k1).
  destruct (release_ok (fun g => refs n (uses hold k) g + taken [f] g)%Z ffl' k2 f fc) as (h' & -> & K'); [eapply fcbs_ext; [exact K|done..]|exact Hf|done|].
  rewrite ret_bind. exists h'.
  assert (with_flists h' k2 = with_FT m (with_flists h' k)) as E.
  { unfold k2, k1, with_flists, with_PT, with_FT, set_fid, set_fids, set_FIDT. cbn. f_equal.
    rewrite insert_insert_eq. apply insert_id. rewrite list_insert_insert_eq, list_insert_id by done. by destruct pc. }
  rewrite E in *. split; [done|]. eapply files_after; [done| |done|apply F]. eexists. split.
  - eapply fcbs_ext; [exact K'| |done|done]. intros g. simpl. rewrite taken_one.
    assert (refs n (uses hold (with_FT m (with_flists h' k))) g = refs n (uses hold k) g) as -> by done.
    case_decide; [by subst|lia].
  - intros g gc Hg Hng. destruct (Hs g gc Hg) as [Hpos Hd]; [|split; [|exact Hd]].
    + rewrite elem_of_app, list_elem_of_singleton in Hng. rewrite elem_of_cons. tauto.
    + rewrite taken_one, decide_False in Hpos; [|intros ->; apply Hng; list_mem].
      change (0 < refs n (uses hold k) g)%Z. lia.
Qed.

(** [open_stream]: the lowest free id for a block that nobody uses, or no change. *)
Lemma open_ok n hold k cur pc major minor :
  files_ok n hold k -> devices_ok k -> PT k !! cur = Some pc ->
  exists r k', open_stream cur major minor k = Ret (r, k') /\ files_ok n hold k' /\ same_rest k k' /\
    ((r = NOFILE /\ PT k' = PT k /\ same_streams (FT k) (FT k') /\
      (free_ids 0 (FIDT pc) = [] \/ (forall f fc, FT k !! f = Some fc -> (0 < refs n (uses hold k) f)%Z) \/
       match major with DEV_NULL => 1 <= minor | DEV_SERIAL => serial_ports (ports k) <= minor end)) \/
     exists i rest f obj, r = Z.of_nat i /\ free_ids 0 (FIDT pc) = i :: rest /\ refs n (uses hold k) f = 0%Z /\
       match major with DEV_NULL => minor = 0 /\ obj = None | DEV_SERIAL => obj = Some minor /\ minor < serial_ports (ports k) end /\
       PT k' = set_fids cur (<[i := Some f]> (FIDT pc)) pc k /\ FT k' !! f = Some (mkFCB 1 obj (Some major)) /\
       forall g, g <> f -> stream <$> FT k' !! g = stream <$> FT k !! g).
Proof.
  intros F D Hp. destruct (fl_inv _ _ _ F) as (ffl & K & Hs). destruct (fl_len _ _ _ F _ _ Hp) as [Hn Hlen].
  destruct (reserve_ok n hold k cur pc 1 ffl F Hp K Hs) as (m & h & Hss & Hres). unfold open_stream.
  destruct (decide (_ /\ _)) as [[Hfr Hff]|Hno].
  2: { destruct Hres as [-> F1]. rewrite ret_bind. eexists _, _. split; [done|]. split; [done|]. split; [done|]. left.
       split; [done|]. split; [done|]. split; [done|]. destruct (free_ids 0 (FIDT pc)) as [|i r]; [by left|]. right. left.
       destruct ffl as [|f ffl]; [|simpl in Hno; lia]. intros f fc Hf. apply (Hs f fc Hf). apply not_elem_of_nil. }
  destruct Hres as (-> & K1 & Hs1). rewrite ret_bind.
  destruct (free_ids 0 (FIDT pc)) as [|i rest] eqn:Efr; [simpl in Hfr; lia|].
  destruct ffl as [|f ffl]; [simpl in Hff; lia|]. change (take 1 (f :: ffl)) with [f] in *. change (take 1 (i :: rest)) with [i] in *.
  change (drop 1 (f :: ffl)) with ffl in *. cbn [set_many] in *.
  set (k1 := with_FT m (with_flists h k)) in *.
  assert (FIDT pc !! i = Some None) as Hi.
  { assert (i ∈ free_ids 0 (FIDT pc)) as Hin by (rewrite Efr; by left). apply free_ids_lookup in Hin as [_ Hin]. by rewrite Nat.sub_0_r in Hin. }
  pose proof (ffl_nodup _ _ _ K) as [Hnf _]%NoDup_cons. destruct (fk_free _ _ _ K f) as [[fc Hf] Hz]; [by left|].
  assert (is_Some (m !! f)) as [fm Hm]. { specialize (Hss f). rewrite Hf in Hss. destruct (m !! f); [by eexists|done]. }
  set (k2 := with_PT _ k1). assert (devices_ok k2) as D2 by (destruct D; by split).
  destruct (device_open_ok major minor k2 D2) as (o & -> & Ho). rewrite ret_bind. destruct o as [[obj d]|].
  - cbn [lookup list_lookup deref]. rewrite !ret_bind, (upd_FCB_eq f _ fm) by exact Hm. rewrite ret_bind.
    destruct Ho as (-> & Hobj & Hminor). eexists _, _. split; [done|]. set (k3 := with_FT _ k2).
    assert (forall g, refs n (uses hold k3) g = (refs n (uses hold k) g + taken [f] g)%Z) as HR.
    { intros g. rewrite (refs_set_fids n hold k k3 cur pc (<[i := Some f]> (FIDT pc)) g Hn Hp) by done.
      rewrite (occ_insert g _ _ _ _ Hi), taken_one. unfold one. rewrite (decide_False (P := None = _)) by done.
      repeat case_decide; simplify_eq; try done; lia. }
    assert (fcbs_ok (refs n (uses hold k3)) ffl k3) as K3.
    { eapply (fcbs_ext _ _ _ (with_FT (<[f := set_stream obj major fm]> (FT k1)) k1)); [|exact HR|done|done].
      apply (fcbs_write _ ffl k1 f fm); [done|exact Hm|]. intros Hfn. simpl. apply (fk_count _ _ _ K1 _ _ Hm Hfn). }
    assert (refcount fm = 1%Z) as Hone. { rewrite (fk_count _ _ _ K1 _ _ Hm Hnf), Hz, taken_one, decide_True by done. lia. }
    split; [|split; [done|right]].
    + split; [|intros p pc' Hp'; refine (set_fids_len n hold k cur pc _ p pc' F Hp _ Hp'); by rewrite length_insert|apply F|apply F].
      exists ffl. split; [done|]. intros g gc. unfold k3. cbn [FT with_FT]. intros [[<- <-]|[Hne Hg]]%lookup_insert_Some Hng; fold k3.
      * rewrite HR, taken_one, Hz, decide_True by done. split; [lia|]. exists major. split; [done|]. by destruct major.
      * destruct (Hs1 g gc Hg) as [Hpos Hd]; [rewrite elem_of_cons; naive_solver|]. rewrite HR. done.
    + exists i, rest, f, obj. split; [done|]. split; [done|]. split; [done|]. split.
      { destruct major; [done|]. destruct Hobj as (? & -> & Hlt). split; [done|]. by injection Hminor as ->. }
      split; [done|]. split.
      * unfold k3. cbn [FT with_FT]. rewrite lookup_insert_eq. unfold set_stream. by rewrite Hone.
      * intros g Hg. unfold k3. cbn [FT with_FT]. rewrite lookup_insert_ne by done. apply (Hss g).
  - destruct (unreserve_ok n hold k cur pc i f m h ffl F Hp Hi Hnf K1 Hs1 Hz) as (h' & E & F'); [by eexists|].
    unfold k2, k1. rewrite E, ret_bind. eexists _, _. split; [done|]. split; [done|]. split; [done|]. left. split; [done|]. split; [done|]. split; [done|].
    right. right. exact Ho.
Qed.
End opening.
