(* ===== verification/Proc.v ===== *)
(** * Processes (kernel_proc.c)

  The process table with its free list, and the system calls on processes.  [cur] is the calling process
  ([CURPROC]).  A call returns, or sleeps in [kernel_wait] on the [child_exit] of its process: it is split
  there, and [Blocked] says where it goes on.  [sys_Exit] does not return: its end is [Gone]. *)

From S2P Require Import Prelude Rlist Lists Iface Kernel Dev Streams.

(** ** Operations *)

(** Where a call sleeps in [kernel_wait]: in [wait_for_specific_child], in [wait_for_any_child], or there when
  it was called by [sys_Exit] of the initial process; and in the driver, inside [sys_Read]. *)
Inductive waiting :=
  | InChild (cpid : nat)
  | InAnyChild
  | InExit (exitval : Z)
  | InRead (f : nat) (devread : Device_type) (sobj : option nat) (size : nat).

(** How [sys_WaitChild] ends. *)
Inductive wait_result :=
  | WDone (cpid : Z) (status : option Z)
  | WBlock (w : waiting).

(** How [sys_Exit] ends. *)
Inductive exit_result :=
  | XGone
  | XBlock.

Section operations.
Context {Task T S B : Type} `{SerialOps B} `{SpawnOps T S} `{WakeOps T S}.
Implicit Types (k : kernel Task T S B) (p cur c : nat).

Definition get_pcb (pid : nat) k : outcome (option nat) :=
  pc ← deref (PT k !! pid);
  Ret (if decide (pstate pc = FREE) then None else Some pid).

Definition get_pid (pcb : option nat) : Z := match pcb with None => NOPROC | Some p => Z.of_nat p end.

Definition zero_PCB : PCB Task T := mkPCB FREE None 0 None None 0 None [] (repeat None MAX_FILEID).

Definition initialize_PCB p k : outcome (kernel Task T S B) :=
  k ← upd_PCB p (fun pc => mkPCB FREE (parent pc) (exitval pc) (main_thread pc) (main_task pc) 0 None []
                             (repeat None MAX_FILEID)) k;
  let '(_, h) := rlnode_init (children_list p) None (plists k) in
  let '(_, h) := rlnode_init (exited_list p) None h in
  let '(_, h) := rlnode_init (children_node p) (Some p) h in
  let '(_, h) := rlnode_init (exited_node p) (Some p) h in
  Ret (with_plists h k).

Fixpoint initialize_PCBs (ps : list nat) k : outcome (kernel Task T S B) :=
  match ps with [] => Ret k | p :: ps => k ← initialize_PCB p k; initialize_PCBs ps k end.

(** [n] blocks are left to put on the free list, from the last to the first. *)
Fixpoint build_freelist (n : nat) k : outcome (kernel Task T S B) :=
  match n with
  | O => Ret k
  | Datatypes.S p =>
      k ← upd_PCB p (set_parent (pcb_freelist k)) k;
      build_freelist p (with_freelist (Some p) (process_count k) k)
  end.

Definition acquire_PCB k : outcome (option nat * kernel Task T S B) :=
  match pcb_freelist k with
  | None => Ret (None, k)
  | Some p =>
      k ← upd_PCB p (set_pstate ALIVE) k;
      pc ← deref (PT k !! p);
      Ret (Some p, with_freelist (parent pc) (u32 (process_count k + 1)) k)
  end.

Definition release_PCB p k : outcome (kernel Task T S B) :=
  k ← upd_PCB p (set_pstate FREE) k;
  k ← upd_PCB p (set_parent (pcb_freelist k)) k;
  Ret (with_freelist (Some p) (u32 (process_count k - 1)) k).

(** *** Exec *)

(** The loop that inherits the file streams, [m] entries from [i]. *)
Fixpoint inherit_files (m i newproc curproc : nat) k : outcome (kernel Task T S B) :=
  match m with
  | O => Ret k
  | Datatypes.S m =>
      pc ← deref (PT k !! curproc);
      o ← deref (FIDT pc !! i);
      k ← upd_PCB newproc (set_fid i o) k;
      k ← match o with Some f => FCB_incref f k | None => Ret k end;
      inherit_files m (i + 1) newproc curproc k
  end.

(** [malloc(argl)] and [memcpy]: a copy of the first [argl] bytes. *)
Definition copy_args (argl : Z) (args : option bytes) : outcome (option bytes) :=
  match args with
  | None => Ret None
  | Some a => if decide (0 <= argl <= Z.of_nat (length a))%Z then Ret (Some (take (Z.to_nat argl) a)) else Err BadAccess
  end.

(** [cur] is [None] before the scheduler runs: [CURPROC] is not read for the first two processes. *)
Definition sys_Exec (cur : option nat) (call : option Task) (argl : Z) (args : option bytes) k : outcome (Z * kernel Task T S B) :=
  '(newproc, k) ← acquire_PCB k;
  match newproc with
  | None => Ret (get_pid None, k)
  | Some newproc =>
      k ← (if decide (get_pid (Some newproc) <= 1)%Z then upd_PCB newproc (set_parent None) k
           else
             curproc ← deref cur;
             k ← upd_PCB newproc (set_parent (Some curproc)) k;
             h ← rlist_push_front (children_list curproc) (children_node newproc) (plists k);
             inherit_files MAX_FILEID 0 newproc curproc (with_plists h k));
      a ← copy_args argl args;
      k ← upd_PCB newproc (set_task call argl a) k;
      k ← match call with
          | None => Ret k
          | Some _ =>
              '(t, s) ← spawn newproc (sched k);
              k ← upd_PCB newproc (set_main_thread (Some t)) (with_sched s k);
              '(_, s) ← wake t (sched k);
              Ret (with_sched s k)
          end;
      Ret (get_pid (Some newproc), k)
  end.

Definition sys_GetPid cur : Z := get_pid (Some cur).

Definition sys_GetPPid cur k : outcome Z := pc ← deref (PT k !! cur); Ret (get_pid (parent pc)).

(** *** WaitChild *)

(** The status that the caller gets, if it wants one. *)
Definition cleanup_zombie c k : outcome (Z * kernel Task T S B) :=
  pc ← deref (PT k !! c);
  '(_, h) ← rlist_remove (children_node c) (plists k);
  '(_, h) ← rlist_remove (exited_node c) h;
  k ← release_PCB c (with_plists h k);
  Ret (exitval pc, k).

(** [kernel_wait(&parent->child_exit)]: the process goes to sleep. *)
Definition wait_child_exit cur k : outcome (kernel Task T S B) :=
  upd_PCB cur (fun pc => set_child_exit (child_exit pc ++ [cur]) pc) k.

(** [kernel_broadcast(&p->child_exit)]. *)
Definition broadcast_child_exit p k : outcome (kernel Task T S B) := upd_PCB p (set_child_exit []) k.

(** One round of the loop of [wait_for_specific_child], and its end. *)
Definition specific_child_loop cur c k : outcome (wait_result * kernel Task T S B) :=
  pc ← deref (PT k !! c);
  if decide (pstate pc = ALIVE) then k ← wait_child_exit cur k; Ret (WBlock (InChild c), k)
  else '(status, k) ← cleanup_zombie c k; Ret (WDone (get_pid (Some c)) (Some status), k).

Definition wait_for_specific_child cur (cpid : Z) k : outcome (wait_result * kernel Task T S B) :=
  if decide (cpid < 0 \/ Z.of_nat (size (PT k)) <= cpid)%Z then Ret (WDone NOPROC None, k)
  else
    child ← get_pcb (Z.to_nat cpid) k;
    match child with
    | None => Ret (WDone NOPROC None, k)
    | Some c =>
        pc ← deref (PT k !! c);
        if decide (parent pc <> Some cur) then Ret (WDone NOPROC None, k)
        else specific_child_loop cur c k
    end.

(** One round of the loop of [wait_for_any_child], and its end. *)
Definition any_child_loop cur k : outcome (wait_result * kernel Task T S B) :=
  e ← is_rlist_empty (exited_list cur) (plists k);
  if (e : bool) then k ← wait_child_exit cur k; Ret (WBlock InAnyChild, k)
  else
    nd ← deref (plists k !! exited_list cur);
    nn ← deref (plists k !! next nd);
    c ← deref (obj nn);
    pc ← deref (PT k !! c);
    _ ← c_assert (bool_decide (pstate pc = ZOMBIE));
    '(status, k) ← cleanup_zombie c k;
    Ret (WDone (get_pid (Some c)) (Some status), k).

Definition wait_for_any_child cur k : outcome (wait_result * kernel Task T S B) :=
  e ← is_rlist_empty (children_list cur) (plists k);
  if (e : bool) then Ret (WDone NOPROC None, k) else any_child_loop cur k.

Definition sys_WaitChild cur (cpid : Z) k : outcome (wait_result * kernel Task T S B) :=
  if decide (cpid <> NOPROC) then wait_for_specific_child cur cpid k else wait_for_any_child cur k.

(** *** Exit *)

(** The loop that cleans up the file ids, [m] entries from [i]. *)
Fixpoint close_files (m i curproc : nat) k : outcome (kernel Task T S B) :=
  match m with
  | O => Ret k
  | Datatypes.S m =>
      pc ← deref (PT k !! curproc);
      o ← deref (FIDT pc !! i);
      k ← match o with
          | None => Ret k
          | Some f => '(_, k) ← FCB_decref f k; upd_PCB curproc (set_fid i None) k
          end;
      close_files m (i + 1) curproc k
  end.

(** The loop that gives the children to the initial process. *)
Fixpoint reparent_loop (fuel curproc : nat) (initpcb : option nat) k : outcome (kernel Task T S B) :=
  match fuel with
  | O => Err OutOfFuel
  | Datatypes.S fuel =>
      e ← is_rlist_empty (children_list curproc) (plists k);
      if (e : bool) then Ret k
      else
        '(child, h) ← rlist_pop_front (children_list curproc) (plists k);
        nd ← deref (h !! child);
        c ← deref (obj nd);
        k ← upd_PCB c (set_parent initpcb) (with_plists h k);
        q ← deref initpcb;
        h ← rlist_push_front (children_list q) child (plists k);
        reparent_loop fuel curproc initpcb (with_plists h k)
  end.

(** Handing the exited children to the initial process. *)
Definition hand_over_exited curproc (initpcb : option nat) k : outcome (kernel Task T S B) :=
  e ← is_rlist_empty (exited_list curproc) (plists k);
  if (e : bool) then Ret k
  else
    q ← deref initpcb;
    h ← rlist_append (exited_list q) (exited_list curproc) (plists k);
    broadcast_child_exit q (with_plists h k).

(** Going to the parent's list of exited children. *)
Definition tell_parent curproc k : outcome (kernel Task T S B) :=
  pc ← deref (PT k !! curproc);
  match parent pc with
  | None => Ret k
  | Some q =>
      h ← rlist_push_front (exited_list q) (exited_node curproc) (plists k);
      broadcast_child_exit q (with_plists h k)
  end.

(** [sys_Exit] after the loop of the initial process. *)
Definition exit_process curproc (exitval : Z) k : outcome (kernel Task T S B) :=
  k ← upd_PCB curproc (set_args None) k;
  k ← close_files MAX_FILEID 0 curproc k;
  initpcb ← get_pcb 1 k;
  k ← reparent_loop (Datatypes.S (size (plists k))) curproc initpcb k;
  k ← hand_over_exited curproc initpcb k;
  k ← tell_parent curproc k;
  k ← upd_PCB curproc (set_main_thread None) k;
  upd_PCB curproc (fun pc => set_exitval exitval (set_pstate ZOMBIE pc)) k.

(** The loop of the initial process: [while(sys_WaitChild(NOPROC,NULL)!=NOPROC)]. *)
Fixpoint exit_wait_loop (fuel cur : nat) k : outcome (exit_result * kernel Task T S B) :=
  match fuel with
  | O => Err OutOfFuel
  | Datatypes.S fuel =>
      '(r, k) ← sys_WaitChild cur NOPROC k;
      match r with
      | WBlock _ => Ret (XBlock, k)
      | WDone cpid _ => if decide (cpid = NOPROC) then Ret (XGone, k) else exit_wait_loop fuel cur k
      end
  end.

Definition sys_Exit cur (exitval : Z) k : outcome (exit_result * kernel Task T S B) :=
  if decide (sys_GetPid cur = 1%Z) then
    '(r, k) ← exit_wait_loop (Datatypes.S (size (PT k))) cur k;
    match r with
    | XBlock => Ret (XBlock, k)
    | XGone => k ← exit_process cur exitval k; Ret (XGone, k)
    end
  else k ← exit_process cur exitval k; Ret (XGone, k).

(** The initial process wakes up in its loop: it ends the call in which it slept, and goes on. *)
Definition exit_resume cur (exitval : Z) k : outcome (exit_result * kernel Task T S B) :=
  '(r, k) ← any_child_loop cur k;
  match r with
  | WBlock _ => Ret (XBlock, k)
  | WDone _ _ => sys_Exit cur exitval k
  end.

Definition sys_OpenInfo : Z := NOFILE.

(** [initialize_processes], for a table of [n] blocks. *)
Definition initialize_processes (n : nat) k : outcome (kernel Task T S B) :=
  k ← initialize_PCBs (seq 0 n) k;
  k ← build_freelist n (with_freelist None (process_count k) k);
  '(pid, k) ← sys_Exec None None 0 None (with_freelist (pcb_freelist k) 0 k);
  if decide (pid <> 0%Z) then Err Fatal else Ret k.
End operations.
