(* ===== verification/ProcInv.v ===== *)
(** * The invariant of the process table

  The lists of children and of exited children, the free list, and the tree that the parents make; every
  operation of [Proc] keeps them. *)

From S2P Require Import Prelude Rlist Lists Iface Kernel Dev Streams Proc.

(** ** The lists of the process table

  [L KC p] are the children of [p], [L KE p] those that have exited, in the order of the lists. *)

Inductive kind := KC | KE.

#[export] Instance kind_eq_dec : EqDecision kind.
Proof. solve_decision. Defined.

Definition list_of (kd : kind) (p : nat) : pnode := match kd with KC => children_list p | KE => exited_list p end.
Definition node_of (kd : kind) (c : nat) : pnode := match kd with KC => children_node c | KE => exited_node c end.

#[export] Instance node_of_inj kd : Inj (=) (=) (node_of kd).
Proof. destruct kd; by intros x y [=]. Qed.

Abbreviation lists := (kind -> nat -> list nat).

Definition plist (n : nat) (L : lists) (x : pnode) : option (list pnode) :=
  match x with
  | children_list p => if decide (p < n) then Some (node_of KC <$> L KC p) else None
  | exited_list p => if decide (p < n) then Some (node_of KE <$> L KE p) else None
  | _ => None
  end.

Definition on_no_list (n : nat) (L : lists) (kd : kind) (c : nat) : Prop := forall p, p < n -> c ∉ L kd p.

Definition pfree (n : nat) (L : lists) (x : pnode) : Prop :=
  match x with
  | children_node c => c < n /\ on_no_list n L KC c
  | exited_node c => c < n /\ on_no_list n L KE c
  | _ => False
  end.

Definition set_list (kd : kind) (p : nat) (l : list nat) (L : lists) : lists :=
  fun kd' q => if decide (kd' = kd /\ q = p) then l else L kd' q.

Lemma set_list_eq kd p l L : set_list kd p l L kd p = l.
Proof. unfold set_list. by rewrite decide_True. Qed.

Lemma set_list_ne kd p l L kd' q : kd' <> kd \/ q <> p -> set_list kd p l L kd' q = L kd' q.
Proof. intros Hne. unfold set_list. rewrite decide_False; [done|]. intros [-> ->]. tauto. Qed.

Lemma plist_of n L kd p : p < n -> plist n L (list_of kd p) = Some (node_of kd <$> L kd p).
Proof. intros Hp. destruct kd; simpl; by rewrite decide_True. Qed.

Lemma plist_set n L kd p l x : p < n ->
  plist n (set_list kd p l L) x = upd_list (list_of kd p) (node_of kd <$> l) (plist n L) x.
Proof.
  intros Hp. unfold upd_list. case_decide as E.
  - subst x. by rewrite plist_of, set_list_eq.
  - destruct x as [q|q|q|q]; simpl; try done; case_decide; try done; f_equal; f_equal; apply set_list_ne;
      destruct kd; simpl in E; (try (left; done)); right; congruence.
Qed.

Lemma node_pfree n L kd c : pfree n L (node_of kd c) <-> c < n /\ on_no_list n L kd c.
Proof. by destruct kd. Qed.

(** Two families of free nodes, given how their lists differ. *)
Lemma pfree_iff n L L' (P : pnode -> Prop) :
  (forall kd c, c < n -> on_no_list n L' kd c <-> P (node_of kd c)) -> (forall x, P x -> pfree n L x \/ exists kd c, x = node_of kd c /\ c < n) ->
  forall x, pfree n L' x <-> P x.
Proof.
  intros H1 H2 x. split.
  - destruct x as [q|q|q|q]; simpl; try done; intros [Hq Hno].
    + by apply (H1 KC q Hq).
    + by apply (H1 KE q Hq).
  - intros HP. assert (forall kd c, x = node_of kd c -> c < n -> pfree n L' x) as Hk.
    { intros kd c -> Hc. apply node_pfree. split; [done|]. by apply H1. }
    destruct (H2 x HP) as [Hx|(kd & c & -> & Hc)]; [|by eapply Hk].
    destruct x as [q|q|q|q]; try done; destruct Hx as [Hq _]; [by apply (Hk KC q)|by apply (Hk KE q)].
Qed.

Section raw.
Context {Task T S B : Type}.
Implicit Types (k : kernel Task T S B) (pc : PCB Task T) (p c q : nat) (L : lists) (fl : list nat).

(** The free list, linked by the [parent] field. *)
Fixpoint chain (m : gmap nat (PCB Task T)) (o : option nat) fl : Prop :=
  match fl with
  | [] => o = None
  | p :: fl => o = Some p /\ exists pc, m !! p = Some pc /\ chain m (parent pc) fl
  end.

Record praw (n : nat) k L fl : Prop := {
  pr_dom p : is_Some (PT k !! p) <-> p < n;
  pr_forest : forest (plists k) (plist n L) (pfree n L);
  pr_key kd c : c < n -> obj_of (plists k) (node_of kd c) = Some (Some c);
  pr_chain : chain (PT k) (pcb_freelist k) fl;
  pr_free p : p ∈ fl <-> exists pc, PT k !! p = Some pc /\ pstate pc = FREE;
  pr_nodup : NoDup fl;
  pr_count : process_count k = (Z.of_nat n - Z.of_nat (length fl))%Z;
  pr_bound : (Z.of_nat n < 2 ^ 32)%Z
}.

Lemma chain_ext m m' o fl :
  chain m o fl -> (forall p pc, p ∈ fl -> m !! p = Some pc -> exists pc', m' !! p = Some pc' /\ parent pc' = parent pc) ->
  chain m' o fl.
Proof.
  revert o. induction fl as [|p fl IH]; intros o Hc Hm; simpl in *; [done|].
  destruct Hc as (-> & pc & Hp & Hc). split; [done|]. destruct (Hm p pc) as (pc' & Hp' & E); [by left|done|].
  exists pc'. split; [done|]. rewrite E. apply IH; [done|]. intros q qc Hq. apply Hm. by right.
Qed.

(** Changing a block, but not whether it is free. *)
Lemma praw_upd n k L fl p pc pc' :
  praw n k L fl -> PT k !! p = Some pc -> (pstate pc' = FREE <-> pstate pc = FREE) -> (p ∈ fl -> parent pc' = parent pc) ->
  praw n (with_PT (<[p := pc']> (PT k)) k) L fl.
Proof.
  intros [R1 R2 R3 R4 R5 R6 R7 R8] Hp Hs Hpar. split; try done; cbn [PT with_PT pcb_freelist].
  - intros q. rewrite lookup_insert_is_Some, R1. destruct (decide (p = q)) as [<-|]; [|tauto].
    rewrite <- R1. split; [by eexists|by left].
  - eapply chain_ext; [exact R4|]. intros q qc Hq Hqc. destruct (decide (p = q)) as [<-|Hne].
    + exists pc'. rewrite lookup_insert_eq. split; [done|]. rewrite Hpar by done. congruence.
    + exists qc. by rewrite lookup_insert_ne.
  - intros q. rewrite R5. destruct (decide (p = q)) as [<-|Hne]; [|by rewrite lookup_insert_ne].
    rewrite lookup_insert_eq, Hp. naive_solver.
Qed.

(** A change of the lists. *)
Lemma praw_lists n k L fl h L' :
  praw n k L fl -> forest h (plist n L') (pfree n L') -> (forall x, obj_of h x = obj_of (plists k) x) ->
  praw n (with_plists h k) L' fl.
Proof. intros [R1 R2 R3 R4 R5 R6 R7 R8] Hf Ho. split; try done. intros kd c Hc. cbn [plists with_plists]. rewrite Ho. by apply R3. Qed.

(** A change elsewhere. *)
Lemma praw_same n k k' L fl :
  praw n k L fl -> PT k' = PT k -> plists k' = plists k -> pcb_freelist k' = pcb_freelist k ->
  process_count k' = process_count k -> praw n k' L fl.
Proof. intros [R1 R2 R3 R4 R5 R6 R7 R8] E1 E2 E3 E4. split; rewrite ?E1, ?E2, ?E3, ?E4; done. Qed.

Lemma praw_list_NoDup n k L fl kd p : praw n k L fl -> p < n -> NoDup (L kd p).
Proof. intros R Hp. eapply NoDup_fmap_1, (forest_NoDup _ _ _ (list_of kd p)); [apply R|by apply plist_of]. Qed.

(** Everything on a list is below [n], and on one list only. *)
Lemma praw_one_list n k L fl kd c p q : praw n k L fl -> p < n -> q < n -> c ∈ L kd p -> c ∈ L kd q -> p = q.
Proof.
  intros R Hp Hq H1 H2. assert (list_of kd p = list_of kd q) as E; [|by destruct kd; injection E].
  eapply (fo_one _ _ _ (pr_forest _ _ _ _ R) _ _ _ _ (node_of kd c)); try (by apply plist_of);
    by apply list_elem_of_fmap_2.
Qed.

Lemma empty_ok n k L fl kd p : praw n k L fl -> p < n ->
  is_rlist_empty (list_of kd p) (plists k) = Ret (bool_decide (L kd p = [])).
Proof.
  intros R Hp. rewrite (forest_empty _ _ _ _ _ (pr_forest _ _ _ _ R) (plist_of n L kd p Hp)). f_equal.
  apply bool_decide_ext. destruct (L kd p); simpl; split; done.
Qed.

Lemma push_list_ok n k L fl kd p c : praw n k L fl -> p < n -> c < n -> on_no_list n L kd c ->
  exists h, rlist_push_front (list_of kd p) (node_of kd c) (plists k) = Ret h /\
    praw n (with_plists h k) (set_list kd p (c :: L kd p) L) fl.
Proof.
  intros R Hp Hc Hno.
  destruct (forest_push_front _ _ _ _ _ (node_of kd c) (pr_forest _ _ _ _ R) (plist_of n L kd p Hp)) as (h & E & Hf & Ho).
  { by apply node_pfree. }
  exists h. split; [done|]. eapply praw_lists; [done| |done]. eapply forest_ext; [exact Hf| |].
  - intros x. rewrite plist_set by done. done.
  - apply (pfree_iff n L).
    + intros kd' c' Hc'. rewrite node_pfree. unfold on_no_list. destruct (decide (kd' = kd)) as [->|Hk].
      * split.
        -- intros Hn. split; [|intros [= ->]%(inj _)]; [|by apply (Hn p Hp); rewrite set_list_eq; left].
           split; [done|]. intros q Hq Hin. apply (Hn q Hq). destruct (decide (q = p)) as [->|].
           ++ rewrite set_list_eq. by right.
           ++ by rewrite set_list_ne by auto.
        -- intros [[_ Hn] Hne] q Hq. destruct (decide (q = p)) as [->|]; [|rewrite set_list_ne by auto; by apply Hn].
           rewrite set_list_eq. intros [->|Hin]%elem_of_cons; [done|]. by apply (Hn p).
      * split.
        -- intros Hn. split; [split; [done|]|by destruct kd, kd'].
           intros q Hq. rewrite <- (set_list_ne kd p (c :: L kd p) L kd' q) by auto. by apply Hn.
        -- intros [[_ Hn] _] q Hq. rewrite set_list_ne by auto. by apply Hn.
    + intros x [Hx _]. by left.
Qed.
(** [c] leaves the list of [p]. *)
Lemma leave_pfree n k L fl kd p l1 l2 c :
  praw n k L fl -> p < n -> c < n -> L kd p = l1 ++ c :: l2 ->
  forall x, pfree n (set_list kd p (l1 ++ l2) L) x <-> (pfree n L x \/ x = node_of kd c).
Proof.
  intros R Hp Hc HL. pose proof (praw_list_NoDup _ _ _ _ kd p R Hp) as Hnd. rewrite HL in Hnd.
  assert (c ∉ l1 ++ l2) as Hcl. { apply NoDup_app in Hnd as (_ & Hd & [? _]%NoDup_cons). intros [Hi|?]%elem_of_app; [|done]. apply (Hd c Hi). by left. }
  apply (pfree_iff n L); [|intros x [?| ->]; [by left|right; by exists kd, c]].
  intros kd' c' Hc'. rewrite node_pfree. unfold on_no_list. destruct (decide (kd' = kd)) as [->|Hk].
  - split.
    + intros Hn. destruct (decide (c' = c)) as [->|Hne]; [by right|left]. split; [done|]. intros q Hq Hin.
      apply (Hn q Hq). destruct (decide (q = p)) as [->|]; [|by rewrite set_list_ne by auto].
      rewrite set_list_eq. rewrite HL in Hin. list_mem.
    + intros [[_ Hn]|[= ->]%(inj _)] q Hq Hin.
      * apply (Hn q Hq). destruct (decide (q = p)) as [->|]; [|by rewrite set_list_ne in Hin by auto].
        rewrite set_list_eq in Hin. rewrite HL. list_mem.
      * destruct (decide (q = p)) as [->|Hne]; [by rewrite set_list_eq in Hin|].
        rewrite set_list_ne in Hin by auto. apply Hne. eapply (praw_one_list _ _ _ _ kd c); [done..|]. rewrite HL. list_mem.
  - split.
    + intros Hn. left. split; [done|]. intros q Hq. rewrite <- (set_list_ne kd p (l1 ++ l2) L kd' q) by auto. by apply Hn.
    + intros [[_ Hn]|E] q Hq; [|by destruct kd, kd']. rewrite set_list_ne by auto. by apply Hn.
Qed.

Lemma remove_list_ok n k L fl kd p l1 l2 c : praw n k L fl -> p < n -> c < n -> L kd p = l1 ++ c :: l2 ->
  exists h, rlist_remove (node_of kd c) (plists k) = Ret (node_of kd c, h) /\
    praw n (with_plists h k) (set_list kd p (l1 ++ l2) L) fl.
Proof.
  intros R Hp Hc HL.
  destruct (forest_remove _ _ _ (list_of kd p) _ (node_of kd <$> l1) (node_of kd <$> l2) (node_of kd c) (pr_forest _ _ _ _ R)
    (plist_of n L kd p Hp)) as (h & E & Hf & Ho); [by rewrite HL, fmap_app|].
  exists h. split; [done|]. eapply praw_lists; [done| |done]. eapply forest_ext; [exact Hf| |].
  - intros x. rewrite plist_set, fmap_app by done. done.
  - by eapply leave_pfree.
Qed.

Lemma pop_list_ok n k L fl kd p c l : praw n k L fl -> p < n -> c < n -> L kd p = c :: l ->
  exists h, rlist_pop_front (list_of kd p) (plists k) = Ret (node_of kd c, h) /\
    praw n (with_plists h k) (set_list kd p l L) fl.
Proof.
  intros R Hp Hc HL. pose proof (plist_of n L kd p Hp) as Hpl. rewrite HL in Hpl.
  destruct (forest_pop_front _ _ _ (list_of kd p) (node_of kd c) _ (pr_forest _ _ _ _ R) Hpl) as (h & E & Hf & Ho).
  exists h. split; [done|]. eapply praw_lists; [done| |done]. eapply forest_ext; [exact Hf| |].
  - intros x. by rewrite plist_set.
  - by eapply (leave_pfree n k L fl kd p [] l c).
Qed.

(** Removing a node that is on no list. *)
Lemma remove_free_ok n k L fl kd c : praw n k L fl -> c < n -> on_no_list n L kd c ->
  rlist_remove (node_of kd c) (plists k) = Ret (node_of kd c, plists k).
Proof. intros R Hc Hno. apply rlist_remove_single, (fo_free _ _ _ (pr_forest _ _ _ _ R)), node_pfree. done. Qed.

Lemma append_list_ok n k L fl kd a b : praw n k L fl -> a < n -> b < n -> a <> b ->
  exists h, rlist_append (list_of kd a) (list_of kd b) (plists k) = Ret h /\
    praw n (with_plists h k) (set_list kd a (L kd a ++ L kd b) (set_list kd b [] L)) fl.
Proof.
  intros R Ha Hb Hne.
  destruct (forest_append _ _ _ (list_of kd a) (list_of kd b) _ _ (pr_forest _ _ _ _ R) (plist_of n L kd a Ha) (plist_of n L kd b Hb))
    as (h & E & Hf & Ho); [by destruct kd; intros [= ?]|].
  exists h. split; [done|]. eapply praw_lists; [done| |done]. eapply forest_ext; [exact Hf| |].
  - intros x. rewrite plist_set, fmap_app by done. unfold upd_list. case_decide; [done|]. by rewrite plist_set.
  - apply (pfree_iff n L); [|by left]. intros kd' c Hc. rewrite node_pfree. unfold on_no_list.
    assert (forall q x, q < n -> x ∈ set_list kd a (L kd a ++ L kd b) (set_list kd b [] L) kd' q -> exists q', q' < n /\ x ∈ L kd' q') as H1.
    { intros q x Hq. unfold set_list. case_decide as D1; [destruct D1 as [-> ->]; rewrite elem_of_app; naive_solver|].
      case_decide; [by rewrite elem_of_nil|naive_solver]. }
    assert (forall q x, q < n -> x ∈ L kd' q -> exists q', q' < n /\ x ∈ set_list kd a (L kd a ++ L kd b) (set_list kd b [] L) kd' q') as H2.
    { intros q x Hq Hx. destruct (decide (kd' = kd /\ (q = a \/ q = b))) as [[-> Hab]|Hno].
      - exists a. split; [done|]. rewrite set_list_eq, elem_of_app. destruct Hab as [-> | ->]; tauto.
      - exists q. split; [done|]. rewrite !set_list_ne; [done| |]; (destruct (decide (kd' = kd)); [right; tauto|by left]). }
    split; [intros Hn; split; [done|]|intros [_ Hn]]; intros q Hq Hx.
    + destruct (H2 _ _ Hq Hx) as (q' & Hq' & Hx'). by apply (Hn q').
    + destruct (H1 _ _ Hq Hx) as (q' & Hq' & Hx'). by apply (Hn q').
Qed.

(** The first node of a list, as [wait_for_any_child] reads it. *)
Lemma first_ok n k L fl kd p c l : praw n k L fl -> p < n -> c < n -> L kd p = c :: l ->
  exists nd nn, plists k !! list_of kd p = Some nd /\ plists k !! next nd = Some nn /\ obj nn = Some c.
Proof.
  intros R Hp Hc HL. pose proof (fo_list _ _ _ (pr_forest _ _ _ _ R) _ _ (plist_of n L kd p Hp)) as Hr.
  rewrite HL in Hr. destruct (rlist_next _ _ _ Hr) as (nd & Hnd & Hnx). simpl in Hnx.
  pose proof (pr_key _ _ _ _ R kd c Hc) as Hkey. unfold obj_of in Hkey.
  destruct (plists k !! node_of kd c) as [nn|] eqn:E; [|done]. exists nd, nn. rewrite Hnx. split; [done|]. split; [done|].
  by injection Hkey.
Qed.

(** The free list. *)
Lemma praw_free_length n k L fl p : praw n k L fl -> p ∉ fl -> p < n -> length (p :: fl) <= n.
Proof.
  intros [R1 R2 R3 R4 R5 R6 R7 R8] Hn Hp. rewrite <- (length_seq n 0). apply submseteq_length, NoDup_submseteq; [by constructor|].
  intros q Hq. apply elem_of_seq. split; [lia|]. apply elem_of_cons in Hq as [->|(qc & ? & _)%R5]; [done|]. apply R1. by eexists.
Qed.

Lemma acquire_PCB_ok n k L fl : praw n k L fl ->
  match fl with
  | [] => acquire_PCB k = Ret (None, k)
  | p :: fl' => exists pc, PT k !! p = Some pc /\ pstate pc = FREE /\
      acquire_PCB k = Ret (Some p, with_freelist (parent pc) (process_count k + 1) (with_PT (<[p := set_pstate ALIVE pc]> (PT k)) k)) /\
      praw n (with_freelist (parent pc) (process_count k + 1) (with_PT (<[p := set_pstate ALIVE pc]> (PT k)) k)) L fl'
  end.
Proof.
  intros R. pose proof R as [R1 R2 R3 R4 R5 R6 R7 R8]. unfold acquire_PCB. destruct fl as [|p fl]; simpl in R4; [by rewrite R4|].
  assert (length (p :: fl) <= n) as Hlen.
  { rewrite <- (length_seq n 0). apply submseteq_length, NoDup_submseteq; [done|].
    intros q (qc & ? & _)%R5. apply elem_of_seq. split; [lia|]. apply R1. by eexists. }

  destruct R4 as (E & pc & Hp & Hch). destruct (proj1 (R5 p)) as (pc' & Hp' & Hfree); [by left|].
  assert (pc' = pc) as -> by congruence. exists pc. split; [done|]. split; [done|]. rewrite E, (upd_PCB_eq _ _ _ _ Hp), ret_bind.
  cbn [PT with_PT]. rewrite lookup_insert_eq. cbn [deref]. rewrite ret_bind. cbn [parent set_pstate process_count with_PT].
  apply NoDup_cons in R6 as [Hn Hnd]. simpl in R7, Hlen. rewrite wrap_small by lia. split; [done|].
  split; try done; cbn [PT with_PT with_freelist process_count pcb_freelist]; [| | |lia].
  - intros q. rewrite lookup_insert_is_Some, R1. destruct (decide (p = q)) as [<-|]; [|tauto].
    rewrite <- R1. split; [by eexists|by left].
  - eapply chain_ext; [exact Hch|]. intros q qc Hq Hqc. exists qc. rewrite lookup_insert_ne by (by intros ->). done.
  - intros q. destruct (decide (p = q)) as [<-|Hne].
    + rewrite lookup_insert_eq. split; [done|]. intros (? & [= <-] & ?). done.
    + rewrite lookup_insert_ne by done. rewrite <- R5, elem_of_cons. naive_solver.
Qed.

Lemma release_PCB_ok n k L fl p pc : praw n k L fl -> PT k !! p = Some pc -> pstate pc <> FREE ->
  exists k', release_PCB p k = Ret k' /\ praw n k' L (p :: fl) /\
    k' = with_freelist (Some p) (process_count k - 1)
           (with_PT (<[p := set_parent (pcb_freelist k) (set_pstate FREE pc)]> (PT k)) k).
Proof.
  intros R Hp Hs. pose proof R as [R1 R2 R3 R4 R5 R6 R7 R8]. unfold release_PCB. rewrite (upd_PCB_eq _ _ _ _ Hp), ret_bind.
  rewrite (upd_PCB_eq p _ (set_pstate FREE pc)) by apply lookup_insert_eq. rewrite ret_bind. cbn [PT with_PT pcb_freelist process_count].
  rewrite insert_insert_eq. assert (p ∉ fl) as Hn. { intros (pc' & ? & ?)%R5. congruence. }
  assert (length (p :: fl) <= n) as Hlen by (eapply praw_free_length; [done..|]; apply R1; by eexists).
  simpl in Hlen. rewrite wrap_small by lia. eexists. split; [done|]. split; [|by destruct k].
  split; try done; cbn [PT with_PT with_freelist process_count pcb_freelist length].
  - intros q. rewrite lookup_insert_is_Some, R1. destruct (decide (p = q)) as [<-|]; [|tauto].
    rewrite <- R1. split; [by eexists|by left].
  - simpl. split; [done|]. eexists. rewrite lookup_insert_eq. split; [done|]. cbn [parent set_parent].
    eapply chain_ext; [exact R4|]. intros q qc Hq Hqc. exists qc. rewrite lookup_insert_ne by (by intros ->). done.
  - intros q. rewrite elem_of_cons. destruct (decide (p = q)) as [<-|Hne].
    + rewrite lookup_insert_eq. split; [by eexists|by left].
    + rewrite lookup_insert_ne by done. rewrite <- R5. naive_solver.
  - by constructor.
  - lia.
Qed.
End raw.

(** ** The process tree *)

Section tree.
Context {Task T : Type}.
Implicit Types (m : gmap nat (PCB Task T)) (pc : PCB Task T) (p c q : nat) (L : lists).

(** [c] is a process (maybe a zombie) whose parent is [p]. *)
Definition child_of m c p : Prop := exists pc, m !! c = Some pc /\ pstate pc <> FREE /\ parent pc = Some p.
Definition zombie_of m c p : Prop := exists pc, m !! c = Some pc /\ pstate pc = ZOMBIE /\ parent pc = Some p.

(** The lists are those of the children; every parent is alive; only the first two processes have no
  parent; and there are no cycles: a process has a greater rank than its parent, and the initial process,
  which adopts the orphans, the least. *)
Record ptree m L : Prop := {
  pt_child c p : c ∈ L KC p <-> child_of m c p;
  pt_exited c p : c ∈ L KE p <-> zombie_of m c p;
  pt_parent c p : child_of m c p -> p <> 0 /\ exists pp, m !! p = Some pp /\ pstate pp = ALIVE;
  pt_root c pc : m !! c = Some pc -> pstate pc <> FREE -> parent pc = None <-> c <= 1;
  pt_rank : exists rank : nat -> nat, (forall c p, child_of m c p -> rank p < rank c) /\
    (forall c pc, m !! c = Some pc -> pstate pc <> FREE -> 1 < c -> rank 1 < rank c)
}.

Lemma zombie_child m c p : zombie_of m c p -> child_of m c p.
Proof. intros (pc & ? & Hz & ?). exists pc. split; [done|]. by rewrite Hz. Qed.

Lemma child_of_fun m c p q : child_of m c p -> child_of m c q -> p = q.
Proof. intros (pc & ? & _ & ?) (pc' & ? & _ & ?). congruence. Qed.

(** A change of blocks that the tree does not see. *)
Definition same_tree m m' : Prop := forall p, (fun pc => (pstate pc, parent pc)) <$> m' !! p = (fun pc => (pstate pc, parent pc)) <$> m !! p.

Lemma same_tree_lookup m m' p pc' : same_tree m m' -> m' !! p = Some pc' ->
  exists pc, m !! p = Some pc /\ pstate pc' = pstate pc /\ parent pc' = parent pc.
Proof.
  intros Hs Hp. specialize (Hs p). rewrite Hp in Hs. destruct (m !! p) as [pc|]; [|done]. simpl in Hs. exists pc.
  split; [done|]. by injection Hs.
Qed.

Lemma same_tree_sym m m' : same_tree m m' -> same_tree m' m.
Proof. intros Hs p. by rewrite Hs. Qed.

Lemma same_tree_trans m1 m2 m3 : same_tree m1 m2 -> same_tree m2 m3 -> same_tree m1 m3.
Proof. intros H1 H2 p. by rewrite H2, H1. Qed.

Lemma same_tree_insert m p pc pc' : m !! p = Some pc -> pstate pc' = pstate pc -> parent pc' = parent pc -> same_tree m (<[p := pc']> m).
Proof.
  intros Hp Hs Hpar q. destruct (decide (p = q)) as [<-|Hne]; [|by rewrite lookup_insert_ne].
  rewrite lookup_insert_eq, Hp. simpl. by rewrite Hs, Hpar.
Qed.

Lemma same_tree_child m m' c p : same_tree m m' -> child_of m' c p <-> child_of m c p.
Proof.
  intros Hs. split; intros (pc & Hc & Hf & Hp).
  - destruct (same_tree_lookup _ _ _ _ Hs Hc) as (pc0 & ? & ? & ?). exists pc0. split; [done|]. split; congruence.
  - destruct (same_tree_lookup _ _ _ _ (same_tree_sym _ _ Hs) Hc) as (pc0 & ? & ? & ?). exists pc0. split; [done|]. split; congruence.
Qed.

Lemma same_tree_zombie m m' c p : same_tree m m' -> zombie_of m' c p <-> zombie_of m c p.
Proof.
  intros Hs. split; intros (pc & Hc & Hf & Hp).
  - destruct (same_tree_lookup _ _ _ _ Hs Hc) as (pc0 & ? & ? & ?). exists pc0. split; [done|]. split; congruence.
  - destruct (same_tree_lookup _ _ _ _ (same_tree_sym _ _ Hs) Hc) as (pc0 & ? & ? & ?). exists pc0. split; [done|]. split; congruence.
Qed.

Lemma ptree_same m m' L : ptree m L -> same_tree m m' -> ptree m' L.
Proof.
  intros [P1 P2 P3 P4 (rank & P5 & P6)] Hs. split.
  - intros c p. by rewrite P1, (same_tree_child m m').
  - intros c p. by rewrite P2, (same_tree_zombie m m').
  - intros c p Hc. apply (same_tree_child m m' c p Hs), P3 in Hc as (? & pp & Hp & ?). split; [done|].
    destruct (same_tree_lookup _ _ _ _ (same_tree_sym _ _ Hs) Hp) as (pp' & ? & ? & ?). exists pp'. split; [done|congruence].
  - intros c pc Hc Hf. destruct (same_tree_lookup _ _ _ _ Hs Hc) as (pc0 & Hc0 & E1 & E2). rewrite E2. apply (P4 c pc0 Hc0). congruence.
  - exists rank. split.
    + intros c p Hc. apply P5. by apply (same_tree_child m m').
    + intros c pc Hc Hf. destruct (same_tree_lookup _ _ _ _ Hs Hc) as (pc0 & Hc0 & E1 & _). apply (P6 c pc0 Hc0). congruence.
Qed.

(** A free block becomes a child of [q]. *)
Lemma ptree_new m L p q pc pc' pq :
  ptree m L -> m !! p = Some pc -> pstate pc = FREE -> 1 < p -> m !! q = Some pq -> pstate pq = ALIVE -> q <> 0 ->
  pstate pc' = ALIVE -> parent pc' = Some q -> ptree (<[p := pc']> m) (set_list KC q (p :: L KC q) L).
Proof.
  intros P Hp Hf Hlt Hq Ha Hq0 Ha' Hpar. pose proof P as [P1 P2 P3 P4 (rank & P5 & P6)]. assert (q <> p) as Hqp by congruence.
  assert (forall x, ~ child_of m p x) as Hno by (intros x (y & ? & ? & _); congruence).
  assert (forall x, ~ child_of m x p) as Hno' by (intros x [_ (pp & ? & ?)]%P3; congruence).
  assert (forall c x, child_of (<[p := pc']> m) c x <-> child_of m c x \/ (c = p /\ x = q)) as Hch.
  { intros c x. destruct (decide (p = c)) as [<-|Hne].
    - unfold child_of at 1. rewrite lookup_insert_eq. split.
      + intros (y & [= <-] & _ & E). right. split; [done|congruence].
      + intros [Hc|[_ ->]]; [by apply Hno in Hc|]. exists pc'. rewrite Ha'. done.
    - unfold child_of. rewrite lookup_insert_ne by done. split; [by left|]. by intros [?|[? _]]. }
  assert (forall c x, zombie_of (<[p := pc']> m) c x <-> zombie_of m c x) as Hz.
  { intros c x. unfold zombie_of. destruct (decide (p = c)) as [<-|Hne]; [|by rewrite lookup_insert_ne].
    rewrite lookup_insert_eq, Hp. split; intros (y & [= <-] & ? & ?); congruence. }
  split.
  - intros c x. rewrite Hch, <- P1. destruct (decide (x = q)) as [->|Hne].
    + rewrite set_list_eq, elem_of_cons. naive_solver.
    + rewrite set_list_ne by auto. naive_solver.
  - intros c x. rewrite Hz, <- P2. by rewrite set_list_ne by (by left).
  - intros c x [Hc|[-> ->]]%Hch.
    + destruct (P3 c x Hc) as (? & pp & Hx & ?). split; [done|]. exists pp. rewrite lookup_insert_ne; [done|congruence].
    + split; [done|]. exists pq. by rewrite lookup_insert_ne.
  - intros c x [[<- <-]|[Hne Hc]]%lookup_insert_Some Hnf; [|by apply P4].
    rewrite Hpar. split; [done|lia].
  - exists (fun x => if decide (x = p) then Datatypes.S (rank q + rank 1) else rank x). split.
    + intros c x [Hc|[-> ->]]%Hch.
      * rewrite (decide_False (P := c = p)) by (intros ->; by eapply Hno). rewrite decide_False by (intros ->; by eapply Hno'). by apply P5.
      * rewrite (decide_True (P := p = p)) by done. rewrite decide_False by done. lia.
    + intros c x [[<- <-]|[Hne Hc]]%lookup_insert_Some Hnf Hc1; rewrite (decide_False (P := 1 = p)) by lia.
      * rewrite decide_True by done. lia.
      * rewrite decide_False by done. by eapply P6.
Qed.

(** A zombie is freed. *)
Lemma ptree_free m L p q pc pc' l1 l2 k1 k2 :
  ptree m L -> m !! p = Some pc -> pstate pc = ZOMBIE -> parent pc = Some q -> pstate pc' = FREE ->
  L KC q = l1 ++ p :: l2 -> (p ∉ l1 ++ l2) -> L KE q = k1 ++ p :: k2 -> (p ∉ k1 ++ k2) ->
  ptree (<[p := pc']> m) (set_list KE q (k1 ++ k2) (set_list KC q (l1 ++ l2) L)).
Proof.
  intros P Hp Hz Hpar Hf HL1 Hn1 HL2 Hn2. pose proof P as [P1 P2 P3 P4 (rank & P5 & P6)].
  assert (forall c x, child_of (<[p := pc']> m) c x <-> child_of m c x /\ c <> p) as Hch.
  { intros c x. unfold child_of. destruct (decide (p = c)) as [<-|Hne].
    - rewrite lookup_insert_eq. split; [intros (y & [= <-] & ? & _); congruence|]. by intros [_ ?].
    - rewrite lookup_insert_ne by done. split; [intros ?; split; [done|congruence]|by intros [? _]]. }
  assert (forall c x, zombie_of (<[p := pc']> m) c x <-> zombie_of m c x /\ c <> p) as Hzo.
  { intros c x. unfold zombie_of. destruct (decide (p = c)) as [<-|Hne].
    - rewrite lookup_insert_eq. split; [intros (y & [= <-] & ? & _); congruence|]. by intros [_ ?].
    - rewrite lookup_insert_ne by done. split; [intros ?; split; [done|congruence]|by intros [? _]]. }
  assert (forall x, child_of m p x -> x = q) as Hpq by (intros x Hx; eapply child_of_fun; [exact Hx|]; exists pc; by rewrite Hz).
  split.
  - intros c x. rewrite set_list_ne by (by left). rewrite Hch, <- P1. destruct (decide (x = q)) as [->|Hne].
    + rewrite set_list_eq, HL1, !elem_of_app, elem_of_cons. rewrite elem_of_app in Hn1. naive_solver.
    + rewrite set_list_ne by auto. rewrite P1. split; [|by intros [? _]]. intros Hc. split; [done|]. intros ->. by apply Hne, Hpq.
  - intros c x. rewrite Hzo, <- P2. destruct (decide (x = q)) as [->|Hne].
    + rewrite set_list_eq, HL2, !elem_of_app, elem_of_cons. rewrite elem_of_app in Hn2. naive_solver.
    + rewrite !set_list_ne by auto. rewrite P2. split; [|by intros [? _]]. intros Hc. split; [done|]. intros ->.
      by apply Hne, Hpq, zombie_child.
  - intros c x [Hc Hne]%Hch. destruct (P3 c x Hc) as (? & pp & Hx & ?). split; [done|]. exists pp. rewrite lookup_insert_ne; [done|congruence].
  - intros c x [[<- <-]|[Hne Hc]]%lookup_insert_Some Hnf; [done|by apply P4].
  - exists rank. split; [intros c x [Hc _]%Hch; by apply P5|].
    intros c x [[<- <-]|[Hne Hc]]%lookup_insert_Some Hnf; [done|by eapply P6].
Qed.
(** A process exits: it is a zombie, and its children are those of the initial process. *)
Definition exit_tree (cur : nat) m m' : Prop := forall c,
  (fun pc => (pstate pc, parent pc)) <$> m' !! c =
  (fun pc => (if decide (c = cur) then ZOMBIE else pstate pc,
              if decide (pstate pc <> FREE /\ parent pc = Some cur) then Some 1 else parent pc)) <$> m !! c.

Record exit_lists (cur : nat) (par : option nat) L L' : Prop := {
  el_child c x : c ∈ L' KC x <-> (c ∈ L KC x /\ x <> cur) \/ (x = 1 /\ c ∈ L KC cur);
  el_exited c x : c ∈ L' KE x <-> (c ∈ L KE x /\ x <> cur) \/ (x = 1 /\ c ∈ L KE cur) \/ (c = cur /\ par = Some x)
}.

Lemma exit_tree_lookup cur m m' c pc' : exit_tree cur m m' -> m' !! c = Some pc' ->
  exists pc, m !! c = Some pc /\ pstate pc' = (if decide (c = cur) then ZOMBIE else pstate pc) /\
    parent pc' = (if decide (pstate pc <> FREE /\ parent pc = Some cur) then Some 1 else parent pc).
Proof.
  intros He Hc. specialize (He c). rewrite Hc in He. destruct (m !! c) as [pc|]; [|done]. exists pc. split; [done|].
  simpl in He. by injection He.
Qed.

Lemma exit_child cur m m' pc c x : exit_tree cur m m' -> m !! cur = Some pc -> pstate pc = ALIVE ->
  child_of m' c x <-> (child_of m c x /\ x <> cur) \/ (x = 1 /\ child_of m c cur).
Proof.
  intros He Hcur Ha. split.
  - intros (pc' & Hc & Hf & Hp). destruct (exit_tree_lookup _ _ _ _ _ He Hc) as (pc0 & Hp0 & E1 & E2).
    assert (pstate pc0 <> FREE) as Hf0 by (destruct (decide (c = cur)); congruence).
    rewrite E2 in Hp. case_decide as D.
    + right. split; [congruence|]. exists pc0. naive_solver.
    + left. split; [by exists pc0|]. intros ->. tauto.
  - intros Hor. assert (exists pc0, m !! c = Some pc0 /\ pstate pc0 <> FREE /\
      (if decide (parent pc0 = Some cur) then x = 1 else parent pc0 = Some x)) as (pc0 & Hp0 & Hf0 & Hx).
    { destruct Hor as [[(pc0 & ? & ? & Hx) Hne]|[-> (pc0 & ? & ? & Hx)]]; exists pc0; (split; [done|]); (split; [done|]); case_decide; congruence. }
    specialize (He c). rewrite Hp0 in He. destruct (m' !! c) as [pc'|] eqn:Hc; [|done]. simpl in He. injection He as E1 E2.
    exists pc'. split; [done|]. rewrite E1, E2. split; [by destruct (decide (c = cur))|]. repeat case_decide; try tauto; congruence.
Qed.

Lemma exit_zombie cur m m' pc c x : exit_tree cur m m' -> m !! cur = Some pc -> pstate pc = ALIVE ->
  (parent pc <> Some cur) ->
  zombie_of m' c x <-> (zombie_of m c x /\ x <> cur) \/ (x = 1 /\ zombie_of m c cur) \/ (c = cur /\ parent pc = Some x).
Proof.
  intros He Hcur Ha Hself. split.
  - intros (pc' & Hc & Hz & Hp). destruct (exit_tree_lookup _ _ _ _ _ He Hc) as (pc0 & Hp0 & E1 & E2).
    rewrite E1 in Hz. rewrite E2 in Hp. destruct (decide (c = cur)) as [->|Hne].
    + assert (pc0 = pc) as -> by congruence. right. right. split; [done|]. case_decide; [tauto|done].
    + case_decide as D; [right; left; split; [congruence|]; exists pc0; tauto|].
      left. split; [by exists pc0|]. intros ->. rewrite Hz in D. by apply D.
  - intros Hor. destruct (decide (c = cur)) as [->|Hne].
    + specialize (He cur). rewrite Hcur in He. destruct (m' !! cur) as [pc'|] eqn:Hc; [|done]. simpl in He.
      rewrite decide_True in He by done. injection He as E1 E2. exists pc'. split; [done|]. split; [done|]. rewrite E2.
      rewrite decide_False by tauto. destruct Hor as [[(y & ? & ? & ?) _]|[[_ (y & ? & ? & ?)]|[_ ?]]]; congruence.
    + assert (exists pc0, m !! c = Some pc0 /\ pstate pc0 = ZOMBIE /\
        (if decide (parent pc0 = Some cur) then x = 1 else parent pc0 = Some x)) as (pc0 & Hp0 & Hz0 & Hx).
      { destruct Hor as [[(pc0 & ? & ? & Hx) Hx']|[[-> (pc0 & ? & ? & Hx)]|[? _]]]; [| |done]; exists pc0; (split; [done|]); (split; [done|]); case_decide; congruence. }
      specialize (He c). rewrite Hp0 in He. destruct (m' !! c) as [pc'|] eqn:Hc; [|done]. simpl in He. rewrite decide_False in He by done.
      injection He as E1 E2. exists pc'. split; [done|]. split; [congruence|]. rewrite E2, Hz0. repeat case_decide; try tauto; try congruence.
      exfalso. naive_solver.
Qed.

Lemma ptree_exit m m' L L' cur pc :
  ptree m L -> m !! cur = Some pc -> pstate pc = ALIVE -> cur <> 0 ->
  (cur = 1 -> L KC cur = []) -> (cur <> 1 -> exists ip, m !! 1 = Some ip /\ pstate ip = ALIVE) ->
  exit_tree cur m m' -> exit_lists cur (parent pc) L L' -> ptree m' L'.
Proof.
  intros P Hcur Ha Hc0 Hone Hinit He [E1 E2]. pose proof P as [P1 P2 P3 P4 (rank & P5 & P6)].
  assert (forall c x, child_of m c x -> c <> x) as Hirr by (intros c x Hc ->; apply P5 in Hc; lia).
  assert (parent pc <> Some cur) as Hself.
  { intros Hp. apply (Hirr cur cur); [|done]. exists pc. by rewrite Ha. }
  assert (forall c, child_of m c cur -> cur <> 1) as Hkids.
  { intros c Hc ->. apply P1 in Hc. rewrite Hone in Hc by done. by apply elem_of_nil in Hc. }
  split.
  - intros c x. rewrite E1, (exit_child cur m m' pc c x He Hcur Ha). by rewrite !P1.
  - intros c x. rewrite E2, (exit_zombie cur m m' pc c x He Hcur Ha Hself). by rewrite !P2.
  - intros c x Hc. apply (exit_child cur m m' pc c x He Hcur Ha) in Hc.
    assert (x <> 0 /\ x <> cur /\ exists xp, m !! x = Some xp /\ pstate xp = ALIVE) as (Hx0 & Hxc & xp & Hx & Hxa).
    { destruct Hc as [[Hc Hne]|[-> Hc]]; [destruct (P3 _ _ Hc) as [? ?]; done|].
      split; [done|]. pose proof (Hkids _ Hc). split; [congruence|]. by apply Hinit. }
    split; [done|]. specialize (He x). rewrite Hx in He. destruct (m' !! x) as [xp'|]; [|done]. exists xp'. split; [done|].
    simpl in He. rewrite decide_False in He by done. injection He as ? _. congruence.
  - intros c pc' Hc Hf. destruct (exit_tree_lookup _ _ _ _ _ He Hc) as (pc0 & Hp0 & F1 & F2).
    assert (pstate pc0 <> FREE) as Hf0. { rewrite F1 in Hf. destruct (decide (c = cur)) as [->|]; [congruence|done]. }
    rewrite F2. destruct (P4 c pc0 Hp0 Hf0) as [Hr1 Hr2]. case_decide as D; [|done]. split; [done|]. intros Hle.
    apply Hr2 in Hle. destruct D as [_ D]. congruence.
  - exists rank. split.
    + intros c x Hc. apply (exit_child cur m m' pc c x He Hcur Ha) in Hc as [[Hc _]|[-> Hc]]; [by apply P5|].
      destruct Hc as (pc0 & Hp0 & Hf0 & Hpar). apply (P6 c pc0 Hp0 Hf0). destruct (P4 c pc0 Hp0 Hf0) as [_ Hr].
      destruct (decide (c <= 1)) as [Hle|]; [apply Hr in Hle; congruence|lia].
    + intros c pc' Hc Hf Hlt. destruct (exit_tree_lookup _ _ _ _ _ He Hc) as (pc0 & Hp0 & F1 & _).
      apply (P6 c pc0 Hp0); [|done]. rewrite F1 in Hf. destruct (decide (c = cur)) as [->|]; [congruence|done].
Qed.
End tree.
