(* ===== verification/ProcOps.v ===== *)
(** * The system calls on processes keep the kernel well formed

  [kernel_ok] collects the invariants of the tables; for each operation of [Proc], the state that it
  makes of a well-formed one. *)

From S2P Require Import Prelude Rlist Lists Iface Kernel Dev Streams Proc ProcInv.

Section kernel_ok.
Context {Task T S B : Type} `{SerialOps B} `{SpawnOps T S} `{WakeOps T S}.
Context (sched_ok : S -> Prop).
Implicit Types (k : kernel Task T S B) (pc : PCB Task T) (p c q cur : nat) (L : lists) (fl : list nat) (hold : nat -> list nat).

(** A block that is not of a live process has no files. *)
Definition no_files pc : Prop := FIDT pc = repeat None MAX_FILEID.

Record kernel_ok (n : nat) hold L fl k : Prop := {
  ko_raw : praw n k L fl;
  ko_tree : ptree (PT k) L;
  ko_files : files_ok n hold k;
  ko_devices : devices_ok k;
  ko_dead p pc : PT k !! p = Some pc -> pstate pc <> ALIVE -> no_files pc;
  ko_sched : sched_ok (sched k)
}.

(** *** File ids that stay *)

Definition same_fids (m m' : gmap nat (PCB Task T)) : Prop := forall p, FIDT <$> m' !! p = FIDT <$> m !! p.

Lemma same_fids_insert (m : gmap nat (PCB Task T)) p pc pc' : m !! p = Some pc -> FIDT pc' = FIDT pc -> same_fids m (<[p := pc']> m).
Proof.
  intros Hp E q. destruct (decide (p = q)) as [<-|Hne]; [|by rewrite lookup_insert_ne].
  rewrite lookup_insert_eq, Hp. simpl. by rewrite E.
Qed.

Lemma files_same n hold k k' : files_ok n hold k -> same_fids (PT k) (PT k') -> FT k' = FT k -> flists k' = flists k ->
  serial_ports (ports k') = serial_ports (ports k) -> files_ok n hold k'.
Proof.
  intros F Hs E1 E2 E3. assert (forall p, fids k' p = fids k p) as Hf.
  { intros p. specialize (Hs p). unfold fids. destruct (PT k' !! p), (PT k !! p); simpl in Hs; congruence. }
  split; [|intros p pc Hp|apply F|apply F].
  - eapply fcb_inv_ext; [by eapply fl_inv| |done..]. intros f. apply refs_ext. intros p _. unfold uses. by rewrite Hf.
  - specialize (Hs p). rewrite Hp in Hs. destruct (PT k !! p) as [pc0|] eqn:E; [|done]. simpl in Hs. injection Hs as Hs.
    rewrite Hs. by eapply fl_len.
Qed.

(** A change of one file id, with the counts that belong to it. *)
Lemma files_set_fid n hold k k' p pc i o o' :
  files_ok n hold k -> PT k !! p = Some pc -> FIDT pc !! i = Some o -> PT k' = set_fids p (<[i := o']> (FIDT pc)) pc k ->
  fcb_inv (fun g => refs n (uses hold k) g - one o g + one o' g)%Z k' -> files_ok n hold k'.
Proof.
  intros F Hp Hi E I. destruct (fl_len _ _ _ F _ _ Hp) as [Hn Hl]. split; [|intros q qc Hq|apply F|apply F].
  - eapply fcb_inv_ext; [exact I| |done..]. intros g. rewrite (refs_set_fids n hold k k' p pc _ g Hn Hp E).
    rewrite (occ_insert g _ _ _ _ Hi). lia.
  - rewrite E in Hq. refine (set_fids_len n hold k p pc _ q qc F Hp _ Hq). by rewrite length_insert.
Qed.

Lemma devices_same k k' : devices_ok k -> devtable k' = devtable k -> serial_dcb k' = serial_dcb k -> ports k' = ports k -> devices_ok k'.
Proof. intros [D1 D2 D3 D4] E1 E2 E3. split; rewrite ?E1, ?E2, ?E3; done. Qed.

(** *** Inheriting and closing files *)

Lemma inherit_ok n hold l cur new pcur : forall m i k pnew,
  files_ok n hold k -> PT k !! cur = Some pcur -> FIDT pcur = l -> PT k !! new = Some pnew -> cur <> new ->
  i + m = MAX_FILEID -> FIDT pnew = take i l ++ repeat None m ->
  exists mm, inherit_files m i new cur k = Ret (with_PT (set_fids new l pnew k) (with_FT mm k)) /\
    files_ok n hold (with_PT (set_fids new l pnew k) (with_FT mm k)) /\ same_streams (FT k) mm.
Proof.
  intros m. induction m as [|m IH]; intros i k pnew F Hcur Hl Hnew Hne Him HF; cbn [inherit_files];
    destruct (fl_len _ _ _ F _ _ Hcur) as [Hn Hlen]; rewrite Hl in Hlen.
  - exists (FT k). simpl in HF. rewrite app_nil_r, take_ge in HF by lia. rewrite <- HF, set_fids_id by done.
    assert (with_PT (PT k) (with_FT (FT k) k) = k) as -> by (by destruct k). done.
  - rewrite Hcur. cbn [deref]. rewrite ret_bind, Hl. destruct (lookup_lt_is_Some_2 l i) as [o Ho]; [lia|].
    rewrite Ho. cbn [deref]. rewrite ret_bind, (upd_PCB_eq _ _ _ _ Hnew), ret_bind. set (k1 := with_PT _ k).
    assert (FIDT pnew !! i = Some None) as Hi. { rewrite HF, lookup_app_r by (rewrite length_take; lia). rewrite length_take. by replace (i - i `min` length l) with 0 by lia. }
    assert (exists m1, (match o with Some f => FCB_incref f k1 | None => Ret k1 end) = Ret (with_FT m1 k1) /\
      files_ok n hold (with_FT m1 k1) /\ same_streams (FT k) m1) as (m1 & -> & F1 & S1).
    { pose proof (fl_inv _ _ _ F) as I. destruct o as [f|].
      - assert (fcb_inv (refs n (uses hold k)) k1) as I1 by (eapply fcb_inv_ext; [exact I|done..]).
        pose proof (refs_bound n hold k f F). pose proof (fl_bound _ _ _ F).
        destruct (incref_inv _ k1 f I1) as (m1 & -> & S1 & I2); [eapply uses_live; [done|exact Hcur|by rewrite Hl]|lia|].
        exists m1. split; [done|]. split; [|done]. eapply (files_set_fid n hold k _ new pnew i None (Some f)); try done.
        eapply fcb_inv_ext; [exact I2| |done..]. intros g. unfold one. repeat case_decide; simplify_eq; try done; lia.
      - exists (FT k1). assert (with_FT (FT k1) k1 = k1) as -> by (by destruct k1). split; [done|]. split; [|done].
        eapply (files_set_fid n hold k _ new pnew i None None); try done. eapply fcb_inv_ext; [exact I| |done..]. intros g. lia. }
    rewrite ret_bind.
    destruct (IH (i + 1) (with_FT m1 k1) (set_fid i o pnew)) as (mm & E & F2 & S2); try done.
    + unfold k1. cbn [PT with_FT with_PT]. by rewrite lookup_insert_ne.
    + apply lookup_insert_eq.
    + lia.
    + simpl. rewrite HF, insert_app_r_alt by (rewrite length_take; lia). rewrite length_take.
      replace (i - i `min` length l) with 0 by lia. simpl. rewrite Nat.add_1_r, (take_S_r _ _ _ Ho), <- app_assoc. done.
    + assert (with_PT (set_fids new l (set_fid i o pnew) (with_FT m1 k1)) (with_FT mm (with_FT m1 k1)) =
              with_PT (set_fids new l pnew k) (with_FT mm k)) as Ek.
      { unfold k1, with_PT, with_FT, set_fids, set_fid, set_FIDT. cbn. by rewrite insert_insert_eq. }
      rewrite Ek in *. exists mm. split; [done|]. split; [done|]. exact (same_streams_trans _ _ _ S1 S2).
Qed.

Lemma close_files_ok n hold cur : forall m i k pc,
  files_ok n hold k -> PT k !! cur = Some pc -> i + m = MAX_FILEID -> take i (FIDT pc) = repeat None i ->
  exists mm h, close_files m i cur k =
      Ret (with_PT (set_fids cur (repeat None MAX_FILEID) pc k) (with_flists h (with_FT mm k))) /\
    files_ok n hold (with_PT (set_fids cur (repeat None MAX_FILEID) pc k) (with_flists h (with_FT mm k))) /\ same_streams (FT k) mm.
Proof.
  intros m. induction m as [|m IH]; intros i k pc F Hp Him HF; cbn [close_files];
    destruct (fl_len _ _ _ F _ _ Hp) as [Hn Hlen].
  - exists (FT k), (flists k). rewrite Nat.add_0_r in Him. subst i. rewrite take_ge in HF by lia.
    rewrite <- HF, set_fids_id by done. assert (with_PT (PT k) (with_flists (flists k) (with_FT (FT k) k)) = k) as -> by (by destruct k). done.
  - rewrite Hp. cbn [deref]. rewrite ret_bind. destruct (lookup_lt_is_Some_2 (FIDT pc) i) as [o Ho]; [lia|].
    rewrite Ho. cbn [deref]. rewrite ret_bind.
    assert (exists m1 h1, (match o with None => Ret k | Some f => '(_, k) ← FCB_decref f k; upd_PCB cur (set_fid i None) k end) =
        Ret (with_PT (set_fids cur (<[i := None]> (FIDT pc)) pc k) (with_flists h1 (with_FT m1 k))) /\
      files_ok n hold (with_PT (set_fids cur (<[i := None]> (FIDT pc)) pc k) (with_flists h1 (with_FT m1 k))) /\ same_streams (FT k) m1)
      as (m1 & h1 & -> & F1 & S1).
    { pose proof (fl_inv _ _ _ F) as I. destruct o as [f|].
      - destruct (decref_inv _ k f I) as (m1 & h1 & -> & S1 & I1); [by eapply uses_live|]. rewrite ret_bind.
        rewrite (upd_PCB_eq _ _ pc) by done. exists m1, h1. split; [done|]. split; [|done].
        eapply (files_set_fid n hold k _ cur pc i (Some f) None); try done. eapply fcb_inv_ext; [exact I1| |done..].
        intros g. unfold one. repeat case_decide; simplify_eq; try done; lia.
      - exists (FT k), (flists k). rewrite (list_insert_id _ _ _ Ho), set_fids_id by done.
        assert (with_PT (PT k) (with_flists (flists k) (with_FT (FT k) k)) = k) as -> by (by destruct k). done. }
    rewrite ret_bind. set (k1 := with_PT _ _) in *.
    destruct (IH (i + 1) k1 (set_FIDT (<[i := None]> (FIDT pc)) pc) F1) as (mm & h & E & F2 & S2).
    + apply lookup_insert_eq.
    + lia.
    + cbn [FIDT set_FIDT]. rewrite Nat.add_1_r, (take_S_r _ _ None) by (apply list_lookup_insert_eq; lia).
      rewrite take_insert, decide_False, HF by lia. symmetry. apply repeat_cons.
    + assert (forall l, with_PT (set_fids cur l (set_FIDT (<[i := None]> (FIDT pc)) pc) k1) (with_flists h (with_FT mm k1)) =
        with_PT (set_fids cur l pc k) (with_flists h (with_FT mm k))) as Ek.
      { intros l. unfold k1, with_PT, with_FT, with_flists, set_fids, set_FIDT. cbn. by rewrite insert_insert_eq. }
      rewrite Ek in *. exists mm, h. split; [done|]. split; [done|]. exact (same_streams_trans _ _ _ S1 S2).
Qed.
(** *** Exec *)

Section exec.
Context (blocked live : S -> T -> Prop).
Context `{!SpawnLaws T S sched_ok live} `{!WakeLaws T S sched_ok blocked live}.

(** The end of [sys_Exec]: the main task, its arguments and its thread. *)
Lemma exec_start p pc (call : option Task) argl (a : option bytes) k :
  PT k !! p = Some pc -> (call <> None -> sched_ok (sched k)) ->
  exists t s, (k ← upd_PCB p (set_task call argl a) k;
      match call with
      | None => Ret k
      | Some _ => '(t, s) ← spawn p (sched k); k ← upd_PCB p (set_main_thread (Some t)) (with_sched s k);
                  '(_, s) ← wake t (sched k); Ret (with_sched s k)
      end) = Ret (with_sched s (with_PT (<[p := set_main_thread t (set_task call argl a pc)]> (PT k)) k)) /\
    (call <> None -> sched_ok s /\ t <> None) /\ (call = None -> s = sched k /\ t = main_thread pc).
Proof.
  intros Hp Hs. rewrite (upd_PCB_eq _ _ _ _ Hp), ret_bind. destruct call as [c|].
  - destruct (spawn_returns (sched k) p (Hs ltac:(done))) as (t & s1 & E1 & Hs1 & Hlive). cbn [sched with_PT]. rewrite E1, ret_bind.
    rewrite (upd_PCB_eq p _ (set_task (Some c) argl a pc)) by apply lookup_insert_eq. rewrite ret_bind.
    destruct (wake_returns s1 t Hs1 Hlive) as (b & s2 & E2 & Hs2 & _). cbn [sched with_PT with_sched]. rewrite E2, ret_bind.
    exists (Some t), s2. split; [|split; [intros _; split; [exact Hs2|done]|done]]. unfold with_sched, with_PT. cbn. by rewrite insert_insert_eq.
  - exists (main_thread pc), (sched k). split; [|done]. by destruct k.
Qed.

Lemma exec_ok n hold L fl k cur pcur (call : option Task) argl args a :
  kernel_ok n hold L fl k -> PT k !! cur = Some pcur -> pstate pcur = ALIVE -> cur <> 0 ->
  (forall p, p ∈ fl -> 1 < p) -> copy_args argl args = Ret a ->
  match fl with
  | [] => sys_Exec (Some cur) call argl args k = Ret (NOPROC, k)
  | p :: fl' => exists k' t pc, sys_Exec (Some cur) call argl args k = Ret (Z.of_nat p, k') /\ PT k !! p = Some pc /\ pstate pc = FREE /\
      kernel_ok n hold (set_list KC cur (p :: L KC cur) L) fl' k' /\
      PT k' = <[p := mkPCB ALIVE (Some cur) (exitval pc) t call argl a (child_exit pc) (FIDT pcur)]> (PT k) /\
      serial_dcb k' = serial_dcb k /\ ports k' = ports k /\ same_streams (FT k) (FT k') /\ (call <> None -> t <> None)
  end.
Proof.
  intros [R P F D Hdead Hsch] Hcur Ha Hc0 Hfl Ecp. unfold sys_Exec. pose proof (acquire_PCB_ok n k L fl R) as Hacq.
  destruct fl as [|p fl]; [by rewrite Hacq, ret_bind|].
  destruct Hacq as (pc & Hp & Hfree & -> & R0). rewrite ret_bind. set (k0 := with_freelist _ _ _) in *.
  assert (1 < p) as Hp1 by (apply Hfl; by left). assert (cur <> p) as Hcp by congruence.
  assert (cur < n /\ p < n) as [Hcn Hpn] by (split; apply (pr_dom _ _ _ _ R); by eexists).
  pose proof (pr_nodup _ _ _ _ R) as [Hpfl _]%NoDup_cons.
  rewrite decide_False by (simpl; lia). cbn [deref]. rewrite ret_bind.
  rewrite (upd_PCB_eq p _ (set_pstate ALIVE pc)) by apply lookup_insert_eq. rewrite ret_bind. set (k1 := with_PT _ k0).
  assert (praw n k1 L fl) as R1. { eapply praw_upd; [exact R0|apply lookup_insert_eq|done|done]. }
  assert (on_no_list n L KC p) as Hno.
  { intros q Hq (y & Hy & Hnf & _)%(pt_child _ _ P). congruence. }
  destruct (push_list_ok n k1 L fl KC cur p R1 Hcn Hpn Hno) as (h & E & R2). simpl list_of in E. simpl node_of in E. rewrite E, ret_bind.
  set (k2 := with_plists h k1) in *. set (pnew := set_parent (Some cur) (set_pstate ALIVE pc)).
  assert (PT k2 = <[p := pnew]> (PT k)) as EP2. { unfold k2, k1, k0. cbn. by rewrite insert_insert_eq. }
  assert (files_ok n hold k2) as F2.
  { eapply files_same; [exact F| |done..]. rewrite EP2. by eapply same_fids_insert. }
  destruct (inherit_ok n hold (FIDT pcur) cur p pcur MAX_FILEID 0 k2 pnew F2) as (mm & -> & F3 & Hss); try done.
  { rewrite EP2. by rewrite lookup_insert_ne. } { rewrite EP2. apply lookup_insert_eq. } { apply (Hdead p pc Hp). by rewrite Hfree. }
  rewrite ret_bind, Ecp, ret_bind. set (k3 := with_PT (set_fids p (FIDT pcur) pnew k2) (with_FT mm k2)) in *.
  destruct (exec_start p (set_FIDT (FIDT pcur) pnew) call argl a k3) as (t & s & Es & Hs & Hs'); [apply lookup_insert_eq|by intros _|].
  assert (sched_ok s) as Hso. { destruct call; [by apply Hs|]. by destruct (Hs' eq_refl) as [-> _]. }
  assert (forall {A} (g : kernel Task T S B -> outcome A), (k ← upd_PCB p (set_task call argl a) k3;
    k ← (match call with None => Ret k | Some _ => '(t, s) ← spawn p (sched k);
         k ← upd_PCB p (set_main_thread (Some t)) (with_sched s k); '(_, s) ← wake t (sched k); Ret (with_sched s k) end); g k) =
    g (with_sched s (with_PT (<[p := set_main_thread t (set_task call argl a (set_FIDT (FIDT pcur) pnew))]> (PT k3)) k3))) as Eg.
  { intros A g. apply bind_Ret in Es as (k4 & E4 & Es). rewrite E4, ret_bind, Es. done. }
  rewrite Eg. set (k' := with_sched s _). clear Eg.
  assert (PT k' = <[p := mkPCB ALIVE (Some cur) (exitval pc) t call argl a (child_exit pc) (FIDT pcur)]> (PT k)) as EP.
  { unfold k', k3. cbn [PT with_sched with_PT]. unfold set_fids. rewrite insert_insert_eq, EP2, insert_insert_eq. done. }
  exists k', t, pc. split; [done|]. split; [done|]. split; [done|]. split; [|do 4 (split; [done|]); intros Hcall; by apply Hs]. split.
  - eapply (praw_same n (with_PT (PT k') k2)); [|done..]. rewrite EP, <- (insert_insert_eq _ p _ pnew), <- EP2.
    eapply praw_upd; [exact R2|rewrite EP2; apply lookup_insert_eq|done|done].
  - rewrite EP. by eapply ptree_new.
  - eapply files_same; [exact F3| |done..]. unfold k'. cbn [PT with_sched with_PT]. eapply same_fids_insert; [apply lookup_insert_eq|done].
  - eapply devices_same; [exact D|done..].
  - intros q qc. rewrite EP. intros [[<- <-]|[_ Hq]]%lookup_insert_Some; [done|by eapply Hdead].
  - done.
Qed.
End exec.
(** *** Waiting *)

(** A change of a block that neither the tree nor the files see. *)
Lemma kernel_ok_upd n hold L fl k p pc pc' :
  kernel_ok n hold L fl k -> PT k !! p = Some pc -> pstate pc' = pstate pc -> parent pc' = parent pc -> FIDT pc' = FIDT pc ->
  kernel_ok n hold L fl (with_PT (<[p := pc']> (PT k)) k).
Proof.
  intros [R P F D Hdead Hs] Hp E1 E2 E3. split.
  - eapply praw_upd; [done|done|by rewrite E1|done].
  - eapply ptree_same; [done|]. by eapply same_tree_insert.
  - eapply files_same; [exact F|by eapply same_fids_insert|done..].
  - eapply devices_same; [exact D|done..].
  - intros q qc. cbn [PT with_PT]. intros [[<- <-]|[_ Hq]]%lookup_insert_Some; [|by eapply Hdead].
    unfold no_files. rewrite E1, E3. by eapply Hdead.
  - done.
Qed.

(** Only the process table changes. *)
Record same_io k k' : Prop := {
  si_FT : FT k' = FT k;
  si_flists : flists k' = flists k;
  si_devtable : devtable k' = devtable k;
  si_serial : serial_dcb k' = serial_dcb k;
  si_sched : sched k' = sched k;
  si_ports : ports k' = ports k
}.

Lemma same_io_refl k : same_io k k.
Proof. by split. Qed.

Lemma same_io_trans k1 k2 k3 : same_io k1 k2 -> same_io k2 k3 -> same_io k1 k3.
Proof. intros [] []. split; congruence. Qed.

Definition without (c : nat) (l : list nat) : list nat := filter (fun x => x <> c) l.

Lemma without_split c l : NoDup l -> c ∈ l -> exists l1 l2, l = l1 ++ c :: l2 /\ without c l = l1 ++ l2 /\ (c ∉ l1 ++ l2).
Proof.
  intros Hnd (l1 & l2 & ->)%list_elem_of_split. exists l1, l2. split; [done|].
  apply NoDup_app in Hnd as (H1' & Hd & [Hn H2']%NoDup_cons).
  assert (c ∉ l1) as Hn1 by (intros Hi; apply (Hd c Hi); by left).
  assert (forall l, c ∉ l -> filter (fun x => x <> c) l = l) as Hall by (intros l Hl; apply filter_all; intros x Hx ->; done).
  split; [|by rewrite elem_of_app; intros [?|?]]. unfold without.
  rewrite filter_app, filter_cons_False by (intros Hc; by apply Hc). by rewrite !Hall.
Qed.

(** [cleanup_zombie]: the exit value, and a free block that nobody knows. *)
Lemma cleanup_ok n hold L fl k c pc q :
  kernel_ok n hold L fl k -> PT k !! c = Some pc -> pstate pc = ZOMBIE -> parent pc = Some q ->
  exists L' k', cleanup_zombie c k = Ret (exitval pc, k') /\ kernel_ok n hold L' (c :: fl) k' /\
    PT k' = <[c := set_parent (pcb_freelist k) (set_pstate FREE pc)]> (PT k) /\ same_io k k' /\
    (forall kd x, L' kd x = if decide (x = q) then without c (L kd x) else L kd x).
Proof.
  intros K Hc Hz Hpar. pose proof K as [R P F D Hdead Hs]. unfold cleanup_zombie. rewrite Hc. cbn [deref]. rewrite ret_bind.
  assert (zombie_of (PT k) c q) as Hzo by (by exists pc). pose proof (zombie_child _ _ _ Hzo) as Hch.
  destruct (pt_parent _ _ P c q Hch) as (_ & pq & Hq & _).
  assert (c < n /\ q < n) as [Hcn Hqn] by (split; apply (pr_dom _ _ _ _ R); by eexists).
  destruct (without_split c (L KC q)) as (l1 & l2 & E1 & W1 & N1); [by eapply praw_list_NoDup|by apply P|].
  destruct (without_split c (L KE q)) as (k1 & k2 & E2 & W2 & N2); [by eapply praw_list_NoDup|by apply P|].
  destruct (remove_list_ok n k L fl KC q l1 l2 c R Hqn Hcn E1) as (h1 & R1E & R1). simpl in R1E. rewrite R1E, ret_bind.
  set (L1 := set_list KC q (l1 ++ l2) L) in *. assert (L1 KE q = k1 ++ c :: k2) as E2' by (unfold L1; by rewrite set_list_ne by (by left)).
  destruct (remove_list_ok n (with_plists h1 k) L1 fl KE q k1 k2 c R1 Hqn Hcn E2') as (h2 & R2E & R2). simpl in R2E. rewrite R2E, ret_bind.
  assert (with_plists h2 (with_plists h1 k) = with_plists h2 k) as Eh by done. rewrite Eh in R2.
  destruct (release_PCB_ok n (with_plists h2 k) _ fl c pc R2 Hc) as (k' & -> & R3 & ->); [by rewrite Hz|]. rewrite ret_bind.
  eexists (set_list KE q (k1 ++ k2) L1), _. split; [done|]. split; [|split; [done|split; [done|]]].
  - split; [exact R3|by eapply ptree_free| | | |done].
    + eapply files_same; [exact F| |done..]. by eapply same_fids_insert.
    + eapply devices_same; [exact D|done..].
    + intros p px. cbn. intros [[<- <-]|[_ Hp]]%lookup_insert_Some; [|by eapply Hdead].
      intros _. apply (Hdead c pc Hc). by rewrite Hz.
  - intros kd x. unfold L1. case_decide as Ex.
    + subst x. destruct kd; [rewrite set_list_ne by (by left); by rewrite set_list_eq, W1|by rewrite set_list_eq, W2].
    + by rewrite !set_list_ne by (by right).
Qed.

(** What a call of [sys_WaitChild], or the rest of one, does to the kernel: it reaps the zombie [c] of
  [cur], or [cur] goes to sleep, or nothing happens. *)
Definition reaps n hold L fl k cur c k' (st : Z) : Prop := exists L' pc,
  PT k !! c = Some pc /\ pstate pc = ZOMBIE /\ parent pc = Some cur /\ st = exitval pc /\
  kernel_ok n hold L' (c :: fl) k' /\ same_io k k' /\
  PT k' = <[c := set_parent (pcb_freelist k) (set_pstate FREE pc)]> (PT k) /\
  (forall kd x, L' kd x = if decide (x = cur) then without c (L kd x) else L kd x).

Definition sleeps n hold L fl k cur k' : Prop := exists pc,
  PT k !! cur = Some pc /\ k' = with_PT (<[cur := set_child_exit (child_exit pc ++ [cur]) pc]> (PT k)) k /\
  kernel_ok n hold L fl k'.

Lemma wait_child_exit_ok n hold L fl k cur pc :
  kernel_ok n hold L fl k -> PT k !! cur = Some pc ->
  exists k', wait_child_exit cur k = Ret k' /\ sleeps n hold L fl k cur k'.
Proof.
  intros K Hp. unfold wait_child_exit. rewrite (upd_PCB_eq _ _ _ _ Hp). eexists. split; [done|]. exists pc.
  split; [done|]. split; [done|]. by eapply kernel_ok_upd.
Qed.

Lemma specific_loop_ok n hold L fl k cur pcur c :
  kernel_ok n hold L fl k -> PT k !! cur = Some pcur -> child_of (PT k) c cur ->
  exists r k', specific_child_loop cur c k = Ret (r, k') /\
    match r with
    | WBlock w => w = InChild c /\ sleeps n hold L fl k cur k' /\ ~ zombie_of (PT k) c cur
    | WDone z st => z = Z.of_nat c /\ exists st', st = Some st' /\ reaps n hold L fl k cur c k' st'
    end.
Proof.
  intros K Hcur (pc & Hc & Hf & Hpar). unfold specific_child_loop. rewrite Hc. cbn [deref]. rewrite ret_bind. case_decide as Ha.
  - destruct (wait_child_exit_ok n hold L fl k cur pcur K Hcur) as (k' & -> & Hs). rewrite ret_bind.
    exists (WBlock (InChild c)), k'. split; [done|]. split; [done|]. split; [done|]. intros (y & ? & ? & _). congruence.
  - assert (pstate pc = ZOMBIE) as Hz by (by destruct (pstate pc)).
    destruct (cleanup_ok n hold L fl k c pc cur K Hc Hz Hpar) as (L' & k' & -> & K' & E & Hio & HL). rewrite ret_bind.
    eexists _, k'. split; [done|]. simpl. split; [done|]. eexists. split; [done|]. exists L', pc. done.
Qed.

Lemma any_loop_ok n hold L fl k cur pcur :
  kernel_ok n hold L fl k -> PT k !! cur = Some pcur ->
  exists r k', any_child_loop cur k = Ret (r, k') /\
    match L KE cur with
    | [] => r = WBlock InAnyChild /\ sleeps n hold L fl k cur k'
    | c :: _ => exists st, r = WDone (Z.of_nat c) (Some st) /\ reaps n hold L fl k cur c k' st
    end.
Proof.
  intros K Hcur. pose proof K as [R P F D Hdead Hs]. assert (cur < n) as Hn by (apply (pr_dom _ _ _ _ R); by eexists).
  unfold any_child_loop. pose proof (empty_ok n k L fl KE cur R Hn) as Ee. simpl in Ee. rewrite Ee, ret_bind.
  destruct (L KE cur) as [|c l] eqn:EL; simpl bool_decide.
  - destruct (wait_child_exit_ok n hold L fl k cur pcur K Hcur) as (k' & -> & Hsl). rewrite ret_bind. by eexists _, k'.
  - assert (zombie_of (PT k) c cur) as Hz by (apply P; rewrite EL; by left). pose proof Hz as (pc & Hc & Hzp & Hpar).
    assert (c < n) as Hcn by (apply (pr_dom _ _ _ _ R); by eexists).
    destruct (first_ok n k L fl KE cur c l R Hn Hcn EL) as (nd & nn & E1 & E2 & E3). simpl in E1.
    rewrite E1. cbn [deref]. rewrite ret_bind, E2. cbn [deref]. rewrite ret_bind, E3. cbn [deref]. rewrite ret_bind, Hc.
    cbn [deref]. rewrite ret_bind, c_assert_True, ret_bind by done.
    destruct (cleanup_ok n hold L fl k c pc cur K Hc Hzp Hpar) as (L' & k' & -> & K' & E & Hio & HL). rewrite ret_bind.
    eexists _, k'. split; [done|]. eexists. split; [done|]. exists L', pc. done.
Qed.

(** How a call of [sys_WaitChild] ends. *)
Definition wait_post n hold L fl k cur (cpid : Z) (r : wait_result) k' : Prop :=
  match r with
  | WBlock w => sleeps n hold L fl k cur k' /\
      ((cpid <> NOPROC /\ exists c, cpid = Z.of_nat c /\ w = InChild c /\ child_of (PT k) c cur /\ ~ zombie_of (PT k) c cur) \/
       (cpid = NOPROC /\ w = InAnyChild /\ L KC cur <> [] /\ L KE cur = []))
  | WDone z None => z = NOPROC /\ k' = k /\
      ((cpid = NOPROC /\ L KC cur = []) \/ (cpid <> NOPROC /\ forall c, cpid = Z.of_nat c -> ~ child_of (PT k) c cur))
  | WDone z (Some st) => exists c, z = Z.of_nat c /\ reaps n hold L fl k cur c k' st /\
      (cpid = z \/ (cpid = NOPROC /\ exists l, L KE cur = c :: l))
  end.

Lemma praw_size n k L fl : praw n k L fl -> size (PT k) = n.
Proof.
  intros R. rewrite <- size_dom. transitivity (size (list_to_set (seq 0 n) : gset nat)).
  - f_equal. apply set_eq. intros x. rewrite elem_of_dom, (pr_dom _ _ _ _ R), elem_of_list_to_set, elem_of_seq. lia.
  - by rewrite size_list_to_set, length_seq by apply NoDup_seq.
Qed.

Lemma wait_error n hold L fl k cur cpid : cpid <> NOPROC -> (forall c, cpid = Z.of_nat c -> ~ child_of (PT k) c cur) ->
  exists r k', Ret (WDone NOPROC None, k) = Ret (r, k') /\ wait_post n hold L fl k cur cpid r k'.
Proof. intros Hp Hno. exists (WDone NOPROC None), k. split; [done|]. simpl. split; [done|]. split; [done|]. by right. Qed.

Lemma wait_specific_ok n hold L fl k cur pcur cpid :
  kernel_ok n hold L fl k -> PT k !! cur = Some pcur -> cpid <> NOPROC ->
  exists r k', wait_for_specific_child cur cpid k = Ret (r, k') /\ wait_post n hold L fl k cur cpid r k'.
Proof.
  intros K Hcur Hpid. pose proof (ko_raw _ _ _ _ _ K) as R. unfold wait_for_specific_child. rewrite (praw_size _ _ _ _ R).
  case_decide as Hr.
  { apply wait_error; [done|]. intros c -> (pc & Hc & _). assert (c < n) by (apply (pr_dom _ _ _ _ R); by eexists). lia. }
  assert (exists c, cpid = Z.of_nat c /\ c < n) as (c & -> & Hc) by (exists (Z.to_nat cpid); lia).
  apply (pr_dom _ _ _ _ R) in Hc as [pc Hc]. unfold get_pcb. rewrite Nat2Z.id, Hc. cbn [deref]. rewrite !ret_bind. case_decide as Hf.
  { apply wait_error; [done|]. intros d Hd%Nat2Z.inj. subst d. intros (y & ? & ? & _). congruence. }
  rewrite Hc. cbn [deref]. rewrite ret_bind. case_decide as Hp.
  { apply wait_error; [done|]. intros d Hd%Nat2Z.inj. subst d. intros (y & ? & ? & ?). congruence. }
  assert (child_of (PT k) c cur) as Hch by (exists pc; split; [done|]; split; [done|]; destruct (decide (parent pc = Some cur)); tauto).
  destruct (specific_loop_ok n hold L fl k cur pcur c K Hcur Hch) as (r & k' & E & Hr'). exists r, k'. split; [done|].
  destruct r as [z st|w].
  - destruct Hr' as (-> & st' & -> & Hreap). exists c. split; [done|]. split; [done|]. by left.
  - destruct Hr' as (-> & Hsl & Hnz). split; [done|]. left. split; [done|]. by exists c.
Qed.

Lemma wait_any_ok n hold L fl k cur pcur :
  kernel_ok n hold L fl k -> PT k !! cur = Some pcur ->
  exists r k', wait_for_any_child cur k = Ret (r, k') /\ wait_post n hold L fl k cur NOPROC r k'.
Proof.
  intros K Hcur. pose proof (ko_raw _ _ _ _ _ K) as R.
  assert (cur < n) as Hn by (apply (pr_dom _ _ _ _ R); by eexists). unfold wait_for_any_child.
  pose proof (empty_ok n k L fl KC cur R Hn) as Ee. simpl in Ee. rewrite Ee, ret_bind. case_bool_decide as Hnil.
  { eexists _, k. split; [done|]. simpl. split; [done|]. split; [done|]. by left. }
  destruct (any_loop_ok n hold L fl k cur pcur K Hcur) as (r & k' & -> & Hr). exists r, k'. split; [done|].
  destruct (L KE cur) as [|c l] eqn:EL.
  - destruct Hr as [-> Hsl]. split; [done|]. right. done.
  - destruct Hr as (st & -> & Hreap). exists c. split; [done|]. split; [done|]. right. split; [done|]. by exists l.
Qed.

Lemma wait_child_ok n hold L fl k cur pcur cpid :
  kernel_ok n hold L fl k -> PT k !! cur = Some pcur ->
  exists r k', sys_WaitChild cur cpid k = Ret (r, k') /\ wait_post n hold L fl k cur cpid r k'.
Proof.
  intros K Hcur. unfold sys_WaitChild. destruct (decide (cpid = NOPROC)) as [->|Hpid].
  - rewrite decide_False by tauto. by eapply wait_any_ok.
  - rewrite decide_True by done. by eapply wait_specific_ok.
Qed.
End kernel_ok.
