(* ===== verification/ProcExit.v ===== *)
(** * Exit keeps the kernel well formed

  [sys_Exit] closes the files of the process, gives its children to the initial process, and leaves a
  zombie in the list of its parent; the initial process first waits for all the others. *)

From S2P Require Import Prelude Rlist Lists Iface Kernel Dev Streams Proc ProcInv ProcOps.

Section exit.
Context {Task T S B : Type} `{SerialOps B} `{SpawnOps T S} `{WakeOps T S}.
Context (sched_ok : S -> Prop).
Implicit Types (k : kernel Task T S B) (pc : PCB Task T) (p c q cur : nat) (L : lists) (fl : list nat) (hold : nat -> list nat).
Abbreviation kernel_ok := (kernel_ok sched_ok).

(** Only the process table and its lists change. *)
Record lists_only k k' : Prop := {
  sr_io : same_io k k';
  sr_freelist : pcb_freelist k' = pcb_freelist k;
  sr_count : process_count k' = process_count k
}.

Lemma lists_only_refl k : lists_only k k.
Proof. by split; [apply same_io_refl|..]. Qed.

Lemma lists_only_trans k1 k2 k3 : lists_only k1 k2 -> lists_only k2 k3 -> lists_only k1 k3.
Proof. intros [A1 E1 E2] [A2 E3 E4]. split; [by eapply same_io_trans|congruence..]. Qed.

Lemma lists_only_tables m h k : lists_only k (with_PT m (with_plists h k)).
Proof. done. Qed.

(** Every block [c] becomes [g c pc]. *)
Definition maps_to (g : nat -> PCB Task T -> PCB Task T) k k' : Prop := forall c, PT k' !! c = g c <$> PT k !! c.

Definition at_block p (u : PCB Task T -> PCB Task T) c pc : PCB Task T := if decide (c = p) then u pc else pc.

Lemma maps_to_upd p u k k' pc : PT k !! p = Some pc -> PT k' = <[p := u pc]> (PT k) -> maps_to (at_block p u) k k'.
Proof.
  intros Hp E c. rewrite E. unfold at_block. destruct (decide (c = p)) as [->|Hne].
  - by rewrite lookup_insert_eq, Hp.
  - rewrite lookup_insert_ne by done. by destruct (PT k !! c).
Qed.

Lemma maps_to_id k : maps_to (fun _ pc => pc) k k.
Proof. intros c. by destruct (PT k !! c). Qed.

Lemma maps_to_trans g1 g2 k1 k2 k3 : maps_to g1 k1 k2 -> maps_to g2 k2 k3 -> maps_to (fun c pc => g2 c (g1 c pc)) k1 k3.
Proof. intros M1 M2 c. rewrite M2, M1. by destruct (PT k1 !! c). Qed.

Lemma maps_to_ext g1 g2 k k' : maps_to g1 k k' -> (forall c pc, PT k !! c = Some pc -> g2 c pc = g1 c pc) -> maps_to g2 k k'.
Proof. intros M1 M2 c. rewrite M1. destruct (PT k !! c) as [pc|] eqn:E; [|done]. simpl. f_equal. symmetry. by apply M2. Qed.

(** *** The children *)

Lemma popped_free n k L fl kd p c l : praw n k L fl -> p < n -> c < n -> L kd p = c :: l -> on_no_list n (set_list kd p l L) kd c.
Proof. intros R Hp Hc HL. apply (node_pfree n), (leave_pfree n k L fl kd p [] l c R Hp Hc HL). by right. Qed.

Definition adopted (l : list nat) c pc : PCB Task T := if decide (c ∈ l) then set_parent (Some 1) pc else pc.

Lemma reparent_loop_ok n fl cur o : forall l fuel k L,
  praw n k L fl -> L KC cur = l -> cur < n -> (forall c, c ∈ l -> c < n /\ c ∉ fl) -> length l < fuel ->
  (l <> [] -> o = Some 1 /\ 1 < n /\ cur <> 1) ->
  exists k' L', reparent_loop fuel cur o k = Ret k' /\ praw n k' L' fl /\ lists_only k k' /\ maps_to (adopted l) k k' /\
    L' KC cur = [] /\ (l <> [] -> L' KC 1 = reverse l ++ L KC 1) /\
    (forall kd x, kd = KE \/ (x <> cur /\ (x <> 1 \/ l = [])) -> L' kd x = L kd x).
Proof.
  intros l. induction l as [|c l IH]; intros fuel k L R HL Hcur Hl Hfuel Ho; (destruct fuel as [|fuel]; [simpl in Hfuel; lia|]);
    cbn [reparent_loop]; pose proof (empty_ok n k L fl KC cur R Hcur) as Ee; simpl in Ee; rewrite Ee, HL, ret_bind; simpl bool_decide.
  { exists k, L. split; [done|]. split; [done|]. split; [apply lists_only_refl|]. split; [|done].
    eapply maps_to_ext; [apply maps_to_id|]. intros c pc _. unfold adopted. by rewrite decide_False by apply not_elem_of_nil. }
  destruct Ho as (-> & Hn1 & Hc1); [done|]. destruct (Hl c) as [Hcn Hcf]; [by left|].
  pose proof (praw_list_NoDup n k L fl KC cur R Hcur) as Hnd. rewrite HL in Hnd. apply NoDup_cons in Hnd as [Hcl Hnd].
  destruct (pop_list_ok n k L fl KC cur c l R Hcur Hcn HL) as (h1 & E1 & R1). simpl in E1. rewrite E1, ret_bind.
  pose proof (pr_key _ _ _ _ R1 KC c Hcn) as Hkey. cbn [plists with_plists] in Hkey. simpl in Hkey. unfold obj_of in Hkey.
  destruct (h1 !! children_node c) as [nd|] eqn:End; [|done]. simpl in Hkey. injection Hkey as Hkey. cbn [deref].
  rewrite ret_bind, Hkey. cbn [deref]. rewrite ret_bind.
  destruct (proj2 (pr_dom _ _ _ _ R c) Hcn) as [pc Hpc]. rewrite (upd_PCB_eq c _ pc (with_plists h1 k) Hpc), ret_bind. cbn [deref]. rewrite ret_bind.
  set (k1 := with_PT _ (with_plists h1 k)). assert (praw n k1 (set_list KC cur l L) fl) as R2.
  { eapply praw_upd; [exact R1|exact Hpc|done|done]. }
  destruct (push_list_ok n k1 (set_list KC cur l L) fl KC 1 c R2 Hn1 Hcn) as (h2 & E2 & R3); [by eapply popped_free|].
  rewrite (bind_eq _ _ _ E2). set (L2 := set_list KC 1 _ _) in R3.
  destruct (IH fuel (with_plists h2 k1) L2 R3) as (k' & L' & E & R' & Hs & Hm & HL1 & HL2 & HL3); try done.
  { unfold L2. rewrite set_list_ne by (by right). by rewrite set_list_eq. }
  { intros x Hx. apply Hl. by right. } { simpl in Hfuel. lia. }
  assert (L2 KC 1 = c :: L KC 1) as EL2. { unfold L2. rewrite set_list_eq. by rewrite set_list_ne by (right; congruence). }
  exists k', L'. split; [done|]. split; [done|]. split; [eapply lists_only_trans; [|exact Hs]; done|]. split; [|split; [done|split]].
  - eapply maps_to_ext; [eapply (maps_to_trans _ _ k (with_plists h2 k1)); [by eapply (maps_to_upd c (set_parent (Some 1)))|exact Hm]|].
    intros x px Hx. unfold adopted, at_block. destruct (decide (x = c)) as [->|Hne].
    + rewrite decide_True by (by left). by rewrite decide_False.
    + destruct (decide (x ∈ l)) as [Hi|Hi]; [by rewrite decide_True by (by right)|rewrite decide_False; [done|list_mem]].
  - intros _. rewrite reverse_cons, <- app_assoc. simpl. destruct l as [|c' l']; [|rewrite HL2 by done; by rewrite EL2].
    simpl. rewrite HL3; [done|right; split; [congruence|by right]].
  - intros kd x Hx. assert (kd = KE \/ x <> cur /\ x <> 1) as Hx' by naive_solver.
    rewrite HL3; [|tauto]. unfold L2. destruct Hx' as [->|[? ?]].
    + by rewrite !set_list_ne by (by left).
    + by rewrite !set_list_ne by (by right).
Qed.

(** *** The exited children *)

Lemma broadcast_ok n k L fl p : praw n k L fl -> p < n ->
  exists k', broadcast_child_exit p k = Ret k' /\ praw n k' L fl /\ lists_only k k' /\ maps_to (at_block p (set_child_exit [])) k k'.
Proof.
  intros R Hp. apply (pr_dom _ _ _ _ R) in Hp as [pc Hpc]. unfold broadcast_child_exit. rewrite (upd_PCB_eq _ _ _ _ Hpc).
  eexists. split; [done|]. split; [by eapply praw_upd|]. split; [done|]. by eapply maps_to_upd.
Qed.

Definition when (b : bool) (g : nat -> PCB Task T -> PCB Task T) c pc : PCB Task T := if b then g c pc else pc.

Lemma hand_over_ok n fl cur o k L : praw n k L fl -> cur < n -> (L KE cur <> [] -> o = Some 1 /\ 1 < n /\ cur <> 1) ->
  exists k' L', hand_over_exited cur o k = Ret k' /\ praw n k' L' fl /\ lists_only k k' /\
    maps_to (when (bool_decide (L KE cur <> [])) (at_block 1 (set_child_exit []))) k k' /\
    L' KE cur = [] /\ (L KE cur <> [] -> L' KE 1 = L KE 1 ++ L KE cur) /\
    (forall kd x, kd = KC \/ (x <> cur /\ (x <> 1 \/ L KE cur = [])) -> L' kd x = L kd x).
Proof.
  intros R Hcur Ho. unfold hand_over_exited. pose proof (empty_ok n k L fl KE cur R Hcur) as Ee. simpl in Ee. rewrite Ee, ret_bind.
  case_bool_decide as El.
  { exists k, L. split; [done|]. split; [done|]. split; [apply lists_only_refl|]. rewrite bool_decide_false by tauto.
    split; [apply maps_to_id|done]. }
  destruct (Ho El) as (-> & Hn1 & Hc1). cbn [deref]. rewrite ret_bind.
  destruct (append_list_ok n k L fl KE 1 cur R Hn1 Hcur) as (h & E & R1); [done|]. simpl in E. rewrite E, ret_bind.
  destruct (broadcast_ok n _ _ fl 1 R1 Hn1) as (k' & -> & R2 & Hs & Hm). eexists k', _. split; [done|]. split; [exact R2|].
  split; [eapply lists_only_trans; [|exact Hs]; done|]. rewrite bool_decide_true by done. split; [exact Hm|]. split; [|split].
  - rewrite set_list_ne by (by right). by rewrite set_list_eq.
  - intros _. by rewrite set_list_eq.
  - intros kd x Hx. destruct Hx as [->|[? [?|?]]]; [by rewrite !set_list_ne by (by left)|by rewrite !set_list_ne by (by right)|done].
Qed.

Lemma tell_parent_ok n fl cur k L pc : praw n k L fl -> PT k !! cur = Some pc -> on_no_list n L KE cur ->
  (forall q, parent pc = Some q -> q < n) ->
  exists k' L', tell_parent cur k = Ret k' /\ praw n k' L' fl /\ lists_only k k' /\
    maps_to (fun c => when (bool_decide (parent pc = Some c)) (fun _ => set_child_exit []) c) k k' /\
    (forall kd x, L' kd x = if decide (kd = KE /\ parent pc = Some x) then cur :: L KE x else L kd x).
Proof.
  intros R Hp Hno Hq. unfold tell_parent. rewrite Hp. cbn [deref]. rewrite ret_bind.
  assert (cur < n) as Hcn by (apply (pr_dom _ _ _ _ R); by eexists). destruct (parent pc) as [q|].
  - specialize (Hq q eq_refl). destruct (push_list_ok n k L fl KE q cur R Hq Hcn Hno) as (h & E & R1). simpl in E. rewrite E, ret_bind.
    destruct (broadcast_ok n _ _ fl q R1 Hq) as (k' & -> & R2 & Hs & Hm). eexists k', _. split; [done|]. split; [exact R2|].
    split; [eapply lists_only_trans; [|exact Hs]; done|]. split.
    + eapply maps_to_ext; [exact Hm|]. intros c px _. unfold at_block, when. case_bool_decide as D.
      * injection D as ->. by rewrite decide_True.
      * rewrite decide_False; [done|congruence].
    + intros kd x. unfold set_list. destruct (decide (kd = KE /\ x = q)) as [[-> ->]|D]; [by rewrite decide_True|].
      rewrite decide_False; [done|]. intros [-> [= ->]]. tauto.
  - exists k, L. split; [done|]. split; [done|]. split; [apply lists_only_refl|]. split; [apply maps_to_id|].
    intros kd x. rewrite decide_False; [done|]. by intros [_ ?].
Qed.

(** *** The whole exit *)

Lemma lists_moved cur L L' kd :
  L' kd cur = [] -> (L kd cur <> [] -> cur <> 1 /\ L' kd 1 ≡ₚ L kd 1 ++ L kd cur) ->
  (forall x, x <> cur -> x <> 1 \/ L kd cur = [] -> L' kd x = L kd x) ->
  forall c x, c ∈ L' kd x <-> (c ∈ L kd x /\ x <> cur) \/ (x = 1 /\ c ∈ L kd cur).
Proof.
  intros A1 A2 A3 c x. destruct (decide (x = cur)) as [->|Hx].
  - rewrite A1, elem_of_nil. split; [done|]. intros [[_ ?]|[-> Hc]]; [done|]. destruct (L kd 1) as [|y l]; [by apply elem_of_nil in Hc|].
    by destruct A2.
  - destruct (decide (L kd cur = [])) as [E|E].
    + rewrite A3, E, elem_of_nil by tauto. tauto.
    + destruct (A2 E) as [Hc1 HP]. destruct (decide (x = 1)) as [->|Hx1].
      * rewrite HP, elem_of_app. tauto.
      * rewrite A3 by tauto. tauto.
Qed.

(** What the exit of [cur], whose parent is [par], makes of the block [c]. *)
Definition exit_block (cur : nat) (v : Z) (par : option nat) (handed : bool) c pc : PCB Task T :=
  mkPCB (if decide (c = cur) then ZOMBIE else pstate pc)
    (if decide (pstate pc <> FREE /\ parent pc = Some cur) then Some 1 else parent pc)
    (if decide (c = cur) then v else exitval pc)
    (if decide (c = cur) then None else main_thread pc)
    (main_task pc) (argl pc)
    (if decide (c = cur) then None else args pc)
    (if decide (par = Some c \/ (c = 1 /\ handed = true)) then [] else child_exit pc)
    (if decide (c = cur) then repeat None MAX_FILEID else FIDT pc).

Record exited n hold L fl k cur (v : Z) (pcur : PCB Task T) L' k' : Prop := {
  ex_ok : kernel_ok n hold L' fl k';
  ex_lists : exit_lists cur (parent pcur) L L';
  ex_blocks : maps_to (exit_block cur v (parent pcur) (bool_decide (L KE cur <> []))) k k';
  ex_streams : same_streams (FT k) (FT k');
  ex_serial : serial_dcb k' = serial_dcb k;
  ex_ports : ports k' = ports k;
  ex_sched : sched k' = sched k;
  ex_freelist : pcb_freelist k' = pcb_freelist k
}.

(** The blocks: without files and arguments, adopted, with broadcasts to the initial process and the parent, and dead. *)
Definition closed_block pc : PCB Task T := set_FIDT (repeat None MAX_FILEID) (set_args None pc).
Definition zombie_block (v : Z) pc : PCB Task T := set_exitval v (set_pstate ZOMBIE (set_main_thread None pc)).

Definition handed_block cur L c pc : PCB Task T :=
  when (bool_decide (L KE cur <> [])) (at_block 1 (set_child_exit [])) c (adopted (L KC cur) c pc).
Definition told_block (par : option nat) c pc : PCB Task T := when (bool_decide (par = Some c)) (fun _ => set_child_exit []) c pc.

Lemma exit_block_eq L cur v k pcur c pc : PT k !! cur = Some pcur -> pstate pcur = ALIVE -> parent pcur <> Some cur ->
  (forall x, x ∈ L KC cur <-> child_of (PT k) x cur) -> (L KE cur <> [] -> cur <> 1) -> PT k !! c = Some pc ->
  exit_block cur v (parent pcur) (bool_decide (L KE cur <> [])) c pc =
  at_block cur (zombie_block v) c (told_block (parent pcur) c (handed_block cur L c (at_block cur closed_block c pc))).
Proof.
  intros Hcur Ha Hself Hadopt Hone Hc. unfold exit_block, zombie_block, closed_block, told_block, handed_block, at_block, adopted, when.
  assert (c ∈ L KC cur <-> pstate pc <> FREE /\ parent pc = Some cur) as Hk.
  { rewrite Hadopt. split; [intros (y & ? & ?); by simplify_eq|intros ?; by exists pc]. }
  destruct (decide (c = cur)) as [->|Hne].
  - assert (pc = pcur) as -> by congruence. rewrite (decide_False (P := cur ∈ _)) by tauto.
    rewrite (decide_False (P := _ /\ _)) by tauto. rewrite (bool_decide_false (parent pcur = Some cur)) by done.
    rewrite (decide_False (P := _ \/ _)).
    + case_bool_decide as E; [rewrite (decide_False (P := cur = 1)) by auto|]; by destruct pcur.
    + intros [?|[? ?%bool_decide_eq_true_1]]; [done|]. by apply Hone.
  - rewrite (decide_ext (pstate pc <> FREE /\ parent pc = Some cur) (c ∈ L KC cur)) by tauto.
    case_bool_decide as E1; case_bool_decide as E2; destruct (decide (c = 1)) as [E3|E3]; destruct (decide (c ∈ L KC cur));
      destruct (decide (parent pcur = Some c \/ _)) as [[E4|[E4 E5]]|E4];
      first [by destruct pc|exfalso; clear -E1 E2 E3 E4; tauto|discriminate E5].
Qed.

(** The children, dead or alive, are handed to the initial process. *)
Lemma hand_children_ok n fl cur k L : praw n k L fl -> cur < n -> 1 < n ->
  (forall c, c ∈ L KC cur -> c < n /\ c ∉ fl) -> (L KC cur <> [] -> cur <> 1) -> (L KE cur <> [] -> cur <> 1) ->
  exists k3 k4 L4, reparent_loop (Datatypes.S (size (plists k))) cur (Some 1) k = Ret k3 /\ hand_over_exited cur (Some 1) k3 = Ret k4 /\
    praw n k4 L4 fl /\ lists_only k k4 /\ maps_to (handed_block cur L) k k4 /\
    (forall c x, c ∈ L4 KC x <-> (c ∈ L KC x /\ x <> cur) \/ (x = 1 /\ c ∈ L KC cur)) /\
    (forall c x, c ∈ L4 KE x <-> (c ∈ L KE x /\ x <> cur) \/ (x = 1 /\ c ∈ L KE cur)).
Proof.
  intros R Hcn H1n Hkids Hone Hone'.
  destruct (reparent_loop_ok n fl cur (Some 1) (L KC cur) (Datatypes.S (size (plists k))) k L R)
    as (k3 & L3 & E1 & R3 & S3 & M3 & L3a & L3b & L3c); [done|done|done| |naive_solver|].
  { pose proof (ring_size _ _ (fo_list _ _ _ (pr_forest _ _ _ _ R) _ _ (plist_of n L KC cur Hcn))) as Hsz.
    cbn [length] in Hsz. rewrite length_fmap in Hsz. lia. }
  assert (L3 KE cur = L KE cur) as E3 by (apply L3c; by left).
  destruct (hand_over_ok n fl cur (Some 1) k3 L3 R3 Hcn) as (k4 & L4 & E2 & R4 & S4 & M4 & L4a & L4b & L4c); [rewrite E3; naive_solver|].
  rewrite E3 in *. exists k3, k4, L4. split; [exact E1|]. split; [exact E2|]. split; [exact R4|].
  split; [by eapply lists_only_trans|]. split; [exact (maps_to_trans _ _ _ _ _ M3 M4)|]. split; apply lists_moved.
  - rewrite L4c by (by left). done.
  - intros Hne. split; [tauto|]. rewrite L4c by (by left). rewrite (L3b Hne), reverse_Permutation. apply Permutation_app_comm.
  - intros x Hx Hor. rewrite L4c by (by left). apply L3c. tauto.
  - done.
  - intros Hne. split; [tauto|]. rewrite (L4b Hne), L3c by (by left). done.
  - intros x Hx Hor. rewrite L4c by tauto. apply L3c. by left.
Qed.

(** The lists at the end. *)
Lemma exit_lists_intro n hold L fl k cur pcur L4 L5 : kernel_ok n hold L fl k -> PT k !! cur = Some pcur ->
  (forall c x, c ∈ L4 KC x <-> (c ∈ L KC x /\ x <> cur) \/ (x = 1 /\ c ∈ L KC cur)) ->
  (forall c x, c ∈ L4 KE x <-> (c ∈ L KE x /\ x <> cur) \/ (x = 1 /\ c ∈ L KE cur)) ->
  (forall kd x, L5 kd x = if decide (kd = KE /\ parent pcur = Some x) then cur :: L4 KE x else L4 kd x) ->
  exit_lists cur (parent pcur) L L5.
Proof.
  intros K Hcur HC HE HL5. split; intros c x; rewrite HL5.
  - rewrite decide_False by (by intros [? _]). apply HC.
  - destruct (decide (KE = KE /\ parent pcur = Some x)) as [[_ Hx]|Hx]; rewrite ?elem_of_cons, HE; naive_solver.
Qed.

(** What is left to be shown when the blocks and the lists are known; [k2] is the kernel when the files are closed. *)
Lemma exited_intro n hold L fl k k2 k' cur v pcur L' :
  kernel_ok n hold L fl k -> PT k !! cur = Some pcur -> pstate pcur = ALIVE -> cur <> 0 ->
  (cur = 1 -> L KC cur = []) -> (exists ip, PT k !! 1 = Some ip /\ pstate ip = ALIVE) ->
  files_ok n hold k2 -> maps_to (at_block cur closed_block) k k2 -> same_streams (FT k) (FT k2) ->
  (devtable k2, serial_dcb k2, sched k2, ports k2, pcb_freelist k2) = (devtable k, serial_dcb k, sched k, ports k, pcb_freelist k) ->
  praw n k' L' fl -> lists_only k2 k' -> exit_lists cur (parent pcur) L L' ->
  maps_to (exit_block cur v (parent pcur) (bool_decide (L KE cur <> []))) k k' ->
  exited n hold L fl k cur v pcur L' k'.
Proof.
  intros [R P F D Hdead Hs] Hcur Ha Hc0 Hone (ip & Hip & Hia) F2 M2 Hss [= E1 E2 E3 E4 E5] R' [[T1 T2 T3 T4 T5 T6] T7 T8] HL M'.
  split; [split| | | | | | |]; try done; try congruence.
  - assert (exit_tree cur (PT k) (PT k')) as HT by (intros c; rewrite (M' c); by destruct (PT k !! c)).
    apply (ptree_exit (PT k) (PT k') L L' cur pcur); try done. intros _. by exists ip.
  - eapply (files_same n hold k2); [exact F2| |done|done|by rewrite T6].
    intros c. rewrite (M' c), (M2 c). destruct (PT k !! c) as [pc|]; [|done]. simpl. f_equal. unfold at_block, closed_block. by destruct (decide (c = cur)).
  - eapply devices_same; [exact D|congruence..].
  - intros c pc. rewrite (M' c). destruct (PT k !! c) as [pc0|] eqn:Hc; [|done]. simpl. intros [= <-]. unfold no_files, exit_block. simpl.
    destruct (decide (c = cur)); [done|]. by apply (Hdead c).
Qed.

Lemma not_own_parent n hold L fl k cur pcur : kernel_ok n hold L fl k -> PT k !! cur = Some pcur -> pstate pcur = ALIVE -> parent pcur <> Some cur.
Proof.
  intros K Hcur Ha Hp. destruct (pt_rank _ _ (ko_tree _ _ _ _ _ _ K)) as (rank & Hrk & _). specialize (Hrk cur cur).
  assert (rank cur < rank cur); [|lia]. apply Hrk. exists pcur. by rewrite Ha.
Qed.

(** The process is told of to its parent, and becomes a zombie. *)
Lemma tell_and_die_ok n fl cur v k L pc : praw n k L fl -> PT k !! cur = Some pc -> pstate pc = ALIVE -> on_no_list n L KE cur ->
  (forall q, parent pc = Some q -> q < n) ->
  exists k' L', (k ← tell_parent cur k; k ← upd_PCB cur (set_main_thread None) k; upd_PCB cur (fun pc => set_exitval v (set_pstate ZOMBIE pc)) k) = Ret k' /\
    praw n k' L' fl /\ lists_only k k' /\ maps_to (fun c pc' => at_block cur (zombie_block v) c (told_block (parent pc) c pc')) k k' /\
    (forall kd x, L' kd x = if decide (kd = KE /\ parent pc = Some x) then cur :: L KE x else L kd x).
Proof.
  intros R Hp Ha Hno Hq. destruct (tell_parent_ok n fl cur k L pc R Hp Hno Hq) as (k5 & L5 & -> & R5 & S5 & M5 & HL5). rewrite ret_bind.
  pose proof (M5 cur) as Hp5. rewrite Hp in Hp5. destruct (PT k5 !! cur) as [pc5|] eqn:E5; [|done]. injection Hp5 as Ep5.
  rewrite (upd_PCB_eq _ _ _ _ E5), ret_bind. rewrite (upd_PCB_eq cur _ (set_main_thread None pc5)) by apply lookup_insert_eq.
  set (k7 := with_PT _ _). assert (PT k7 = <[cur := zombie_block v pc5]> (PT k5)) as EP7 by (unfold k7; cbn; by rewrite insert_insert_eq).
  exists k7, L5. split; [done|]. split; [|split; [|split; [|exact HL5]]].
  - assert (pstate pc5 = ALIVE) as Ha5 by (rewrite Ep5; unfold when; by case_match).
    eapply (praw_same n (with_PT (PT k7) k5)); [|done..]. rewrite EP7. eapply praw_upd; [exact R5|exact E5|by rewrite Ha5|done].
  - eapply lists_only_trans; [exact S5|]. done.
  - exact (maps_to_trans _ _ _ _ _ M5 (maps_to_upd cur (zombie_block v) k5 k7 pc5 E5 EP7)).
Qed.

Lemma exit_process_ok n hold L fl k cur pcur v :
  kernel_ok n hold L fl k -> PT k !! cur = Some pcur -> pstate pcur = ALIVE -> cur <> 0 ->
  (cur = 1 -> L KC cur = []) -> (exists ip, PT k !! 1 = Some ip /\ pstate ip = ALIVE) ->
  exists L' k', exit_process cur v k = Ret k' /\ exited n hold L fl k cur v pcur L' k'.
Proof.
  intros K Hcur Ha Hc0 Hone Hinit. pose proof K as [R P F D Hdead Hs]. pose proof Hinit as (ip & Hip & Hia). unfold exit_process.
  assert (cur < n /\ 1 < n) as [Hcn H1n] by (split; apply (pr_dom _ _ _ _ R); by eexists).
  rewrite (upd_PCB_eq _ _ _ _ Hcur), ret_bind. set (k1 := with_PT _ k).
  assert (kernel_ok n hold L fl k1) as K1 by (by eapply kernel_ok_upd).
  destruct (close_files_ok n hold cur MAX_FILEID 0 k1 (set_args None pcur)) as (mm & hf & -> & F2 & Hss);
    [apply K1|apply lookup_insert_eq|done|done|]. rewrite ret_bind. set (k2 := with_PT (set_fids _ _ _ _) _) in *.
  assert (maps_to (at_block cur closed_block) k k2) as M2.
  { eapply maps_to_upd; [exact Hcur|]. unfold k2, k1. unfold set_fids. cbn. by rewrite insert_insert_eq. }
  assert (praw n k2 L fl) as R2.
  { eapply (praw_same n (with_PT (PT k2) k1)); [|done..]. eapply (praw_upd n k1 _ _ cur); [apply K1|apply lookup_insert_eq|done|done]. }
  assert (exists ip2, PT k2 !! 1 = Some ip2 /\ pstate ip2 = ALIVE) as (ip2 & Hip2 & Hia2).
  { rewrite (M2 1), Hip. eexists. split; [done|]. unfold at_block. by destruct (decide (1 = cur)). }
  unfold get_pcb. rewrite Hip2. cbn [deref]. rewrite ret_bind, decide_False by (by rewrite Hia2). rewrite ret_bind.
  assert (L KC cur <> [] -> cur <> 1) as Hone' by (intros Hne ->; by apply Hne, Hone).
  assert (L KE cur <> [] -> cur <> 1) as Hone''.
  { intros Hne. apply Hone'. destruct (L KE cur) as [|c l] eqn:E; [done|].
    assert (c ∈ L KC cur) as Hc by (apply P, zombie_child, (pt_exited _ _ P); rewrite E; by left). intros E'. rewrite E' in Hc. by apply elem_of_nil in Hc. }
  destruct (hand_children_ok n fl cur k2 L R2 Hcn H1n) as (k3 & k4 & L4 & E3 & E4 & R4 & S4 & M4 & HC & HE); [|done|done|].
  { intros c (pc & Hpc & Hf & _)%(pt_child _ _ P). split; [apply (pr_dom _ _ _ _ R); by eexists|].
    intros (pc' & ? & ?)%(pr_free _ _ _ _ R). congruence. }
  rewrite E3, ret_bind, E4, ret_bind. pose proof (maps_to_trans _ _ _ _ _ M2 M4) as M24.
  pose proof (not_own_parent _ _ _ _ _ _ _ K Hcur Ha) as Hself.
  assert (exists pc4, PT k4 !! cur = Some pc4 /\ parent pc4 = parent pcur /\ pstate pc4 = ALIVE) as (pc4 & Hp4 & Epar4 & Ha4).
  { rewrite (M24 cur), Hcur. eexists. split; [done|]. unfold handed_block, when, at_block, adopted. rewrite (decide_False (P := cur ∈ _)).
    - rewrite (decide_True (P := cur = cur)) by done. case_bool_decide; [|done]. by destruct (decide (cur = 1)).
    - intros (pc & ? & _ & ?)%(pt_child _ _ P). congruence. }
  destruct (tell_and_die_ok n fl cur v k4 L4 pc4 R4 Hp4 Ha4) as (k7 & L5 & -> & R7 & S7 & M7 & HL5).
  { intros q Hq [[Hin _]|[_ Hin]]%HE; apply (pt_exited _ _ P) in Hin as (pc & ? & ? & _); congruence. }
  { intros q Hq. destruct (pt_parent _ _ P cur q) as (_ & pq & Hpq & _); [exists pcur; rewrite Ha; by rewrite <- Epar4|].
    apply (pr_dom _ _ _ _ R). by eexists. }
  rewrite Epar4 in *. exists L5, k7. split; [done|].
  eapply (exited_intro n hold L fl k k2 k7 cur v pcur L5); try done.
  - exact (lists_only_trans _ _ _ S4 S7).
  - exact (exit_lists_intro _ _ _ _ _ _ _ _ _ K Hcur HC HE HL5).
  - eapply maps_to_ext; [exact (maps_to_trans _ _ _ _ _ M24 M7)|]. intros c pc Hc. apply (exit_block_eq L cur v k); try done. intros x. apply P.
Qed.

(** *** What the other processes see

  The processes that are not in [D] stay alive or not; they keep their children, and when one of these
  becomes a zombie, a broadcast wakes its parent. *)

Record others (D : list nat) k k' : Prop := {
  ot_dom p : is_Some (PT k' !! p) -> is_Some (PT k !! p);
  ot_block p pc : (p ∉ D) -> PT k !! p = Some pc -> exists pc', PT k' !! p = Some pc' /\
    (pstate pc' = ALIVE <-> pstate pc = ALIVE) /\ main_task pc' = main_task pc /\ main_thread pc' = main_thread pc /\
    (child_exit pc' = child_exit pc \/ child_exit pc' = []);
  ot_child c p : (p ∉ D) -> child_of (PT k) c p -> child_of (PT k') c p;
  ot_zombie c p pc' : (p ∉ D) -> PT k' !! p = Some pc' -> child_exit pc' <> [] -> zombie_of (PT k') c p -> zombie_of (PT k) c p
}.

Lemma others_same D k k' : PT k' = PT k -> others D k k'.
Proof. intros E. split; rewrite E; try done. intros p pc _ Hp. exists pc. do 4 (split; [done|]). by left. Qed.

Lemma others_trans D k1 k2 k3 : others D k1 k2 -> others D k2 k3 -> others D k1 k3.
Proof.
  intros [A1 A2 A3 A4] [B1 B2 B3 B4]. split.
  - intros p Hp. by apply A1, B1.
  - intros p pc HD Hp. destruct (A2 p pc HD Hp) as (pc2 & Hp2 & Ha & Ht & Hm & Hc). destruct (B2 p pc2 HD Hp2) as (pc3 & Hp3 & Ha' & Ht' & Hm' & Hc').
    exists pc3. split; [done|]. split; [by rewrite Ha'|]. split; [congruence|]. split; [congruence|]. destruct Hc' as [->| ->]; [done|by right].
  - intros c p HD Hc. by apply B3, A3.
  - intros c p pc3 HD Hp Hne Hz. destruct (B1 p) as [pc2 Hp2]; [by eexists|]. destruct (B2 p pc2 HD Hp2) as (pc3' & Hp3 & _ & _ & _ & Hc).
    assert (pc3' = pc3) as -> by congruence. eapply A4; [done|exact Hp2|destruct Hc; congruence|]. eapply B4; done.
Qed.

(** A change of one block that keeps its state and its parent. *)
Lemma others_upd D k k' p pc pc' : p ∈ D -> PT k !! p = Some pc -> PT k' = <[p := pc']> (PT k) -> pstate pc' = pstate pc -> parent pc' = parent pc ->
  others D k k'.
Proof.
  intros HD Hp E Hs Hpar. assert (same_tree (PT k) (PT k')) as HT by (rewrite E; by eapply same_tree_insert). split.
  - intros q. rewrite E. intros [<-|[_ ?]]%lookup_insert_is_Some; [by eexists|done].
  - intros q qc Hq Hqc. exists qc. rewrite E, lookup_insert_ne by (by intros ->). do 4 (split; [done|]). by left.
  - intros c q _ Hc. by apply (same_tree_child (PT k)).
  - intros c q qc _ _ _ Hz. by apply (same_tree_zombie (PT k) (PT k')).
Qed.

Lemma sleeps_others n hold L fl k cur k' : sleeps sched_ok n hold L fl k cur k' -> others [cur] k k'.
Proof. intros (pc & Hp & -> & _). eapply others_upd; [by left|exact Hp|done|done|done]. Qed.

Lemma reaps_others n hold L fl k cur c k' st : kernel_ok n hold L fl k -> reaps sched_ok n hold L fl k cur c k' st -> others [cur] k k'.
Proof.
  intros K (L' & pc & Hc & Hz & Hpar & _ & K' & _ & E & _).
  assert (forall x q, (q ∉ [cur]) -> child_of (PT k) x q -> x <> c) as Hne.
  { intros x q Hq Hx ->. apply Hq. assert (child_of (PT k) c cur) as Hcc by (exists pc; by rewrite Hz).
    rewrite (child_of_fun _ _ _ _ Hx Hcc). by left. }
  split.
  - intros q. rewrite E. intros [<-|[_ ?]]%lookup_insert_is_Some; [by eexists|done].
  - intros q qc Hq Hqc. rewrite E. destruct (decide (c = q)) as [<-|Hcq].
    + eexists. rewrite lookup_insert_eq. split; [done|]. assert (qc = pc) as -> by congruence. rewrite Hz. do 3 (split; [done|]). by left.
    + exists qc. rewrite lookup_insert_ne by done. do 4 (split; [done|]). by left.
  - intros x q Hq Hx. pose proof (Hne x q Hq Hx) as Hxc. destruct Hx as (xc & ? & ? & ?). exists xc. rewrite E, lookup_insert_ne by done. done.
  - intros x q qc Hq _ _ (xc & Hx & Hxz & Hxp). rewrite E in Hx. apply lookup_insert_Some in Hx as [[<- <-]|[_ Hx]]; [done|]. by exists xc.
Qed.

Lemma exited_others n hold L fl k cur v pcur L' k' : kernel_ok n hold L fl k -> PT k !! cur = Some pcur -> pstate pcur = ALIVE ->
  exited n hold L fl k cur v pcur L' k' -> others [cur] k k'.
Proof.
  intros K Hcur Ha X. pose proof (ko_tree _ _ _ _ _ _ K) as P. pose proof (ko_tree _ _ _ _ _ _ (ex_ok _ _ _ _ _ _ _ _ _ _ X)) as P'.
  destruct (ex_lists _ _ _ _ _ _ _ _ _ _ X) as [EC EE]. pose proof (ex_blocks _ _ _ _ _ _ _ _ _ _ X) as M. split.
  - intros p. rewrite (M p). intros Hs. by apply fmap_is_Some in Hs.
  - intros p pc Hp Hpc. rewrite (M p), Hpc. eexists. split; [done|]. unfold exit_block. cbn.
    rewrite list_elem_of_singleton in Hp. rewrite !(decide_False (P := p = cur)) by done. do 3 (split; [done|]). case_decide; tauto.
  - intros c p Hp Hc. rewrite list_elem_of_singleton in Hp. apply P', EC. left. split; [by apply P|done].
  - intros c p pc' Hp Hpc' Hne Hz. rewrite list_elem_of_singleton in Hp.
    rewrite (M p) in Hpc'. destruct (PT k !! p) as [pc|]; [|done]. injection Hpc' as <-. unfold exit_block in Hne. cbn in Hne.
    case_decide as D; [done|]. apply (pt_exited _ _ P'), EE in Hz as [[Hz _]|[[-> Hz]|[-> Hz]]]; [by apply P| |tauto].
    exfalso. apply D. right. split; [done|]. apply bool_decide_eq_true. intros E. rewrite E in Hz. by apply elem_of_nil in Hz.
Qed.

(** *** The loop of the initial process *)

Definition reap_step n hold cur k k' : Prop := exists L fl c st, reaps sched_ok n hold L fl k cur c k' st.

(** Every round that goes on frees a block, so the loop ends. *)
Lemma exit_wait_loop_ok n hold cur pcur : forall fuel L fl k,
  kernel_ok n hold L fl k -> PT k !! cur = Some pcur -> pstate pcur = ALIVE -> n < fuel + length fl -> (forall p, p ∈ fl -> 1 < p) ->
  exists r k' L' fl' k1, exit_wait_loop fuel cur k = Ret (r, k') /\ kernel_ok n hold L' fl' k' /\ (forall p, p ∈ fl' -> 1 < p) /\
    others [cur] k k1 /\ PT k1 !! cur = Some pcur /\ same_io k k1 /\ reach (reap_step n hold cur) k k1 /\
    match r with
    | XGone => k' = k1 /\ L' KC cur = []
    | XBlock => sleeps sched_ok n hold L' fl' k1 cur k' /\ L' KC cur <> [] /\ L' KE cur = []
    end.
Proof.
  induction fuel as [|fuel IH]; intros L fl k K Hcur Ha Hfuel Hfl.
  { pose proof (ko_raw _ _ _ _ _ _ K) as R. exfalso. assert (length fl <= n); [|lia].
    rewrite <- (length_seq n 0). apply submseteq_length, NoDup_submseteq; [apply R|].
    intros q (qc & ? & _)%(pr_free _ _ _ _ R). apply elem_of_seq. split; [lia|]. apply (pr_dom _ _ _ _ R). by eexists. }
  cbn [exit_wait_loop]. destruct (wait_child_ok sched_ok n hold L fl k cur pcur NOPROC K Hcur) as (r & k' & -> & Hw). rewrite ret_bind.
  destruct r as [z [st|]|w]; simpl in Hw.
  - destruct Hw as (c & -> & Hreap & _). rewrite decide_False by (unfold NOPROC; lia).
    pose proof (reaps_others _ _ _ _ _ _ _ _ _ K Hreap) as Ho. pose proof Hreap as (L' & pc & Hc & Hz & Hpar & _ & K' & Hio & E & _).
    assert (c <> cur) as Hne by congruence.
    destruct (IH L' (c :: fl) k' K') as (r & k'' & L'' & fl'' & k1 & E1 & K1 & Hfl1 & Ho1 & Hc1 & Hio1 & Hre & Hr); [|done|simpl; lia| |].
    { by rewrite E, lookup_insert_ne. }
    { intros p [->|Hp]%elem_of_cons; [|by apply Hfl]. destruct (decide (c <= 1)) as [Hle|]; [|lia].
      apply (pt_root _ _ (ko_tree _ _ _ _ _ _ K) c pc Hc) in Hle; congruence. }
    exists r, k'', L'', fl'', k1. split; [done|]. split; [done|]. split; [done|]. split; [by eapply others_trans|].
    split; [done|]. split; [by eapply same_io_trans|]. split; [|done].
    eapply reach_trans; [eapply reach_step; [apply reach_refl|]|exact Hre]. by exists L, fl, c, st.
  - destruct Hw as (-> & -> & [[_ Hnil]|[? _]]); [|done]. rewrite decide_True by done. exists XGone, k, L, fl, k.
    split; [done|]. split; [done|]. split; [done|]. split; [by apply others_same|]. split; [done|]. split; [apply same_io_refl|]. split; [apply reach_refl|done].
  - destruct Hw as (Hsl & [[? _]|(_ & -> & Hne & Hnil)]); [done|]. exists XBlock, k', L, fl, k. split; [done|].
    split; [by destruct Hsl as (? & _ & _ & ?)|]. split; [done|]. split; [by apply others_same|]. split; [done|]. split; [apply same_io_refl|]. split; [apply reach_refl|done].
Qed.

(** The exit of any process but the idle one: it is gone, or it is the initial process and sleeps. *)
Lemma sys_exit_ok n hold L fl k cur pcur v :
  kernel_ok n hold L fl k -> PT k !! cur = Some pcur -> pstate pcur = ALIVE -> cur <> 0 -> (forall p, p ∈ fl -> 1 < p) ->
  (exists ip, PT k !! 1 = Some ip /\ pstate ip = ALIVE) ->
  exists r k' L' fl' k1 L1 fl1, sys_Exit cur v k = Ret (r, k') /\ kernel_ok n hold L' fl' k' /\ (forall p, p ∈ fl' -> 1 < p) /\
    kernel_ok n hold L1 fl1 k1 /\ others [cur] k k1 /\ PT k1 !! cur = Some pcur /\ same_io k k1 /\ reach (reap_step n hold cur) k k1 /\ (cur <> 1 -> k1 = k /\ L1 = L /\ fl1 = fl) /\
    match r with
    | XGone => (cur = 1 -> L1 KC cur = []) /\ exited n hold L1 fl1 k1 cur v pcur L' k' /\ fl1 = fl'
    | XBlock => cur = 1 /\ sleeps sched_ok n hold L' fl' k1 cur k' /\ L' KC cur <> [] /\ L' KE cur = []
    end.
Proof.
  intros K Hcur Ha Hc0 Hfl Hip. unfold sys_Exit, sys_GetPid, get_pid. case_decide as D.
  - assert (cur = 1) as -> by lia. destruct (exit_wait_loop_ok n hold 1 pcur (Datatypes.S (size (PT k))) L fl k K Hcur Ha)
      as (r & k' & L' & fl' & k1 & -> & K' & Hfl' & Ho & Hc1 & Hio & Hre & Hr); [|done|].
    { rewrite (praw_size _ _ _ _ (ko_raw _ _ _ _ _ _ K)). lia. }
    rewrite ret_bind. destruct r.
    + destruct Hr as [-> Hnil]. destruct (exit_process_ok n hold L' fl' k1 1 pcur v K' Hc1 Ha) as (L2 & k2 & -> & X); [done|done|by exists pcur|].
      rewrite ret_bind. exists XGone, k2, L2, fl', k1, L', fl'. split; [done|]. split; [apply X|]. done.
    + destruct Hr as (Hsl & Hne & Hnil). assert (kernel_ok n hold L' fl' k1) as K1.
      { destruct Hsl as (pc & Hp & -> & K2). assert (pc = pcur) as -> by congruence.
        pose proof (kernel_ok_upd sched_ok n hold L' fl' _ 1 _ pcur K2 (lookup_insert_eq _ _ _) eq_refl eq_refl eq_refl) as K3.
        cbn in K3. rewrite insert_insert_eq, insert_id in K3 by done. by destruct k1. }
      exists XBlock, k', L', fl', k1, L', fl'. done.
  - assert (cur <> 1) as Hne by lia. destruct (exit_process_ok n hold L fl k cur pcur v K Hcur Ha) as (L2 & k2 & -> & X); [done|done|done|].
    rewrite ret_bind. exists XGone, k2, L2, fl, k, L, fl. split; [done|]. split; [apply X|]. split; [done|]. split; [done|].
    split; [by apply others_same|]. split; [done|]. split; [apply same_io_refl|]. split; [apply reach_refl|]. done.
Qed.
End exit.
