(* ===== verification/ProcSpec.v ===== *)
(** * What the process table promises

  The processes as their programs know them: who is alive, who has exited with which value, and who is the
  parent of whom.  [proc_spec] is what may happen to them, and the operations of [Proc] do nothing else. *)

From S2P Require Import Prelude Rlist Lists Iface Kernel Dev Streams Proc ProcInv ProcOps ProcExit.

(** A process: the value with which it exited, if it did, and its parent. *)
Definition proc : Type := option Z * option nat.

Abbreviation procs := (gmap nat proc).

(** The children of [p] go to the initial process. *)
Definition adopt (p : nat) (x : proc) : proc := (x.1, if decide (x.2 = Some p) then Some 1 else x.2).

Inductive proc_spec (m : procs) : procs -> Prop :=
  | spec_exec p c par : m !! p = Some (None, par) -> m !! c = None -> proc_spec m (<[c := (None, Some p)]> m)
  | spec_reap p c par v : m !! p = Some (None, par) -> m !! c = Some (Some v, Some p) -> proc_spec m (delete c m)
  | spec_exit p par v : m !! p = Some (None, par) -> (p = 1 -> forall c x, m !! c = Some x -> c <= 1) ->
      proc_spec m (<[p := (Some v, par)]> (adopt p <$> m)).

Section spec.
Context {Task T S B : Type} `{SerialOps B} `{SpawnOps T S} `{WakeOps T S}.
Context (sched_ok : S -> Prop).
Implicit Types (k : kernel Task T S B) (pc : PCB Task T) (p c q cur : nat) (L : lists) (fl : list nat) (hold : nat -> list nat).
Abbreviation kernel_ok := (kernel_ok sched_ok).

Definition abs_pcb pc : option proc :=
  match pstate pc with
  | FREE => None
  | ALIVE => Some (None, parent pc)
  | ZOMBIE => Some (Some (exitval pc), parent pc)
  end.

Definition abs k : procs := omap abs_pcb (PT k).

Lemma abs_lookup k p : abs k !! p = PT k !! p ≫= abs_pcb.
Proof. unfold abs. by rewrite lookup_omap. Qed.

Lemma abs_insert k k' p pc' : PT k' = <[p := pc']> (PT k) ->
  abs k' = match abs_pcb pc' with Some x => <[p := x]> (abs k) | None => delete p (abs k) end.
Proof.
  intros E. apply map_eq. intros q. rewrite abs_lookup, E. destruct (decide (p = q)) as [<-|Hne].
  - rewrite lookup_insert_eq. simpl. destruct (abs_pcb pc'); by rewrite ?lookup_insert_eq, ?lookup_delete_eq.
  - rewrite lookup_insert_ne by done. destruct (abs_pcb pc'); rewrite ?lookup_insert_ne, ?lookup_delete_ne by done; by rewrite abs_lookup.
Qed.

Lemma abs_same k k' : (forall p, (PT k' !! p ≫= abs_pcb) = (PT k !! p ≫= abs_pcb)) -> abs k' = abs k.
Proof. intros E. apply map_eq. intros p. by rewrite !abs_lookup. Qed.

Lemma abs_upd k k' p pc pc' : PT k !! p = Some pc -> PT k' = <[p := pc']> (PT k) -> abs_pcb pc' = abs_pcb pc -> abs k' = abs k.
Proof.
  intros Hp E Ea. apply abs_same. intros q. rewrite E. destruct (decide (p = q)) as [<-|Hne].
  - by rewrite lookup_insert_eq, Hp.
  - by rewrite lookup_insert_ne.
Qed.

Lemma abs_alive k p pc : PT k !! p = Some pc -> pstate pc = ALIVE -> abs k !! p = Some (None, parent pc).
Proof. intros Hp Ha. rewrite abs_lookup, Hp. simpl. unfold abs_pcb. by rewrite Ha. Qed.

Lemma exec_refines k k' cur pcur c pc pnew : PT k !! cur = Some pcur -> pstate pcur = ALIVE ->
  PT k !! c = Some pc -> pstate pc = FREE -> pstate pnew = ALIVE -> parent pnew = Some cur ->
  PT k' = <[c := pnew]> (PT k) -> proc_spec (abs k) (abs k').
Proof.
  intros Hcur Ha Hc Hf Ha' Hpar E. rewrite (abs_insert k k' c pnew E). unfold abs_pcb. rewrite Ha', Hpar.
  eapply spec_exec; [by eapply abs_alive|]. rewrite abs_lookup, Hc. simpl. unfold abs_pcb. by rewrite Hf.
Qed.

Lemma reaps_refines n hold L fl k cur pcur c k' st : PT k !! cur = Some pcur -> pstate pcur = ALIVE ->
  reaps sched_ok n hold L fl k cur c k' st -> proc_spec (abs k) (abs k').
Proof.
  intros Hcur Ha (L' & pc & Hc & Hz & Hpar & -> & _ & _ & E & _). rewrite (abs_insert k k' c _ E). simpl.
  eapply (spec_reap _ cur c _ (exitval pc)); [by eapply abs_alive|]. rewrite abs_lookup, Hc. simpl. unfold abs_pcb. by rewrite Hz, Hpar.
Qed.

Lemma sleeps_abs n hold L fl k cur k' : sleeps sched_ok n hold L fl k cur k' -> abs k' = abs k.
Proof. intros (pc & Hp & -> & _). by eapply abs_upd. Qed.

Lemma exited_refines n hold L fl k cur v pcur L' k' : PT k !! cur = Some pcur -> pstate pcur = ALIVE ->
  (parent pcur <> Some cur) -> (cur = 1 -> forall c cc, PT k !! c = Some cc -> 1 < c -> pstate cc = FREE) ->
  exited sched_ok n hold L fl k cur v pcur L' k' -> proc_spec (abs k) (abs k').
Proof.
  intros Hcur Ha Hself Hone X. pose proof (ex_blocks _ _ _ _ _ _ _ _ _ _ _ X) as M.
  assert (abs k' = <[cur := (Some v, parent pcur)]> (adopt cur <$> abs k)) as ->.
  { apply map_eq. intros c. rewrite abs_lookup, (M c). destruct (decide (cur = c)) as [<-|Hne].
    - rewrite lookup_insert_eq, Hcur. simpl. unfold abs_pcb, exit_block. simpl. rewrite !(decide_True (P := cur = cur)) by done.
      by rewrite decide_False by tauto.
    - rewrite lookup_insert_ne, lookup_fmap, abs_lookup by done. destruct (PT k !! c) as [pc|]; [|done]. simpl.
      unfold abs_pcb, exit_block, adopt. simpl. rewrite !(decide_False (P := c = cur)) by congruence.
      destruct (pstate pc); [done|simpl; f_equal; f_equal..]; apply decide_ext; naive_solver. }
  apply spec_exit; [by eapply abs_alive|]. intros -> c x. rewrite abs_lookup. destruct (PT k !! c) as [cc|] eqn:Hc; [|done].
  simpl. intros Hx. destruct (decide (c <= 1)) as [|Hlt]; [done|]. specialize (Hone eq_refl c cc Hc ltac:(lia)).
  unfold abs_pcb in Hx. by rewrite Hone in Hx.
Qed.
End spec.
