(* ===== verification/Boot.v ===== *)
(** * Booting the kernel (kernel_init.c)

  The tables as the loader leaves them, what core 0 does to them before it enters the scheduler, and that
  this gives a well-formed kernel with two processes. *)

From S2P Require Import Prelude Rlist Lists Iface Kernel Dev Streams Proc ProcInv ProcOps ProcExit.

Section boot.
Context {Task T S B : Type} `{SerialOps B} `{SpawnOps T S} `{WakeOps T S}.
Context (initialize_scheduler : S -> S).
Implicit Types (k : kernel Task T S B) (pc : PCB Task T) (p c q cur : nat) (L : lists) (fl : list nat) (hold : nat -> list nat).

(** ** Operations *)

Definition zero_FCB : FCB := mkFCB 0 None None.

Definition table {A} (n : nat) (a : A) : gmap nat A := list_to_map (map (fun i => (i, a)) (seq 0 n)).

(** Static memory: [n] process control blocks and [nf] file control blocks, all zero. *)
Definition kernel0 (n nf : nat) (s : S) (b : B) : kernel Task T S B :=
  mkKernel (table n zero_PCB) ∅ None 0 (table nf zero_FCB) ∅ ∅ ∅ s b.

Definition boot_tinyos_kernel (n nf : nat) (init_task : option Task) argl (args : option bytes) k : outcome (kernel Task T S B) :=
  k ← initialize_processes n k;
  k ← initialize_files nf (initialize_devices k);
  '(pid, k) ← sys_Exec None init_task argl args (with_sched (initialize_scheduler (sched k)) k);
  if decide (pid <> 1%Z) then Err Fatal else Ret k.

(** ** The tables *)

Lemma table_lookup {A} n (a : A) i : table n a !! i = if decide (i < n) then Some a else None.
Proof.
  assert ((map (fun i => (i, a)) (seq 0 n)).*1 = seq 0 n) as E by (rewrite <- list_fmap_compose; apply list_fmap_id).
  unfold table. destruct (decide (i < n)) as [Hi|Hi].
  - apply elem_of_list_to_map; [rewrite E; apply NoDup_seq|]. apply list_elem_of_fmap. exists i. split; [done|]. apply elem_of_seq. lia.
  - apply not_elem_of_list_to_map. rewrite E. intros Hin%elem_of_seq. lia.
Qed.

Abbreviation no_lists := (fun (_ : kind) (_ : nat) => @nil nat).

Lemma initialize_PCBs_ok m : forall i k,
  (forall p, i <= p < i + m -> PT k !! p = Some zero_PCB) -> forest (plists k) (plist i no_lists) (pfree i no_lists) ->
  (forall kd c, c < i -> obj_of (plists k) (node_of kd c) = Some (Some c)) ->
  exists h, initialize_PCBs (seq i m) k = Ret (with_plists h k) /\ forest h (plist (i + m) no_lists) (pfree (i + m) no_lists) /\
    (forall kd c, c < i + m -> obj_of h (node_of kd c) = Some (Some c)).
Proof.
  induction m as [|m IH]; intros i k Hz Hf Hk; cbn [initialize_PCBs seq].
  { exists (plists k). rewrite Nat.add_0_r. split; [by destruct k|done]. }
  unfold initialize_PCB. rewrite (upd_PCB_eq i _ zero_PCB) by (apply Hz; lia). rewrite ret_bind.
  change (mkPCB FREE _ _ _ _ _ _ _ _) with (@zero_PCB Task T). rewrite insert_id by (apply Hz; lia).
  assert (with_PT (PT k) k = k) as -> by (by destruct k).
  assert (forall x l, plist i no_lists x = Some l -> l = [] /\
    x <> children_list i /\ x <> exited_list i /\ x <> children_node i /\ x <> exited_node i) as HL.
  { intros [p|p|p|p] l; simpl; try done; case_decide; try done; intros [= <-]; repeat split; auto; intros [= ->]; lia. }
  assert (forall x, x = children_list i \/ x = exited_list i \/ x = children_node i \/ x = exited_node i -> plist i no_lists x = None) as Hnone.
  { intros x HS. destruct (plist i no_lists x) eqn:E; [|done]. apply HL in E as (_ & ? & ? & ? & ?). by destruct HS as [->|[->|[->| ->]]]. }
  set (LL1 := upd_list (children_list i) [] (plist i no_lists)). set (LL2 := upd_list (exited_list i) [] LL1).
  assert (forall x l, LL1 x = Some l -> l = []) as HL1.
  { intros x l. unfold LL1, upd_list. case_decide; [by intros [= <-]|]. by intros [-> _]%HL. }
  assert (forall x l, LL2 x = Some l -> l = []) as HL2.
  { intros x l. unfold LL2, upd_list. case_decide; [by intros [= <-]|]. by intros ->%HL1. }
  assert (forall x, x <> children_list i -> x <> exited_list i -> LL2 x = plist i no_lists x) as HLL.
  { intros x ? ?. unfold LL2, LL1. by rewrite !upd_list_ne. }
  pose proof (forest_new_list _ _ _ (children_list i) (@None nat) Hf (Hnone (children_list i) ltac:(auto)) ltac:(intros x l [-> _]%HL; apply not_elem_of_nil)) as F1.
  fold LL1 in F1.
  pose proof (forest_new_list _ _ _ (exited_list i) None F1 ltac:(unfold LL1; rewrite upd_list_ne by done; apply Hnone; auto)
    ltac:(intros x l ->%HL1; apply not_elem_of_nil)) as F2. fold LL2 in F2.
  pose proof (forest_new_node _ _ _ (children_node i) (Some i) F2 ltac:(rewrite HLL by done; apply Hnone; auto)
    ltac:(intros x l ->%HL2; apply not_elem_of_nil)) as F3.
  pose proof (forest_new_node _ _ _ (exited_node i) (Some i) F3 ltac:(rewrite HLL by done; apply Hnone; auto)
    ltac:(intros x l ->%HL2; apply not_elem_of_nil)) as F4.
  cbn [rlnode_init fst snd] in F4 |- *. rewrite ret_bind. set (h4 := insert _ _ _) in F4 |- *.
  destruct (IH (Datatypes.S i) (with_plists h4 k)) as (h & E & Hf' & Hk').
  - intros p Hp. apply Hz. lia.
  - eapply forest_ext; [exact F4| |].
    + intros x. unfold LL2, LL1, upd_list.
      destruct x as [p|p|p|p]; simpl; destruct (decide (p = i)) as [->|]; repeat case_decide; simplify_eq; try done; lia.
    + assert (forall m kd c, on_no_list m no_lists kd c) as Hno by (intros m' kd c q _; apply not_elem_of_nil).
      intros [p|p|p|p]; simpl.
      * split; [done|]. by intros [[[[[] _] _]|?]|?].
      * split; [done|]. by intros [[[[[] _] _]|?]|?].
      * split; [|intros [[[[[? _] _] _]|[= ->]]|?]; [split; [lia|done]..|done]].
        intros [Hp _]. destruct (decide (p = i)) as [->|]; [left; by right|]. do 2 left. repeat split; (lia || done).
      * split; [|intros [[[[[? _] _] _]|?]|[= ->]]; [split; [lia|done]|done|split; [lia|done]]].
        intros [Hp _]. destruct (decide (p = i)) as [->|]; [by right|]. do 2 left. repeat split; (lia || done).
  - intros kd c Hc. unfold obj_of, h4. destruct (decide (c = i)) as [->|Hne].
    + destruct kd; simpl; [rewrite lookup_insert_ne by done|]; by rewrite lookup_insert_eq.
    + rewrite <- (Hk kd c) by lia. destruct kd; simpl; by rewrite !lookup_insert_ne by congruence.
  - exists h. rewrite E. replace (i + Datatypes.S m) with (Datatypes.S i + m) by lia. done.
Qed.

(** The free list: every block is zero, but for its link. *)
Definition linked (n : nat) (m : gmap nat (PCB Task T)) : Prop :=
  forall p, if decide (p < n) then exists o, m !! p = Some (set_parent o zero_PCB) else m !! p = None.

Lemma build_freelist_ok n : forall i k, i <= n -> linked n (PT k) -> chain (PT k) (pcb_freelist k) (seq i (n - i)) ->
  exists m o, build_freelist i k = Ret (with_freelist o (process_count k) (with_PT m k)) /\ linked n m /\ chain m o (seq 0 n).
Proof.
  induction i as [|i IH]; intros k Hi Hl Hc; cbn [build_freelist].
  { exists (PT k), (pcb_freelist k). rewrite Nat.sub_0_r in Hc. split; [by destruct k|done]. }
  pose proof (Hl i) as Hli. rewrite decide_True in Hli by lia. destruct Hli as [o Ho].
  rewrite (upd_PCB_eq _ _ _ _ Ho), ret_bind. set (m1 := insert i _ _).
  destruct (IH (with_freelist (Some i) (process_count k) (with_PT m1 k))) as (m & o' & E & Hm & Hc'); [lia| | |by exists m, o'].
  - intros p. cbn [PT with_freelist with_PT]. unfold m1. destruct (decide (p = i)) as [->|Hne].
    + rewrite decide_True by lia. exists (pcb_freelist k). by rewrite lookup_insert_eq.
    + rewrite lookup_insert_ne by done. apply Hl.
  - cbn [PT with_freelist with_PT pcb_freelist]. replace (n - i) with (Datatypes.S (n - Datatypes.S i)) by lia. simpl. split; [done|].
    eexists. unfold m1. rewrite lookup_insert_eq. split; [done|]. cbn [parent set_parent].
    eapply chain_ext; [exact Hc|]. intros p pc Hp%elem_of_seq Hpc. exists pc. by rewrite lookup_insert_ne by lia.
Qed.

Lemma linked_table n : linked n (table n zero_PCB).
Proof. intros p. rewrite table_lookup. case_decide; [|done]. by exists None. Qed.

(** The blocks of the process table after the two loops. *)
Lemma initialize_table_ok n nf s b : (Z.of_nat n < 2 ^ 32)%Z ->
  exists k, (k ← initialize_PCBs (seq 0 n) (kernel0 n nf s b); build_freelist n (with_freelist None (process_count k) k)) = Ret k /\
    praw n k no_lists (seq 0 n) /\ linked n (PT k) /\ FT k = table nf zero_FCB /\ flists k = ∅ /\ sched k = s /\ ports k = b.
Proof.
  intros Hn. destruct (initialize_PCBs_ok n 0 (kernel0 n nf s b)) as (h & -> & Hf & Hk).
  { intros p Hp. cbn [PT kernel0]. rewrite table_lookup. by rewrite decide_True by lia. }
  { eapply forest_ext; [apply forest_nil| |].
    - by intros [p|p|p|p]; simpl; rewrite ?decide_False by lia.
    - intros [p|p|p|p]; simpl; split; try done; lia. }
  { intros kd c Hc. lia. }
  rewrite ret_bind. cbn [process_count with_plists kernel0]. destruct (build_freelist_ok n n (with_freelist None 0 (with_plists h (kernel0 n nf s b)))) as (m & o & -> & Hm & Hc);
    [done|apply linked_table|by rewrite Nat.sub_diag|].
  eexists. split; [done|]. split; [|done]. split; cbn; try done.
  - intros p. specialize (Hm p). case_decide as Hp.
    + destruct Hm as [? ->]. split; [done|by eexists].
    + rewrite Hm. split; [by intros []|done].
  - intros p. rewrite elem_of_seq. specialize (Hm p). case_decide as Hp.
    + destruct Hm as [? Hm]. split; [|lia]. intros _. eexists. by split.
    + split; [lia|]. intros (pc & ? & _). congruence.
  - apply NoDup_seq.
  - rewrite length_seq. lia.
Qed.

(** *** The file table *)

Lemma initialize_files_loop_ok n m : forall i k,
  i + m <= n -> FT k = table n zero_FCB -> forest (flists k) (flist (seq 0 i)) (fun _ => False) ->
  (forall f, f < i -> obj_of (flists k) (freelist_node f) = Some (Some f)) ->
  exists h, initialize_files_loop (seq i m) k = Ret (with_flists h k) /\ forest h (flist (seq 0 (i + m))) (fun _ => False) /\
    (forall f, f < i + m -> obj_of h (freelist_node f) = Some (Some f)).
Proof.
  induction m as [|m IH]; intros i k Hn HF Hf Hk; cbn [initialize_files_loop seq].
  { exists (flists k). rewrite Nat.add_0_r. split; [by destruct k|done]. }
  assert (FT k !! i = Some zero_FCB) as Hi. { rewrite HF, table_lookup. by rewrite decide_True by lia. }
  rewrite (upd_FCB_eq i _ _ _ Hi), ret_bind. change (set_refcount 0 zero_FCB) with zero_FCB. rewrite insert_id by done.
  assert (with_FT (FT k) k = k) as -> by (by destruct k).
  pose proof (forest_new_node _ _ _ (freelist_node i) (Some i) Hf eq_refl) as F1. cbn [rlnode_init fst snd] in F1 |- *.
  specialize (F1 ltac:(intros [|?] l [= <-]; intros (j & [= ->] & Hj%elem_of_seq)%list_elem_of_fmap; lia)).
  set (h1 := insert _ _ _) in F1 |- *.
  destruct (forest_push_back h1 _ _ FCB_freelist _ (freelist_node i) F1 eq_refl) as (h2 & E & F2 & Ho).
  { by right. }
  rewrite E, ret_bind. destruct (IH (Datatypes.S i) (with_flists h2 k)) as (h & E' & F3 & Hk3); [lia|done| | |].
  - eapply forest_ext; [exact F2| |].
    + intros [|j]; [|done]. unfold upd_list. rewrite decide_True by done. unfold flist. by rewrite seq_S, fmap_app.
    + intros x. split; [done|]. by intros [[[]| ->] ?].
  - intros f Hlt. cbn [flists with_flists]. rewrite Ho. unfold obj_of, h1. destruct (decide (f = i)) as [->|Hne].
    + by rewrite lookup_insert_eq.
    + rewrite lookup_insert_ne by congruence. apply Hk. lia.
  - exists h. rewrite E'. by replace (i + Datatypes.S m) with (Datatypes.S i + m) by lia.
Qed.

Lemma initialize_files_ok n k : FT k = table n zero_FCB -> flists k = ∅ ->
  exists h, initialize_files n k = Ret (with_flists h k) /\
    fcbs_ok (fun _ => 0%Z) (seq 0 n) (with_flists h k) /\ streams_ok (fun _ => 0%Z) (seq 0 n) (with_flists h k).
Proof.
  intros HF Hl. unfold initialize_files. rewrite Hl. cbn [rlnode_init].
  pose proof (forest_new_list ∅ (fun _ => None) (fun _ => False) FCB_freelist (@None nat) forest_nil eq_refl ltac:(done)) as F0.
  cbn [rlnode_init fst snd] in F0.
  destruct (initialize_files_loop_ok n n 0 (with_flists (<[FCB_freelist := RLNode None FCB_freelist FCB_freelist]> ∅) k)) as (h & -> & Hf & Hk);
    [lia|done| |intros f Hlt; lia|].
  { eapply forest_ext; [exact F0| |]; [|tauto]. by intros []. }
  assert (forall f, is_Some (FT k !! f) <-> f < n) as Hdom.
  { intros f. rewrite HF, table_lookup. case_decide; (split; [|]); (done || (by intros []) || by eexists). }
  exists h. split; [done|]. split; [split; cbn [FT flists with_flists]|].
  - eapply forest_ext; [exact Hf|done|]. intros [|f]; [done|]. simpl. rewrite Hdom, elem_of_seq. split; [lia|done].
  - intros f Hlt%Hdom. by apply Hk.
  - intros f Hlt%elem_of_seq. split; [|done]. apply Hdom. lia.
  - intros f fc Hfc Hn. destruct Hn. apply elem_of_seq. split; [lia|]. apply Hdom. by eexists.
  - done.
  - done.
  - intros f fc Hfc Hn. destruct Hn. apply elem_of_seq. split; [lia|]. apply Hdom. by eexists.
Qed.

(** *** The first two processes *)

Section first.
Context (sched_ok : S -> Prop) (blocked live : S -> T -> Prop).
Context `{!SpawnLaws T S sched_ok live} `{!WakeLaws T S sched_ok blocked live}.

Lemma exec_root_ok n k L p fl (call : option Task) argl args a :
  praw n k L (p :: fl) -> p <= 1 -> (call <> None -> sched_ok (sched k)) -> copy_args argl args = Ret a ->
  exists k' t pc, sys_Exec None call argl args k = Ret (Z.of_nat p, k') /\ PT k !! p = Some pc /\ pstate pc = FREE /\
    PT k' = <[p := mkPCB ALIVE None (exitval pc) t call argl a (child_exit pc) (FIDT pc)]> (PT k) /\ praw n k' L fl /\
    (FT k', flists k', devtable k', serial_dcb k', ports k') = (FT k, flists k, devtable k, serial_dcb k, ports k) /\
    (call <> None -> sched_ok (sched k') /\ t <> None) /\ (call = None -> sched k' = sched k /\ t = main_thread pc).
Proof.
  intros R Hp1 Hs Ecp. unfold sys_Exec. pose proof (acquire_PCB_ok n k L (p :: fl) R) as Hacq.
  destruct Hacq as (pc & Hp & Hfree & -> & R0). rewrite ret_bind. set (k0 := with_freelist _ _ _) in *.
  pose proof (pr_nodup _ _ _ _ R) as [Hpfl _]%NoDup_cons.
  rewrite decide_True by (simpl; lia). rewrite (upd_PCB_eq p _ (set_pstate ALIVE pc)) by apply lookup_insert_eq.
  rewrite ret_bind, Ecp, ret_bind. set (k1 := with_PT _ k0).
  destruct (exec_start sched_ok blocked live p (set_parent None (set_pstate ALIVE pc)) call argl a k1) as (t & s & Es & Hs1 & Hs2);
    [apply lookup_insert_eq|done|].
  apply bind_Ret in Es as (k4 & E4 & Es). rewrite E4, ret_bind, Es, ret_bind. eexists _, t, pc. split; [done|]. split; [done|].
  split; [done|]. assert (forall u v, <[p := u]> (<[p := v]> (<[p := set_pstate ALIVE pc]> (PT k))) = <[p := u]> (PT k)) as Ei.
  { intros u v. by rewrite !insert_insert_eq. }
  split; [cbn; by rewrite Ei|]. split; [|done].
  eapply praw_same; [eapply (praw_upd n k0 L fl p (set_pstate ALIVE pc)
    (set_main_thread t (set_task call argl a (set_parent None (set_pstate ALIVE pc))))); [exact R0|apply lookup_insert_eq|done|done]|..]; try done.
  cbn. by rewrite !insert_insert_eq.
Qed.

Lemma initialize_devices_ok k : devices_ok (initialize_devices k).
Proof.
  set (np := serial_ports (ports k)).
  assert (forall i, serial_dcb (initialize_devices k) !! i = if decide (i < np) then Some (mkSerial i []) else None) as Hd.
  { intros i. unfold initialize_devices. cbn [serial_dcb with_devices]. fold np.
    assert ((map (fun i => (i, mkSerial i [])) (seq 0 np)).*1 = seq 0 np) as E by (rewrite <- list_fmap_compose; apply list_fmap_id).
    destruct (decide (i < np)) as [Hi|Hi].
    - apply elem_of_list_to_map; [rewrite E; apply NoDup_seq|]. apply list_elem_of_fmap. exists i. split; [done|]. apply elem_of_seq. lia.
    - apply not_elem_of_list_to_map. rewrite E. intros Hin%elem_of_seq. lia. }
  split; [done|done| |].
  - intros i. rewrite Hd. fold np. change (ports (initialize_devices k)) with (ports k). fold np.
    case_decide; (split; [|]); (done || (by intros []) || by eexists).
  - intros i d. rewrite Hd. case_decide; [|done]. by intros [= <-].
Qed.

Lemma ptree_roots (m : gmap nat (PCB Task T)) :
  (forall c pc, m !! c = Some pc -> pstate pc <> FREE -> parent pc = None /\ c <= 1) -> ptree m no_lists.
Proof.
  intros Hm. assert (forall c p, ~ child_of m c p) as Hno.
  { intros c p (pc & Hc & Hf & Hp). destruct (Hm c pc Hc Hf). congruence. }
  split.
  - intros c p. split; [by intros ?%elem_of_nil|by intros ?%Hno].
  - intros c p. split; [by intros ?%elem_of_nil|by intros ?%zombie_child%Hno].
  - by intros c p ?%Hno.
  - intros c pc Hc Hf. by destruct (Hm c pc Hc Hf).
  - exists (fun _ => 0). split; [by intros c p ?%Hno|]. intros c pc Hc Hf. destruct (Hm c pc Hc Hf). lia.
Qed.

(** The kernel after boot. *)
Record booted (n nf : nat) (s : S) (b : B) (init : Task) argl (a : option bytes) k : Prop := {
  bt_ok : kernel_ok sched_ok n (fun _ => []) no_lists (seq 2 (n - 2)) k;
  bt_idle : exists pc, PT k !! 0 = Some pc /\ pstate pc = ALIVE /\ main_task pc = None /\ child_exit pc = [];
  bt_init : exists t, t <> None /\ PT k !! 1 = Some (mkPCB ALIVE None 0 t (Some init) argl a [] (repeat None MAX_FILEID));
  bt_awake p pc : PT k !! p = Some pc -> child_exit pc = [];
  bt_ports : ports k = b;
  bt_serial i d : serial_dcb k !! i = Some d -> rx_ready d = [];
  bt_files f : FT k !! f = if decide (f < nf) then Some zero_FCB else None
}.

(** Before any file is open. *)
Lemma files_ok_start n (k : kernel Task T S B) :
  (forall p, fids k p = if decide (p < n) then repeat None MAX_FILEID else []) ->
  (forall p, is_Some (PT k !! p) -> p < n) -> (17 * Z.of_nat n + 1 < 2 ^ 32)%Z ->
  fcb_inv (fun _ => 0%Z) k -> files_ok n (fun _ => []) k.
Proof.
  intros Hfids Hdom Hn K. split.
  - eapply (fcb_inv_ext (fun _ => 0%Z)); [done| |done..]. intros f. apply zsum_zero. intros p _.
    unfold uses. rewrite Hfids. case_decide; done.
  - intros p pc Hp. assert (p < n) as Hlt by (apply Hdom; by eexists). split; [done|].
    specialize (Hfids p). unfold fids in Hfids. rewrite Hp, decide_True in Hfids by done. by rewrite Hfids.
  - simpl; lia.
  - done.
Qed.

Lemma boot_kernel_ok n nf s b init argl args a :
  2 <= n -> (17 * Z.of_nat n + 1 < 2 ^ 32)%Z -> sched_ok (initialize_scheduler s) -> copy_args argl args = Ret a ->
  exists k, boot_tinyos_kernel n nf (Some init) argl args (kernel0 n nf s b) = Ret k /\ booted n nf s b init argl a k.
Proof.
  intros Hn2 Hn Hs Ecp. destruct (initialize_table_ok n nf s b) as (k1 & E1 & R1 & Hl1 & HF1 & HL1 & Hs1 & Hp1); [lia|].
  apply bind_Ret in E1 as (k0 & E0 & E1). unfold boot_tinyos_kernel, initialize_processes. rewrite E0, ret_bind, E1, ret_bind.
  assert (seq 0 n = 0 :: 1 :: seq 2 (n - 2)) as En by (replace n with (2 + (n - 2)) at 1 by lia; done). rewrite En in R1.
  assert (with_freelist (pcb_freelist k1) 0 k1 = k1) as Ek1.
  { pose proof (pr_count _ _ _ _ R1) as Hc. rewrite <- En, length_seq, Z.sub_diag in Hc. destruct k1. simpl in *. by subst. }
  rewrite Ek1. destruct (exec_root_ok n k1 no_lists 0 _ None 0 None None R1) as (k2 & t0 & pc0 & -> & Hpc0 & Hf0 & EP2 & R2 & Eo2 & _ & Hs2);
    [lia|done|done|].
  rewrite ret_bind, decide_False by (simpl; tauto). rewrite ret_bind. destruct (Hs2 eq_refl) as [Hs2' Ht0].
  injection Eo2 as EF2 EL2 ED2 ES2 EB2.
  destruct (initialize_files_ok nf (initialize_devices k2)) as (h & -> & K & Hst); [by rewrite <- HF1, <- EF2|by rewrite <- HL1, <- EL2|].
  rewrite ret_bind. set (k3 := with_sched _ _).
  assert (forall p pc, PT k1 !! p = Some pc -> exists o, pc = set_parent o zero_PCB) as Hlk.
  { intros p pc Hp. specialize (Hl1 p). case_decide; [|congruence]. destruct Hl1 as [o Ho]. exists o. congruence. }
  destruct (Hlk 0 pc0 Hpc0) as (o0 & ->). cbn in EP2.
  assert (forall p, fids k3 p = if decide (p < n) then repeat None MAX_FILEID else []) as Hfids.
  { intros p. unfold fids, k3. cbn. rewrite EP2. destruct (decide (p = 0)) as [->|Hp].
    - rewrite lookup_insert_eq. by rewrite decide_True by lia.
    - rewrite lookup_insert_ne by done. specialize (Hl1 p). case_decide; [|by rewrite Hl1]. by destruct Hl1 as [? ->]. }
  assert (files_ok n (fun _ => []) k3) as F3.
  { apply files_ok_start; [done| |done|]. { intros p Hp. by apply (pr_dom _ _ _ _ R2). }
    eapply (fcb_inv_ext (fun _ => 0%Z)); [by exists (seq 0 nf)|done..]. }
  destruct (exec_root_ok n k3 no_lists 1 (seq 2 (n - 2)) (Some init) argl args a) as (k4 & t & pc1 & -> & Hpc1 & Hf1 & EP4 & R4 & Eo4 & Hs4 & _);
    [by eapply praw_same|done| |done|].
  { intros _. cbn. rewrite Hs2', Hs1. exact Hs. }
  injection Eo4 as EF4 EL4 ED4 ES4 EB4. rewrite ret_bind, decide_False by (simpl; tauto). exists k4. split; [done|].
  assert (PT k3 = PT k2) as EP3 by done. rewrite EP3 in *. assert (PT k1 !! 1 = Some pc1) as Hpc1'.
  { rewrite EP2 in Hpc1. by rewrite lookup_insert_ne in Hpc1 by done. }
  destruct (Hlk 1 pc1 Hpc1') as (o1 & ->). cbn in EP4.
  assert (forall p pc, PT k4 !! p = Some pc -> (p <= 1 /\ parent pc = None) \/ (pstate pc = FREE /\ FIDT pc = repeat None MAX_FILEID)) as Hcases.
  { intros p pc. rewrite EP4, EP2. intros [[<- <-]|[Hp1' [[<- <-]|[Hp0' Hp]]%lookup_insert_Some]]%lookup_insert_Some; [left; split; (done || lia)..|].
    right. destruct (Hlk p pc Hp) as (o & ->). done. }
  split; [split| | | | | |].
  - done.
  - apply ptree_roots. intros c pc Hc Hf. destruct (Hcases c pc Hc) as [[? ?]|[? _]]; [done|congruence].
  - eapply (files_same n _ k3); [exact F3| |done|done|by rewrite EB4]. rewrite EP3, EP4. by eapply same_fids_insert.
  - eapply devices_same; [apply (initialize_devices_ok k2)|done..].
  - intros p pc. rewrite EP4, EP2. intros [[<- <-]|[Hp1' [[<- <-]|[Hp0' Hp]]%lookup_insert_Some]]%lookup_insert_Some; try done.
    intros _. destruct (Hlk p pc Hp) as (o & ->). done.
  - by apply Hs4.
  - eexists. rewrite EP4, EP2, lookup_insert_ne, lookup_insert_eq by done. done.
  - exists t. split; [by apply Hs4|]. by rewrite EP4, lookup_insert_eq.
  - intros p pc. rewrite EP4, EP2. intros [[<- <-]|[Hp1' [[<- <-]|[Hp0' Hp]]%lookup_insert_Some]]%lookup_insert_Some; try done.
    by destruct (Hlk p pc Hp) as (o & ->).
  - rewrite EB4. cbn. by rewrite EB2.
  - intros i d. rewrite ES4. cbn. intros Hd%elem_of_list_to_map_2. apply list_elem_of_fmap in Hd as (x & [= -> ->] & _). done.
  - intros f. rewrite EF4. cbn. rewrite EF2, HF1. apply table_lookup.
Qed.
End first.
End boot.
