(* ===== verification/Sys.v ===== *)
(** * The system: processes that make system calls (kernel_sys.c, kernel_init.c, start_main_thread)

  A program is a tree of instructions and system calls; every process runs one thread.  A system call runs
  under the kernel lock, from [PRE_CALL] to [POST_CALL] or to the [kernel_wait] in which it sleeps, so it is
  one step; a thread that was woken goes on in another step.  The interrupt handler of the serial ports and
  the scheduler take steps of their own. *)

From S2P Require Import Prelude Rlist Iface Kernel Dev Streams Proc Boot.

#[local] Set Warnings "-register-all".

(** ** Programs *)

(** The system calls of kernel_sys.h.  A pointer to a status, to a buffer that is read into, is not an
  argument: what is stored there is part of the reply. *)
Inductive syscall (Task : Type) :=
  | Exec (call : option Task) (argl : Z) (args : option bytes)
  | Exit (exitval : Z)
  | GetPid
  | GetPPid
  | WaitChild (cpid : Z)
  | CreateThread (task : option Task) (argl : Z) (args : option bytes)
  | ThreadSelf
  | ThreadJoin (tid : Z)
  | ThreadDetach (tid : Z)
  | ThreadExit (exitval : Z)
  | GetTerminalDevices
  | OpenTerminal (termno : nat)
  | OpenNull
  | Read (fd : Z) (size : nat)
  | Write (fd : Z) (buf : bytes) (size : nat)
  | Close (fd : Z)
  | Dup2 (oldfd newfd : Z)
  | Pipe
  | Socket (port : Z)
  | Listen (sock : Z)
  | Accept (lsock : Z)
  | Connect (sock port timeout : Z)
  | ShutDown (sock how : Z)
  | OpenInfo.
Arguments Exec {Task}.
Arguments Exit {Task}.
Arguments GetPid {Task}.
Arguments GetPPid {Task}.
Arguments WaitChild {Task}.
Arguments CreateThread {Task}.
Arguments ThreadSelf {Task}.
Arguments ThreadJoin {Task}.
Arguments ThreadDetach {Task}.
Arguments ThreadExit {Task}.
Arguments GetTerminalDevices {Task}.
Arguments OpenTerminal {Task}.
Arguments OpenNull {Task}.
Arguments Read {Task}.
Arguments Write {Task}.
Arguments Close {Task}.
Arguments Dup2 {Task}.
Arguments Pipe {Task}.
Arguments Socket {Task}.
Arguments Listen {Task}.
Arguments Accept {Task}.
Arguments Connect {Task}.
Arguments ShutDown {Task}.
Arguments OpenInfo {Task}.

(** What a call gives back: its value, the status that was stored, the bytes that were read. *)
Record reply := mkReply { ret : Z; status : option Z; data : bytes }.

(** [U] is the memory, which all processes share.  [Done v] is the return of the task. *)
Inductive prog (U : Type) :=
  | Done (v : Z)
  | Local (f : U -> U * prog U)
  | Call (c : syscall (Z -> option bytes -> prog U)) (k : reply -> prog U).
Arguments Done {U}.
Arguments Local {U}.
Arguments Call {U}.

Abbreviation Task U := (Z -> option bytes -> prog U).

(** The state of the thread of a process: not started, running, or in a system call that sleeps. *)
Inductive thread (U : Type) :=
  | Starting
  | Running (p : prog U)
  | Waiting (w : waiting) (k : reply -> prog U).
Arguments Starting {U}.
Arguments Running {U}.
Arguments Waiting {U}.

Inductive call_result :=
  | CDone (r : reply)
  | CExec (pid : nat)
  | CWait (w : waiting)
  | CGone.

Record sys (U T S B : Type) := mkSys {
  kern : kernel (Task U) T S B;
  threads : gmap nat (thread U);
  memory : U
}.
Arguments mkSys {U T S B}.
Arguments kern {U T S B}.
Arguments threads {U T S B}.
Arguments memory {U T S B}.

Section sys.
Context {U T S B : Type} `{SerialOps B} `{SpawnOps T S} `{WakeOps T S}.
Context (tid_of : T -> Z).
Implicit Types (k : kernel (Task U) T S B) (p cur : nat) (s : sys U T S B).

(** ** The system calls that are not implemented (kernel_threads.c, kernel_socket.c, kernel_pipe.c) *)

Definition sys_CreateThread : Z := NOTHREAD.
Definition sys_ThreadSelf cur k : outcome Z := pc ← deref (PT k !! cur); t ← deref (main_thread pc); Ret (tid_of t).
Definition sys_ThreadJoin : Z := -1.
Definition sys_ThreadDetach : Z := -1.
Definition sys_Socket : Z := NOFILE.
Definition sys_Listen : Z := -1.
Definition sys_Accept : Z := NOFILE.
Definition sys_Connect : Z := -1.
Definition sys_ShutDown : Z := -1.
Definition sys_Pipe : Z := -1.

(** ** One system call *)

Definition returns (z : Z) k : outcome (call_result * kernel (Task U) T S B) := Ret (CDone (mkReply z None []), k).

Definition returns_wait (r : wait_result) k : outcome (call_result * kernel (Task U) T S B) :=
  match r with
  | WDone z st => Ret (CDone (mkReply z st []), k)
  | WBlock w => Ret (CWait w, k)
  end.

Definition returns_read (size : nat) (r : read_result) k : outcome (call_result * kernel (Task U) T S B) :=
  match r with
  | RdDone z buf => Ret (CDone (mkReply z None buf), k)
  | RdWait f d obj => Ret (CWait (InRead f d obj size), k)
  end.

Definition returns_exit (exitval : Z) (r : exit_result) k : outcome (call_result * kernel (Task U) T S B) :=
  match r with
  | XGone => Ret (CGone, k)
  | XBlock => Ret (CWait (InExit exitval), k)
  end.

(** [Exec] with a task starts a thread. *)
Definition returns_exec (call : option (Task U)) (z : Z) k : outcome (call_result * kernel (Task U) T S B) :=
  match call with
  | Some _ => if decide (z = NOPROC) then returns z k else Ret (CExec (Z.to_nat z), k)
  | None => returns z k
  end.

Definition do_call cur (c : syscall (Task U)) k : outcome (call_result * kernel (Task U) T S B) :=
  match c with
  | Exec call argl args => '(z, k) ← sys_Exec (Some cur) call argl args k; returns_exec call z k
  | Exit v => '(r, k) ← sys_Exit cur v k; returns_exit v r k
  | GetPid => returns (sys_GetPid cur) k
  | GetPPid => z ← sys_GetPPid cur k; returns z k
  | WaitChild cpid => '(r, k) ← sys_WaitChild cur cpid k; returns_wait r k
  | CreateThread _ _ _ => returns sys_CreateThread k
  | ThreadSelf => z ← sys_ThreadSelf cur k; returns z k
  | ThreadJoin _ => returns sys_ThreadJoin k
  | ThreadDetach _ => returns sys_ThreadDetach k
  | ThreadExit _ => returns 0 k
  | GetTerminalDevices => n ← sys_GetTerminalDevices k; returns (Z.of_nat n) k
  | OpenTerminal i => '(z, k) ← sys_OpenTerminal cur i k; returns z k
  | OpenNull => '(z, k) ← sys_OpenNull cur k; returns z k
  | Read fd size => '(r, k) ← sys_Read cur fd size k; returns_read size r k
  | Write fd buf size => '(z, k) ← sys_Write cur fd buf size k; returns z k
  | Close fd => '(z, k) ← sys_Close cur fd k; returns z k
  | Dup2 a b => '(z, k) ← sys_Dup2 cur a b k; returns z k
  | Pipe => returns sys_Pipe k
  | Socket _ => returns sys_Socket k
  | Listen _ => returns sys_Listen k
  | Accept _ => returns sys_Accept k
  | Connect _ _ _ => returns sys_Connect k
  | ShutDown _ _ => returns sys_ShutDown k
  | OpenInfo => returns sys_OpenInfo k
  end.

(** A call that slept goes on. *)
Definition resume cur (w : waiting) k : outcome (call_result * kernel (Task U) T S B) :=
  match w with
  | InChild c => '(r, k) ← specific_child_loop cur c k; returns_wait r k
  | InAnyChild => '(r, k) ← any_child_loop cur k; returns_wait r k
  | InExit v => '(r, k) ← exit_resume cur v k; returns_exit v r k
  | InRead f d obj size => '(r, k) ← read_stream cur f d obj size k; returns_read size r k
  end.

(** The thread [p] is still in the list of its condition variable. *)
Definition asleep p (w : waiting) k : bool :=
  match w with
  | InRead _ _ obj _ =>
      match obj with
      | Some i => match serial_dcb k !! i with Some d => bool_decide (p ∈ rx_ready d) | None => false end
      | None => false
      end
  | _ => match PT k !! p with Some pc => bool_decide (p ∈ child_exit pc) | None => false end
  end.

(** ** The steps *)

Definition settle p (k : reply -> prog U) (r : call_result) (kn : kernel (Task U) T S B) s : sys U T S B :=
  match r with
  | CDone v => mkSys kn (<[p := Running (k v)]> (threads s)) (memory s)
  | CExec c => mkSys kn (<[c := Starting]> (<[p := Running (k (mkReply (Z.of_nat c) None []))]> (threads s))) (memory s)
  | CWait w => mkSys kn (<[p := Waiting w k]> (threads s)) (memory s)
  | CGone => mkSys kn (delete p (threads s)) (memory s)
  end.

(** [start_main_thread], up to the call. *)
Definition start_main_thread p s : outcome (sys U T S B) :=
  pc ← deref (PT (kern s) !! p);
  call ← deref (main_task pc);
  Ret (mkSys (kern s) (<[p := Running (call (argl pc) (args pc))]> (threads s)) (memory s)).

(** A call that still polls a terminal has not answered: it does when the terminal takes its output. *)
Definition answered {A} (o : outcome A) : option (outcome A) := match o with Err Stalled => None | _ => Some o end.

(** What the thread of [p] does next; [None] if it cannot. *)
Definition step p s : option (outcome (sys U T S B)) :=
  match threads s !! p with
  | None => None
  | Some Starting => Some (start_main_thread p s)
  | Some (Running (Done v)) => Some ('(r, kn) ← do_call p (Exit v) (kern s); Ret (settle p (fun _ => Done v) r kn s))
  | Some (Running (Local f)) => let '(u, q) := f (memory s) in Some (Ret (mkSys (kern s) (<[p := Running q]> (threads s)) u))
  | Some (Running (Call c k)) => answered ('(r, kn) ← do_call p c (kern s); Ret (settle p k r kn s))
  | Some (Waiting w k) => if asleep p w (kern s) then None else Some ('(r, kn) ← resume p w (kern s); Ret (settle p k r kn s))
  end.

(** The pointers that a program passes are good. *)
Definition legal_call (c : syscall (Task U)) : bool :=
  match c with
  | Exec _ argl args => match args with Some a => bool_decide (0 <= argl <= Z.of_nat (length a))%Z | None => true end
  | Write _ buf size => bool_decide (size <= length buf)
  | _ => true
  end.

Definition legal p s : bool :=
  match threads s !! p with Some (Running (Call c _)) => legal_call c | _ => true end.

Definition with_kern k s : sys U T S B := mkSys k (threads s) (memory s).

Inductive sys_step (sched_ok : S -> Prop) s : sys U T S B -> Prop :=
  | step_thread p s' : legal p s = true -> step p s = Some (Ret s') -> sys_step sched_ok s s'
  | step_rx k : serial_rx_handler (kern s) = Ret k -> sys_step sched_ok s (with_kern k s)
  | step_ports b : serial_ports b = serial_ports (ports (kern s)) -> sys_step sched_ok s (with_kern (with_ports b (kern s)) s)
  | step_sched sc : sched_ok sc -> sys_step sched_ok s (with_kern (with_sched sc (kern s)) s).

(** ** Booting

  [boot], up to the scheduler: the initial process is there, and its thread is ready. *)
Definition boot (initialize_scheduler : S -> S) (n nf : nat) (boot_task : Task U) (argl : Z) (args : option bytes) sc (b : B) (u : U)
    : outcome (sys U T S B) :=
  k ← boot_tinyos_kernel initialize_scheduler n nf (Some boot_task) argl args (kernel0 n nf sc b);
  Ret (mkSys k {[1 := Starting]} u).

(** ** An executor

  The processes take turns, in the order of their pids; the serial interrupt handler runs when nobody else
  can. *)

Fixpoint turn (ps : list nat) s : outcome (bool * sys U T S B) :=
  match ps with
  | [] => Ret (false, s)
  | p :: ps =>
      match step p s with
      | None => turn ps s
      | Some o => s ← o; '(_, s) ← turn ps s; Ret (true, s)
      end
  end.

Fixpoint run (fuel n : nat) s : outcome (sys U T S B) :=
  match fuel with
  | O => Err OutOfFuel
  | Datatypes.S fuel =>
      if decide (threads s = ∅) then Ret s
      else
        '(b, s) ← turn (seq 1 n) s;
        s ← (if (b : bool) then Ret s else k ← serial_rx_handler (kern s); Ret (with_kern k s));
        run fuel n s
  end.
End sys.
