(* ===== verification/SysInv.v ===== *)
(** * The invariant of the system

  The kernel is well formed, every live process with a task has one thread, and the threads that sleep in
  the kernel have what they wait for still ahead of them. *)

From S2P Require Import Prelude Rlist Lists Iface Kernel Dev Streams Proc ProcInv ProcOps ProcExit Boot Sys.

Section inv.
Context {U T S B : Type} `{SerialOps B} `{SpawnOps T S} `{WakeOps T S}.
Context (sched_ok : S -> Prop).
Implicit Types (k : kernel (Task U) T S B) (pc : PCB (Task U) T) (p c q cur : nat) (s : sys U T S B).
Implicit Types (L : lists) (fl : list nat) (hold : nat -> list nat) (t : gmap nat (thread U)) (w : waiting).

(** ** Definitions *)

(** The reference that a thread holds inside [sys_Read]. *)
Definition held (o : option (thread U)) : list nat :=
  match o with Some (Waiting (InRead f _ _ _) _) => [f] | _ => [] end.

Definition child_wait w : bool := match w with InRead _ _ _ _ => false | _ => true end.

(** [p] is in the list of its [child_exit]. *)
Definition queued k p : Prop := exists pc, PT k !! p = Some pc /\ child_exit pc <> [].

Definition wait_ok k p w : Prop :=
  match w with
  | InChild c => child_of (PT k) c p /\ (queued k p -> ~ zombie_of (PT k) c p)
  | InAnyChild => (exists c, child_of (PT k) c p) /\ (queued k p -> forall c, ~ zombie_of (PT k) c p)
  | InExit _ => p = 1 /\ (exists c, child_of (PT k) c p) /\ (queued k p -> forall c, ~ zombie_of (PT k) c p)
  | InRead f d obj size => d = DEV_SERIAL /\ stream_ok k d obj
  end.

(** The process [p] and its thread. *)
Record local_ok hold k t p : Prop := {
  lo_thread : is_Some (t !! p) <-> exists pc, PT k !! p = Some pc /\ pstate pc = ALIVE /\ main_task pc <> None;
  lo_main pc : PT k !! p = Some pc -> pstate pc = ALIVE -> main_task pc <> None -> main_thread pc <> None;
  lo_hold : hold p = held (t !! p);
  lo_wait w kk : t !! p = Some (Waiting w kk) -> wait_ok k p w;
  lo_child_exit pc : PT k !! p = Some pc -> child_exit pc = [] \/
    (child_exit pc = [p] /\ exists w kk, t !! p = Some (Waiting w kk) /\ child_wait w = true);
  lo_rx i d : serial_dcb k !! i = Some d -> p ∈ rx_ready d -> exists f dv size kk, t !! p = Some (Waiting (InRead f dv (Some i) size) kk)
}.

Definition idle_ok k : Prop := exists pc, PT k !! 0 = Some pc /\ pstate pc = ALIVE /\ main_task pc = None.

Definition init_alive k : Prop := exists pc, PT k !! 1 = Some pc /\ pstate pc = ALIVE /\ main_task pc <> None.

(** The initial process exits last. *)
Definition init_ok k : Prop := init_alive k \/
  exists pc, PT k !! 1 = Some pc /\ pstate pc = ZOMBIE /\ forall c cc, PT k !! c = Some cc -> 1 < c -> pstate cc = FREE.

Record sys_inv (n : nat) hold L fl s : Prop := {
  sv_kernel : kernel_ok sched_ok n hold L fl (kern s);
  sv_free p : p ∈ fl -> 1 < p;
  sv_idle : idle_ok (kern s);
  sv_init : init_ok (kern s);
  sv_local p : local_ok hold (kern s) (threads s) p
}.

Definition sys_ok (n : nat) s : Prop := exists hold L fl, sys_inv n hold L fl s.

(** ** Lemmas *)

Lemma queued_others D k k' p : others D k k' -> (p ∉ D) -> queued k' p -> queued k p.
Proof.
  intros Ho HD (pc' & Hp' & Hne). destruct (ot_dom _ _ _ Ho p) as [pc Hp]; [by eexists|]. exists pc. split; [done|].
  destruct (ot_block _ _ _ Ho p pc HD Hp) as (pc2 & Hp2 & _ & _ & _ & Hc). assert (pc2 = pc') as -> by congruence. destruct Hc; congruence.
Qed.

Lemma zombie_others D k k' p c : others D k k' -> (p ∉ D) -> queued k' p -> zombie_of (PT k') c p -> zombie_of (PT k) c p.
Proof. intros Ho HD (pc' & Hp' & Hne). by eapply ot_zombie. Qed.

Lemma wait_others D k k' p w : others D k k' -> (p ∉ D) -> serial_ports (ports k') = serial_ports (ports k) -> wait_ok k p w -> wait_ok k' p w.
Proof.
  intros Ho HD Hports. destruct w as [c| |v|f d obj size]; simpl.
  - intros [Hc Hq]. split; [by eapply ot_child|]. intros Hq'. pose proof (queued_others _ _ _ _ Ho HD Hq') as Hq0.
    intros Hz. apply (Hq Hq0). by eapply zombie_others.
  - intros [[c Hc] Hq]. split; [exists c; by eapply ot_child|]. intros Hq'. pose proof (queued_others _ _ _ _ Ho HD Hq') as Hq0.
    intros x Hz. apply (Hq Hq0 x). by eapply zombie_others.
  - intros (? & [c Hc] & Hq). split; [done|]. split; [exists c; by eapply ot_child|]. intros Hq'. pose proof (queued_others _ _ _ _ Ho HD Hq') as Hq0.
    intros x Hz. apply (Hq Hq0 x). by eapply zombie_others.
  - intros [-> Hs]. split; [done|]. simpl in *. by rewrite Hports.
Qed.

(** No process other than those of [D] starts to wait for a terminal. *)
Definition rx_others (D : list nat) k k' : Prop := forall i d' p, serial_dcb k' !! i = Some d' -> (p ∉ D) -> p ∈ rx_ready d' ->
  exists d, serial_dcb k !! i = Some d /\ p ∈ rx_ready d.

Lemma local_others D hold hold' k k' t t' p :
  local_ok hold k t p -> others D k k' -> rx_others D k k' -> serial_ports (ports k') = serial_ports (ports k) ->
  (p ∉ D) -> t' !! p = t !! p -> hold' p = hold p -> local_ok hold' k' t' p.
Proof.
  intros [A1 A0 A2 A3 A4 A5] Ho Hrx Hports HD Et Eh. split.
  - rewrite Et, A1. split.
    + intros (pc & Hp & Ha & Hm). destruct (ot_block _ _ _ Ho p pc HD Hp) as (pc' & Hp' & Ha' & Hm' & _). exists pc'. rewrite Ha', Hm'. done.
    + intros (pc' & Hp' & Ha & Hm). destruct (ot_dom _ _ _ Ho p) as [pc Hp]; [by eexists|].
      destruct (ot_block _ _ _ Ho p pc HD Hp) as (pc2 & Hp2 & Ha2 & Hm2 & _). assert (pc2 = pc') as -> by congruence.
      exists pc. rewrite <- Hm2, <- Ha2. done.
  - intros pc' Hp' Ha Hm. destruct (ot_dom _ _ _ Ho p) as [pc Hp]; [by eexists|].
    destruct (ot_block _ _ _ Ho p pc HD Hp) as (pc2 & Hp2 & Ha2 & Hm2 & Ht2 & _). assert (pc2 = pc') as -> by congruence.
    rewrite Ht2. apply (A0 pc Hp); [by apply Ha2|congruence].
  - by rewrite Eh, Et.
  - intros w c. rewrite Et. intros Hw. eapply wait_others; [done..|]. by eapply A3.
  - intros pc' Hp'. rewrite Et. destruct (ot_dom _ _ _ Ho p) as [pc Hp]; [by eexists|].
    destruct (ot_block _ _ _ Ho p pc HD Hp) as (pc2 & Hp2 & _ & _ & _ & Hc). assert (pc2 = pc') as -> by congruence.
    destruct Hc as [-> | ->]; [by apply A4|by left].
  - intros i d' Hd Hin. rewrite Et. destruct (Hrx i d' p Hd HD Hin) as (d & Hd0 & Hin0). by eapply A5.
Qed.

(** A step that touches the processes of [D]. *)
Lemma sys_inv_step n hold L fl s hold' L' fl' k' t' u D :
  sys_inv n hold L fl s -> kernel_ok sched_ok n hold' L' fl' k' -> (forall p, p ∈ fl' -> 1 < p) -> (0 ∉ D) ->
  others D (kern s) k' -> rx_others D (kern s) k' -> serial_ports (ports k') = serial_ports (ports (kern s)) ->
  (forall p, (p ∉ D) -> t' !! p = threads s !! p /\ hold' p = hold p) ->
  (forall p, p ∈ D -> local_ok hold' k' t' p) -> init_ok k' -> sys_inv n hold' L' fl' (mkSys k' t' u).
Proof.
  intros [V1 V2 V3 V4 V5] K Hfl H0D Ho Hrx Hports Hsame HD Hinit. split; [done|done| |done|]; cbn [kern threads].
  - destruct V3 as (pc & Hp & Ha & Hm). destruct (ot_block _ _ _ Ho 0 pc H0D Hp) as (pc' & Hp' & Ha' & Hm' & _).
    exists pc'. rewrite Ha', Hm'. done.
  - intros p. destruct (decide (p ∈ D)) as [HpD|HpD]; [by apply HD|]. destruct (Hsame p HpD) as [Et Eh].
    eapply local_others; done.
Qed.

(** [p] runs, or was woken. *)
Record ready k p pc : Prop := {
  rd_PT : PT k !! p = Some pc;
  rd_alive : pstate pc = ALIVE;
  rd_task : main_task pc <> None;
  rd_main : main_thread pc <> None;
  rd_awake : child_exit pc = [];
  rd_rx i d : serial_dcb k !! i = Some d -> p ∉ rx_ready d
}.

Lemma running_ready n hold L fl s p th : sys_inv n hold L fl s -> threads s !! p = Some th ->
  (forall w kk, th <> Waiting w kk) -> exists pc, ready (kern s) p pc /\ hold p = [].
Proof.
  intros V Ht Hth. destruct (sv_local _ _ _ _ _ V p) as [A1 A0 A2 A3 A4 A5].
  destruct (proj1 A1) as (pc & Hp & Ha & Hm); [by eexists|]. exists pc. split; [split; try done|].
  - by apply A0.
  - destruct (A4 pc Hp) as [?|(_ & w & c & Hw & _)]; [done|]. destruct (Hth w c). congruence.
  - intros i d Hd Hin. destruct (A5 i d Hd Hin) as (f & dv & size & c & Hw). destruct (Hth (InRead f dv (Some i) size) c). congruence.
  - rewrite A2, Ht. destruct th as [| |w c]; try done. by destruct (Hth w c).
Qed.

Lemma awake_ready n hold L fl s p w kk : sys_inv n hold L fl s -> threads s !! p = Some (Waiting w kk) ->
  asleep p w (kern s) = false -> exists pc, ready (kern s) p pc.
Proof.
  intros V Ht Hw. destruct (sv_local _ _ _ _ _ V p) as [A1 A0 A2 A3 A4 A5].
  destruct (proj1 A1) as (pc & Hp & Ha & Hm); [by eexists|]. exists pc. split; try done.
  - by apply A0.
  - destruct (A4 pc Hp) as [?|(E & w' & c' & Hw' & Hcw)]; [done|]. assert (w' = w) as -> by congruence. exfalso.
    assert (asleep p w (kern s) = true) as Hs; [|congruence].
    destruct w; try done; simpl; rewrite Hp, E; apply bool_decide_eq_true; by left.
  - intros i d Hd Hin. destruct (A5 i d Hd Hin) as (f & dv & size & c' & Hw'). assert (w = InRead f dv (Some i) size) as -> by congruence.
    simpl in Hw. rewrite Hd in Hw. by apply bool_decide_eq_false in Hw.
Qed.

Lemma thread_init n hold L fl s p : sys_inv n hold L fl s -> is_Some (threads s !! p) -> p <> 0 /\ init_alive (kern s).
Proof.
  intros V Ht. apply (lo_thread _ _ _ _ (sv_local _ _ _ _ _ V p)) in Ht as (pc & Hp & Ha & Hm).
  assert (p <> 0) as Hp0. { intros ->. destruct (sv_idle _ _ _ _ _ V) as (pc' & ? & _ & ?). congruence. }
  split; [done|]. destruct (sv_init _ _ _ _ _ V) as [Hi|(ip & Hip & Hz & Hfree)]; [done|]. exfalso.
  destruct (decide (p = 1)) as [->|]; [congruence|]. specialize (Hfree p pc Hp ltac:(lia)). congruence.
Qed.

Lemma init_others D k k' : init_alive k -> others D k k' -> (1 ∉ D) -> init_alive k'.
Proof.
  intros (pc & Hp & Ha & Hm) Ho HD. destruct (ot_block _ _ _ Ho 1 pc HD Hp) as (pc' & Hp' & Ha' & Hm' & _). exists pc'. rewrite Ha', Hm'. done.
Qed.

(** A process that goes on. *)
Lemma local_running hold k t p pc pr : ready k p pc -> t !! p = Some (Running pr) -> hold p = [] -> local_ok hold k t p.
Proof.
  intros [A1 A2 A3 A0 A4 A5] Ht Hh. split.
  - rewrite Ht. split; [intros _; by exists pc|intros _; by eexists].
  - congruence.
  - by rewrite Hh, Ht.
  - intros w c Hw. congruence.
  - intros pc' Hp'. left. congruence.
  - intros i d Hd Hin. by destruct (A5 i d Hd).
Qed.
End inv.
