(* ===== verification/SysOps.v ===== *)
(** * Every step keeps the invariant of the system

  A system call, whatever it is, returns in a well-formed system, and in it the process goes on, sleeps
  or is gone; and so does a call that goes on after it slept. *)

From S2P Require Import Prelude Rlist Lists Iface Kernel Dev Streams Proc ProcInv ProcOps ProcExit Boot Sys SysInv.

Section ops.
Context {U T S B : Type} `{SerialLaws B} `{SpawnOps T S} `{WakeOps T S}.
Context (sched_ok : S -> Prop) (blocked live : S -> T -> Prop).
Context `{!SpawnLaws T S sched_ok live} `{!WakeLaws T S sched_ok blocked live}.
Context (tid_of : T -> Z).
Implicit Types (k : kernel (Task U) T S B) (pc : PCB (Task U) T) (p c q cur : nat) (s : sys U T S B).
Implicit Types (L : lists) (fl : list nat) (hold : nat -> list nat) (t : gmap nat (thread U)) (w : waiting).
Abbreviation sys_inv := (sys_inv sched_ok).
Abbreviation sys_ok := (sys_ok sched_ok).
Abbreviation kernel_ok := (kernel_ok sched_ok).

Lemma rx_same D k k' : serial_dcb k' = serial_dcb k -> rx_others D k k'.
Proof. intros E i d p. rewrite E. intros Hd _ Hin. by exists d. Qed.

Lemma stream_kernel_ok n hold L fl k k' cur pc l : kernel_ok n hold L fl k -> PT k !! cur = Some pc -> pstate pc = ALIVE ->
  files_ok n hold k' -> Streams.same_rest k k' -> PT k' = set_fids cur l pc k -> kernel_ok n hold L fl k'.
Proof.
  intros [R P F D Hdead Hs] Hp Ha F' [E1 E2 E3 E4 E5 E6 E7] EP. split.
  - eapply (praw_same n (with_PT (PT k') k)); [|done..]. rewrite EP. by eapply praw_upd.
  - rewrite EP. eapply ptree_same; [done|]. by eapply same_tree_insert.
  - done.
  - eapply devices_same; [exact D|done..].
  - intros q qc. rewrite EP. unfold set_fids. intros [[<- <-]|[_ Hq]]%lookup_insert_Some; [done|by eapply Hdead].
  - by rewrite E6.
Qed.

Lemma io_kernel_ok n hold hold' L fl k k' : kernel_ok n hold L fl k -> io_effect n hold' k k' -> kernel_ok n hold' L fl k'.
Proof.
  intros [R P F D Hdead Hs] [E1 E2 E3 E4 E5 E6 E7 E8 E9]. split; try done.
  - by eapply praw_same.
  - by rewrite E3.
  - intros p pc. rewrite E3. apply Hdead.
  - by rewrite E7.
Qed.

Lemma ready_same k k' p pc pc' : ready k p pc -> PT k' !! p = Some pc' -> pstate pc' = pstate pc -> main_task pc' = main_task pc ->
  main_thread pc' = main_thread pc -> child_exit pc' = child_exit pc -> serial_dcb k' = serial_dcb k -> ready k' p pc'.
Proof. intros [A1 A2 A3 A0 A4 A5] Hp E1 E2 E3 E4 E5. split; try congruence. by rewrite E5. Qed.

(** The process goes on. *)
Lemma settle_done n hold L fl s hold' L' fl' k' p pc' (kk : reply -> prog U) v :
  sys_inv n hold L fl s -> is_Some (threads s !! p) -> kernel_ok n hold' L' fl' k' -> (forall x, x ∈ fl' -> 1 < x) ->
  others [p] (kern s) k' -> rx_others [p] (kern s) k' -> serial_ports (ports k') = serial_ports (ports (kern s)) ->
  (forall x, x <> p -> hold' x = hold x) -> hold' p = [] -> ready k' p pc' -> sys_ok n (settle p kk (CDone v) k' s).
Proof.
  intros V Ht K Hfl Ho Hrx Hports Hh Hhp Hr. destruct (thread_init _ _ _ _ _ _ _ V Ht) as [Hp0 Hinit].
  exists hold', L', fl'. eapply (sys_inv_step _ n hold L fl s hold' L' fl' k' _ _ [p]); try done.
  - by intros <-%list_elem_of_singleton.
  - intros x Hx. rewrite list_elem_of_singleton in Hx. split; [by rewrite lookup_insert_ne|by apply Hh].
  - intros x ->%list_elem_of_singleton. eapply local_running; [exact Hr|apply lookup_insert_eq|done].
  - left. destruct (decide (p = 1)) as [->|Hne].
    + exists pc'. destruct Hr. done.
    + eapply init_others; [done..|]. rewrite list_elem_of_singleton. congruence.
Qed.

(** It sleeps in the kernel. *)
Lemma settle_wait n hold L fl s hold' L' fl' k' p pc' (kk : reply -> prog U) w :
  sys_inv n hold L fl s -> is_Some (threads s !! p) -> kernel_ok n hold' L' fl' k' -> (forall x, x ∈ fl' -> 1 < x) ->
  others [p] (kern s) k' -> rx_others [p] (kern s) k' -> serial_ports (ports k') = serial_ports (ports (kern s)) ->
  (forall x, x <> p -> hold' x = hold x) -> hold' p = held (Some (Waiting w kk)) ->
  PT k' !! p = Some pc' -> pstate pc' = ALIVE -> main_task pc' <> None -> main_thread pc' <> None -> wait_ok k' p w ->
  (child_exit pc' = [] \/ (child_exit pc' = [p] /\ child_wait w = true)) ->
  (forall i d, serial_dcb k' !! i = Some d -> p ∈ rx_ready d -> exists f dv size, w = InRead f dv (Some i) size) ->
  sys_ok n (settle p kk (CWait w) k' s).
Proof.
  intros V Ht K Hfl Ho Hrx Hports Hh Hhp Hp Ha Hm Hmt Hw Hce Hrp. destruct (thread_init _ _ _ _ _ _ _ V Ht) as [Hp0 Hinit].
  exists hold', L', fl'. eapply (sys_inv_step _ n hold L fl s hold' L' fl' k' _ _ [p]); try done.
  - by intros <-%list_elem_of_singleton.
  - intros x Hx. rewrite list_elem_of_singleton in Hx. split; [by rewrite lookup_insert_ne|by apply Hh].
  - intros x ->%list_elem_of_singleton. split; rewrite ?lookup_insert_eq.
    + split; [intros _; by exists pc'|by eexists].
    + congruence.
    + done.
    + intros w' c' [= <- <-]. done.
    + intros pc Hpc. assert (pc = pc') as -> by congruence. destruct Hce as [?|[? ?]]; [by left|right]. split; [done|]. by exists w, kk.
    + intros i d Hd Hin. destruct (Hrp i d Hd Hin) as (f & dv & size & ->). by exists f, dv, size, kk.
  - left. destruct (decide (p = 1)) as [->|Hne]; [by exists pc'|]. eapply init_others; [done..|]. rewrite list_elem_of_singleton. congruence.
Qed.

(** It is gone. *)
Lemma settle_gone n hold L fl s L' fl' k' p (kk : reply -> prog U) :
  sys_inv n hold L fl s -> is_Some (threads s !! p) -> kernel_ok n hold L' fl' k' -> (forall x, x ∈ fl' -> 1 < x) ->
  others [p] (kern s) k' -> rx_others [p] (kern s) k' -> serial_ports (ports k') = serial_ports (ports (kern s)) ->
  hold p = [] -> (exists pc', PT k' !! p = Some pc' /\ pstate pc' = ZOMBIE /\ child_exit pc' = []) ->
  (forall i d, serial_dcb k' !! i = Some d -> p ∉ rx_ready d) ->
  (p = 1 -> forall c cc, PT k' !! c = Some cc -> 1 < c -> pstate cc = FREE) ->
  sys_ok n (settle p kk CGone k' s).
Proof.
  intros V Ht K Hfl Ho Hrx Hports Hhp (pc' & Hp & Hz & Hce) Hrp Hone. destruct (thread_init _ _ _ _ _ _ _ V Ht) as [Hp0 Hinit].
  exists hold, L', fl'. eapply (sys_inv_step _ n hold L fl s hold L' fl' k' _ _ [p]); try done.
  - by intros <-%list_elem_of_singleton.
  - intros x Hx. rewrite list_elem_of_singleton in Hx. split; [by rewrite lookup_delete_ne|done].
  - intros x ->%list_elem_of_singleton. split; rewrite ?lookup_delete_eq; try done.
    + split; [by intros []|]. intros (pc & ? & ? & _). congruence.
    + intros pc Hpc Ha. congruence.
    + intros pc Hpc. left. congruence.
    + intros i d Hd Hin. by destruct (Hrp i d Hd).
  - destruct (decide (p = 1)) as [->|Hne]; [right; exists pc'; split; [done|]; split; [done|by apply Hone]|left]. eapply init_others; [done..|]. rewrite list_elem_of_singleton. congruence.
Qed.

(** *** The calls that change nothing, or only files *)

Lemma call_same n hold L fl s p pc (kk : reply -> prog U) v : sys_inv n hold L fl s -> is_Some (threads s !! p) ->
  ready (kern s) p pc -> hold p = [] -> sys_ok n (settle p kk (CDone v) (kern s) s).
Proof.
  intros V Ht Hr Hh. destruct (V) as [K Hfl _ _ _]. eapply settle_done; try done; [by apply others_same|by apply rx_same].
Qed.

Lemma call_stream n hold L fl s k' p pc l (kk : reply -> prog U) v : sys_inv n hold L fl s -> is_Some (threads s !! p) ->
  ready (kern s) p pc -> hold p = [] -> files_ok n hold k' -> Streams.same_rest (kern s) k' -> PT k' = set_fids p l pc (kern s) ->
  sys_ok n (settle p kk (CDone v) k' s).
Proof.
  intros V Ht Hr Hh F' Hrest EP. pose proof Hrest as [E1 E2 E3 E4 E5 E6 E7]. destruct (V) as [K Hfl _ _ _]. pose proof Hr as [A1 A2 A3 A0 A4 A5].
  eapply (settle_done _ _ _ _ _ hold L fl k' p (set_FIDT l pc)); try done.
  - by eapply stream_kernel_ok.
  - eapply others_upd; [by left|exact A1|exact EP|done|done].
  - by apply rx_same.
  - by rewrite E7.
  - eapply ready_same; try done. rewrite EP. apply lookup_insert_eq.
Qed.

Lemma call_io n hold hold' L fl s k' p pc (kk : reply -> prog U) v : sys_inv n hold L fl s -> is_Some (threads s !! p) ->
  ready (kern s) p pc -> (forall x, x <> p -> hold' x = hold x) -> hold' p = [] -> io_effect n hold' (kern s) k' ->
  serial_dcb k' = serial_dcb (kern s) -> sys_ok n (settle p kk (CDone v) k' s).
Proof.
  intros V Ht Hr Hx Hh Hio Hs. destruct (V) as [K Hfl _ _ _]. pose proof Hr as [A1 A2 A3 A0 A4 A5].
  eapply (settle_done _ _ _ _ _ hold' L fl k' p pc); try done.
  - by eapply io_kernel_ok.
  - by apply others_same, (io_PT _ _ _ _ Hio).
  - by apply rx_same.
  - apply Hio.
  - eapply ready_same; try done. by rewrite (io_PT _ _ _ _ Hio).
Qed.

(** A read that sleeps in the driver. *)
Lemma read_wait n hold hold' L fl s k' p pc (kk : reply -> prog U) f i sd size : sys_inv n hold L fl s -> is_Some (threads s !! p) ->
  ready (kern s) p pc -> (forall x, x <> p -> hold' x = hold x) -> hold' p = [f] -> io_effect n hold' (kern s) k' ->
  serial_dcb (kern s) !! i = Some sd -> serial_dcb k' = <[i := mkSerial i (rx_ready sd ++ [p])]> (serial_dcb (kern s)) ->
  sys_ok n (settle p kk (CWait (InRead f DEV_SERIAL (Some i) size)) k' s).
Proof.
  intros V Ht Hr Hx Hh Hio Hsd Hs. destruct (V) as [K Hfl _ _ _]. pose proof Hr as [A1 A2 A3 A0 A4 A5].
  assert (i < serial_ports (ports (kern s))) as Hi. { apply (do_dcb _ (ko_devices _ _ _ _ _ _ K)). by eexists. }
  eapply (settle_wait _ _ _ _ _ hold' L fl k' p pc); try done.
  - by eapply io_kernel_ok.
  - by apply others_same, (io_PT _ _ _ _ Hio).
  - intros j d x. rewrite Hs. intros [[<- <-]|[_ Hd]]%lookup_insert_Some Hxp Hin; [|by exists d].
    exists sd. split; [done|]. simpl in Hin. apply elem_of_app in Hin as [?|?]; done.
  - apply Hio.
  - by rewrite (io_PT _ _ _ _ Hio).
  - split; [done|]. exists i. split; [done|]. by rewrite (io_ports _ _ _ _ Hio).
  - by left.
  - intros j d. rewrite Hs. intros [[<- <-]|[_ Hd]]%lookup_insert_Some Hin; [by exists f, DEV_SERIAL, size|]. by destruct (A5 j d Hd).
Qed.

Lemma read_result_ok n hold hold' L fl s k' p pc (kk : reply -> prog U) r size :
  sys_inv n hold L fl s -> is_Some (threads s !! p) -> ready (kern s) p pc ->
  match r with
  | RdDone z buf => io_effect n hold' (kern s) k' /\ hold' p = [] /\ (forall x, x <> p -> hold' x = hold x) /\ serial_dcb k' = serial_dcb (kern s)
  | RdWait f d obj => d = DEV_SERIAL /\ exists i sd, obj = Some i /\ serial_dcb (kern s) !! i = Some sd /\ io_effect n hold' (kern s) k' /\
      hold' p = [f] /\ (forall x, x <> p -> hold' x = hold x) /\ serial_dcb k' = <[i := mkSerial i (rx_ready sd ++ [p])]> (serial_dcb (kern s))
  end ->
  exists r', returns_read size r k' = Ret (r', k') /\ sys_ok n (settle p kk r' k' s).
Proof.
  intros V Ht Hr Hpost. destruct r as [z buf|f d obj]; simpl.
  - destruct Hpost as (Hio & Hh & Hx & Hs). eexists. split; [done|]. by eapply call_io.
  - destruct Hpost as (-> & i & sd & -> & Hsd & Hio & Hh & Hx & Hs). eexists. split; [done|]. by eapply read_wait.
Qed.

(** *** Waiting for children *)

Lemma sleeps_wait n hold L fl s k0 L' fl' k' p pc (kk : reply -> prog U) w :
  sys_inv n hold L fl s -> is_Some (threads s !! p) -> hold p = [] -> kernel_ok n hold L' fl' k0 -> (forall x, x ∈ fl' -> 1 < x) ->
  others [p] (kern s) k0 -> same_io (kern s) k0 -> ready k0 p pc -> sleeps sched_ok n hold L' fl' k0 p k' -> wait_ok k0 p w ->
  child_wait w = true ->
  (match w with InChild c => ~ zombie_of (PT k0) c p | _ => L' KE p = [] end) ->
  sys_ok n (settle p kk (CWait w) k' s).
Proof.
  intros V Ht Hh K0 Hfl Ho [I1 I2 I3 I4 I5 I6] [A1 A2 A3 A0 A4 A5] Hsl Hw Hcw Hnz. pose proof (sleeps_others _ _ _ _ _ _ _ _ Hsl) as Ho'.
  destruct Hsl as (pc0 & Hp & -> & K'). assert (pc0 = pc) as -> by congruence. set (k' := with_PT _ _) in *.
  assert (same_tree (PT k0) (PT k')) as HT by (by eapply same_tree_insert).
  assert (forall c, child_of (PT k') c p <-> child_of (PT k0) c p) as Hch by (intros c; by apply same_tree_child).
  assert (forall c, zombie_of (PT k') c p <-> zombie_of (PT k0) c p) as Hzo by (intros c; by apply same_tree_zombie).
  assert (forall c, L' KE p = [] -> ~ zombie_of (PT k0) c p) as Hnil.
  { intros c E Hz. apply (pt_exited _ _ (ko_tree _ _ _ _ _ _ K0)) in Hz. rewrite E in Hz. by apply elem_of_nil in Hz. }
  eapply (settle_wait _ _ _ _ _ hold L' fl' k' p (set_child_exit (child_exit pc ++ [p]) pc)); try done.
  - by eapply others_trans.
  - apply rx_same. by rewrite <- I4.
  - cbn. by rewrite I6.
  - by destruct w.
  - apply lookup_insert_eq.
  - destruct w as [c| |v|]; simpl in *; [| | |done].
    + rewrite Hch, Hzo. by destruct Hw.
    + destruct Hw as [[c Hc] _]. split; [exists c; by apply Hch|]. intros _ x. rewrite Hzo. by apply Hnil.
    + destruct Hw as (? & [c Hc] & _). split; [done|]. split; [exists c; by apply Hch|]. intros _ x. rewrite Hzo. by apply Hnil.
  - right. simpl. by rewrite A4.
  - intros i d Hd Hin. by destruct (A5 i d Hd).
Qed.

Lemma reaps_done n hold L fl s k' p pc c st (kk : reply -> prog U) v :
  sys_inv n hold L fl s -> is_Some (threads s !! p) -> hold p = [] -> ready (kern s) p pc ->
  reaps sched_ok n hold L fl (kern s) p c k' st -> sys_ok n (settle p kk (CDone v) k' s).
Proof.
  intros V Ht Hh Hr Hreap. pose proof V as [K Hfl _ _ _]. pose proof (reaps_others _ _ _ _ _ _ _ _ _ _ K Hreap) as Ho.
  destruct Hreap as (L' & pcc & Hc & Hz & Hpar & _ & K' & [I1 I2 I3 I4 I5 I6] & E & _).
  assert (c <> p) as Hne. { intros ->. destruct Hr. congruence. }
  eapply (settle_done _ _ _ _ _ hold L' (c :: fl) k' p pc); try done.
  - intros x [->|Hx]%elem_of_cons; [|by apply Hfl]. destruct (decide (c <= 1)) as [Hle|]; [|lia].
    apply (pt_root _ _ (ko_tree _ _ _ _ _ _ K) c pcc Hc) in Hle; congruence.
  - by apply rx_same.
  - by rewrite I6.
  - eapply ready_same; try done. rewrite E, lookup_insert_ne by done. apply Hr.
Qed.

Lemma wait_settle n hold L fl s p pc cpid r k' (kk : reply -> prog U) :
  sys_inv n hold L fl s -> is_Some (threads s !! p) -> hold p = [] -> ready (kern s) p pc ->
  wait_post sched_ok n hold L fl (kern s) p cpid r k' ->
  exists r', returns_wait r k' = Ret (r', k') /\ sys_ok n (settle p kk r' k' s).
Proof.
  intros V Ht Hh Hr Hpost. pose proof V as [K Hfl _ _ _]. destruct r as [z [st|]|w]; simpl in *; eexists; (split; [done|]).
  - destruct Hpost as (c & -> & Hreap & _). by eapply reaps_done.
  - destruct Hpost as (-> & -> & _). by eapply call_same.
  - destruct Hpost as (Hsl & Hw). eapply (sleeps_wait n hold L fl s (kern s) L fl); try done; [by apply others_same| | |].
    + destruct Hw as [(_ & c & _ & -> & Hc & Hnz)|(_ & -> & Hne & Hnil)]; simpl; [done|]. split.
      * destruct (L KC p) as [|c l] eqn:E; [done|]. exists c. apply (ko_tree _ _ _ _ _ _ K). rewrite E. by left.
      * intros _ c Hz. apply (pt_exited _ _ (ko_tree _ _ _ _ _ _ K)) in Hz. rewrite Hnil in Hz. by apply elem_of_nil in Hz.
    + by destruct Hw as [(_ & c & _ & -> & _)|(_ & -> & _)].
    + by destruct Hw as [(_ & c & _ & -> & _ & ?)|(_ & -> & _ & ?)].
Qed.

(** *** Exec *)

Lemma exec_others n hold L fl k k' cur c pc pnew : kernel_ok n hold L (c :: fl) k -> PT k !! c = Some pc -> pstate pc = FREE ->
  parent pnew = Some cur -> pstate pnew = ALIVE -> PT k' = <[c := pnew]> (PT k) -> others [cur; c] k k'.
Proof.
  intros K Hc Hf Hpar Ha E. split.
  - intros q. rewrite E. intros [<-|[_ ?]]%lookup_insert_is_Some; [by eexists|done].
  - intros q qc Hq Hqc. exists qc. rewrite E, lookup_insert_ne by (intros ->; apply Hq; right; by left). do 4 (split; [done|]). by left.
  - intros x q Hq (xc & Hx & Hxf & Hxp). exists xc. rewrite E, lookup_insert_ne by congruence. done.
  - intros x q qc Hq _ _ (xc & Hx & Hxz & Hxp). rewrite E in Hx. apply lookup_insert_Some in Hx as [[<- <-]|[_ Hx]]; [congruence|]. by exists xc.
Qed.

Lemma free_no_thread n hold L fl s c pcc : sys_inv n hold L fl s -> PT (kern s) !! c = Some pcc -> pstate pcc = FREE ->
  threads s !! c = None.
Proof.
  intros V Hc Hf. destruct V as [_ _ _ _ Hloc]. apply eq_None_not_Some. intros (x & ? & ? & _)%(lo_thread _ _ _ _ (Hloc c)). congruence.
Qed.

(** The system after [Exec] took the slot [c]: the parent goes on, and the child starts when it has a program. *)
Lemma exec_settled n hold L fl s p pc c pcc (pnew : PCB (Task U) T) (k' : kernel (Task U) T S B) rp (call : option (Task U)) t' :
  sys_inv n hold L (c :: fl) s -> is_Some (threads s !! p) -> hold p = [] -> ready (kern s) p pc -> c <> p ->
  PT (kern s) !! c = Some pcc -> pstate pcc = FREE ->
  kernel_ok n hold (set_list KC p (c :: L KC p) L) fl k' ->
  PT k' = <[c := pnew]> (PT (kern s)) -> pstate pnew = ALIVE -> parent pnew = Some p -> main_task pnew = call ->
  child_exit pnew = [] -> (call <> None -> main_thread pnew <> None) ->
  serial_dcb k' = serial_dcb (kern s) -> ports k' = ports (kern s) ->
  t' !! p = Some (Running rp) -> (forall x, x <> p -> x <> c -> t' !! x = threads s !! x) ->
  (t' !! c = None /\ call = None \/ t' !! c = Some Starting /\ call <> None) -> sys_ok n (mkSys k' t' (memory s)).
Proof.
  intros V Ht Hh Hr Hcp Hc Hf K' EP Ha Hpar Htask Hce' Hmt Es Eb Hp' Hx' Hc'. pose proof V as [K Hfl _ _ Hloc].
  assert (others [p; c] (kern s) k') as Ho by (by apply (exec_others n hold L fl (kern s) k' p c pcc pnew)).
  pose proof Hr as [A1 A2 A3 A0 A4 A5].
  destruct (thread_init _ _ _ _ _ _ _ V Ht) as [Hp0 Hinit].
  assert (1 < c) as Hc1 by (apply Hfl; by left).
  pose proof (free_no_thread _ _ _ _ _ _ _ V Hc Hf) as Htc.
  assert (PT k' !! c = Some pnew) as Hnew by (by rewrite EP, lookup_insert_eq).
  assert (ready k' p pc) as Hr'. { eapply ready_same; try done. by rewrite EP, lookup_insert_ne. }
  assert (hold c = []) as Hhc by (rewrite (lo_hold _ _ _ _ (Hloc c)); by rewrite Htc).
  assert (init_ok k') as Hinit'.
  { left. destruct (decide (p = 1)) as [->|Hne]; [by exists pc; destruct Hr'|]. eapply init_others; [done..|].
    rewrite !elem_of_cons, elem_of_nil. intros [?|[?|?]]; [congruence|lia|done]. }
  exists hold, (set_list KC p (c :: L KC p) L), fl. eapply (sys_inv_step _ n hold L (c :: fl) s hold _ fl k' _ _ [p; c]); try done.
  - intros x Hx. apply Hfl. by right.
  - rewrite !elem_of_cons, elem_of_nil. intros [?|[?|?]]; [congruence|lia|done].
  - by apply rx_same.
  - by rewrite Eb.
  - intros x Hx. rewrite !elem_of_cons, elem_of_nil in Hx. split; [|done]. apply Hx'; tauto.
  - intros x [->|[->|?%elem_of_nil]%elem_of_cons]%elem_of_cons; [by eapply local_running| |done]. split.
    + destruct Hc' as [[-> Hcall]|[-> Hcall]].
      * split; [by intros []|]. intros (y & Hy & _ & Hm). rewrite Hnew in Hy. injection Hy as <-. congruence.
      * split; [intros _; exists pnew; split; [done|split; [done|congruence]]|intros _; by eexists].
    + intros y Hy _ Hm. rewrite Hnew in Hy. injection Hy as <-. apply Hmt. congruence.
    + rewrite Hhc. by destruct Hc' as [[-> _]|[-> _]].
    + intros w k1 Hw. destruct Hc' as [[? _]|[? _]]; congruence.
    + intros y Hy. left. rewrite Hnew in Hy. by injection Hy as <-.
    + intros i d. rewrite Es. intros Hd Hin. destruct (lo_rx _ _ _ _ (Hloc c) i d Hd Hin) as (? & ? & ? & ? & ?). congruence.
Qed.

Lemma exec_call_ok n hold L fl s p pc call argl args (kk : reply -> prog U) :
  sys_inv n hold L fl s -> is_Some (threads s !! p) -> hold p = [] -> ready (kern s) p pc ->
  legal_call (Exec call argl args) = true ->
  exists r k', do_call tid_of p (Exec call argl args) (kern s) = Ret (r, k') /\ sys_ok n (settle p kk r k' s).
Proof.
  intros V Ht Hh Hr Hlegal. pose proof V as [K Hfl _ _ Hloc]. pose proof Hr as [A1 A2 A3 A0 A4 A5].
  destruct (thread_init _ _ _ _ _ _ _ V Ht) as [Hp0 Hinit].
  assert (exists a, copy_args argl args = Ret a) as [a Ea].
  { simpl in Hlegal. unfold copy_args. destruct args as [a|]; [|by eexists]. rewrite bool_decide_eq_true in Hlegal.
    rewrite decide_True by done. by eexists. }
  pose proof (exec_ok sched_ok blocked live n hold L fl (kern s) p pc call argl args a K A1 A2 Hp0 Hfl Ea) as Hexec. unfold do_call.
  destruct fl as [|c fl].
  { rewrite Hexec, ret_bind. assert (returns_exec call NOPROC (kern s) = Ret (CDone (mkReply NOPROC None []), kern s)) as -> by (by destruct call).
    eexists _, _. split; [done|]. by eapply call_same. }
  destruct Hexec as (k' & t & pcc & -> & Hc & Hf & K' & EP & Es & Eb & _ & Hmt). rewrite ret_bind.
  assert (c <> p) as Hcp by congruence.
  pose proof (free_no_thread _ _ _ _ _ _ _ V Hc Hf) as Htc.
  assert (child_exit pcc = []) as Hce by (destruct (lo_child_exit _ _ _ _ (Hloc c) pcc Hc) as [?|(_ & w & k1 & Hw & _)]; [done|congruence]).
  destruct call as [task|]; simpl.
  - rewrite decide_False by (unfold NOPROC; lia). eexists _, _. split; [done|]. rewrite Nat2Z.id. simpl.
    eapply (exec_settled n hold L fl s p pc c pcc _ k' _ (Some task)); try done.
    + by rewrite lookup_insert_ne, lookup_insert_eq.
    + intros x ? ?. by rewrite !lookup_insert_ne.
    + right. by rewrite lookup_insert_eq.
  - eexists _, _. split; [done|]. simpl.
    eapply (exec_settled n hold L fl s p pc c pcc _ k' _ None); try done.
    + by rewrite lookup_insert_eq.
    + intros x ? ?. by rewrite lookup_insert_ne.
    + left. by rewrite lookup_insert_ne.
Qed.

(** *** Exit *)

(** When the initial process has no children, there is nobody else. *)
Lemma only_init m L : @ptree (Task U) T m L -> L KC 1 = [] -> forall c cc, m !! c = Some cc -> 1 < c -> pstate cc = FREE.
Proof.
  intros P Hnil. destruct (pt_rank _ _ P) as (rank & Hrk & _).
  assert (forall r c cc, rank c < r -> m !! c = Some cc -> 1 < c -> pstate cc <> FREE -> False) as Hno.
  { induction r as [|r IH]; [lia|]. intros c cc Hr Hc Hlt Hf.
    destruct (parent cc) as [q|] eqn:Hq; [|apply (pt_root _ _ P c cc Hc Hf) in Hq; lia].
    assert (child_of m c q) as Hcq by (by exists cc). destruct (pt_parent _ _ P c q Hcq) as (Hq0 & qc & Hqc & Hqa).
    destruct (decide (q = 1)) as [->|Hne].
    - apply (pt_child _ _ P) in Hcq. rewrite Hnil in Hcq. by apply elem_of_nil in Hcq.
    - specialize (Hrk c q Hcq). apply (IH q qc); [lia|done|lia|congruence]. }
  intros c cc Hc Hlt. destruct (decide (pstate cc = FREE)) as [|Hf]; [done|]. exfalso. apply (Hno (Datatypes.S (rank c)) c cc); [lia|done..].
Qed.

Lemma exit_call_ok n hold L fl s p pc v (kk : reply -> prog U) :
  sys_inv n hold L fl s -> is_Some (threads s !! p) -> hold p = [] -> ready (kern s) p pc ->
  exists r k', ('(r, k) ← sys_Exit p v (kern s); returns_exit v r k) = Ret (r, k') /\ sys_ok n (settle p kk r k' s).
Proof.
  intros V Ht Hh Hr. pose proof V as [K Hfl _ _ Hloc]. pose proof Hr as [A1 A2 A3 A0 A4 A5].
  destruct (thread_init _ _ _ _ _ _ _ V Ht) as [Hp0 (ip & Hip & Hia & _)].
  destruct (sys_exit_ok sched_ok n hold L fl (kern s) p pc v K A1 A2 Hp0 Hfl) as
    (r & k' & L' & fl' & k1 & L1 & fl1 & -> & K' & Hfl' & K1 & Ho & Hp1 & Hio & _ & Hone & Hpost); [by exists ip|].
  rewrite ret_bind. pose proof Hio as [I1 I2 I3 I4 I5 I6]. destruct r; simpl; eexists _, k'; (split; [done|]).
  - destruct Hpost as (Hnil & X & ->). pose proof (exited_others _ _ _ _ _ _ _ _ _ _ _ K1 Hp1 A2 X) as Ho1.
    pose proof (ex_blocks _ _ _ _ _ _ _ _ _ _ _ X) as M.
    eapply (settle_gone n hold L fl s L' fl' k' p kk); try done.
    + by eapply others_trans.
    + apply rx_same. by rewrite (ex_serial _ _ _ _ _ _ _ _ _ _ _ X).
    + by rewrite (ex_ports _ _ _ _ _ _ _ _ _ _ _ X), I6.
    + rewrite (M p), Hp1. eexists. split; [done|]. simpl. rewrite !decide_True by done. split; [done|]. by destruct (decide _).
    + intros i d. rewrite (ex_serial _ _ _ _ _ _ _ _ _ _ _ X), I4. apply A5.
    + intros -> c cc Hc Hlt. rewrite (M c) in Hc. destruct (PT k1 !! c) as [c0|] eqn:E; [|done]. injection Hc as <-. simpl.
      rewrite decide_False by lia. by apply (only_init (PT k1) L1 (ko_tree _ _ _ _ _ _ K1) (Hnil eq_refl) c).
  - destruct Hpost as (-> & Hsl & Hne & Hnil).
    assert (kernel_ok n hold L' fl' k1) as K1'.
    { destruct Hsl as (pc0 & Hp & -> & K2). pose proof (kernel_ok_upd sched_ok n hold L' fl' _ 1 _ pc0 K2 (lookup_insert_eq _ _ _) eq_refl eq_refl eq_refl) as K3.
      cbn in K3. rewrite insert_insert_eq, insert_id in K3 by done. by destruct k1. }
    eapply (sleeps_wait n hold L fl s k1 L' fl'); try done.
    + eapply ready_same; done.
    + simpl. split; [done|]. split.
      * destruct (L' KC 1) as [|c l] eqn:E; [done|]. exists c. apply (ko_tree _ _ _ _ _ _ K1'). rewrite E. by left.
      * intros _ c Hz. apply (pt_exited _ _ (ko_tree _ _ _ _ _ _ K1')) in Hz. rewrite Hnil in Hz. by apply elem_of_nil in Hz.
Qed.

(** *** Any call *)

(** A call answers or sleeps, or it is a [Write] that still polls a terminal. *)
Lemma do_call_ok n hold L fl s p pc call (kk : reply -> prog U) :
  sys_inv n hold L fl s -> is_Some (threads s !! p) -> hold p = [] -> ready (kern s) p pc -> legal_call call = true ->
  (exists r k', do_call tid_of p call (kern s) = Ret (r, k') /\ sys_ok n (settle p kk r k' s)) \/
  do_call tid_of p call (kern s) = Err Stalled /\ exists fd buf size, call = Write fd buf size.
Proof.
  intros V Ht Hh Hr Hlegal. pose proof V as [K Hfl _ _ _]. pose proof Hr as [A1 A2 A3 A0 A4 A5]. pose proof (ko_files _ _ _ _ _ _ K) as F.
  pose proof (ko_devices _ _ _ _ _ _ K) as D.
  assert (forall z, exists r k', returns z (kern s) = Ret (r, k') /\ sys_ok n (settle p kk r k' s)) as Hsame.
  { intros z. eexists _, _. split; [done|]. by eapply call_same. }
  assert (forall major minor, exists r k', ('(z, k) ← open_stream p major minor (kern s); returns z k) = Ret (r, k') /\ sys_ok n (settle p kk r k' s)) as Hopen.
  { intros major minor. destruct (open_ok n hold (kern s) p pc major minor F D A1) as (z & k' & -> & F' & Hrest & Hcase). rewrite ret_bind.
    eexists _, k'. split; [done|]. destruct Hcase as [(-> & EP & _)|(i & rest & f & obj & -> & _ & _ & _ & EP & _)]; eapply call_stream; try done.
    by rewrite EP, set_fids_id. }
  destruct call as [call argl args|v| | |cpid| | | | | | |i| |fd size|fd buf size|fd|a b| | | | | | |]; unfold do_call; try (left; apply Hsame).
  - left. by eapply exec_call_ok.
  - left. by eapply exit_call_ok.
  - left. unfold sys_GetPPid. rewrite A1. apply Hsame.
  - left. destruct (wait_child_ok sched_ok n hold L fl (kern s) p pc cpid K A1) as (r & k' & -> & Hw). rewrite ret_bind.
    destruct (wait_settle n hold L fl s p pc cpid r k' kk V Ht Hh Hr Hw) as (r' & E & Hok). by exists r', k'.
  - left. unfold sys_ThreadSelf. rewrite A1. cbn [deref]. rewrite ret_bind. destruct (main_thread pc) as [t|]; [|done]. apply Hsame.
  - left. unfold sys_GetTerminalDevices, device_no. rewrite (do_serial _ D). apply Hsame.
  - left. apply Hopen.
  - left. apply Hopen.
  - left. destruct (read_ok n hold (kern s) p pc fd size F D A1 Hh) as (r & k' & -> & Hpost). rewrite ret_bind.
    destruct r as [z buf|f d obj].
    + destruct Hpost as (Hio & Hs & _). destruct (read_result_ok n hold hold L fl s k' p pc kk (RdDone z buf) size V Ht Hr) as (r' & E & Hok); [done|].
      by exists r', k'.
    + destruct Hpost as (Hio & -> & _ & i & sd & -> & Hsd & Hs).
      destruct (read_result_ok n hold (upd_hold p [f] hold) L fl s k' p pc kk (RdWait f DEV_SERIAL (Some i)) size V Ht Hr) as (r' & E & Hok);
        [|by exists r', k'].
      split; [done|]. exists i, sd. split; [done|]. split; [done|]. split; [done|]. unfold upd_hold. split; [by rewrite decide_True|].
      split; [|done]. intros x Hx. by rewrite decide_False.
  - simpl in Hlegal. rewrite bool_decide_eq_true in Hlegal.
    destruct (write_ok n hold (kern s) p pc fd buf size F D A1 Hh Hlegal) as [(z & k' & -> & Hio & Hs & _)| ->];
      [|right; split; [done|by eexists _, _, _]]. left. rewrite ret_bind. eexists _, k'. split; [done|]. by eapply call_io.
  - left. destruct (close_ok n hold (kern s) p pc fd F A1) as (k' & -> & [F' Hrest _ EP]). rewrite ret_bind.
    eexists _, k'. split; [done|]. by eapply call_stream.
  - left. destruct (dup2_ok n hold (kern s) p pc a b F A1) as (r & l & k' & -> & [F' Hrest _ EP] & _). rewrite ret_bind.
    eexists _, k'. split; [done|]. by eapply call_stream.
Qed.

(** *** A call that goes on *)

Lemma settle_again (kk k1 : reply -> prog U) p v r k' k0 s : settle p kk r k' (settle p k1 (CDone v) k0 s) = settle p kk r k' s.
Proof. destruct r; simpl; by rewrite ?insert_insert_eq, ?delete_insert_eq. Qed.

(** The initial process wakes up in its exit. *)
Lemma exit_resume_ok n hold L fl s p pc v (kk : reply -> prog U) :
  sys_inv n hold L fl s -> is_Some (threads s !! p) -> hold p = [] -> ready (kern s) p pc -> p = 1 ->
  (exists c, child_of (PT (kern s)) c p) ->
  exists r k', ('(r, k) ← exit_resume p v (kern s); returns_exit v r k) = Ret (r, k') /\ sys_ok n (settle p kk r k' s).
Proof.
  intros V Ht Hh Hr -> [c0 Hc0]. pose proof V as [K Hfl _ _ _]. pose proof Hr as [A1 A2 A3 A0 A4 A5]. unfold exit_resume.
  destruct (any_loop_ok sched_ok n hold L fl (kern s) 1 pc K A1) as (r & k1 & -> & Hw). rewrite ret_bind.
  destruct (L KE 1) as [|c l] eqn:EL.
  - destruct Hw as [-> Hsl]. rewrite ret_bind. simpl. eexists _, k1. split; [done|].
    eapply (sleeps_wait n hold L fl s (kern s) L fl); try done; [by apply others_same|].
    simpl. split; [done|]. split; [by exists c0|]. intros _ x Hz. apply (pt_exited _ _ (ko_tree _ _ _ _ _ _ K)) in Hz.
    rewrite EL in Hz. by apply elem_of_nil in Hz.
  - destruct Hw as (st & -> & Hreap). set (v0 := mkReply 0 None []).
    pose proof (reaps_done n hold L fl s k1 1 pc c st kk v0 V Ht Hh Hr Hreap) as (hold1 & L1 & fl1 & V1).
    assert (is_Some (threads (settle 1 kk (CDone v0) k1 s) !! 1)) as Ht1 by (simpl; rewrite lookup_insert_eq; by eexists).
    destruct (running_ready sched_ok n hold1 L1 fl1 _ 1 (Running (kk v0)) V1) as (pc1 & Hr1 & Hh1); [apply lookup_insert_eq|done|].
    destruct (exit_call_ok n hold1 L1 fl1 _ 1 pc1 v kk V1 Ht1 Hh1 Hr1) as (r & k' & E & Hok). cbn [kern settle] in E. rewrite E.
    exists r, k'. split; [done|]. by rewrite settle_again in Hok.
Qed.

Lemma resume_call_ok n hold L fl s p pc w (kk : reply -> prog U) :
  sys_inv n hold L fl s -> threads s !! p = Some (Waiting w kk) -> ready (kern s) p pc ->
  exists r k', resume p w (kern s) = Ret (r, k') /\ sys_ok n (settle p kk r k' s).
Proof.
  intros V Ht Hr. pose proof V as [K Hfl _ _ Hloc]. pose proof Hr as [A1 A2 A3 A0 A4 A5].
  assert (is_Some (threads s !! p)) as Hts by (by eexists). pose proof (lo_wait _ _ _ _ (Hloc p) w kk Ht) as Hw.
  pose proof (lo_hold _ _ _ _ (Hloc p)) as Hh. rewrite Ht in Hh. destruct w as [c| |v|f d obj size]; simpl in Hh, Hw |- *.
  - destruct Hw as [Hc _]. destruct (specific_loop_ok sched_ok n hold L fl (kern s) p pc c K A1 Hc) as (r & k' & -> & Hpost). rewrite ret_bind.
    destruct (wait_settle n hold L fl s p pc (Z.of_nat c) r k' kk V Hts Hh Hr) as (r' & E & Hok); [|by exists r', k']. destruct r as [z st|w].
    + destruct Hpost as (-> & st' & -> & Hreap). exists c. split; [done|]. split; [done|]. by left.
    + destruct Hpost as (-> & Hsl & Hnz). split; [done|]. left. split; [unfold NOPROC; lia|]. by exists c.
  - destruct (any_loop_ok sched_ok n hold L fl (kern s) p pc K A1) as (r & k' & -> & Hpost). rewrite ret_bind.
    destruct (wait_settle n hold L fl s p pc NOPROC r k' kk V Hts Hh Hr) as (r' & E & Hok); [|by exists r', k']. destruct (L KE p) as [|c l] eqn:EL.
    + destruct Hpost as (-> & Hsl). split; [done|]. right. split; [done|]. split; [done|]. split; [|done]. intros E. destruct Hw as [[c Hc] _].
      apply (pt_child _ _ (ko_tree _ _ _ _ _ _ K)) in Hc. rewrite E in Hc. by apply elem_of_nil in Hc.
    + destruct Hpost as (st & -> & Hreap). exists c. split; [done|]. split; [done|]. right. split; [done|]. by exists l.
  - destruct Hw as (-> & Hc & _). by eapply exit_resume_ok.
  - destruct Hw as (-> & Hs). destruct (lo_thread _ _ _ _ (Hloc p)) as [_ _]. assert (p < n) as Hpn by (apply (pr_dom _ _ _ _ (ko_raw _ _ _ _ _ _ K)); by eexists).
    destruct (read_stream_ok n hold (kern s) p f DEV_SERIAL obj size (ko_files _ _ _ _ _ _ K) (ko_devices _ _ _ _ _ _ K) Hpn Hh Hs) as (r & k' & -> & Hpost).
    rewrite ret_bind. destruct r as [z buf|f' d' obj'].
    + destruct Hpost as (Hio & _ & _ & _ & Hsd).
      destruct (read_result_ok n hold (upd_hold p [] hold) L fl s k' p pc kk (RdDone z buf) size V Hts Hr) as (r' & E & Hok); [|by exists r', k'].
      split; [done|]. unfold upd_hold. split; [by rewrite decide_True|]. split; [|done]. intros x Hx. by rewrite decide_False.
    + destruct Hpost as ([= -> -> ->] & _ & Hio & i & sd & -> & Hsd & Esd).
      destruct (read_result_ok n hold hold L fl s k' p pc kk (RdWait f DEV_SERIAL (Some i)) size V Hts Hr) as (r' & E & Hok); [|by exists r', k'].
      split; [done|]. by exists i, sd.
Qed.

(** *** Any step *)

Lemma start_ok n hold L fl s p pr : sys_inv n hold L fl s -> is_Some (threads s !! p) -> hold p = [] ->
  (exists pc, ready (kern s) p pc) -> forall u, sys_ok n (mkSys (kern s) (<[p := Running pr]> (threads s)) u).
Proof.
  intros V Ht Hh [pc Hr] u. pose proof V as [K Hfl _ Hinit _]. destruct (thread_init _ _ _ _ _ _ _ V Ht) as [Hp0 _].
  exists hold, L, fl. eapply (sys_inv_step _ n hold L fl s hold L fl (kern s) _ _ [p]); try done.
  - by intros <-%list_elem_of_singleton.
  - by apply others_same.
  - by apply rx_same.
  - intros x Hx. rewrite list_elem_of_singleton in Hx. by rewrite lookup_insert_ne.
  - intros x ->%list_elem_of_singleton. eapply local_running; [exact Hr|apply lookup_insert_eq|done].
Qed.

Lemma step_ok n p s o : sys_ok n s -> step tid_of p s = Some o -> legal p s = true -> exists s', o = Ret s' /\ sys_ok n s'.
Proof.
  intros (hold & L & fl & V) Hstep Hlegal. unfold step in Hstep. unfold legal in Hlegal.
  destruct (threads s !! p) as [th|] eqn:Ht; [|done]. assert (is_Some (threads s !! p)) as Hts by (by eexists). destruct th as [|pr|w kk].
  - injection Hstep as <-. destruct (running_ready sched_ok n hold L fl s p Starting V Ht) as (pc & Hr & Hh); [done|].
    unfold start_main_thread. rewrite (rd_PT _ _ _ Hr). cbn [deref]. rewrite ret_bind. pose proof (rd_task _ _ _ Hr) as Htask.
    destruct (main_task pc) as [task|]; [|done]. cbn [deref]. rewrite ret_bind. eexists. split; [done|]. eapply start_ok; try done. by exists pc.
  - destruct (running_ready sched_ok n hold L fl s p (Running pr) V Ht) as (pc & Hr & Hh); [done|].
    destruct pr as [v|f|c kk].
    + injection Hstep as <-. destruct (do_call_ok n hold L fl s p pc (Exit v) (fun _ => Done v) V Hts Hh Hr eq_refl) as [(r & k' & E & Hok)|(_ & ? & ? & ? & ?)]; [|done].
      cbn [do_call] in E |- *. rewrite (bind_eq _ _ _ E). by eexists.
    + destruct (f (memory s)) as [u q]. injection Hstep as <-. eexists. split; [done|]. eapply start_ok; try done. by exists pc.
    + destruct (do_call_ok n hold L fl s p pc c kk V Hts Hh Hr Hlegal) as [(r & k' & E & Hok)|(E & _)]; rewrite E in Hstep; [|done].
      injection Hstep as <-. by eexists.
  - destruct (asleep p w (kern s)) eqn:Ha; [done|]. injection Hstep as <-.
    destruct (awake_ready sched_ok n hold L fl s p w kk V Ht Ha) as (pc & Hr).
    destruct (resume_call_ok n hold L fl s p pc w kk V Ht Hr) as (r & k' & -> & Hok). rewrite ret_bind. by eexists.
Qed.

(** The steps of the environment. *)
Lemma environment_ok n s k' : sys_ok n s -> (forall hold L fl, kernel_ok n hold L fl (kern s) -> kernel_ok n hold L fl k') ->
  PT k' = PT (kern s) -> serial_ports (ports k') = serial_ports (ports (kern s)) -> rx_others [] (kern s) k' ->
  sys_ok n (with_kern k' s).
Proof.
  intros (hold & L & fl & V) HK EP Hports Hrx. pose proof V as [K Hfl _ Hinit _].
  exists hold, L, fl. eapply (sys_inv_step _ n hold L fl s hold L fl k' _ _ []); try done.
  - by apply HK.
  - apply not_elem_of_nil.
  - by apply others_same.
  - by intros x Hx%elem_of_nil.
  - unfold init_ok, init_alive. by rewrite EP.
Qed.

Lemma sys_step_ok n s s' : sys_ok n s -> sys_step tid_of sched_ok s s' -> sys_ok n s'.
Proof.
  intros V [p s1 Hlegal Hstep|k Hrx|b Hb|sc Hsc].
  - by destruct (step_ok n p s _ V Hstep Hlegal) as (s2 & [= <-] & ?).
  - destruct (V) as (hold0 & L0 & fl0 & V0). pose proof (ko_devices _ _ _ _ _ _ (sv_kernel _ _ _ _ _ _ V0)) as D0. unfold serial_rx_handler in Hrx.
    destruct (serial_rx_ok (seq 0 (serial_ports (ports (kern s)))) (kern s) D0) as (k1 & E & D1 & [S1 S2 S3 S4 S5 S6 S7 S8] & P1 & Hdcb).
    { intros i Hi%elem_of_seq. lia. }
    rewrite E in Hrx. injection Hrx as ->. apply environment_ok; try done.
    + intros hold L fl [R P F D Hdead Hs]. split; try done.
      * by eapply praw_same.
      * by rewrite S1.
      * by eapply same_tables_files.
      * intros p pc. rewrite S1. apply Hdead.
      * by rewrite S7.
    + intros i d p Hd _ Hin. assert (is_Some (serial_dcb (kern s) !! i)) as [d0 Hd0].
      { apply (do_dcb _ D0). rewrite <- S8. apply (do_dcb _ D1). by eexists. }
      pose proof (Hdcb i d0 Hd0) as Hd'. rewrite decide_True in Hd'.
      * rewrite Hd in Hd'. injection Hd' as ->. by apply elem_of_nil in Hin.
      * apply elem_of_seq. split; [lia|]. apply (do_dcb _ D0). by eexists.
  - apply environment_ok; try done; [|by apply rx_same]. intros hold L fl [R P F D Hdead Hs]. split; try done.
    + by eapply praw_same.
    + eapply (files_same n hold (kern s)); done.
    + destruct D as [D1 D2 D3 D4]. split; cbn; rewrite ?Hb; done.
  - apply environment_ok; try done; [|by apply rx_same]. intros hold L fl [R P F D Hdead Hs]. split; try done.
    + by eapply praw_same.
    + eapply (files_same n hold (kern s)); done.
    + destruct D as [D1 D2 D3 D4]. by split.
Qed.
End ops.
