(* ===== verification/Instances.v ===== *)
(** * The interfaces, implemented

  The scheduler of [Sched] gives the threads of the processes, and terminals with a queue of typed input and
  a screen give the serial ports; so what is proved of the kernel against the interfaces holds of these. *)

From S2P Require Import Prelude Rlist Iface Sched SchedInv SchedSys.

(** ** Threads from the scheduler *)

Section spawn.
Context {B : Type} `{BiosLaws B}.
Implicit Types (st : sched B) (p : nat).

(** The address that the allocator gives to a new TCB. *)
Definition next_tcb st : nat := fresh (omap (fun t => match t with Thread n => Some n | _ => None end) (elements (dom (tcbs st)))).

Lemma next_tcb_free st : tcbs st !! Thread (next_tcb st) = None.
Proof.
  apply not_elem_of_dom. intros Hin.
  apply (infinite_is_fresh (omap (fun t => match t with Thread n => Some n | _ => None end) (elements (dom (tcbs st))))).
  apply list_elem_of_omap. exists (Thread (next_tcb st)). split; [by apply elem_of_elements|done].
Qed.

(** [spawn_thread(&PT[p], start_main_thread)]. *)
#[export] Instance sched_spawn : SpawnOps tid (sched B) := fun p st => spawn_thread (Some (Thread (next_tcb st))) (Some (Z.of_nat p)) 0 st.

#[export] Instance sched_spawn_laws : @SpawnLaws tid (sched B) sched_spawn sched_ok live.
Proof.
  split. intros st p (q & tl & pl & I). pose proof (next_tcb_free st) as Hn. unfold spawn, sched_spawn. set (x := next_tcb st) in *. clearbody x.
  destruct st as [m h C A M b]. simpl in I, Hn. destruct (spawn_ok _ _ _ _ _ _ _ x (Some (Z.of_nat p)) 0 M b I Hn) as (h' & pl' & E & I').
  eexists _, _. split; [exact E|]. split; [by exists q, tl, pl'|]. unfold live. cbn [tcbs]. rewrite lookup_insert_eq. by eexists.
Qed.
End spawn.

(** ** Terminals *)

(** What was typed and not read yet, and what was printed. *)
Record tty := mkTty { keyboard : list Z; screen : list Z }.

Definition ttys : Type := list tty.

#[export] Instance tty_ops : SerialOps ttys := {|
  serial_ports b := length b;
  read_serial i b :=
    t ← deref (b !! i);
    match keyboard t with
    | [] => Ret (None, b)
    | c :: cs => Ret (Some c, <[i := mkTty cs (screen t)]> b)
    end;
  write_serial i c b := t ← deref (b !! i); Ret (true, <[i := mkTty (keyboard t) (screen t ++ [c])]> b);
  relax b := b;
  patience _ _ := 0
|}.

#[export] Instance tty_laws : SerialLaws ttys.
Proof.
  split.
  - intros b i Hi. simpl in *. apply lookup_lt_is_Some_2 in Hi as [t Ht]. rewrite Ht. simpl.
    destruct (keyboard t); eexists _, _; (split; [done|]); by rewrite ?length_insert.
  - intros b i c Hi. simpl in *. apply lookup_lt_is_Some_2 in Hi as [t Ht]. rewrite Ht. simpl.
    eexists _, _. split; [done|]. by rewrite length_insert.
  - done.
Qed.

(** Terminals whose readers are slow: the next [busy] writes are refused, and time passes while the driver yields.  The
  driver is looked at again after two polls. *)
Record slow_ttys := mkSlow { served : ttys; busy : nat }.

#[export] Instance slow_ops : SerialOps slow_ttys := {|
  serial_ports b := length (served b);
  read_serial i b := '(o, ts) ← read_serial i (served b); Ret (o, mkSlow ts (busy b));
  write_serial i c b :=
    match busy b with
    | O => '(o, ts) ← write_serial i c (served b); Ret (o, mkSlow ts 0)
    | Datatypes.S _ => if decide (i < length (served b)) then Ret (false, b) else Err BadAccess
    end;
  relax b := mkSlow (served b) (pred (busy b));
  patience _ _ := 2
|}.

#[export] Instance slow_laws : SerialLaws slow_ttys.
Proof.
  split.
  - intros [ts n] i Hi. destruct (read_returns (B := ttys) ts i) as (o & ts' & E & Hp); [exact Hi|]. cbn [read_serial slow_ops served]. rewrite E, ret_bind.
    eexists _, _. split; [done|]. exact Hp.
  - intros [ts [|n]] i c Hi; cbn [write_serial slow_ops served busy].
    + destruct (write_returns (B := ttys) ts i c) as (o & ts' & E & Hp); [exact Hi|]. rewrite E, ret_bind. eexists _, _. split; [done|]. exact Hp.
    + rewrite decide_True by exact Hi. by eexists _, _.
  - done.
Qed.
