(* ===== verification/SysProps.v ===== *)
(** * Properties of the system

  What holds in every state that a booted system reaches, whatever its programs do, in whichever order its
  processes, its terminals and its scheduler take their steps. *)

From S2P Require Import Prelude Rlist Lists Iface Sched SchedInv SchedSys Instances.
From S2P Require Import Kernel Dev Streams Proc ProcInv ProcOps ProcExit ProcSpec Boot Sys SysInv SysOps.

Section props.
Context {U T S B : Type} `{SerialLaws B} `{SpawnOps T S} `{WakeOps T S}.
Context (sched_ok : S -> Prop) (blocked live : S -> T -> Prop).
Context `{!SpawnLaws T S sched_ok live} `{!WakeLaws T S sched_ok blocked live}.
Context (tid_of : T -> Z) (initialize_scheduler : S -> S).
Implicit Types (k : kernel (Task U) T S B) (pc : PCB (Task U) T) (p c q cur : nat) (s : sys U T S B).
Implicit Types (L : lists) (fl : list nat) (hold : nat -> list nat) (t : gmap nat (thread U)) (w : waiting).
Abbreviation sys_inv := (sys_inv sched_ok).
Abbreviation sys_ok := (sys_ok sched_ok).
Abbreviation kernel_ok := (kernel_ok sched_ok).

(** A configuration: the sizes of the tables, and what [boot] is given. *)
Record config := mkConfig {
  nproc : nat;
  nfiles : nat;
  init_task : Task U;
  init_argl : Z;
  init_args : option bytes;
  sched0 : S;
  ports0 : B;
  memory0 : U
}.

Definition boot_of (g : config) : outcome (sys U T S B) :=
  boot initialize_scheduler (nproc g) (nfiles g) (init_task g) (init_argl g) (init_args g) (sched0 g) (ports0 g) (memory0 g).

(** The tables have room for the two first processes and no count of references can overflow; the arguments
  of the initial process are where [argl] says; and the scheduler starts well. *)
Record good_config (g : config) : Prop := {
  gc_min : 2 <= nproc g;
  gc_max : (17 * Z.of_nat (nproc g) + 1 < 2 ^ 32)%Z;
  gc_args : legal_call (Exec (Some (init_task g)) (init_argl g) (init_args g)) = true;
  gc_sched : sched_ok (initialize_scheduler (sched0 g))
}.

Definition reachable (g : config) s : Prop := exists s0, boot_of g = Ret s0 /\ reach (sys_step tid_of sched_ok) s0 s.

(** ** Lemmas *)

Lemma answered_Ret {A} (o : outcome A) a : answered o = Some (Ret a) -> o = Ret a.
Proof. by destruct o as [b|[]]; intros [= ->]. Qed.

Lemma booted_sys_ok n nf sc b init argl a k u : booted sched_ok n nf sc b init argl a k -> sys_ok n (mkSys k {[1 := Starting]} u).
Proof.
  intros Bt. pose proof (bt_ok _ _ _ _ _ _ _ _ _ Bt) as K. destruct (bt_idle _ _ _ _ _ _ _ _ _ Bt) as (p0 & Hp0 & Ha0 & Hm0 & Hc0).
  destruct (bt_init _ _ _ _ _ _ _ _ _ Bt) as (t1 & Ht1 & Hp1). eexists _, _, _. split; [exact K| | | |]; cbn [kern threads].
  - intros p Hp%elem_of_seq. lia.
  - by exists p0.
  - left. eexists. by split.
  - assert (forall p pc, PT k !! p = Some pc -> p = 0 \/ p = 1 \/ pstate pc = FREE) as Hcase.
    { intros p pc Hp. destruct (decide (p ∈ seq 2 (n - 2))) as [Hin|Hin].
      - apply (pr_free _ _ _ _ (ko_raw _ _ _ _ _ _ K)) in Hin as (pc' & ? & ?). right. right. congruence.
      - assert (p < n) by (apply (pr_dom _ _ _ _ (ko_raw _ _ _ _ _ _ K)); by eexists). rewrite elem_of_seq in Hin. lia. }
    intros p. destruct (decide (p = 1)) as [->|Hne1].
    + split; rewrite ?lookup_singleton_eq; try done.
      * split; [intros _|intros _; by eexists]. eexists. by split.
      * intros pc Hp _ _. rewrite Hp1 in Hp. by injection Hp as <-.
      * intros pc Hp. rewrite Hp1 in Hp. injection Hp as <-. by left.
      * intros i d Hd. rewrite (bt_serial _ _ _ _ _ _ _ _ _ Bt i d Hd). by intros ?%elem_of_nil.
    + split; rewrite ?lookup_singleton_ne by done; try done.
      * split; [by intros []|]. intros (pc & Hp & Ha & Hm). destruct (Hcase p pc Hp) as [->|[->|?]]; congruence.
      * intros pc Hp Ha Hm. destruct (Hcase p pc Hp) as [->|[->|?]]; congruence.
      * intros pc Hp. left. by apply (bt_awake _ _ _ _ _ _ _ _ _ Bt p).
      * intros i d Hd. rewrite (bt_serial _ _ _ _ _ _ _ _ _ Bt i d Hd). by intros ?%elem_of_nil.
Qed.

Lemma boot_returns g : good_config g -> exists s0, boot_of g = Ret s0 /\ sys_ok (nproc g) s0.
Proof.
  intros [G1 G2 G3 G4]. assert (exists a, copy_args (init_argl g) (init_args g) = Ret a) as [a Ea].
  { simpl in G3. unfold copy_args. destruct (init_args g) as [a|]; [|by eexists]. rewrite bool_decide_eq_true in G3.
    rewrite decide_True by done. by eexists. }
  destruct (boot_kernel_ok initialize_scheduler sched_ok blocked live (nproc g) (nfiles g) (sched0 g) (ports0 g) (init_task g) _ _ a G1 G2 G4 Ea) as (k & E & Bt).
  unfold boot_of, boot. rewrite E, ret_bind. eexists. split; [done|]. by eapply booted_sys_ok.
Qed.

Lemma reachable_ok g s : good_config g -> reachable g s -> sys_ok (nproc g) s.
Proof.
  intros G (s0 & E & Hr). destruct (boot_returns g G) as (s1 & E1 & Hok). assert (s1 = s0) as -> by congruence.
  eapply reach_invariant; [|exact Hr|exact Hok]. intros s1 s2 H1' H2'. by eapply sys_step_ok.
Qed.

Lemma reachable_step g s s' : reachable g s -> sys_step tid_of sched_ok s s' -> reachable g s'.
Proof. intros (s0 & E & Hr) Hs. exists s0. split; [done|]. by eapply reach_step. Qed.

(** A thread that can go on is in a process that is ready. *)
Lemma running_call g s p call kk : good_config g -> reachable g s -> threads s !! p = Some (Running (Call call kk)) ->
  exists hold L fl pc, sys_inv (nproc g) hold L fl s /\ ready (kern s) p pc /\ hold p = [] /\ p <> 0.
Proof.
  intros G Hr Ht. destruct (reachable_ok g s G Hr) as (hold & L & fl & V).
  destruct (running_ready sched_ok _ hold L fl s p _ V Ht) as (pc & Hrd & Hh); [done|]. exists hold, L, fl, pc.
  destruct (thread_init _ _ _ _ _ _ p V) as [? _]; [by eexists|]. done.
Qed.

(** A call with good pointers answers, unless it polls a terminal. *)
Lemma call_answers g s p (call : syscall (Task U)) kk : good_config g -> reachable g s -> threads s !! p = Some (Running (Call call kk)) -> legal p s = true ->
  is_Some (step tid_of p s) \/ do_call tid_of p call (kern s) = Err Stalled /\ exists fd buf size, call = Write fd buf size.
Proof.
  intros G Hr Ht Hl. destruct (running_call g s p call kk G Hr Ht) as (hold & L & fl & pc & V & Hrd & Hh & _).
  unfold legal in Hl. rewrite Ht in Hl.
  destruct (do_call_ok sched_ok blocked live tid_of _ hold L fl s p pc call kk V) as [(r & k' & E & _)|Hs]; [by eexists|done..| |by right].
  left. unfold step. rewrite Ht, E. by eexists.
Qed.

(** Every process descends from the initial one. *)
Lemma ancestors (m : gmap nat (PCB (Task U) T)) L c cc : ptree m L -> m !! c = Some cc -> 1 < c -> pstate cc <> FREE -> rtc (child_of m) c 1.
Proof.
  intros P. destruct (pt_rank _ _ P) as (rank & Hrk & _). remember (rank c) as r eqn:Er. revert c cc Er.
  induction (lt_wf r) as [r _ IH]. intros c cc -> Hc Hlt Hf.
  destruct (parent cc) as [q|] eqn:Hq; [|apply (pt_root _ _ P c cc Hc Hf) in Hq; lia].
  assert (child_of m c q) as Hcq by (by exists cc). destruct (pt_parent _ _ P c q Hcq) as (Hq0 & qc & Hqc & Hqa).
  destruct (decide (q = 1)) as [->|Hne]; [by apply rtc_once|]. eapply rtc_l; [exact Hcq|].
  eapply (IH (rank q)); [by apply Hrk|done|exact Hqc|lia|congruence].
Qed.

Lemma asleep_waits g s p w kk : good_config g -> reachable g s -> threads s !! p = Some (Waiting w kk) ->
  asleep p w (kern s) = true ->
  match w with
  | InChild c => child_of (PT (kern s)) c p /\ ~ zombie_of (PT (kern s)) c p
  | InAnyChild => (exists c, child_of (PT (kern s)) c p) /\ forall c, ~ zombie_of (PT (kern s)) c p
  | InExit _ => p = 1 /\ (exists c, child_of (PT (kern s)) c p) /\ forall c, ~ zombie_of (PT (kern s)) c p
  | InRead f d obj _ => d = DEV_SERIAL /\ stream_ok (kern s) d obj
  end.
Proof.
  intros G Hr Ht Ha. destruct (reachable_ok g s G Hr) as (hold & L & fl & V).
  pose proof (lo_wait _ _ _ _ (sv_local _ _ _ _ _ _ V p) w kk Ht) as Hw.
  assert (child_wait w = true -> queued (kern s) p) as Hq.
  { intros Hcw. destruct w; try done; simpl in Ha; (destruct (PT (kern s) !! p) as [pc|] eqn:Hp; [|done]);
      apply bool_decide_eq_true in Ha; exists pc; (split; [done|]); intros E; rewrite E in Ha; by apply elem_of_nil in Ha. }
  destruct w; simpl in Hw; [| | |done]; specialize (Hq eq_refl); naive_solver.
Qed.

(** The state after the processes [ps] took their steps, in this order. *)
Fixpoint exec (ps : list nat) s : option (sys U T S B) :=
  match ps with
  | [] => Some s
  | p :: ps => if legal p s then match step tid_of p s with Some (Ret s') => exec ps s' | _ => None end else None
  end.

Definition after (g : config) (ps : list nat) : sys U T S B :=
  match boot_of g with
  | Ret s0 => match exec ps s0 with Some s => s | None => s0 end
  | Err _ => mkSys (kernel0 0 0 (sched0 g) (ports0 g)) ∅ (memory0 g)
  end.

Lemma exec_reach ps : forall s s', exec ps s = Some s' -> reach (sys_step tid_of sched_ok) s s'.
Proof.
  induction ps as [|p ps IH]; intros s s'; simpl; [intros [= ->]; apply reach_refl|].
  destruct (legal p s) eqn:Hl; [|done]. destruct (step tid_of p s) as [[s1|]|] eqn:Hs; try done. intros Hx%IH.
  eapply reach_trans; [|exact Hx]. eapply reach_step; [apply reach_refl|]. by eapply step_thread.
Qed.

Lemma run_reachable g ps : good_config g -> reachable g (after g ps).
Proof.
  intros G. unfold after. destruct (boot_returns g G) as (s0 & E & _). rewrite E. exists s0. split; [done|].
  destruct (exec ps s0) as [s|] eqn:Ex; [by eapply exec_reach|apply reach_refl].
Qed.

(** ** Properties *)

(** C1.  The kernel never faults: it boots, and in every state that it reaches, whatever the programs do
  (as long as the pointers that they pass are good) and in whichever order, a process that can take a step
  does, no [assert] of the kernel fails and nothing is touched that is not there; a system call returns or sleeps, or it
  is a [Write] that polls a terminal which refuses its first byte, and does not return before the terminal takes
  it.  The interrupt handler of the terminals does not fault either. *)
Theorem system_never_faults g : good_config g ->
  (exists s0, boot_of g = Ret s0 /\ reachable g s0) /\
  forall s, reachable g s ->
    (forall p o, step tid_of p s = Some o -> legal p s = true -> exists s', o = Ret s' /\ reachable g s') /\
    (forall p call kk, threads s !! p = Some (Running (Call call kk)) -> legal p s = true ->
       is_Some (step tid_of p s) \/ do_call tid_of p call (kern s) = Err Stalled /\ exists fd buf size, call = Write fd buf size) /\
    exists k, serial_rx_handler (kern s) = Ret k /\ reachable g (with_kern k s).
Proof.
  intros G. split.
  - destruct (boot_returns g G) as (s0 & E & _). exists s0. split; [done|]. exists s0. split; [done|]. apply reach_refl.
  - intros s Hr. pose proof (reachable_ok g s G Hr) as Hok. split; [|split].
    + intros p o Hs Hl. destruct (step_ok sched_ok blocked live tid_of _ p s o Hok Hs Hl) as (s' & -> & _). exists s'. split; [done|].
      eapply reachable_step; [done|]. by eapply step_thread.
    + intros p call kk Ht Hl. exact (call_answers g s p call kk G Hr Ht Hl).
    + destruct Hok as (hold & L & fl & V). pose proof (ko_devices _ _ _ _ _ _ (sv_kernel _ _ _ _ _ _ V)) as D.
      destruct (serial_rx_ok (seq 0 (serial_ports (ports (kern s)))) (kern s) D) as (k & E & _).
      { intros i Hi%elem_of_seq. lia. }
      exists k. split; [done|]. eapply reachable_step; [done|]. by apply step_rx.
Qed.

(** C2.  The process tree: the list of children of every process holds exactly its children, the list of
  exited children exactly those that are zombies, each once; every parent is alive; and every process but
  the first two descends from the initial process, so there is no cycle. *)
Theorem process_tree_exact g s p pc : good_config g -> reachable g s -> PT (kern s) !! p = Some pc ->
  (exists cs es, rlist (plists (kern s)) (children_list p) (children_node <$> cs) /\
     rlist (plists (kern s)) (exited_list p) (exited_node <$> es) /\ NoDup cs /\ NoDup es /\
     (forall c, c ∈ cs <-> child_of (PT (kern s)) c p) /\ (forall c, c ∈ es <-> zombie_of (PT (kern s)) c p) /\
     (cs <> [] -> pstate pc = ALIVE)) /\
  (1 < p -> pstate pc <> FREE -> rtc (child_of (PT (kern s))) p 1).
Proof.
  intros G Hr Hp. destruct (reachable_ok g s G Hr) as (hold & L & fl & [[R P _ _ _ _] _ _ _ _]).
  assert (p < nproc g) as Hn by (apply (pr_dom _ _ _ _ R); by eexists). split; [|by eapply ancestors].
  exists (L KC p), (L KE p). pose proof (fo_list _ _ _ (pr_forest _ _ _ _ R)) as Hl.
  split; [exact (Hl _ _ (plist_of _ L KC p Hn))|]. split; [exact (Hl _ _ (plist_of _ L KE p Hn))|].
  split; [by eapply praw_list_NoDup|]. split; [by eapply praw_list_NoDup|]. split; [intros c; apply P|]. split; [intros c; apply P|].
  intros Hne. destruct (L KC p) as [|c l] eqn:E; [done|].
  assert (child_of (PT (kern s)) c p) as Hc by (apply P; rewrite E; by left).
  destruct (pt_parent _ _ P c p Hc) as (_ & pp & ? & ?). congruence.
Qed.

(** C6.  No child's exit is missed: a process that sleeps in [WaitChild] or in the exit of the initial process
  still has what it waits for ahead of it: the child is alive, or it has children and none of them is a
  zombie. *)
Theorem no_lost_child_exit g s p w kk : good_config g -> reachable g s -> threads s !! p = Some (Waiting w kk) ->
  asleep p w (kern s) = true ->
  match w with
  | InChild c => child_of (PT (kern s)) c p /\ ~ zombie_of (PT (kern s)) c p
  | InAnyChild => (exists c, child_of (PT (kern s)) c p) /\ forall c, ~ zombie_of (PT (kern s)) c p
  | InExit _ => p = 1 /\ (exists c, child_of (PT (kern s)) c p) /\ forall c, ~ zombie_of (PT (kern s)) c p
  | InRead f d obj _ => d = DEV_SERIAL /\ stream_ok (kern s) d obj
  end.
Proof. intros G Hr Ht Ha. exact (asleep_waits g s p w kk G Hr Ht Ha). Qed.

(** What a thread that cannot go on waits for, when it is not another thread: input from a terminal; a terminal that
  takes its output; or the exit of a child that was made by [Exec] without a task, which has no thread. *)
Definition waits_outside p s : Prop :=
  (exists f d obj size kk, threads s !! p = Some (Waiting (InRead f d obj size) kk)) \/
  (exists call kk, threads s !! p = Some (Running (Call call kk)) /\ do_call tid_of p call (kern s) = Err Stalled /\
     (legal p s = true -> exists fd buf size, call = Write fd buf size)) \/
  (exists w kk c cc, threads s !! p = Some (Waiting w kk) /\ asleep p w (kern s) = true /\
     PT (kern s) !! c = Some cc /\ pstate cc = ALIVE /\ parent cc = Some p /\ main_task cc = None).

Lemma running_goes_on g s p pr : good_config g -> reachable g s -> threads s !! p = Some (Running pr) ->
  (exists o, step tid_of p s = Some o) \/ waits_outside p s.
Proof.
  intros G Hr Ht. destruct pr as [v|f|call kk]; [left; unfold step; rewrite Ht; by eexists| |].
  - left. unfold step. rewrite Ht. destruct (f (memory s)). by eexists.
  - destruct (step tid_of p s) as [o|] eqn:Hs; [left; by exists o|]. right. right. left. exists call, kk. split; [done|]. split.
    + unfold step in Hs. rewrite Ht in Hs. unfold answered in Hs.
      destruct (do_call tid_of p call (kern s)) as [[r k']|[]]; done.
    + intros Hl. destruct (call_answers g s p call kk G Hr Ht Hl) as [[o Ho]|[_ ?]]; [congruence|done].
Qed.

(** C5.  No deadlock: as long as there are threads, one of them can take a step, or one waits for something that no
  thread can give it: input from a terminal, a terminal that takes its output, or the exit of a child that was made
  without a task and so has no thread. *)
Theorem no_deadlock g s : good_config g -> reachable g s -> threads s <> ∅ ->
  exists p, (exists o, step tid_of p s = Some o) \/ waits_outside p s.
Proof.
  intros G Hr Hne. destruct (reachable_ok g s G Hr) as (hold & L & fl & V). pose proof (ko_tree _ _ _ _ _ _ (sv_kernel _ _ _ _ _ _ V)) as P.
  pose proof (ko_raw _ _ _ _ _ _ (sv_kernel _ _ _ _ _ _ V)) as R.
  destruct (pt_rank _ _ P) as (rank & Hrk & _). apply map_choose in Hne as (p0 & th0 & Ht0).
  assert (exists M, forall p, p < nproc g -> rank p < M) as [M HM].
  { exists (Datatypes.S (list_max (rank <$> seq 0 (nproc g)))). intros p Hp. assert (rank p <= list_max (rank <$> seq 0 (nproc g))); [|lia].
    pose proof (proj1 (list_max_le (rank <$> seq 0 (nproc g)) _) (le_n _)) as Hall. rewrite List.Forall_forall in Hall. apply Hall.
    apply list_elem_of_In, list_elem_of_fmap. exists p. split; [done|]. apply elem_of_seq. lia. }
  assert (forall d p th, M - rank p < d -> threads s !! p = Some th -> exists q, (exists o, step tid_of q s = Some o) \/ waits_outside q s) as Hgo;
    [|by eapply (Hgo (Datatypes.S (M - rank p0)) p0 th0); [lia|]].
  induction d as [|d IH]; [lia|]. intros p th Hd Ht.
  assert (forall w kk c, th = Waiting w kk -> asleep p w (kern s) = true -> child_of (PT (kern s)) c p -> ~ zombie_of (PT (kern s)) c p ->
    exists q, (exists o, step tid_of q s = Some o) \/ waits_outside q s) as Hchild.
  { intros w kk c -> Ha Hc Hnz. pose proof Hc as (cc & Hcc & Hf & Hpar). assert (pstate cc = ALIVE) as Hca.
    { destruct (pstate cc) eqn:E; [done|done|]. destruct Hnz. by exists cc. }
    destruct (main_task cc) as [task|] eqn:Hmt; [|exists p; right; right; right; by exists w, kk, c, cc].
    destruct (proj2 (lo_thread _ _ _ _ (sv_local _ _ _ _ _ _ V c))) as [thc Hthc]; [exists cc; by rewrite Hmt|].
    assert (c < nproc g) as Hcn by (apply (pr_dom _ _ _ _ R); by eexists). specialize (Hrk c p Hc). specialize (HM c Hcn).
    apply (IH c thc); [lia|done]. }
  destruct th as [|pr|w kk].
  - exists p. left. unfold step. rewrite Ht. by eexists.
  - exists p. by eapply running_goes_on.
  - destruct (asleep p w (kern s)) eqn:Ha; [|exists p; left; unfold step; rewrite Ht, Ha; by eexists].
    pose proof (asleep_waits g s p w kk G Hr Ht Ha) as Hw. destruct w as [c| |v|f dv obj size].
    + destruct Hw as [Hc Hnz]. by eapply (Hchild _ _ c).
    + destruct Hw as [[c Hc] Hnz]. by eapply (Hchild _ _ c).
    + destruct Hw as (_ & [c Hc] & Hnz). by eapply (Hchild _ _ c).
    + exists p. right. left. by exists f, dv, obj, size, kk.
Qed.

(** C14.  The initial process exits last: when it is a zombie no thread is left, and no other process but the
  idle one. *)
Theorem init_exits_last g s ip : good_config g -> reachable g s -> PT (kern s) !! 1 = Some ip -> pstate ip = ZOMBIE ->
  threads s = ∅ /\ forall c cc, PT (kern s) !! c = Some cc -> 1 < c -> pstate cc = FREE.
Proof.
  intros G Hr Hip Hz. destruct (reachable_ok g s G Hr) as (hold & L & fl & V).
  destruct (sv_init _ _ _ _ _ _ V) as [(x & ? & ? & _)|(x & ? & _ & Hfree)]; [congruence|]. split; [|done].
  apply map_empty. intros p. apply eq_None_not_Some. intros Hs. destruct (thread_init _ _ _ _ _ _ _ V Hs) as [_ (y & ? & ? & _)]. congruence.
Qed.

(** The references to the block [f]: from the file ids of the processes, and from reads that sleep. *)
Definition references (n : nat) s (f : nat) : Z := refs n (fun p => fids (kern s) p ++ (Some <$> held (threads s !! p))) f.

(** C3.  Reference counts are exact: the free list of file control blocks holds, each once, the blocks to which
  nobody refers, and every other block counts its references (from the file ids of the processes, and from
  reads that sleep) and is a stream of its driver. *)
Theorem refcounts_exact g s : good_config g -> reachable g s ->
  exists ffl, rlist (flists (kern s)) FCB_freelist (freelist_node <$> ffl) /\ NoDup ffl /\
    forall f fc, FT (kern s) !! f = Some fc ->
      (f ∈ ffl <-> references (nproc g) s f = 0%Z) /\
      ((f ∉ ffl) -> refcount fc = references (nproc g) s f /\ exists d, streamfunc fc = Some d /\ stream_ok (kern s) d (streamobj fc)).
Proof.
  intros G Hr. destruct (reachable_ok g s G Hr) as (hold & L & fl & V).
  destruct (fl_inv _ _ _ (ko_files _ _ _ _ _ _ (sv_kernel _ _ _ _ _ _ V))) as (ffl & K & Hs). exists ffl.
  split; [exact (fo_list _ _ _ (fk_forest _ _ _ K) FCB_freelist _ eq_refl)|]. split; [by eapply ffl_nodup|]. intros f fc Hf.
  assert (refs (nproc g) (uses hold (kern s)) f = references (nproc g) s f) as E.
  { symmetry. apply refs_ext. intros p _. unfold uses. by rewrite (lo_hold _ _ _ _ (sv_local _ _ _ _ _ _ V p)). }
  rewrite <- E. split.
  - split; [intros Hin; by apply (fk_free _ _ _ K)|]. intros Hz. destruct (decide (f ∈ ffl)) as [|Hn]; [done|].
    destruct (Hs f fc Hf Hn) as [? _]. lia.
  - intros Hn. split; [by apply (fk_count _ _ _ K)|]. by destruct (Hs f fc Hf Hn) as [_ ?].
Qed.

(** C13.  The count of processes is exact and does not overflow: it is the number of blocks that are not free,
  between 2 and the size of the table, and the free list visits every free block, and no other, once. *)
Theorem process_count_exact g s : good_config g -> reachable g s ->
  exists fl, chain (PT (kern s)) (pcb_freelist (kern s)) fl /\ NoDup fl /\
    (forall p, p ∈ fl <-> exists pc, PT (kern s) !! p = Some pc /\ pstate pc = FREE) /\
    process_count (kern s) = (Z.of_nat (nproc g) - Z.of_nat (length fl))%Z /\ (2 <= process_count (kern s) <= Z.of_nat (nproc g))%Z /\ (Z.of_nat (nproc g) < 2 ^ 32)%Z.
Proof.
  intros G Hr. destruct (reachable_ok g s G Hr) as (hold & L & fl & V). pose proof (ko_raw _ _ _ _ _ _ (sv_kernel _ _ _ _ _ _ V)) as R.
  exists fl. split; [apply R|]. split; [apply R|]. split; [apply R|]. split; [apply R|].
  rewrite (pr_count _ _ _ _ R). pose proof (pr_bound _ _ _ _ R). pose proof (gc_min g G).
  assert (length fl <= nproc g - 2); [|lia]. rewrite <- (length_seq (nproc g - 2) 2).
  apply submseteq_length, NoDup_submseteq; [apply R|]. intros p Hp. pose proof (sv_free _ _ _ _ _ _ V p Hp).
  apply (pr_free _ _ _ _ R) in Hp as (pc & Hpc & _). assert (p < nproc g) by (apply (pr_dom _ _ _ _ R); by eexists).
  apply elem_of_seq. lia.
Qed.

(** ** What the calls do *)

Lemma call_step s p call kk r k' : threads s !! p = Some (Running (Call call kk)) -> do_call tid_of p call (kern s) = Ret (r, k') ->
  step tid_of p s = Some (Ret (settle p kk r k' s)).
Proof. intros Ht E. unfold step. by rewrite Ht, E, ret_bind. Qed.

(** C10.  [Exec]: when every block is in use it answers [NOPROC] and changes nothing; else a free block becomes a
  process that is alive, is a child of the caller, has its file ids and a copy of its arguments, and whose
  thread is ready to start; the caller gets its pid. *)
Theorem exec_effect g s p pc call argl args kk : good_config g -> reachable g s ->
  threads s !! p = Some (Running (Call (Exec (Some call) argl args) kk)) -> legal p s = true -> PT (kern s) !! p = Some pc ->
  exists s', step tid_of p s = Some (Ret s') /\
    ((forall c cc, PT (kern s) !! c = Some cc -> pstate cc <> FREE) /\ s' = mkSys (kern s) (<[p := Running (kk (mkReply NOPROC None []))]> (threads s)) (memory s) \/
     exists c cc th a, PT (kern s) !! c = Some cc /\ pstate cc = FREE /\ 1 < c /\ copy_args argl args = Ret a /\
       PT (kern s') = <[c := mkPCB ALIVE (Some p) (exitval cc) (Some th) (Some call) argl a [] (FIDT pc)]> (PT (kern s)) /\
       threads s' = <[c := Starting]> (<[p := Running (kk (mkReply (Z.of_nat c) None []))]> (threads s))).
Proof.
  intros G Hr Ht Hl Hp. destruct (running_call g s p _ kk G Hr Ht) as (hold & L & fl & pc0 & V & [A1 A2 A3 A0 A4 A5] & Hh & Hp0).
  assert (pc0 = pc) as -> by congruence. pose proof V as [K Hfl _ _ Hloc].
  assert (exists a, copy_args argl args = Ret a) as [a Ea].
  { unfold legal in Hl. rewrite Ht in Hl. simpl in Hl. unfold copy_args. destruct args as [a|]; [|by eexists].
    rewrite bool_decide_eq_true in Hl. rewrite decide_True by done. by eexists. }
  pose proof (exec_ok sched_ok blocked live _ hold L fl (kern s) p pc (Some call) argl args a K A1 A2 Hp0 Hfl Ea) as Hexec.
  destruct fl as [|c fl].
  - eexists. split; [eapply call_step; [exact Ht|]; simpl; rewrite (bind_eq _ _ _ Hexec); done|]. left. split; [|done].
    intros c cc Hc Hf. assert (c ∈ []) as Hin by (apply (pr_free _ _ _ _ (ko_raw _ _ _ _ _ _ K)); by exists cc). by apply elem_of_nil in Hin.
  - destruct Hexec as (k' & t & cc & E & Hc & Hf & K' & EP & _ & _ & _ & Hmt).
    destruct t as [t|]; [|by destruct Hmt].
    eexists. split; [eapply call_step; [exact Ht|]; simpl; rewrite (bind_eq _ _ _ E); simpl; rewrite decide_False by (unfold NOPROC; lia); done|].
    right. exists c, cc, t, a. split; [done|]. split; [done|]. split; [apply Hfl; by left|]. split; [done|].
    assert (child_exit cc = []) as Hce.
    { destruct (lo_child_exit _ _ _ _ (Hloc c) cc Hc) as [?|(_ & w & k1 & Hw & _)]; [done|].
      destruct (proj1 (lo_thread _ _ _ _ (Hloc c))) as (x & ? & ? & _); [by eexists|congruence]. }
    simpl. rewrite EP, Hce, Nat2Z.id. done.
Qed.

(** C11.  [WaitChild]: it fails, and changes nothing, when the pid is not that of a child of the caller, or there
  is no child at all; it reaps the zombie that was asked for, or the first one of the list of exited children,
  returns its pid and its exit value, and frees its block; or the caller sleeps, while the child is alive, or
  no child is a zombie. *)
Theorem wait_effect g s p pc cpid kk : good_config g -> reachable g s ->
  threads s !! p = Some (Running (Call (WaitChild cpid) kk)) -> PT (kern s) !! p = Some pc ->
  exists s', step tid_of p s = Some (Ret s') /\
    (((cpid = NOPROC /\ (forall c, ~ child_of (PT (kern s)) c p) \/ cpid <> NOPROC /\ (forall c, cpid = Z.of_nat c -> ~ child_of (PT (kern s)) c p)) /\
      s' = mkSys (kern s) (<[p := Running (kk (mkReply NOPROC None []))]> (threads s)) (memory s)) \/
     (exists c cc, PT (kern s) !! c = Some cc /\ zombie_of (PT (kern s)) c p /\
        (cpid = Z.of_nat c \/ cpid = NOPROC /\ exists es, rlist (plists (kern s)) (exited_list p) (exited_node <$> c :: es)) /\
        PT (kern s') = <[c := set_parent (pcb_freelist (kern s)) (set_pstate FREE cc)]> (PT (kern s)) /\
        threads s' = <[p := Running (kk (mkReply (Z.of_nat c) (Some (exitval cc)) []))]> (threads s)) \/
     (exists w, threads s' = <[p := Waiting w kk]> (threads s) /\ asleep p w (kern s') = true /\
        PT (kern s') = <[p := set_child_exit [p] pc]> (PT (kern s)) /\
        ((exists c, cpid = Z.of_nat c /\ w = InChild c /\ child_of (PT (kern s)) c p /\ ~ zombie_of (PT (kern s)) c p) \/
         cpid = NOPROC /\ w = InAnyChild /\ (exists c, child_of (PT (kern s)) c p) /\ forall c, ~ zombie_of (PT (kern s)) c p))).
Proof.
  intros G Hr Ht Hp. destruct (running_call g s p _ kk G Hr Ht) as (hold & L & fl & pc0 & V & [A1 A2 A3 A0 A4 A5] & Hh & Hp0).
  assert (pc0 = pc) as -> by congruence. pose proof V as [K Hfl _ _ Hloc]. pose proof (ko_tree _ _ _ _ _ _ K) as P.
  destruct (wait_child_ok sched_ok _ hold L fl (kern s) p pc cpid K A1) as (r & k' & E & Hw).
  assert (forall l, l = [] -> (forall c, c ∉ l) /\ (forall c, c ∈ l -> False)) as Hnil0.
  { intros l ->. split; [intros c; apply not_elem_of_nil|by intros c ?%elem_of_nil]. }
  destruct r as [z [st|]|w]; simpl in Hw.
  - destruct Hw as (c & -> & (L' & cc & Hc & Hz & Hpar & -> & _ & _ & EP & _) & Hor).
    eexists. split; [eapply call_step; [exact Ht|]; simpl; rewrite (bind_eq _ _ _ E); done|]. right. left. exists c, cc.
    split; [done|]. split; [by exists cc|]. split; [|done]. destruct Hor as [->|[-> [l El]]]; [by left|right]. split; [done|]. exists l.
    rewrite <- El. assert (p < nproc g) as Hn by (apply (pr_dom _ _ _ _ (ko_raw _ _ _ _ _ _ K)); by eexists).
    exact (fo_list _ _ _ (pr_forest _ _ _ _ (ko_raw _ _ _ _ _ _ K)) _ _ (plist_of _ L KE p Hn)).
  - destruct Hw as (-> & -> & Hor). eexists. split; [eapply call_step; [exact Ht|]; simpl; rewrite (bind_eq _ _ _ E); done|]. left.
    split; [|done]. destruct Hor as [[-> Hnil]|[Hne Hno]]; [left|by right]. split; [done|]. intros c Hc%(pt_child _ _ P).
    by apply (proj2 (Hnil0 _ Hnil) c).
  - destruct Hw as ((pc0 & Hpc0 & -> & K') & Hor). assert (pc0 = pc) as -> by congruence.
    eexists. split; [eapply call_step; [exact Ht|]; simpl; rewrite (bind_eq _ _ _ E); done|]. right. right. exists w.
    split; [done|]. rewrite A4. cbn [app]. split.
    + assert (child_wait w = true) as Hcw by (by destruct Hor as [(_ & c & _ & -> & _)|(_ & -> & _)]).
      destruct w; try done; simpl; rewrite ?A4, lookup_insert_eq; simpl; apply bool_decide_eq_true; by left.
    + split; [simpl; by rewrite ?A4|]. destruct Hor as [(_ & c & -> & -> & Hc & Hnz)|(-> & -> & Hne & Hnil)].
      * left. by exists c.
      * right. split; [done|]. split; [done|]. split.
        -- destruct (L KC p) as [|c l] eqn:EL; [done|]. exists c. apply P. rewrite EL. by left.
        -- intros c Hc%(pt_exited _ _ P). by apply (proj2 (Hnil0 _ Hnil) c).
Qed.

(** What is left of the processes when the initial one has reaped its exited children. *)
Lemma reaped_others n hold k k' : reach (reap_step sched_ok n hold 1) k k' ->
  forall c, ~ zombie_of (PT k) c 1 -> PT k' !! c = PT k !! c /\ ~ zombie_of (PT k') c 1.
Proof.
  induction 1 as [k|k1 k2 k3 Hr IH (L & fl & x & st & L' & xc & Hx & Hz & Hpar & _ & _ & _ & EP & _)]; [done|]. intros c Hc.
  destruct (IH c Hc) as [E Hn]. assert (c <> x) as Hne by (intros ->; apply Hn; by exists xc).
  unfold zombie_of in *. rewrite EP, lookup_insert_ne by done. done.
Qed.

(** C12.  [Exit].  Of a process other than the initial one: its thread is gone and it is a zombie with its exit
  value and no files; its children belong to the initial process; and its parent is woken, and so is the initial
  process when zombies were handed over to it.  Nothing else changes in the process table.  The initial process reaps
  its exited children; then it sleeps if it has other children, else it becomes a zombie in the same way, and no process
  is left but the idle one.  No other block is changed. *)
Theorem exit_effect g s p pc v kk : good_config g -> reachable g s ->
  threads s !! p = Some (Running (Call (Exit v) kk)) -> PT (kern s) !! p = Some pc ->
  exists s', step tid_of p s = Some (Ret s') /\
    (p <> 1 -> exists handed, threads s' = delete p (threads s) /\
      (handed = true <-> exists c, zombie_of (PT (kern s)) c p) /\
      forall c, PT (kern s') !! c = exit_block p v (parent pc) handed c <$> PT (kern s) !! c) /\
    (p = 1 ->
      (threads s' = delete 1 (threads s) /\ PT (kern s') !! 1 = Some (exit_block 1 v None false 1 pc) /\
         forall c cc, PT (kern s') !! c = Some cc -> 1 < c -> pstate cc = FREE) \/
      (threads s' = <[1 := Waiting (InExit v) kk]> (threads s) /\ PT (kern s') !! 1 = Some (set_child_exit [1] pc) /\
         (exists c, child_of (PT (kern s')) c 1) /\ (forall c, ~ zombie_of (PT (kern s')) c 1) /\
         forall c, c <> 1 -> ~ zombie_of (PT (kern s)) c 1 -> PT (kern s') !! c = PT (kern s) !! c)).
Proof.
  intros G Hr Ht Hp. destruct (running_call g s p _ kk G Hr Ht) as (hold & L & fl & pc0 & V & [A1 A2 A3 A0 A4 A5] & Hh & Hp0).
  assert (pc0 = pc) as -> by congruence. pose proof V as [K Hfl _ _ Hloc]. pose proof (ko_tree _ _ _ _ _ _ K) as P.
  destruct (thread_init _ _ _ _ _ _ p V) as [_ (ip & Hip & Hia & _)]; [by eexists|].
  destruct (sys_exit_ok sched_ok _ hold L fl (kern s) p pc v K A1 A2 Hp0 Hfl) as
    (r & k' & L' & fl' & k1 & L1 & fl1 & E & K' & _ & K1 & _ & Hp1 & _ & Hre & Hone & Hpost); [by exists ip|].
  exists (settle p kk (match r with XGone => CGone | XBlock => CWait (InExit v) end) k' s).
  split; [eapply call_step; [exact Ht|]; simpl; rewrite (bind_eq _ _ _ E); by destruct r|]. split.
  - intros Hne. destruct (Hone Hne) as (-> & -> & ->). destruct r; [|by destruct Hpost].
    destruct Hpost as (_ & X & _). exists (bool_decide (L KE p <> [])). split; [done|].
    split; [|exact (ex_blocks _ _ _ _ _ _ _ _ _ _ _ X)]. rewrite bool_decide_eq_true. destruct (L KE p) as [|c l] eqn:EL.
    + split; [done|]. intros [c Hc%(pt_exited _ _ P)]. rewrite EL in Hc. by apply elem_of_nil in Hc.
    + split; [|done]. intros _. exists c. apply P. rewrite EL. by left.
  - intros ->. destruct r.
    + left. destruct Hpost as (Hnil & X & _). specialize (Hnil eq_refl). pose proof (ko_tree _ _ _ _ _ _ K1) as P1.
      assert (parent pc = None) as Hpar by (apply (pt_root _ _ P 1 pc A1); [congruence|lia]).
      assert (L1 KE 1 = []) as HE.
      { destruct (L1 KE 1) as [|c l] eqn:EL; [done|]. assert (c ∈ L1 KC 1) as Hc; [|rewrite Hnil in Hc; by apply elem_of_nil in Hc].
        apply P1, zombie_child, P1. rewrite EL. by left. }
      pose proof (ex_blocks _ _ _ _ _ _ _ _ _ _ _ X) as M. rewrite HE, Hpar in M. split; [done|].
      split; [cbn [kern settle]; by rewrite (M 1), Hp1|]. cbn [kern settle]. intros c cc Hc Hlt. rewrite (M c) in Hc.
      destruct (PT k1 !! c) as [c0|] eqn:Ec; [|done]. injection Hc as <-. simpl. rewrite decide_False by lia.
      by apply (only_init (PT k1) L1 P1 Hnil c).
    + right. destruct Hpost as (_ & (pc0 & Hpc0 & -> & K2) & HC & HE). assert (pc0 = pc) as -> by congruence.
      pose proof (ko_tree _ _ _ _ _ _ K2) as P2. rewrite A4 in P2 |- *. cbn [kern settle]. split; [done|].
      split; [apply lookup_insert_eq|]. split.
      { destruct (L' KC 1) as [|c l] eqn:EL; [done|]. exists c. apply P2. rewrite EL. by left. }
      split; [intros c Hz; apply (pt_exited _ _ P2) in Hz; rewrite HE in Hz; by apply elem_of_nil in Hz|].
      intros c Hc Hz. cbn. rewrite lookup_insert_ne by done. by apply (reaped_others _ _ _ _ Hre).
Qed.

(** ** Refinement *)

Definition refines k k' : Prop := reach proc_spec (abs k) (abs k').

Lemma refines_one k k' : proc_spec (abs k) (abs k') -> refines k k'.
Proof. intros Hs. eapply reach_step; [apply reach_refl|done]. Qed.

Lemma refines_abs k k' : abs k' = abs k -> refines k k'.
Proof. unfold refines. intros ->. apply reach_refl. Qed.

Lemma refines_PT k k' : PT k' = PT k -> refines k k'.
Proof. intros E. apply refines_abs, abs_same. by rewrite E. Qed.

Lemma refines_fids k k' p pc l : PT k !! p = Some pc -> PT k' = set_fids p l pc k -> refines k k'.
Proof. intros Hp E. apply refines_abs. by eapply (abs_upd k k' p pc). Qed.

Lemma self_parent n hold L fl k p pc : kernel_ok n hold L fl k -> PT k !! p = Some pc -> pstate pc = ALIVE -> parent pc <> Some p.
Proof.
  intros K Hp Ha Hpar. destruct (pt_rank _ _ (ko_tree _ _ _ _ _ _ K)) as (rank & Hrk & _).
  assert (rank p < rank p); [|lia]. apply Hrk. exists pc. by rewrite Ha.
Qed.

Lemma reap_steps_refine n hold p k k' pc : reach (reap_step sched_ok n hold p) k k' -> PT k !! p = Some pc -> pstate pc = ALIVE ->
  refines k k' /\ PT k' !! p = Some pc.
Proof.
  intros Hr Hp Ha. induction Hr as [k|k1 k2 k3 Hr IH (L & fl & c & st & Hreap)]; [split; [apply reach_refl|done]|].
  destruct (IH Hp) as [IH1 IH2]. split.
  - eapply reach_step; [exact IH1|]. by eapply reaps_refines.
  - destruct Hreap as (L' & cc & Hc & Hz & _ & _ & _ & _ & E & _). rewrite E, lookup_insert_ne; [done|congruence].
Qed.

Lemma exit_refines n hold L fl k p pc v r k' : kernel_ok n hold L fl k -> PT k !! p = Some pc -> pstate pc = ALIVE -> p <> 0 ->
  (forall x, x ∈ fl -> 1 < x) -> (exists ip, PT k !! 1 = Some ip /\ pstate ip = ALIVE) -> sys_Exit p v k = Ret (r, k') -> refines k k'.
Proof.
  intros K Hp Ha Hp0 Hfl Hip E. destruct (sys_exit_ok sched_ok n hold L fl k p pc v K Hp Ha Hp0 Hfl Hip) as
    (r' & k2 & L' & fl' & k1 & L1 & fl1 & E' & K' & Hfl' & K1 & Ho & Hp1 & Hio & Hre & Hone & Hpost).
  rewrite E in E'. injection E' as <- <-. destruct (reap_steps_refine n hold p k k1 pc Hre Hp Ha) as [Hk1 _].
  eapply reach_trans; [exact Hk1|]. destruct r.
  - destruct Hpost as (Hnil & X & ->). apply refines_one. eapply exited_refines; [exact Hp1|exact Ha|by eapply self_parent| |exact X].
    intros -> c cc. by apply (only_init _ L1 (ko_tree _ _ _ _ _ _ K1) (Hnil eq_refl)).
  - destruct Hpost as (-> & Hsl & _). apply refines_abs. by eapply sleeps_abs.
Qed.

Lemma wait_refines n hold L fl k p pc cpid r k' : PT k !! p = Some pc -> pstate pc = ALIVE -> wait_post sched_ok n hold L fl k p cpid r k' -> refines k k'.
Proof.
  intros Hp Ha Hw. destruct r as [z [st|]|w]; simpl in Hw.
  - destruct Hw as (c & _ & Hreap & _). apply refines_one. by eapply reaps_refines.
  - destruct Hw as (_ & -> & _). apply reach_refl.
  - destruct Hw as [Hsl _]. apply refines_abs. by eapply sleeps_abs.
Qed.

Lemma returns_kernel (r : call_result) k k' :
  (forall z, returns z k = Ret (r, k') -> k' = k) /\ (forall x, returns_wait (U := U) x k = Ret (r, k') -> k' = k) /\
  (forall n x, returns_read (U := U) n x k = Ret (r, k') -> k' = k) /\ (forall v x, returns_exit (U := U) v x k = Ret (r, k') -> k' = k) /\
  (forall call z, returns_exec call z k = Ret (r, k') -> k' = k).
Proof.
  split; [|split; [|split; [|split]]].
  - by intros z [= _ <-].
  - by intros [] [= _ <-].
  - by intros n [] [= _ <-].
  - by intros v [] [= _ <-].
  - intros [c|] z; unfold returns_exec; [case_decide|]; by intros [= _ <-].
Qed.

Lemma do_call_refines n hold L fl s p pc call r k' : sys_inv n hold L fl s -> is_Some (threads s !! p) -> hold p = [] -> ready (kern s) p pc ->
  legal_call call = true -> do_call tid_of p call (kern s) = Ret (r, k') -> refines (kern s) k'.
Proof.
  intros V Ht Hh Hr Hl E. pose proof V as [K Hfl _ _ _]. pose proof Hr as [A1 A2 A3 A0 A4 A5]. pose proof (ko_files _ _ _ _ _ _ K) as F.
  pose proof (ko_devices _ _ _ _ _ _ K) as D. destruct (thread_init _ _ _ _ _ _ _ V Ht) as [Hp0 (ip & Hip & Hia & _)].
  destruct (returns_kernel r (kern s) k') as (N0 & _).
  assert (forall major minor, ('(z, k) ← open_stream p major minor (kern s); returns z k) = Ret (r, k') -> refines (kern s) k') as Hopen.
  { intros major minor E'. destruct (open_ok n hold (kern s) p pc major minor F D A1) as (z & k1 & E1 & _ & _ & Hcase). rewrite E1, ret_bind in E'.
    apply (returns_kernel r k1 k') in E' as ->. destruct Hcase as [(_ & EP & _)|(i & rest & f & obj & _ & _ & _ & _ & EP & _)]; [by apply refines_PT|exact (refines_fids _ _ p pc _ A1 EP)]. }
  destruct call as [call argl args|v| | |cpid| | | | | | |i| |fd size|fd buf size|fd|a b| | | | | | |]; unfold do_call in E;
    try (apply N0 in E as ->; apply reach_refl).
  - apply bind_Ret in E as ([z k1] & E1 & E). apply (returns_kernel r k1 k') in E as ->.
    assert (exists a, copy_args argl args = Ret a) as [a Ea].
    { simpl in Hl. unfold copy_args. destruct args as [a|]; [|by eexists]. rewrite bool_decide_eq_true in Hl. rewrite decide_True by done. by eexists. }
    pose proof (exec_ok sched_ok blocked live n hold L fl (kern s) p pc call argl args a K A1 A2 Hp0 Hfl Ea) as Hexec. destruct fl as [|c fl].
    + rewrite Hexec in E1. injection E1 as _ <-. apply reach_refl.
    + destruct Hexec as (k2 & th & cc & E2 & Hc & Hf & _ & EP & _). rewrite E2 in E1. injection E1 as _ <-. apply refines_one. eapply (exec_refines (kern s) k2 p pc c cc); [exact A1|exact A2|exact Hc|exact Hf| | |exact EP]; done.
  - apply bind_Ret in E as ([x k1] & E1 & E). apply (returns_kernel r k1 k') in E as ->. eapply (exit_refines n hold L fl _ p pc v _ _ K A1 A2 Hp0 Hfl); [by exists ip|exact E1].
  - apply bind_Ret in E as (z & _ & E). apply N0 in E as ->. apply reach_refl.
  - apply bind_Ret in E as ([x k1] & E1 & E). apply (returns_kernel r k1 k') in E as ->.
    destruct (wait_child_ok sched_ok n hold L fl (kern s) p pc cpid K A1) as (x' & k2 & E2 & Hw). rewrite E2 in E1. injection E1 as -> ->. exact (wait_refines n hold L fl _ p pc cpid _ _ A1 A2 Hw).
  - apply bind_Ret in E as (z & _ & E). apply N0 in E as ->. apply reach_refl.
  - apply bind_Ret in E as (z & _ & E). apply N0 in E as ->. apply reach_refl.
  - by eapply Hopen.
  - by eapply Hopen.
  - apply bind_Ret in E as ([x k1] & E1 & E). apply (returns_kernel r k1 k') in E as ->.
    destruct (read_ok n hold (kern s) p pc fd size F D A1 Hh) as (x' & k2 & E2 & Hpost). rewrite E2 in E1. injection E1 as -> ->.
    apply refines_PT. destruct x; [by destruct Hpost as ([] & _)|by destruct Hpost as ([] & _)].
  - simpl in Hl. rewrite bool_decide_eq_true in Hl. apply bind_Ret in E as ([z k1] & E1 & E). apply (returns_kernel r k1 k') in E as ->.
    destruct (write_ok n hold (kern s) p pc fd buf size F D A1 Hh Hl) as [(z' & k2 & E2 & [] & _)|E2]; rewrite E2 in E1; [|done]. injection E1 as -> ->. by apply refines_PT.
  - apply bind_Ret in E as ([z k1] & E1 & E). apply (returns_kernel r k1 k') in E as ->.
    destruct (close_ok n hold (kern s) p pc fd F A1) as (k2 & E2 & [_ _ _ EP]). rewrite E2 in E1. injection E1 as _ ->. exact (refines_fids _ _ p pc _ A1 EP).
  - apply bind_Ret in E as ([z k1] & E1 & E). apply (returns_kernel r k1 k') in E as ->.
    destruct (dup2_ok n hold (kern s) p pc a b F A1) as (z' & l & k2 & E2 & [_ _ _ EP] & _). rewrite E2 in E1. injection E1 as _ ->. exact (refines_fids _ _ p pc _ A1 EP).
Qed.

Lemma resume_refines n hold L fl s p pc w kk r k' : sys_inv n hold L fl s -> threads s !! p = Some (Waiting w kk) -> ready (kern s) p pc ->
  resume p w (kern s) = Ret (r, k') -> refines (kern s) k'.
Proof.
  intros V Ht Hr E. pose proof V as [K Hfl _ _ Hloc]. pose proof Hr as [A1 A2 A3 A0 A4 A5].
  assert (is_Some (threads s !! p)) as Hts by (by eexists). pose proof (lo_wait _ _ _ _ (Hloc p) w kk Ht) as Hw.
  pose proof (lo_hold _ _ _ _ (Hloc p)) as Hh. rewrite Ht in Hh. destruct (thread_init _ _ _ _ _ _ _ V Hts) as [Hp0 (ip & Hip & Hia & _)].
  destruct w as [c| |v|f d obj size]; simpl in Hh, Hw, E; apply bind_Ret in E as ([x k1] & E1 & E); apply (returns_kernel r k1 k') in E as ->.
  - destruct Hw as [Hc _]. destruct (specific_loop_ok sched_ok n hold L fl (kern s) p pc c K A1 Hc) as (x' & k2 & E2 & Hpost).
    rewrite E2 in E1. injection E1 as -> ->. destruct x as [z st|w].
    + destruct Hpost as (_ & st' & _ & Hreap). apply refines_one. exact (reaps_refines _ _ _ _ _ _ _ _ _ _ _ A1 A2 Hreap).
    + destruct Hpost as (_ & Hsl & _). apply refines_abs. by eapply sleeps_abs.
  - destruct (any_loop_ok sched_ok n hold L fl (kern s) p pc K A1) as (x' & k2 & E2 & Hpost). rewrite E2 in E1. injection E1 as -> ->.
    destruct (L KE p) as [|c l].
    + destruct Hpost as (_ & Hsl). apply refines_abs. by eapply sleeps_abs.
    + destruct Hpost as (st & _ & Hreap). apply refines_one. exact (reaps_refines _ _ _ _ _ _ _ _ _ _ _ A1 A2 Hreap).
  - destruct Hw as (-> & _). unfold exit_resume in E1. apply bind_Ret in E1 as ([y k2] & E2 & E1).
    destruct (any_loop_ok sched_ok n hold L fl (kern s) 1 pc K A1) as (y' & k3 & E3 & Hpost). rewrite E3 in E2. injection E2 as -> ->.
    destruct (L KE 1) as [|c l].
    + destruct Hpost as (-> & Hsl). injection E1 as _ <-. apply refines_abs. by eapply sleeps_abs.
    + destruct Hpost as (st & -> & Hreap). eapply reach_trans; [apply refines_one; exact (reaps_refines _ _ _ _ _ _ _ _ _ _ _ A1 A2 Hreap)|].
      set (v0 := mkReply 0 None []). pose proof (reaps_done sched_ok n hold L fl s k2 1 pc c st kk v0 V Hts Hh Hr Hreap) as (hold1 & L1 & fl1 & V1).
      destruct (running_ready sched_ok n hold1 L1 fl1 _ 1 (Running (kk v0)) V1) as (pc1 & [B1 B2 _ _ _ _] & Hh1); [apply lookup_insert_eq|done|].
      destruct (thread_init _ _ _ _ _ _ 1 V1) as [_ (jp & Hjp & Hja & _)]; [simpl; rewrite lookup_insert_eq; by eexists|].
      eapply (exit_refines n hold1 L1 fl1 k2 1 pc1 v); [apply V1|exact B1|exact B2|done|apply V1|by exists jp|exact E1].
  - destruct Hw as (-> & Hs). assert (p < n) as Hpn by (apply (pr_dom _ _ _ _ (ko_raw _ _ _ _ _ _ K)); by eexists).
    destruct (read_stream_ok n hold (kern s) p f DEV_SERIAL obj size (ko_files _ _ _ _ _ _ K) (ko_devices _ _ _ _ _ _ K) Hpn Hh Hs) as (x' & k2 & E2 & Hpost).
    rewrite E2 in E1. injection E1 as -> ->. apply refines_PT. destruct x; [by destruct Hpost as ([] & _)|by destruct Hpost as (_ & _ & [] & _)].
Qed.

(** C4.  The process table implements its specification: what the processes are (alive, or exited with some
  value; and whose child) changes only as [proc_spec] allows: a live process gets a child, a parent reaps an
  exited child, or a process exits and the initial process adopts its children, the initial process itself
  only when there is nobody else.  Every other step, and every other system call, leaves it as it is. *)
Theorem process_refinement g s s' p : good_config g -> reachable g s -> step tid_of p s = Some (Ret s') -> legal p s = true ->
  reach proc_spec (abs (kern s)) (abs (kern s')).
Proof.
  intros G Hr Hs Hl. destruct (reachable_ok g s G Hr) as (hold & L & fl & V). change (refines (kern s) (kern s')).
  assert (forall k (r : call_result) kk, kern (settle p kk r k s) = k) as Hk by (by intros k []).
  unfold step in Hs. unfold legal in Hl. destruct (threads s !! p) as [th|] eqn:Ht; [|done].
  assert (is_Some (threads s !! p)) as Hts by (by eexists). destruct th as [|pr|w kk].
  - injection Hs as Hs. unfold start_main_thread in Hs. inv_ret. apply reach_refl.
  - destruct (running_ready sched_ok _ hold L fl s p (Running pr) V Ht) as (pc & Hrd & Hh); [done|]. destruct pr as [v|f|c kk].
    + injection Hs as Hs. apply bind_Ret in Hs as ([r k'] & E & [= <-]). rewrite Hk. by eapply (do_call_refines _ _ _ _ s p pc (Exit v)).
    + destruct (f (memory s)) as [u q]. injection Hs as <-. apply reach_refl.
    + apply answered_Ret, bind_Ret in Hs as ([r k'] & E & [= <-]). rewrite Hk. by eapply (do_call_refines _ _ _ _ s p pc c).
  - destruct (asleep p w (kern s)) eqn:Ha; [done|]. destruct (awake_ready sched_ok _ hold L fl s p w kk V Ht Ha) as (pc & Hrd).
    injection Hs as Hs. apply bind_Ret in Hs as ([r k'] & E & [= <-]). rewrite Hk. by eapply resume_refines.
Qed.

(** ** Files *)

(** C7.  [Dup2]: when both ids are in range and the old one is open, the new id becomes another reference to the
  same stream, and it succeeds; else it fails and no file id changes. *)
Theorem dup2_effect g s p pc oldfd newfd kk : good_config g -> reachable g s ->
  threads s !! p = Some (Running (Call (Dup2 oldfd newfd) kk)) -> PT (kern s) !! p = Some pc ->
  exists s' r l, step tid_of p s = Some (Ret s') /\ threads s' = <[p := Running (kk (mkReply r None []))]> (threads s) /\
    PT (kern s') = <[p := set_FIDT l pc]> (PT (kern s)) /\ same_streams (FT (kern s)) (FT (kern s')) /\
    match file_at pc oldfd with
    | Some f => if decide (0 <= newfd < Z.of_nat MAX_FILEID)%Z then r = 0%Z /\ l = <[Z.to_nat newfd := Some f]> (FIDT pc)
                else r = (-1)%Z /\ l = FIDT pc
    | None => r = (-1)%Z /\ l = FIDT pc
    end.
Proof.
  intros G Hr Ht Hp. destruct (running_call g s p _ kk G Hr Ht) as (hold & L & fl & pc0 & V & [A1 A2 A3 A0 A4 A5] & Hh & Hp0).
  assert (pc0 = pc) as -> by congruence. pose proof V as [K _ _ _ _].
  destruct (dup2_ok _ hold (kern s) p pc oldfd newfd (ko_files _ _ _ _ _ _ K) A1) as (r & l & k' & E & [_ _ Hss EP] & Hcase).
  eexists _, r, l. split; [eapply call_step; [exact Ht|]; simpl; rewrite (bind_eq _ _ _ E); done|]. split; [done|]. split; [exact EP|].
  split; [exact Hss|]. cbv zeta in Hcase. unfold file_at. destruct (decide (0 <= oldfd < Z.of_nat MAX_FILEID)%Z) as [Ho|Ho].
  - destruct (FIDT pc !! Z.to_nat oldfd) as [[f|]|]; simpl; try done.
    destruct (decide (0 <= newfd < Z.of_nat MAX_FILEID)%Z); [rewrite decide_True in Hcase by done|rewrite decide_False in Hcase by tauto]; done.
  - destruct (FIDT pc !! Z.to_nat oldfd) as [[f|]|]; [|done..]. by rewrite decide_False in Hcase by tauto.
Qed.

(** C8.  Opening a terminal: the caller gets its lowest free file id, for a new stream of that terminal with one
  reference; or it fails and no file id changes, because it has no free id, or every file control block is in
  use, or there is no such terminal. *)
Theorem open_effect g s p pc term kk : good_config g -> reachable g s ->
  threads s !! p = Some (Running (Call (OpenTerminal term) kk)) -> PT (kern s) !! p = Some pc ->
  exists s' r l, step tid_of p s = Some (Ret s') /\ threads s' = <[p := Running (kk (mkReply r None []))]> (threads s) /\
    PT (kern s') = <[p := set_FIDT l pc]> (PT (kern s)) /\
    ((r = NOFILE /\ l = FIDT pc /\ same_streams (FT (kern s)) (FT (kern s')) /\
      ((forall i, FIDT pc !! i <> Some None) \/ (forall f fc, FT (kern s) !! f = Some fc -> (0 < references (nproc g) s f)%Z) \/
       serial_ports (ports (kern s)) <= term)) \/
     exists i f, r = Z.of_nat i /\ FIDT pc !! i = Some None /\ (forall j, j < i -> FIDT pc !! j <> Some None) /\
       l = <[i := Some f]> (FIDT pc) /\ references (nproc g) s f = 0%Z /\ term < serial_ports (ports (kern s)) /\
       FT (kern s') !! f = Some (mkFCB 1 (Some term) (Some DEV_SERIAL)) /\
       forall h, h <> f -> stream <$> FT (kern s') !! h = stream <$> FT (kern s) !! h).
Proof.
  intros G Hr Ht Hp. destruct (running_call g s p _ kk G Hr Ht) as (hold & L & fl & pc0 & V & [A1 A2 A3 A0 A4 A5] & Hh & Hp0).
  assert (pc0 = pc) as -> by congruence. pose proof V as [K _ _ _ _].
  assert (forall f, refs (nproc g) (uses hold (kern s)) f = references (nproc g) s f) as Eref.
  { intros f. symmetry. apply refs_ext. intros q _. unfold uses. by rewrite (lo_hold _ _ _ _ (sv_local _ _ _ _ _ _ V q)). }
  destruct (open_ok _ hold (kern s) p pc DEV_SERIAL term (ko_files _ _ _ _ _ _ K) (ko_devices _ _ _ _ _ _ K) A1) as (r & k' & E & _ & _ & Hcase).
  assert (step tid_of p s = Some (Ret (settle p kk (CDone (mkReply r None [])) k' s))) as Hstep.
  { eapply call_step; [exact Ht|]. simpl. unfold sys_OpenTerminal. by rewrite (bind_eq _ _ _ E). }
  destruct Hcase as [(-> & EP & Hss & Hor)|(i & rest & f & obj & -> & Hfree & Hz & [-> Hlt] & EP & Hf & Hoth)].
  - eexists _, NOFILE, (FIDT pc). split; [exact Hstep|]. split; [done|]. split; [|left; split; [done|]; split; [done|]; split; [exact Hss|]].
    + simpl. rewrite EP. symmetry. by apply set_fids_id.
    + destruct Hor as [Hnil|[Hall|Hle]]; [left|right; left|by right; right].
      * intros i Hi. by eapply free_ids_none.
      * intros f fc Hf. rewrite <- Eref. by eapply Hall.
  - eexists _, (Z.of_nat i), _. split; [exact Hstep|]. split; [done|]. split; [exact EP|]. right. exists i, f. split; [done|].
    destruct (free_ids_first _ _ _ Hfree) as [Hi Hmin]. rewrite <- Eref. done.
Qed.

(** C9.  [Read]: on an id that is not open it answers -1 and reads nothing; else it reads at least one byte and no
  more than were asked for, and answers how many (none only when none were asked for); or the caller sleeps in
  the driver of a terminal, with a reference to the stream. *)
Theorem read_effect g s p pc fd size kk : good_config g -> reachable g s ->
  threads s !! p = Some (Running (Call (Read fd size) kk)) -> PT (kern s) !! p = Some pc ->
  exists s' r, step tid_of p s = Some (Ret s') /\ threads s' = <[p := r]> (threads s) /\ PT (kern s') = PT (kern s) /\
    match file_at pc fd with
    | None => r = Running (kk (mkReply (-1) None []))
    | Some f => (exists buf, r = Running (kk (mkReply (s32 (Z.of_nat (length buf))) None buf)) /\ length buf <= size /\ (0 < size -> 0 < length buf)) \/
        (exists i, r = Waiting (InRead f DEV_SERIAL (Some i) size) kk /\ asleep p (InRead f DEV_SERIAL (Some i) size) (kern s') = true /\
           references (nproc g) s' f = (references (nproc g) s f + 1)%Z)
    end.
Proof.
  intros G Hr Ht Hp. destruct (running_call g s p _ kk G Hr Ht) as (hold & L & fl & pc0 & V & [A1 A2 A3 A0 A4 A5] & Hh & Hp0).
  assert (pc0 = pc) as -> by congruence. pose proof V as [K _ _ _ _].
  destruct (read_ok _ hold (kern s) p pc fd size (ko_files _ _ _ _ _ _ K) (ko_devices _ _ _ _ _ _ K) A1 Hh) as (r & k' & E & Hcase).
  destruct r as [z buf|f d obj].
  - destruct Hcase as (Hio & _ & Hcase). eexists _, _. split; [eapply call_step; [exact Ht|]; simpl; rewrite (bind_eq _ _ _ E); done|].
    split; [done|]. split; [exact (io_PT _ _ _ _ Hio)|]. destruct (file_at pc fd) as [f|].
    + destruct Hcase as (-> & ? & ?). left. by exists buf.
    + by destruct Hcase as [-> ->].
  - destruct Hcase as (Hio & -> & -> & i & sd & -> & Hsd & Hs).
    eexists _, _. split; [eapply call_step; [exact Ht|]; simpl; rewrite (bind_eq _ _ _ E); done|].
    split; [done|]. split; [exact (io_PT _ _ _ _ Hio)|]. right. exists i. split; [done|]. split.
    + simpl. rewrite Hs, lookup_insert_eq. apply bool_decide_eq_true. simpl. apply elem_of_app. right. by left.
    + assert (p < nproc g) as Hn by (apply (pr_dom _ _ _ _ (ko_raw _ _ _ _ _ _ K)); by eexists).
      unfold references. rewrite (refs_upd _ (fun q => fids (kern s) q ++ (Some <$> held (threads s !! q))) _ p _ Hn).
      * simpl. rewrite lookup_insert_eq, Ht. simpl. rewrite (fids_eq _ _ p (io_PT _ _ _ _ Hio)), !occ_app. change (occ f []) with 0%Z.
        change [Some f] with (Some <$> [f]). rewrite occ_some. unfold one. rewrite decide_True by done. lia.
      * intros q Hq. simpl. rewrite lookup_insert_ne by done. by rewrite (fids_eq _ _ q (io_PT _ _ _ _ Hio)).
Qed.
End props.

(** ** Concrete runs

  The initial process opens a terminal, reads from it, and has a child that inherits it. *)

Arguments mkConfig {U S B}.

#[local] Instance wake_on_0 : WakeOps tid (Sched.sched Z) := sched_wake 0.

Definition child : Task Z := fun argl args =>
  Call (Read 1 4) (fun r => Call (Exit (ret r + argl)) (fun _ => Done 0)).

Definition init : Task Z := fun argl args =>
  Call (OpenTerminal 0) (fun r =>
  Call (Dup2 (ret r) 1) (fun _ =>
  Call (Exec (Some child) 2 (Some [7; 8]%Z)) (fun r =>
  Call (WaitChild (ret r)) (fun r => Done (default 0%Z (status r)))))).

Definition demo : config (U := Z) (S := Sched.sched Z) (B := ttys) :=
  mkConfig 4 3 init 0 None (mkSched ∅ ∅ ∅ 0 ∅ 0%Z) [mkTty [104; 105]%Z []] 0%Z.

Abbreviation state ps := (after (U := Z) (fun _ : tid => 1%Z) initialize_scheduler demo ps).

Lemma demo_good : good_config sched_ok initialize_scheduler demo.
Proof. split; [simpl; lia|by vm_compute|done|]. exact (proj1 (booted_ok ∅ 0%Z)). Qed.

Lemma demo_reachable ps : reachable sched_ok (fun _ : tid => 1%Z) initialize_scheduler demo (state ps).
Proof. apply (run_reachable sched_ok blocked live), demo_good. Qed.

(** The rest of the program after the call of [p], and the block of [p]. *)
Definition rest_of (s : sys Z tid (Sched.sched Z) ttys) (p : nat) : reply -> prog Z :=
  match threads s !! p with Some (Running (Call _ kk)) => kk | Some (Waiting _ kk) => kk | _ => fun _ => Done 0 end.
Definition block_of (s : sys Z tid (Sched.sched Z) ttys) (p : nat) : PCB (Task Z) tid := default zero_PCB (PT (kern s) !! p).

Abbreviation step_of := (step (fun _ : tid => 1%Z)).

Lemma system_never_faults_witness :
  exists o s', step_of 2 (state [1; 1; 1; 1; 1; 2]) = Some o /\ o = Ret s' /\ reachable sched_ok (fun _ : tid => 1%Z) initialize_scheduler demo s'.
Proof.
  destruct (system_never_faults sched_ok blocked live (fun _ : tid => 1%Z) initialize_scheduler demo demo_good) as [_ Hall].
  destruct (Hall _ (demo_reachable [1; 1; 1; 1; 1; 2])) as [Hst _].
  destruct (Hst 2 (default (Err Fatal) (step_of 2 (state [1; 1; 1; 1; 1; 2])))) as (s' & E & Hr); [vm_compute; reflexivity|vm_compute; reflexivity|].
  exists (default (Err Fatal) (step_of 2 (state [1; 1; 1; 1; 1; 2]))), s'. split; [vm_compute; reflexivity|split; [exact E|exact Hr]].
Defined.

Lemma process_tree_exact_witness : rtc (child_of (PT (kern (state [1; 1; 1; 1])))) 2 1.
Proof.
  apply (process_tree_exact sched_ok blocked live (fun _ : tid => 1%Z) initialize_scheduler demo (state [1; 1; 1; 1]) 2
    (block_of (state [1; 1; 1; 1]) 2) demo_good (demo_reachable _)); [vm_compute; reflexivity|lia|vm_compute; discriminate].
Defined.

Lemma no_lost_child_exit_witness : ~ zombie_of (PT (kern (state [1; 1; 1; 1; 1]))) 2 1.
Proof.
  apply (no_lost_child_exit sched_ok blocked live (fun _ : tid => 1%Z) initialize_scheduler demo (state [1; 1; 1; 1; 1]) 1 (InChild 2)
    (rest_of (state [1; 1; 1; 1; 1]) 1) demo_good (demo_reachable _)); vm_compute; reflexivity.
Defined.

Lemma no_deadlock_witness : exists p, (exists o, step_of p (state [1; 1; 1; 1; 1]) = Some o) \/
  waits_outside (fun _ : tid => 1%Z) p (state [1; 1; 1; 1; 1]).
Proof.
  apply (no_deadlock sched_ok blocked live (fun _ : tid => 1%Z) initialize_scheduler demo (state [1; 1; 1; 1; 1]) demo_good (demo_reachable _)).
  intros E. assert (threads (state [1; 1; 1; 1; 1]) !! 1 = None) as En by (by rewrite E). vm_compute in En; discriminate.
Defined.

Definition finished : list nat := [1; 1; 1; 1; 1; 2; 2; 2; 1; 1].

Lemma init_exits_last_witness : threads (state finished) = ∅.
Proof.
  apply (init_exits_last sched_ok blocked live (fun _ : tid => 1%Z) initialize_scheduler demo (state finished)
    (block_of (state finished) 1) demo_good (demo_reachable _)); vm_compute; reflexivity.
Defined.

Lemma refcounts_exact_witness : exists ffl, NoDup ffl /\ forall fc, FT (kern (state [1; 1; 1; 1])) !! 0 = Some fc ->
  (0 ∈ ffl <-> references 4 (state [1; 1; 1; 1]) 0 = 0%Z).
Proof.
  destruct (refcounts_exact sched_ok blocked live (fun _ : tid => 1%Z) initialize_scheduler demo (state [1; 1; 1; 1]) demo_good (demo_reachable _))
    as (ffl & _ & Hnd & Hall).
  exists ffl. split; [done|]. intros fc Hf. by apply (Hall 0 fc).
Defined.

Lemma process_count_exact_witness : (2 <= process_count (kern (state [1; 1; 1; 1]%nat)) <= 4)%Z.
Proof.
  by destruct (process_count_exact sched_ok blocked live (fun _ : tid => 1%Z) initialize_scheduler demo (state [1; 1; 1; 1]) demo_good (demo_reachable _))
    as (fl & _ & _ & _ & _ & ? & _).
Defined.

Lemma exec_effect_witness : exists s', step_of 1 (state [1; 1; 1]) = Some (Ret s').
Proof.
  destruct (exec_effect sched_ok blocked live (fun _ : tid => 1%Z) initialize_scheduler demo (state [1; 1; 1]) 1 (block_of (state [1; 1; 1]) 1)
    child 2 (Some [7; 8]%Z) (rest_of (state [1; 1; 1]) 1) demo_good (demo_reachable _)) as (s' & E & _); [vm_compute; reflexivity..|by exists s'].
Defined.

Lemma wait_effect_witness : exists s', step_of 1 (state [1; 1; 1; 1]) = Some (Ret s').
Proof.
  destruct (wait_effect sched_ok blocked live (fun _ : tid => 1%Z) initialize_scheduler demo (state [1; 1; 1; 1]) 1 (block_of (state [1; 1; 1; 1]) 1)
    2 (rest_of (state [1; 1; 1; 1]) 1) demo_good (demo_reachable _)) as (s' & E & _); [vm_compute; reflexivity..|by exists s'].
Defined.

Lemma exit_effect_witness : exists s', step_of 2 (state [1; 1; 1; 1; 1; 2; 2]) = Some (Ret s') /\ threads s' = delete 2 (threads (state [1; 1; 1; 1; 1; 2; 2])).
Proof.
  destruct (exit_effect sched_ok blocked live (fun _ : tid => 1%Z) initialize_scheduler demo (state [1; 1; 1; 1; 1; 2; 2]) 2
    (block_of (state [1; 1; 1; 1; 1; 2; 2]) 2) 4 (rest_of (state [1; 1; 1; 1; 1; 2; 2]) 2) demo_good (demo_reachable _))
    as (s' & E & Hp & _); [vm_compute; reflexivity..|]. destruct Hp as (handed & Et & _); [discriminate|].
  exists s'. split; [exact E|exact Et].
Defined.

Lemma process_refinement_witness : exists s', step_of 1 (state [1; 1; 1]) = Some (Ret s') /\ reach proc_spec (abs (kern (state [1; 1; 1]))) (abs (kern s')).
Proof.
  exists (state [1; 1; 1; 1]). split; [vm_compute; reflexivity|].
  apply (process_refinement sched_ok blocked live (fun _ : tid => 1%Z) initialize_scheduler demo (state [1; 1; 1]) (state [1; 1; 1; 1]) 1 demo_good (demo_reachable _));
    vm_compute; reflexivity.
Defined.

Lemma dup2_effect_witness : exists s' l, step_of 1 (state [1; 1]) = Some (Ret s') /\
  PT (kern s') = <[1 := set_FIDT l (block_of (state [1; 1]) 1)]> (PT (kern (state [1; 1]))).
Proof.
  destruct (dup2_effect sched_ok blocked live (fun _ : tid => 1%Z) initialize_scheduler demo (state [1; 1]) 1 (block_of (state [1; 1]) 1)
    0 1 (rest_of (state [1; 1]) 1) demo_good (demo_reachable _)) as (s' & r & l & E & _ & EP & _); [vm_compute; reflexivity..|exists s', l; split; [exact E|exact EP]].
Defined.

Lemma open_effect_witness : exists s' l, step_of 1 (state [1]) = Some (Ret s') /\
  PT (kern s') = <[1 := set_FIDT l (block_of (state [1]) 1)]> (PT (kern (state [1]))).
Proof.
  destruct (open_effect sched_ok blocked live (fun _ : tid => 1%Z) initialize_scheduler demo (state [1]) 1 (block_of (state [1]) 1)
    0 (rest_of (state [1]) 1) demo_good (demo_reachable _)) as (s' & r & l & E & _ & EP & _); [vm_compute; reflexivity..|exists s', l; split; [exact E|exact EP]].
Defined.

Lemma read_effect_witness : exists s' r, step_of 2 (state [1; 1; 1; 1; 1; 2]) = Some (Ret s') /\ threads s' = <[2 := r]> (threads (state [1; 1; 1; 1; 1; 2])).
Proof.
  destruct (read_effect sched_ok blocked live (fun _ : tid => 1%Z) initialize_scheduler demo (state [1; 1; 1; 1; 1; 2]) 2
    (block_of (state [1; 1; 1; 1; 1; 2]) 2) 1 4 (rest_of (state [1; 1; 1; 1; 1; 2]) 2) demo_good (demo_reachable _))
    as (s' & r & E & Et & _); [vm_compute; reflexivity..|exists s', r; split; [exact E|exact Et]].
Defined.

(** A terminal that is slow to take output: the call waits for it, and does not come back from the round of polls
  when it is slower still; the state is then as before, and the call is made again. *)
Definition slow_kernel (busy : nat) : kernel (Task Z) tid (Sched.sched Z) slow_ttys :=
  initialize_devices (kernel0 0 0 (mkSched ∅ ∅ ∅ 0 ∅ 0%Z) (mkSlow [mkTty [] []] busy)).

Example slow_write_waits : ('(n, k) ← serial_write (Some 0) [104; 105]%Z 2 (slow_kernel 2); Ret (n, ports k)) = Ret (2, mkSlow [mkTty [] [104; 105]%Z] 0).
Proof. reflexivity. Qed.

Example slow_write_polls_on : serial_write (Some 0) [104; 105]%Z 2 (slow_kernel 3) = Err Stalled.
Proof. reflexivity. Qed.
