(* ===== verification/Executor.v ===== *)
(** * The executor and the steps

  The executor of [Sys], which the tests and the sessions use, takes steps of the system only, never faults, and ends
  when no thread is left: what is proved of the reachable states holds of the states that it computes. *)

From S2P Require Import Prelude Rlist Lists Iface Sched SchedInv SchedSys Instances.
From S2P Require Import Kernel Dev Streams Proc ProcInv ProcOps ProcExit ProcSpec Boot Sys SysInv SysOps SysProps.

Section executor.
Context {U T S B : Type} `{SerialLaws B} `{SpawnOps T S} `{WakeOps T S}.
Context (sched_ok : S -> Prop) (blocked live : S -> T -> Prop).
Context `{!SpawnLaws T S sched_ok live} `{!WakeLaws T S sched_ok blocked live}.
Context (tid_of : T -> Z) (initialize_scheduler : S -> S).
Implicit Types (p : nat) (s : sys U T S B) (g : config (U := U) (S := S) (B := B)).
Abbreviation sys_ok := (sys_ok sched_ok).
Abbreviation steps := (reach (sys_step tid_of sched_ok)).

(** Are the calls that are made in a round, and in a run, made with good pointers? *)
Fixpoint turn_legal (ps : list nat) s : bool :=
  match ps with
  | [] => true
  | p :: ps =>
      match step tid_of p s with
      | None => turn_legal ps s
      | Some (Ret s') => legal p s && turn_legal ps s'
      | Some (Err _) => legal p s
      end
  end.

Fixpoint run_legal (fuel n : nat) s : bool :=
  match fuel with
  | O => true
  | Datatypes.S fuel =>
      turn_legal (seq 1 n) s &&
      match turn tid_of (seq 1 n) s with
      | Ret (b, s) =>
          match (if (b : bool) then Ret s else k ← serial_rx_handler (kern s); Ret (with_kern k s)) with
          | Ret s => run_legal fuel n s
          | Err _ => true
          end
      | Err _ => true
      end
  end.

Lemma rx_step n s : sys_ok n s -> exists k, serial_rx_handler (kern s) = Ret k /\ sys_step tid_of sched_ok s (with_kern k s) /\ sys_ok n (with_kern k s).
Proof.
  intros V. pose proof V as (hold & L & fl & V0). pose proof (ko_devices _ _ _ _ _ _ (sv_kernel _ _ _ _ _ _ V0)) as D.
  destruct (serial_rx_ok (seq 0 (serial_ports (ports (kern s)))) (kern s) D) as (k & E & _); [intros i Hi%elem_of_seq; lia|].
  exists k. assert (sys_step tid_of sched_ok s (with_kern k s)) as Hs by (by apply step_rx).
  split; [exact E|]. split; [exact Hs|]. by eapply sys_step_ok.
Qed.

(** A round is a sequence of steps; it is empty only if none of the processes can take a step. *)
Lemma turn_sound n ps : forall s, sys_ok n s -> turn_legal ps s = true ->
  exists b s', turn tid_of ps s = Ret (b, s') /\ steps s s' /\ sys_ok n s' /\
    (b = false -> s' = s /\ Forall (fun p => step tid_of p s = None) ps).
Proof.
  induction ps as [|p ps IH]; intros s V Hl; cbn [turn turn_legal] in *.
  { exists false, s. split; [done|]. split; [apply reach_refl|]. split; [done|]. intros _. split; [done|constructor]. }
  destruct (step tid_of p s) as [o|] eqn:Hs.
  - assert (legal p s = true) as Hp by (destruct o; [by apply andb_true_iff in Hl as [? _]|done]).
    destruct (step_ok sched_ok blocked live tid_of n p s o V Hs Hp) as (s1 & -> & V1). rewrite Hp in Hl. cbn [andb] in Hl.
    destruct (IH s1 V1 Hl) as (b & s2 & E & Hr & V2 & _). exists true, s2. rewrite ret_bind, E.
    split; [done|]. split; [|by split]. eapply reach_trans; [|exact Hr]. eapply reach_step; [apply reach_refl|]. by eapply step_thread.
  - destruct (IH s V Hl) as (b & s2 & E & Hr & V2 & Hb). exists b, s2. rewrite E. split; [done|]. split; [done|]. split; [done|].
    intros Hf. destruct (Hb Hf) as [-> Hall]. split; [done|]. by constructor.
Qed.

Lemma run_sound n fuel : forall s, sys_ok n s -> run_legal fuel n s = true ->
  run tid_of fuel n s = Err OutOfFuel \/ exists s', run tid_of fuel n s = Ret s' /\ steps s s' /\ threads s' = ∅.
Proof.
  induction fuel as [|fuel IH]; intros s V Hl; cbn [run run_legal] in *; [by left|].
  destruct (decide (threads s = ∅)); [right; exists s; split; [done|]; split; [apply reach_refl|done]|].
  apply andb_true_iff in Hl as [Ht Hl]. destruct (turn_sound n _ s V Ht) as (b & s1 & E & Hr & V1 & _).
  rewrite E in Hl |- *. rewrite ret_bind. destruct b.
  - rewrite ret_bind. destruct (IH s1 V1 Hl) as [?|(s' & E' & Hr' & Hd)]; [by left|]. right. exists s'.
    split; [done|]. split; [by eapply reach_trans|done].
  - destruct (rx_step n s1 V1) as (k & Ek & Hs & V2). rewrite Ek, !ret_bind in Hl |- *.
    destruct (IH _ V2 Hl) as [?|(s' & E' & Hr' & Hd)]; [by left|]. right. exists s'.
    split; [done|]. split; [|done]. eapply reach_trans; [exact Hr|]. eapply reach_trans; [|exact Hr']. eapply reach_step; [apply reach_refl|exact Hs].
Qed.

(** The executor is sound: booted in a good configuration, it computes a state that the system reaches, in which no
    thread is left, or its fuel does not suffice; it never faults. *)
Theorem executor_sound g s0 fuel : good_config sched_ok initialize_scheduler g -> boot_of initialize_scheduler g = Ret s0 ->
  run_legal fuel (nproc g) s0 = true ->
  run tid_of fuel (nproc g) s0 = Err OutOfFuel \/
  exists s, run tid_of fuel (nproc g) s0 = Ret s /\ reachable sched_ok tid_of initialize_scheduler g s /\ threads s = ∅.
Proof.
  intros G E Hl. destruct (boot_returns sched_ok blocked live initialize_scheduler g G) as (s1 & E1 & V). assert (s1 = s0) as -> by congruence.
  destruct (run_sound _ _ _ V Hl) as [?|(s & Er & Hr & Hd)]; [by left|]. right. exists s. split; [done|]. split; [|done]. by exists s0.
Qed.
End executor.

#[local] Instance wake_in_executor : WakeOps tid (Sched.sched Z) := sched_wake 0.

Abbreviation start := (after (U := Z) (fun _ : tid => 1%Z) initialize_scheduler demo []).

Lemma executor_sound_witness : exists s, run (fun _ : tid => 1%Z) 30 4 start = Ret s /\
  reachable sched_ok (fun _ : tid => 1%Z) initialize_scheduler demo s.
Proof.
  destruct (executor_sound sched_ok blocked live (fun _ : tid => 1%Z) initialize_scheduler demo start 30 demo_good) as [E|(s & E & Hr & _)].
  - vm_compute. reflexivity.
  - vm_compute. reflexivity.
  - exfalso. revert E. vm_compute. discriminate.
  - exists s. split; [exact E|exact Hr].
Defined.
