(* ===== verification/Prog.v ===== *)
(** * Programs in C style

  The statements of a program that runs on the kernel, in sequence: system calls, accesses to the memory, loops.
  Strings are lists of bytes without the terminating zero. *)

From Stdlib Require Import String Ascii.
From S2P Require Import Prelude Rlist Iface Kernel Dev Streams Proc Boot Sys.

(** ** Strings *)

Definition str (s : string) : bytes := (fun c => Z.of_nat (nat_of_ascii c)) <$> list_ascii_of_string s.

(** The decimal digits of [printf("%d")]. *)
Fixpoint digits (fuel : nat) (z : Z) (acc : bytes) : bytes :=
  match fuel with
  | O => acc
  | Datatypes.S fuel =>
      let acc := (48 + z mod 10)%Z :: acc in
      if decide (z < 10)%Z then acc else digits fuel (z / 10)%Z acc
  end.

Definition decimal (z : Z) : bytes :=
  if decide (z < 0)%Z then 45%Z :: digits 20 (- z)%Z [] else digits 20 z [].

(** [strtok]: the pieces between the delimiters, none of them empty. *)
Fixpoint strtok (is_delim : Z -> bool) (s cur : bytes) : list bytes :=
  let flush := match cur with [] => [] | _ => [reverse cur] end in
  match s with
  | [] => flush
  | c :: s => if is_delim c then flush ++ strtok is_delim s [] else strtok is_delim s (c :: cur)
  end.

(** [ctype.h], in the C locale. *)
Definition isdigit (c : Z) : bool := bool_decide (48 <= c <= 57)%Z.
Definition isspace (c : Z) : bool := bool_decide (c = 32 \/ 9 <= c <= 13)%Z.
Definition isblank (c : Z) : bool := bool_decide (c = 32 \/ c = 9)%Z.
Definition toupper (c : Z) : Z := if decide (97 <= c <= 122)%Z then (c - 32)%Z else c.
Definition tolower (c : Z) : Z := if decide (65 <= c <= 90)%Z then (c + 32)%Z else c.

(** [strtol(s, &endptr, 10)]: the value, and the text from [endptr] on; [None] if there is no number. *)
Fixpoint strtol_digits (acc : Z) (s : bytes) : Z * bytes :=
  match s with
  | c :: s' => if isdigit c then strtol_digits (acc * 10 + (c - 48))%Z s' else (acc, s)
  | [] => (acc, [])
  end.

Fixpoint skip_spaces (s : bytes) : bytes :=
  match s with c :: s' => if isspace c then skip_spaces s' else s | [] => [] end.

Definition LONG_MAX : Z := (2 ^ 63 - 1)%Z.
Definition LONG_MIN : Z := (- 2 ^ 63)%Z.

Definition strtol (s : bytes) : option (Z * bytes) :=
  let s := skip_spaces s in
  let '(sign, s) := match s with
                    | c :: s' => if decide (c = 45%Z) then ((-1)%Z, s') else if decide (c = 43%Z) then (1%Z, s') else (1%Z, s)
                    | [] => (1%Z, [])
                    end in
  match s with
  | c :: _ => if isdigit c then let '(v, rest) := strtol_digits 0 s in Some (Z.max LONG_MIN (Z.min LONG_MAX (sign * v)), rest) else None
  | [] => None
  end.

Definition atoi (s : bytes) : Z := match strtol s with Some (v, _) => s32 v | None => 0 end.

(** [n] bytes of a number, the lowest first. *)
Fixpoint to_le (n : nat) (z : Z) : bytes :=
  match n with O => [] | Datatypes.S n => (z mod 256)%Z :: to_le n (z / 256)%Z end.

Fixpoint of_le (l : bytes) : Z := match l with [] => 0 | b :: l => b + 256 * of_le l end%Z.

Lemma length_to_le n z : length (to_le n z) = n.
Proof. revert z. induction n as [|n IH]; intros z; simpl; [done|]. by rewrite IH. Qed.

Lemma to_le_of_le n z : (0 <= z < 256 ^ Z.of_nat n)%Z -> of_le (to_le n z) = z.
Proof.
  revert z. induction n as [|n IH]; intros z Hz; simpl.
  - simpl in Hz. lia.
  - rewrite Nat2Z.inj_succ, Z.pow_succ_r in Hz by lia. rewrite IH.
    + pose proof (Z.div_mod z 256 ltac:(lia)). lia.
    + split; [apply Z.div_pos; lia|]. apply Z.div_lt_upper_bound; lia.
Qed.

Lemma digits_range fuel z acc b : (0 <= z)%Z -> b ∈ digits fuel z acc -> (48 <= b <= 57)%Z \/ b ∈ acc.
Proof.
  revert z acc. induction fuel as [|fuel IH]; intros z acc Hz; simpl; [by right|]. pose proof (Z.mod_pos_bound z 10 ltac:(lia)).
  assert (b ∈ (48 + z mod 10)%Z :: acc -> (48 <= b <= 57)%Z \/ b ∈ acc) as Hc.
  { intros [->|?]%elem_of_cons; [left; lia|by right]. }
  destruct (decide (z < 10)%Z); [done|]. intros [?|?]%IH; [by left|by apply Hc|apply Z.div_pos; lia].
Qed.

(** ** Statements

  A statement that yields an [A] is given what comes after it. *)
Section stmt.
Context {U : Type}.

Definition stmt (A : Type) : Type := (A -> prog U) -> prog U.

#[export] Instance stmt_ret : MRet stmt := fun A a k => k a.
#[export] Instance stmt_bind : MBind stmt := fun A B f m k => m (fun a => f a k).

Definition issue (c : syscall (Task U)) : stmt reply := fun k => Call c k.

Definition modify {A} (f : U -> U * A) : stmt A := fun k => Local (fun u => let '(u, a) := f u in (u, k a)).
Definition gets {A} (f : U -> A) : stmt A := modify (fun u => (u, f u)).
Definition puts (f : U -> U) : stmt unit := modify (fun u => (f u, tt)).

(** The body of a task. *)
Definition returns_int (m : stmt Z) : prog U := m Done.

Fixpoint for_each {A} (l : list A) (body : A -> stmt unit) : stmt unit :=
  match l with [] => mret tt | a :: l => _ ← body a; for_each l body end.

(** [for(int i=0; i<n; i++)]. *)
Definition for_upto (n : nat) (body : nat -> stmt unit) : stmt unit := for_each (seq 0 n) body.

(** The value of a loop that collects results. *)
Fixpoint for_map {A C} (l : list A) (body : A -> stmt C) : stmt (list C) :=
  match l with [] => mret [] | a :: l => c ← body a; cs ← for_map l body; mret (c :: cs) end.

Definition sc (c : syscall (Task U)) : stmt Z := r ← issue c; mret (ret r).
End stmt.
Arguments stmt U A : clear implicits.
