(* ===== verification/Argv.v ===== *)
(** * Argument vectors (util.h, tinyoslib.c)

  Vectors of strings packed in an argument buffer, and the programs that are executed with them.  A string is the
  list of its bytes, none of them zero; a buffer is a list of bytes, and a pointer into it an offset.  [text]
  gives the program at an address of the code. *)

From S2P Require Import Prelude Rlist Iface Kernel Dev Streams Proc Boot Sys Prog.

(** ** Packing and unpacking *)

Definition argvlen (argv : list bytes) : nat := sum_list ((fun s => length s + 1) <$> argv).

Definition put_byte (pos : nat) (c : Z) (buf : bytes) : outcome bytes :=
  if decide (pos < length buf) then Ret (<[pos := c]> buf) else Err BadAccess.

(** [while(( *pos++ = *s++ )) argl++;] *)
Fixpoint pack_string (s : bytes) (pos argl : nat) (args : bytes) : outcome (nat * nat * bytes) :=
  match s with
  | [] => args ← put_byte pos 0 args; Ret (pos + 1, argl, args)
  | c :: s => args ← put_byte pos c args; pack_string s (pos + 1) (argl + 1) args
  end.

Fixpoint pack_strings (argv : list bytes) (pos argl : nat) (args : bytes) : outcome (nat * bytes) :=
  match argv with
  | [] => Ret (argl, args)
  | s :: argv => '(pos, argl, args) ← pack_string s pos argl args; pack_strings argv pos argl args
  end.

(** From the offset [pos] of the buffer on; the length of the packed vector, and the buffer.  The bytes are counted in
  an [int], which is added to a [size_t]. *)
Definition argvpack (pos : nat) (args : bytes) (argv : list bytes) : outcome (nat * bytes) :=
  '(argl, args) ← pack_strings argv pos 0 args;
  Ret (Z.to_nat (u64 (s32 (Z.of_nat argl) + Z.of_nat (length argv))), args).

(** The zeros among [a[i]] for [i] from [pos], [argl] times. *)
Fixpoint count_zeros (argl pos : nat) (args : bytes) : outcome nat :=
  match argl with
  | O => Ret 0
  | S argl =>
      c ← deref (args !! pos);
      n ← count_zeros argl (pos + 1) args;
      Ret (if decide (c = 0%Z) then S n else n)
  end.

(** They are counted in an [int]; the result is a [size_t]. *)
Definition argscount (argl pos : nat) (args : bytes) : outcome nat :=
  n ← count_zeros argl pos args; Ret (Z.to_nat (u64 (s32 (Z.of_nat n)))).

(** [while( *a++ );] in a buffer whose end is [fuel] bytes ahead. *)
Fixpoint skip_string (fuel pos : nat) (args : bytes) : outcome nat :=
  match fuel with
  | O => Err BadAccess
  | S fuel =>
      c ← deref (args !! pos);
      if decide (c = 0%Z) then Ret (pos + 1) else skip_string fuel (pos + 1) args
  end.

(** The pointers that are stored in [argv], and the first location that was not unpacked. *)
Fixpoint argvunpack (argc pos : nat) (args : bytes) : outcome (list nat * nat) :=
  match argc with
  | O => Ret ([], pos)
  | S argc =>
      next ← skip_string (length args - pos) pos args;
      '(argv, rest) ← argvunpack argc next args;
      Ret (pos :: argv, rest)
  end.

(** The string at an offset. *)
Fixpoint c_string (fuel pos : nat) (args : bytes) : option bytes :=
  match fuel with
  | O => None
  | S fuel =>
      c ← args !! pos;
      if decide (c = 0%Z) then Some [] else s ← c_string fuel (pos + 1) args; Some (c :: s)
  end.

Definition string_at (args : bytes) (pos : nat) : option bytes := c_string (length args - pos) pos args.

(** ** The layout of a packed vector *)

Definition packed (argv : list bytes) : bytes := mjoin ((fun s => s ++ [0%Z]) <$> argv).

Lemma packed_cons s argv : packed (s :: argv) = s ++ 0%Z :: packed argv.
Proof. unfold packed. simpl. by rewrite <- app_assoc. Qed.

Lemma length_packed argv : length (packed argv) = argvlen argv.
Proof.
  induction argv as [|s argv IH]; [done|]. rewrite packed_cons, length_app. simpl. rewrite IH.
  change (argvlen (s :: argv)) with (length s + 1 + argvlen argv). lia.
Qed.

(** A string of C. *)
Definition c_str (s : bytes) : Prop := 0%Z ∉ s.

Lemma put_byte_app pre c x post : put_byte (length pre) c (pre ++ x :: post) = Ret (pre ++ c :: post).
Proof. unfold put_byte. rewrite decide_True by (rewrite length_app; simpl; lia). by rewrite insert_app_r_alt, Nat.sub_diag by lia. Qed.

Lemma pack_string_ok s pre old post argl : length old = length s + 1 ->
  pack_string s (length pre) argl (pre ++ old ++ post) = Ret (length pre + length s + 1, argl + length s, pre ++ (s ++ [0%Z]) ++ post).
Proof.
  revert pre old argl. induction s as [|c s IH]; intros pre [|x old] argl Hl; simpl in *; try lia.
  - destruct old; [|done]. simpl. rewrite put_byte_app. simpl. by rewrite !Nat.add_0_r.
  - rewrite put_byte_app. simpl. replace (pre ++ c :: old ++ post) with ((pre ++ [c]) ++ old ++ post) by (by rewrite <- app_assoc).
    replace (length pre + 1) with (length (pre ++ [c])) by (rewrite length_app; done). rewrite IH by lia. rewrite length_app. simpl.
    rewrite <- app_assoc. do 2 f_equal. f_equal; lia.
Qed.

Lemma pack_strings_ok argv pre old argl : length old = argvlen argv ->
  pack_strings argv (length pre) argl (pre ++ old) = Ret (argl + argvlen argv - length argv, pre ++ packed argv) /\ length argv <= argvlen argv.
Proof.
  revert pre old argl. induction argv as [|s argv IH]; intros pre old argl Hl.
  - destruct old; [|done]. simpl. by rewrite Nat.add_0_r, Nat.sub_0_r.
  - change (argvlen (s :: argv)) with (length s + 1 + argvlen argv) in *.
    destruct (IH (pre ++ s ++ [0%Z]) (drop (length s + 1) old) (argl + length s)) as [E Hle]; [rewrite length_drop; lia|].
    split; [|simpl; lia]. simpl. rewrite <- (take_drop (length s + 1) old) at 1. rewrite pack_string_ok by (rewrite length_take; lia).
    rewrite ret_bind. replace (length pre + length s + 1) with (length (pre ++ s ++ [0%Z])) by (rewrite !length_app; simpl; lia).
    rewrite (assoc_L (++) pre (s ++ [0%Z])), E. rewrite packed_cons, <- !app_assoc. do 2 f_equal. lia.
Qed.

Lemma lookup_after (pre post : bytes) c : (pre ++ c :: post) !! length pre = Some c.
Proof. by apply list_lookup_middle. Qed.

Lemma count_zeros_app s pre post argl : c_str s -> length s + 1 <= argl ->
  count_zeros argl (length pre) (pre ++ (s ++ [0%Z]) ++ post) =
    (n ← count_zeros (argl - (length s + 1)) (length pre + (length s + 1)) (pre ++ (s ++ [0%Z]) ++ post); Ret (S n)).
Proof.
  revert pre argl. induction s as [|c s IH]; intros pre argl Hs Hl; (destruct argl as [|argl]; [simpl in Hl; lia|]).
  - cbn [count_zeros app length]. rewrite lookup_after. cbn [deref]. rewrite ret_bind.
    destruct (decide (0 = 0)%Z); [|done]. simpl. by rewrite Nat.sub_0_r.
  - assert (c <> 0%Z /\ c_str s) as [Hc Hs'] by (unfold c_str in *; set_solver). cbn [count_zeros app length]. rewrite lookup_after. cbn [deref]. rewrite ret_bind.
    destruct (decide (c = 0)%Z); [done|]. specialize (IH (pre ++ [c]) argl Hs'). rewrite length_app, <- app_assoc in IH. cbn [length app] in IH.
    rewrite IH by (simpl in Hl; lia). replace (length pre + 1 + (length s + 1)) with (length pre + S (length s + 1)) by lia. simpl.
    by destruct (count_zeros _ (length pre + S (length s + 1)) _).
Qed.

Lemma count_zeros_ok argv pre : Forall c_str argv -> count_zeros (argvlen argv) (length pre) (pre ++ packed argv) = Ret (length argv).
Proof.
  revert pre. induction argv as [|s argv IH]; intros pre Hs; [done|]. apply Forall_cons in Hs as [Hs Hargv].
  change (argvlen (s :: argv)) with (length s + 1 + argvlen argv). rewrite packed_cons.
  replace (s ++ 0%Z :: packed argv) with ((s ++ [0%Z]) ++ packed argv) by (by rewrite <- app_assoc).
  rewrite count_zeros_app by (done || lia). replace (length s + 1 + argvlen argv - (length s + 1)) with (argvlen argv) by lia.
  specialize (IH (pre ++ s ++ [0%Z]) Hargv). rewrite !length_app in IH. cbn [length] in IH. rewrite <- !app_assoc in *. simpl in *. by rewrite IH.
Qed.

(** A vector whose length is an [int]. *)
Definition fits_int (argv : list bytes) : Prop := (Z.of_nat (argvlen argv) < 2 ^ 31)%Z.

Lemma argvlen_length argv : length argv <= argvlen argv.
Proof. induction argv as [|s argv IH]; [done|]. change (argvlen (s :: argv)) with (length s + 1 + argvlen argv). simpl. lia. Qed.

(** Numbers that are not too great survive the conversions. *)
Lemma size_of_int n : (Z.of_nat n < 2 ^ 31)%Z -> Z.to_nat (u64 (s32 (Z.of_nat n))) = n.
Proof. intros Hn. rewrite s32_small by lia. unfold wrap. rewrite Z.mod_small by lia. lia. Qed.

Lemma argscount_ok argv pre : fits_int argv -> Forall c_str argv ->
  argscount (argvlen argv) (length pre) (pre ++ packed argv) = Ret (length argv).
Proof.
  intros Hf Hs. unfold argscount. rewrite count_zeros_ok by done. rewrite ret_bind, size_of_int; [done|].
  pose proof (argvlen_length argv). unfold fits_int in Hf. lia.
Qed.

Lemma argvpack_ok argv pre old : fits_int argv -> length old = argvlen argv ->
  argvpack (length pre) (pre ++ old) argv = Ret (argvlen argv, pre ++ packed argv).
Proof.
  intros Hf Hl. destruct (pack_strings_ok argv pre old 0 Hl) as [E Hle]. unfold argvpack. rewrite E, ret_bind.
  unfold fits_int in Hf. rewrite s32_small by lia. unfold wrap. rewrite Z.mod_small by lia. do 2 f_equal. lia.
Qed.

(** From an offset inside a buffer, [skip_string] and [c_string] read the string there. *)
Lemma string_ok s fuel pre post : c_str s -> length s + 1 <= fuel ->
  skip_string fuel (length pre) (pre ++ s ++ 0%Z :: post) = Ret (length pre + length s + 1) /\
  c_string fuel (length pre) (pre ++ s ++ 0%Z :: post) = Some s.
Proof.
  revert fuel pre. induction s as [|c s IH]; intros fuel pre Hs Hl; (destruct fuel as [|fuel]; [simpl in Hl; lia|]); cbn [skip_string c_string app]; rewrite lookup_after; simpl.
  - by rewrite Nat.add_0_r.
  - assert (c <> 0%Z /\ c_str s) as [Hc Hs'] by (unfold c_str in *; set_solver). rewrite !decide_False by done.
    destruct (IH fuel (pre ++ [c]) Hs') as [E1 E2]; [simpl in Hl; lia|]. rewrite length_app, <- app_assoc in E1, E2. simpl in E1, E2.
    rewrite E1, E2. simpl. split; [f_equal; lia|done].
Qed.

Lemma argvunpack_ok argv pre : Forall c_str argv ->
  exists offs, argvunpack (length argv) (length pre) (pre ++ packed argv) = Ret (offs, length (pre ++ packed argv)) /\
    Forall2 (fun o s => string_at (pre ++ packed argv) o = Some s) offs argv.
Proof.
  revert pre. induction argv as [|s argv IH]; intros pre Hs.
  - exists []. simpl. by rewrite app_nil_r.
  - apply Forall_cons in Hs as [Hs Hargv]. rewrite packed_cons. set (args := pre ++ s ++ 0%Z :: packed argv).
    assert (length s + 1 <= length args - length pre) as Hl by (unfold args; rewrite !length_app; simpl; lia).
    destruct (string_ok s (length args - length pre) pre (packed argv) Hs Hl) as [E1 E2]. fold args in E1, E2.
    destruct (IH (pre ++ s ++ [0%Z]) Hargv) as (offs & E & H2). rewrite <- !app_assoc in E, H2. change ([0%Z] ++ packed argv) with (0%Z :: packed argv) in E, H2.
    fold args in E, H2. exists (length pre :: offs). cbn [argvunpack length]. rewrite E1, ret_bind.
    replace (length pre + length s + 1) with (length (pre ++ s ++ [0%Z])) by (rewrite !length_app; simpl; lia). rewrite E.
    split; [done|]. by constructor.
Qed.

(** ** Executing a program *)

Section execute.
Context {U : Type} (text : Z -> option (list bytes -> prog U)).

Definition sizeof_Program : nat := 8.

(** What [exec_wrapper] reads from its argument buffer: the program and the vector of its arguments. *)
Definition unwrap (argl : Z) (args : bytes) : outcome ((list bytes -> prog U) * list bytes) :=
  _ ← (if decide (sizeof_Program <= length args) then Ret tt else Err BadAccess);
  let argl := s32 (argl - Z.of_nat sizeof_Program) in
  argc ← argscount (Z.to_nat argl) sizeof_Program args;
  '(argv, _) ← argvunpack argc sizeof_Program args;
  p ← deref (text (of_le (take sizeof_Program args)));
  argv ← deref (mapM (string_at args) argv);
  Ret (p, argv).

(** A wrapper that crashes stops the machine; [execute_roundtrip] says when it does not. *)
Definition exec_wrapper : Task U := fun argl args =>
  match unwrap argl (default [] args) with
  | Ret (p, argv) => p argv
  | Err _ => Done (-1)
  end.

(** The call of [Exec] that [Execute] makes: the length of the buffer, a [size_t] that is passed as an [int], and the
  buffer, for the program at [a]. *)
Definition Execute_args (a : Z) (argv : list bytes) : outcome (Z * bytes) :=
  let argl := argvlen argv + sizeof_Program in
  let args := to_le sizeof_Program a ++ replicate (argvlen argv) 0%Z in
  '(_, args) ← argvpack sizeof_Program args argv;
  Ret (s32 (Z.of_nat argl), args).

Definition Execute (a : Z) (argv : list bytes) : stmt U Z :=
  match Execute_args a argv with
  | Ret (argl, args) => sc (Exec (Some exec_wrapper) argl (Some args))
  | Err _ => fun _ => Done (-1)
  end.

(** [ParseProcInfo]: the number of arguments, or -1, and the arguments that were unpacked, [argc] of them at most. *)
Definition PROCINFO_MAX_ARGS_SIZE : nat := 128.

Record procinfo := mkProcinfo { main_task_is_exec_wrapper : bool; pi_argl : Z; pi_args : bytes }.

Definition ParseProcInfo (pinfo : procinfo) (argc : option nat) : outcome (Z * list nat) :=
  if negb (main_task_is_exec_wrapper pinfo) then Ret ((-1)%Z, [])
  else if decide (Z.of_nat PROCINFO_MAX_ARGS_SIZE < pi_argl pinfo)%Z then Ret ((-1)%Z, [])
  else
    let argl := s32 (pi_argl pinfo - Z.of_nat sizeof_Program) in
    N ← argscount (Z.to_nat argl) sizeof_Program (pi_args pinfo);
    match argc with
    | None => Ret (Z.of_nat N, [])
    | Some argc =>
        '(argv, _) ← argvunpack (if decide (N < argc) then N else argc) sizeof_Program (pi_args pinfo);
        Ret (Z.of_nat N, argv)
    end.

(** ** Lemmas *)

Lemma exec_wrapper_eq argl args :
  exec_wrapper argl (Some args) = match unwrap argl args with Ret (p, argv) => p argv | Err _ => Done (-1) end.
Proof. done. Qed.

Lemma Execute_args_ok a argv : Execute_args a argv = Ret (s32 (Z.of_nat (argvlen argv + sizeof_Program)), to_le sizeof_Program a ++ packed argv).
Proof.
  unfold Execute_args, argvpack. destruct (pack_strings_ok argv (to_le sizeof_Program a) (replicate (argvlen argv) 0%Z) 0) as [E _];
    [apply length_replicate|]. rewrite length_to_le in E. by rewrite E.
Qed.

(** A vector whose buffer has a length that is an [int]; a buffer that is longer is on no stack. *)
Definition executable (argv : list bytes) : Prop := (Z.of_nat (argvlen argv + sizeof_Program) < 2 ^ 31)%Z.

Lemma Execute_eq a argv : executable argv -> Execute a argv =
  sc (Exec (Some exec_wrapper) (Z.of_nat (argvlen argv + sizeof_Program)) (Some (to_le sizeof_Program a ++ packed argv))).
Proof. intros He. unfold Execute, executable in *. rewrite Execute_args_ok, s32_small by lia. done. Qed.

Lemma mapM_strings args offs argv : Forall2 (fun o s => string_at args o = Some s) offs argv -> mapM (string_at args) offs = Some argv.
Proof. induction 1 as [|o s offs argv E _ IH]; simpl; [done|]. by rewrite E, IH. Qed.

Lemma unwrap_ok a p argv : executable argv -> (0 <= a < 2 ^ 64)%Z -> text a = Some p -> Forall c_str argv ->
  unwrap (Z.of_nat (argvlen argv + sizeof_Program)) (to_le sizeof_Program a ++ packed argv) = Ret (p, argv).
Proof.
  intros He Ha Hp Hs. unfold executable in He. unfold unwrap. rewrite decide_True by (rewrite length_app, length_to_le; lia). rewrite ret_bind. cbv zeta.
  rewrite s32_small by lia. replace (Z.to_nat _) with (argvlen argv) by lia.
  pose proof (argscount_ok argv (to_le sizeof_Program a) ltac:(unfold fits_int; lia) Hs) as E1.
  destruct (argvunpack_ok argv (to_le sizeof_Program a) Hs) as (offs & E2 & H2). rewrite length_to_le in E1, E2.
  rewrite E1, ret_bind, E2, ret_bind. rewrite take_app_length' by (by rewrite length_to_le). rewrite to_le_of_le by done. rewrite Hp. cbn [deref].
  rewrite ret_bind. by rewrite (mapM_strings _ _ _ H2).
Qed.
End execute.

(** ** Properties *)

(** Packing a vector of strings and unpacking it gives the vector back: [argvpack] fills a buffer of
  [argvlen] bytes exactly, [argscount] counts the strings and [argvunpack] finds each of them. *)
Theorem argv_roundtrip argv buffer : fits_int argv -> Forall c_str argv -> length buffer = argvlen argv ->
  exists args offs, argvpack 0 buffer argv = Ret (argvlen argv, args) /\ length args = argvlen argv /\
    argscount (argvlen argv) 0 args = Ret (length argv) /\
    argvunpack (length argv) 0 args = Ret (offs, length args) /\ mapM (string_at args) offs = Some argv.
Proof.
  intros Hf Hs Hl. destruct (argvunpack_ok argv [] Hs) as (offs & E2 & H2).
  exists (packed argv), offs. split; [exact (argvpack_ok argv [] buffer Hf Hl)|].
  split; [apply length_packed|split; [exact (argscount_ok argv [] Hf Hs)|split; [exact E2|]]]. by apply mapM_strings.
Qed.

(** C17.  [Execute] makes a process that runs the given program with the given arguments: the call of [Exec] has as its
  argument buffer the address and the packed vector, and its length as an [int]; when the length is one (a longer
  buffer is on no stack), the buffer is a good one, and [exec_wrapper], given the copy that the kernel makes of it, calls
  the program at that address with the same vector. *)
Theorem execute_roundtrip {U} (text : Z -> option (list bytes -> prog U)) a p argv :
  (0 <= a < 2 ^ 64)%Z -> text a = Some p -> Forall c_str argv ->
  exists argl args, Execute text a argv = sc (Exec (Some (exec_wrapper text)) argl (Some args)) /\
    args = to_le sizeof_Program a ++ packed argv /\ argl = s32 (Z.of_nat (length args)) /\
    (executable argv -> copy_args argl (Some args) = Ret (Some args) /\ exec_wrapper text argl (Some args) = p argv).
Proof.
  intros Ha Hp Hs. eexists _, _. split; [unfold Execute; rewrite Execute_args_ok; done|]. split; [done|].
  assert (length (to_le sizeof_Program a ++ packed argv) = argvlen argv + sizeof_Program) as Hl
    by (rewrite length_app, length_to_le, length_packed; lia).
  split; [by rewrite Hl|]. intros He. unfold executable in He. rewrite s32_small by lia.
  split; [|by rewrite exec_wrapper_eq, (unwrap_ok text a p argv He Ha Hp Hs)].
  unfold copy_args. rewrite Hl, decide_True by lia. do 2 f_equal. apply take_ge. rewrite Hl. lia.
Qed.

Lemma argv_roundtrip_witness : exists args, argvpack 0 (replicate 8 170%Z) [[108; 115]%Z; []; [45; 108; 97]%Z] = Ret (8, args).
Proof.
  destruct (argv_roundtrip [[108; 115]%Z; []; [45; 108; 97]%Z] (replicate 8 170%Z)) as (args & offs & E & _);
    [vm_compute; reflexivity|apply (bool_decide_unpack _); vm_compute; exact I|vm_compute; reflexivity|exists args; exact E].
Defined.

Lemma execute_roundtrip_witness : exists argl args,
  exec_wrapper (fun _ => Some (fun argv => Done (U := unit) (Z.of_nat (length argv)))) argl (Some args) = Done 2.
Proof.
  destruct (execute_roundtrip (fun _ => Some (fun argv => Done (U := unit) (Z.of_nat (length argv)))) 4096 (fun argv => Done (Z.of_nat (length argv))) [[108; 115]; [120]]%Z)
    as (argl & args & _ & _ & _ & E); [lia|reflexivity|apply (bool_decide_unpack _); vm_compute; exact I|].
  exists argl, args. apply E. vm_compute. reflexivity.
Defined.
