(* ===== verification/UnitTest.v ===== *)
(** * The test library (unit_testing.h, unit_testing.c)

  The terminal proxies, the execution of a test on a virtual machine, suites of tests, the search for a test,
  the command line, the list of the tests and the indentation of messages.  The processes of the host that
  run the tests, with their timeouts, are in [TestRunner]: here a test that hangs runs out of fuel. *)

From Stdlib Require Import String Ascii.
From stdpp Require Import sorting.
From S2P Require Import Prelude Rlist Iface Instances Kernel Dev Streams Proc Boot Sys Prog.

(** ** The memory of a test

  The patterns that the daemons of a terminal have still to see on the console or to type at the keyboard. *)
Record term_proxy := mkProxy { con : list bytes; kbd : list bytes }.

(** [cells] is the memory of the processes, [brk] the first address that is not in use. *)
Record tmem := mkTmem {
  FLAG_FAILURE : bool;
  cells : gmap Z Z;
  brk : Z;
  PROXY : list term_proxy
}.

Definition set_failure (b : bool) (u : tmem) : tmem := mkTmem b (cells u) (brk u) (PROXY u).
Definition set_cell (a v : Z) (u : tmem) : tmem := mkTmem (FLAG_FAILURE u) (<[a := v]> (cells u)) (brk u) (PROXY u).
Definition set_brk (a : Z) (u : tmem) : tmem := mkTmem (FLAG_FAILURE u) (cells u) a (PROXY u).
Definition set_PROXY (l : list term_proxy) (u : tmem) : tmem := mkTmem (FLAG_FAILURE u) (cells u) (brk u) l.

Abbreviation test A := (stmt tmem A).

Definition ASSERT_MSG (expr : bool) : test unit := puts (fun u => if expr then u else set_failure true u).
Definition ASSERT (expr : bool) : test unit := ASSERT_MSG expr.

(** [assert]: the program ends there, and fails. *)
Definition abort_unless (b : bool) : test unit :=
  fun k => if b then k tt else Local (fun u => (set_failure true u, Done (-1))).

(** Variables whose address is taken: [alloc] gives [n] cells. *)
Definition alloc (n : Z) : test Z := modify (fun u => (set_brk (brk u + n) u, brk u)).
Definition store_cell (a v : Z) : test unit := puts (set_cell a v).
Definition load_cell (a : Z) : test Z := gets (fun u => default 0%Z (cells u !! a)).

Definition bios_serial_ports : test nat := gets (fun u => length (PROXY u)).

(** ** Terminal proxies *)

(** [term_proxy_daemon_add]: at the back of the list of patterns. *)
Definition term_proxy_daemon_add (patterns : list bytes) (pattern : bytes) : list bytes := patterns ++ [pattern].

Definition term_proxy_expect (p : term_proxy) (pattern : bytes) : term_proxy := mkProxy (term_proxy_daemon_add (con p) pattern) (kbd p).
Definition term_proxy_sendme (p : term_proxy) (pattern : bytes) : term_proxy := mkProxy (con p) (term_proxy_daemon_add (kbd p) pattern).

Definition expect (term : nat) (pattern : bytes) : test unit :=
  n ← bios_serial_ports;
  _ ← abort_unless (bool_decide (term < n));
  puts (fun u => set_PROXY (alter (fun p => term_proxy_expect p pattern) term (PROXY u)) u).

Definition sendme (term : nat) (pattern : bytes) : test unit :=
  n ← bios_serial_ports;
  _ ← abort_unless (bool_decide (term < n));
  puts (fun u => set_PROXY (alter (fun p => term_proxy_sendme p pattern) term (PROXY u)) u).

(** [con_proc]: [input] are the pieces in which the output of the machine arrives; when there are no more of
  them the daemon is complete.  The number of bytes of the pattern that were not seen, and the input that is left. *)
Fixpoint con_proc (fuel : nat) (pat : bytes) (input : list bytes) : outcome (nat * list bytes) :=
  match fuel with
  | O => Err OutOfFuel
  | Datatypes.S fuel =>
      let plen := length pat in
      if decide (plen = 0) then Ret (0, input)
      else
        match input with
        | [] => Ret (plen, [])
        | piece :: more =>
            let rc := Nat.min (Nat.min plen 1024) (length piece) in
            _ ← c_assert (bool_decide (0 < rc));
            let rest := match drop rc piece with [] => more | p => p :: more end in
            if decide (take rc pat = take rc piece) then con_proc fuel (drop rc pat) rest else Ret (plen, rest)
        end
  end.

(** [kbd_proc]: [rooms] is how much fits when the descriptor is written, time after time, until the daemon is
  complete; [0] is [EAGAIN].  What was written, and what was not. *)
Fixpoint kbd_proc (pat : bytes) (rooms : list nat) : bytes * bytes :=
  match pat, rooms with
  | [], _ => ([], [])
  | _, [] => ([], pat)
  | _, r :: rooms => let '(w, rest) := kbd_proc (drop r pat) rooms in (take r pat ++ w, rest)
  end.

(** The daemon of a console: its patterns one after the other; does each of them pass? *)
Fixpoint con_daemon (patterns : list bytes) (input : list bytes) : outcome bool :=
  match patterns with
  | [] => Ret true
  | pat :: patterns =>
      '(plen, input) ← con_proc (Datatypes.S (length pat)) pat input;
      ok ← con_daemon patterns input;
      Ret (bool_decide (plen = 0) && ok)
  end.

(** [con_proc] accepts a pattern exactly if the output starts with it, however the output is cut in pieces, and
  then it has consumed just the pattern. *)
Lemma con_proc_ok fuel pat input : length pat < fuel -> Forall (fun p => p <> []) input ->
  exists n rest, con_proc fuel pat input = Ret (n, rest) /\ Forall (fun p => p <> []) rest /\
    (n = 0 <-> pat `prefix_of` mjoin input) /\ (n = 0 -> mjoin input = pat ++ mjoin rest).
Proof.
  revert pat input. induction fuel as [|fuel IH]; intros pat input Hf Hin; [lia|]. cbn [con_proc]. cbv zeta.
  destruct pat as [|b pat].
  { exists 0, input. rewrite decide_True by done. split; [done|]. split; [done|]. split; [|done]. split; [|done]. intros _. by exists (mjoin input). }
  rewrite decide_False by (simpl; lia). destruct input as [|piece more].
  { exists (Datatypes.S (length pat)), []. split; [done|]. split; [done|]. split; [|done]. split; [done|]. intros [k Hk]. by inversion Hk. }
  inversion Hin as [|? ? Hp Hmore]; subst. set (full := b :: pat) in *. change (Datatypes.S (length pat)) with (length full).
  set (rc := Nat.min (Nat.min (length full) 1024) (length piece)).
  assert (0 < rc <= length piece /\ rc <= length full) as [[Hrc Hrc1] Hrc2].
  { assert (0 < length piece) by (destruct piece; simpl; [done|lia]). assert (0 < length full) by (simpl; lia). unfold rc. lia. }
  rewrite bool_decide_true by done. cbn [c_assert]. rewrite ret_bind. set (rest := match drop rc piece with [] => more | p => p :: more end).
  assert (Forall (fun p => p <> []) rest) as Hrest.
  { unfold rest. destruct (drop rc piece) eqn:E; [done|]. by constructor. }
  assert (mjoin (piece :: more) = take rc piece ++ mjoin rest) as Hj.
  { unfold rest. simpl. rewrite <- (take_drop rc piece) at 1. rewrite <- app_assoc. f_equal. by destruct (drop rc piece). }
  rewrite Hj. destruct (decide (take rc full = take rc piece)) as [He|He].
  - destruct (IH (drop rc full) rest) as (n & r & E & Hr & Hiff & Hc); [rewrite length_drop; lia|done|].
    exists n, r. split; [exact E|]. split; [done|]. rewrite <- (take_drop rc full), He, <- app_assoc. split.
    + rewrite Hiff. split; [by intros ?; apply prefix_app|]. by intros ?%prefix_app_inv.
    + intros Hn. f_equal. by apply Hc.
  - exists (length full), rest. split; [done|]. split; [done|]. split; [|simpl; lia]. split; [simpl; lia|]. intros [k Hk].
    destruct He. apply (f_equal (take rc)) in Hk. rewrite take_app_length' in Hk by (rewrite length_take; lia).
    by rewrite Hk, take_app_le by done.
Qed.

(** [kbd_proc] writes a prefix of the pattern, all of it as soon as there was room. *)
Lemma kbd_proc_ok pat rooms : let '(w, rest) := kbd_proc pat rooms in
  pat = w ++ rest /\ (length pat <= sum_list rooms -> rest = []).
Proof.
  revert pat. induction rooms as [|r rooms IH]; intros [|b pat]; [done|simpl; split; [done|lia]|done|].
  specialize (IH (drop r (b :: pat))). cbn [kbd_proc]. destruct (kbd_proc (drop r (b :: pat)) rooms) as [w rest]. destruct IH as [IH1 IH2].
  split; [by rewrite <- app_assoc, <- IH1, take_drop|]. intros Hl. apply IH2. rewrite length_drop. change (sum_list (r :: rooms)) with (r + sum_list rooms) in Hl. lia.
Qed.

(** ** Execution of a test

  The daemons of the keyboards type when no process can take a step, then the terminals interrupt. *)
Section execute.
Context {T S : Type} `{SpawnOps T S} `{WakeOps T S}.
Context (tid_of : T -> Z) (initialize_scheduler : S -> S) (sched0 : S) (max_proc : nat).

Fixpoint type_all (ps : list term_proxy) (ts : ttys) : list term_proxy * ttys :=
  match ps, ts with
  | p :: ps, t :: ts =>
      let typed := mjoin ((fun pat => (kbd_proc pat [length pat]).1) <$> kbd p) in
      let '(ps, ts) := type_all ps ts in
      (mkProxy (con p) [] :: ps, mkTty (keyboard t ++ typed) (screen t) :: ts)
  | _, _ => (ps, ts)
  end.

Definition type_keys (s : sys tmem T S ttys) : sys tmem T S ttys :=
  let '(ps, ts) := type_all (PROXY (memory s)) (ports (kern s)) in
  mkSys (with_ports ts (kern s)) (threads s) (set_PROXY ps (memory s)).

Fixpoint test_run (fuel : nat) (s : sys tmem T S ttys) : outcome (sys tmem T S ttys) :=
  match fuel with
  | O => Err OutOfFuel
  | Datatypes.S fuel =>
      if decide (threads s = ∅) then Ret s
      else
        '(b, s) ← turn tid_of (seq 1 max_proc) s;
        s ← (if (b : bool) then Ret s
             else let s := type_keys s in k ← serial_rx_handler (kern s); Ret (with_kern k s));
        test_run fuel s
  end.

(** The daemons of the consoles, when the machine has stopped. *)
Fixpoint close_proxies (ps : list term_proxy) (ts : ttys) : outcome bool :=
  match ps, ts with
  | p :: ps, t :: ts =>
      ok ← con_daemon (con p) (match screen t with [] => [] | l => [l] end);
      oks ← close_proxies ps ts;
      Ret (ok && oks)
  | _, _ => Ret true
  end.

(** [execute_boot]: does the test pass? *)
Definition execute_boot (fuel nterm : nat) (bootfunc : Task tmem) (argl : Z) (args : option bytes) : outcome bool :=
  s ← Sys.boot initialize_scheduler max_proc max_proc bootfunc argl args sched0 (replicate nterm (mkTty [] []))
        (mkTmem false ∅ 8 (replicate nterm (mkProxy [] [])));
  s ← test_run fuel s;
  ok ← close_proxies (PROXY (memory s)) (ports (kern s));
  Ret (negb (FLAG_FAILURE (memory s)) && ok).

(** ** Tests and suites *)

Inductive Test :=
  | NO_FUNC (name : string)
  | BARE_FUNC (name : string) (bare : bool)
  | BOOT_FUNC (name : string) (boot : Task tmem) (minimum_terminals minimum_cores : nat)
  | SUITE_FUNC (name : string) (suite : list Test).

Definition test_name (t : Test) : string :=
  match t with NO_FUNC n | BARE_FUNC n _ | BOOT_FUNC n _ _ _ | SUITE_FUNC n _ => n end.

(** A test that is skipped counts as a success. *)
Definition run_boot_test (fuel : nat) (boot : Task tmem) (minimum_terminals minimum_cores ncores nterm : nat) : bool :=
  let skipped := negb (bool_decide (minimum_cores <= ncores) && bool_decide (minimum_terminals <= nterm)) in
  if skipped then true
  else match execute_boot fuel nterm boot 0 None with Ret b => b | Err _ => false end.

Record Results := mkResults { number_of_tests : nat; successful : nat }.

(** The rest of a suite, given how to run a test. *)
Fixpoint run_tests (run : Test -> bool) (tests : list Test) (r : Results) : Results :=
  match tests with
  | [] => r
  | t :: tests =>
      let testres := run t in
      run_tests run tests (mkResults (number_of_tests r + 1) (if testres then successful r + 1 else successful r))
  end.

Definition run_suite (run : Test -> bool) (tests : list Test) : bool :=
  let r := run_tests run tests (mkResults 0 0) in bool_decide (number_of_tests r = successful r).

(** [core_list] and [term_list] are those of the command line. *)
Fixpoint run_test (fuel : nat) (core_list term_list : list nat) (t : Test) : bool :=
  match t with
  | NO_FUNC _ => true
  | BARE_FUNC _ bare => bare
  | BOOT_FUNC _ boot mt mc => forallb (fun nc => forallb (fun nt => run_boot_test fuel boot mt mc nc nt) term_list) core_list
  | SUITE_FUNC _ suite => run_suite (run_test fuel core_list term_list) suite
  end.
End execute.

(** A suite succeeds exactly if all of its tests do. *)
Lemma run_tests_ok run tests r : successful r <= number_of_tests r ->
  let r' := run_tests run tests r in successful r' <= number_of_tests r' /\
    (number_of_tests r' = successful r' <-> number_of_tests r = successful r /\ forallb run tests = true).
Proof.
  revert r. induction tests as [|t tests IH]; intros r Hr; cbn [run_tests forallb]; [naive_solver lia|].
  destruct (run t); cbn [andb]; (edestruct IH as [IH1 IH2]; [|split; [exact IH1|rewrite IH2]]); simpl; [lia|naive_solver lia|lia|].
  split; [intros []; lia|by intros []].
Qed.

Lemma run_suite_ok run tests : run_suite run tests = forallb run tests.
Proof.
  unfold run_suite. destruct (run_tests_ok run tests (mkResults 0 0)) as [_ Hiff]; [done|]. simpl in Hiff.
  destruct (forallb run tests); [apply bool_decide_eq_true_2; naive_solver|apply bool_decide_eq_false_2; naive_solver].
Qed.

(** [find_test]: the first test of that name, a suite before its tests. *)
Fixpoint find_test (name : string) (t : Test) : option Test :=
  if decide (name = test_name t) then Some t
  else
    match t with
    | SUITE_FUNC _ suite =>
        (fix find ts := match ts with [] => None | t :: ts => match find_test name t with Some x => Some x | None => find ts end end) suite
    | _ => None
    end.

(** [register_test]: [None] is the error of a table that is full. *)
Definition MAX_TESTS_AVAILABLE : nat := 64.
Definition register_test (t : Test) (available : list Test) : option (list Test) :=
  if decide (length available < MAX_TESTS_AVAILABLE) then Some (available ++ [t]) else None.

(** ** The lists of the command line

  [parse_int_list]: [nlist] is the array of the caller.  The result is the value of the function and, when the
  input was well formed, the length and the array. *)

(** [for(j=0; j<i; j++) if(num==nlist[j]) break;]: is it found? *)
Fixpoint check_duplicate (num : Z) (nlist : list Z) (i : nat) : outcome bool :=
  match i, nlist with
  | O, _ => Ret false
  | Datatypes.S _, [] => Err BadAccess
  | Datatypes.S i, x :: nlist => if decide (num = x) then Ret true else check_duplicate num nlist i
  end.

Definition args_size (from to : Z) : nat := Z.to_nat (to - from + 1).

Fixpoint parse_tokens (tokens : list bytes) (args nlist : list Z) (from to : Z) : outcome (option (list Z)) :=
  match tokens with
  | [] => Ret (Some args)
  | token :: tokens =>
      match strtol token with
      | None => Ret None
      | Some (_, _ :: _) => Ret None
      | Some (v, []) =>
          let num := s32 v in
          if decide (num < from \/ to < num)%Z then Ret None
          else
            dup ← check_duplicate num nlist (length args);
            if (dup : bool) then parse_tokens tokens args nlist from to
            else
              _ ← (if decide (length args < args_size from to) then Ret tt else Err BadAccess);
              parse_tokens tokens (args ++ [num]) nlist from to
      end
  end.

Definition parse_int_list (arg : bytes) (nlist : list Z) (from to : Z) : outcome (bool * option (nat * list Z)) :=
  o ← parse_tokens (strtok (fun c => bool_decide (c = 44%Z)) arg []) [] nlist from to;
  match o with
  | None => Ret (false, None)
  | Some args =>
      let i := length args in
      _ ← (if decide (i <= length nlist) then Ret tt else Err BadAccess);
      Ret (bool_decide (0 < i), Some (i, merge_sort Z.le args ++ drop i nlist))
  end.

(** The duplicates are looked for in the array of the caller, which still holds its old values: a number that is
  there is left out, and one that comes twice is stored twice. *)
Lemma parse_int_list_loses : parse_int_list (str "4,1") [1; 0; 0; 0]%Z 1 4 = Ret (true, Some (1, [4; 0; 0; 0]%Z)).
Proof. vm_compute; reflexivity. Qed.

Lemma parse_int_list_repeats : parse_int_list (str "2,2") [1; 0; 0; 0]%Z 1 4 = Ret (true, Some (2, [2; 2; 0; 0]%Z)).
Proof. vm_compute; reflexivity. Qed.

(** ** Messages *)

Record msg_state := mkMsg { INDENT_STACK : list nat; INDENT_POS : nat; CURRENT_POS : nat; EMIT_INDENT : bool }.

Definition INDENT_STACK_MAX : nat := 128.
Definition INDENT_STEP : nat := 8.

Definition INDENT (m : msg_state) : outcome msg_state :=
  _ ← c_assert (bool_decide (length (INDENT_STACK m) < INDENT_STACK_MAX));
  Ret (mkMsg (INDENT_POS m :: INDENT_STACK m) (INDENT_POS m + INDENT_STEP) (CURRENT_POS m) (EMIT_INDENT m)).

Definition UNINDENT (m : msg_state) : outcome msg_state :=
  match INDENT_STACK m with
  | [] => Err AssertFail
  | pos :: stack => Ret (mkMsg stack pos (CURRENT_POS m) (EMIT_INDENT m))
  end.

Definition TAB (m : msg_state) : outcome msg_state :=
  _ ← c_assert (bool_decide (length (INDENT_STACK m) < INDENT_STACK_MAX));
  Ret (mkMsg (INDENT_POS m :: INDENT_STACK m) (INDENT_POS m + CURRENT_POS m) (CURRENT_POS m) (EMIT_INDENT m)).

(** [MSG], after the text was formatted: what is written to [stderr]. *)
Fixpoint MSG (buffer : bytes) (m : msg_state) : bytes * msg_state :=
  match buffer with
  | [] => ([], m)
  | c :: buffer =>
      let spaces := if EMIT_INDENT m then replicate (INDENT_POS m) 32%Z else [] in
      let m := if decide (c = 10%Z) then mkMsg (INDENT_STACK m) (INDENT_POS m) 0 true
               else mkMsg (INDENT_STACK m) (INDENT_POS m) (CURRENT_POS m + 1) false in
      let '(out, m) := MSG buffer m in (spaces ++ c :: out, m)
  end.

(** What is printed between [INDENT] and [UNINDENT] does not change the indentation outside. *)
Lemma MSG_stack buffer m : INDENT_STACK (MSG buffer m).2 = INDENT_STACK m /\ INDENT_POS (MSG buffer m).2 = INDENT_POS m.
Proof.
  revert m. induction buffer as [|c buffer IH]; intros m; [done|]. cbn [MSG]. cbv zeta.
  destruct (decide (c = 10%Z)); (match goal with |- context [MSG buffer ?m'] => destruct (IH m') as [E1 E2]; destruct (MSG buffer m') end); done.
Qed.

Lemma INDENT_UNINDENT m m1 buffer : INDENT m = Ret m1 ->
  exists m2, UNINDENT (MSG buffer m1).2 = Ret m2 /\ INDENT_STACK m2 = INDENT_STACK m /\ INDENT_POS m2 = INDENT_POS m.
Proof.
  intros Hm. unfold INDENT in Hm. inv_ret. edestruct (MSG_stack buffer) as [E _]. unfold UNINDENT. rewrite E. simpl. by eexists.
Qed.

(** ** The command line

  What [argp] finds in the command line are options with their arguments, other arguments, or that there are none of
  these; [argp_error] ends the program. *)
Record program_arguments := mkArgs {
  show_tests : bool; verbose : nat; use_color : bool; fork : bool;
  ncore_list : nat; core_list : list Z;
  nterm_list : nat; term_list : list Z;
  tests : list Test
}.

Definition max_cores : Z := 32.
Definition max_terminals : Z := 4.
Definition MAX_TESTS : nat := 1024.

Definition ARGS0 : program_arguments :=
  mkArgs false 0 true true 1 (1%Z :: replicate 31 0%Z) 1 (replicate 5 0%Z) [].

Inductive key := Option_key (c : Z) (arg : bytes) | ARGP_KEY_ARG (arg : string) | ARGP_KEY_NO_ARGS | Other_key.

Inductive parsed := Parsed (a : program_arguments) | ARGP_ERR_UNKNOWN | Exits.

Definition add_test (t : Test) (a : program_arguments) : program_arguments :=
  mkArgs (show_tests a) (verbose a) (use_color a) (fork a) (ncore_list a) (core_list a) (nterm_list a) (term_list a) (tests a ++ [t]).

Definition set_cores (n : nat) (l : list Z) (a : program_arguments) : program_arguments :=
  mkArgs (show_tests a) (verbose a) (use_color a) (fork a) n l (nterm_list a) (term_list a) (tests a).
Definition set_terms (n : nat) (l : list Z) (a : program_arguments) : program_arguments :=
  mkArgs (show_tests a) (verbose a) (use_color a) (fork a) (ncore_list a) (core_list a) n l (tests a).

(** What [parse_int_list] does to the list of an option; a list that was parsed but is empty is an error too. *)
Definition int_option (arg : bytes) (nlist : list Z) (from to : Z) (set : nat -> list Z -> program_arguments) : outcome parsed :=
  '(ok, r) ← parse_int_list arg nlist from to;
  Ret (match r with Some (n, l) => if (ok : bool) then Parsed (set n l) else Exits | None => Exits end).

Definition parse_options (available : list Test) (default_test : Test) (k : key) (a : program_arguments) : outcome parsed :=
  match k with
  | Option_key c arg =>
      if decide (c = 108%Z) then Ret (Parsed (mkArgs true (verbose a) (use_color a) (fork a) (ncore_list a) (core_list a) (nterm_list a) (term_list a) (tests a)))
      else if decide (c = 118%Z) then Ret (Parsed (mkArgs (show_tests a) (verbose a + 1) (use_color a) (fork a) (ncore_list a) (core_list a) (nterm_list a) (term_list a) (tests a)))
      else if decide (c = 110%Z) then Ret (Parsed (mkArgs (show_tests a) (verbose a) false (fork a) (ncore_list a) (core_list a) (nterm_list a) (term_list a) (tests a)))
      else if decide (c = 102%Z) then Ret (Parsed (mkArgs (show_tests a) (verbose a) (use_color a) false (ncore_list a) (core_list a) (nterm_list a) (term_list a) (tests a)))
      else if decide (c = 99%Z) then int_option arg (core_list a) 1 max_cores (fun n l => set_cores n l a)
      else if decide (c = 116%Z) then int_option arg (term_list a) 0 max_terminals (fun n l => set_terms n l a)
      else Ret ARGP_ERR_UNKNOWN
  | ARGP_KEY_ARG arg =>
      if decide (MAX_TESTS <= length (tests a)) then Ret Exits
      else match find_test arg (SUITE_FUNC "all_tests_available" available) with
           | Some test => Ret (Parsed (add_test test a))
           | None => Ret Exits
           end
  | ARGP_KEY_NO_ARGS => Ret (Parsed (add_test default_test a))
  | Other_key => Ret ARGP_ERR_UNKNOWN
  end.

(** [argp_parse], which goes on with the next key when one is not known. *)
Fixpoint argp_parse (available : list Test) (default_test : Test) (ks : list key) (a : program_arguments) : outcome (option program_arguments) :=
  match ks with
  | [] => Ret (Some a)
  | k :: ks =>
      r ← parse_options available default_test k a;
      match r with
      | Parsed a => argp_parse available default_test ks a
      | ARGP_ERR_UNKNOWN => argp_parse available default_test ks a
      | Exits => Ret None
      end
  end.

(** *** The list of the tests *)

Section show.
(** What the descriptor of a test says besides, and whether [stderr] is a terminal. *)
Context (description : Test -> bytes) (timeout minimum_cores_of minimum_terminals_of : Test -> Z) (tty : bool).

Definition COLOR (msg color : bytes) : bytes := take 255 ((if tty then color else []) ++ msg ++ (if tty then 27%Z :: str "[0m" else [])).
Definition WHITE : bytes := 27%Z :: str "[37;1m".
Definition YELLOW : bytes := 27%Z :: str "[33;1m".

(** A string in a field of [w] places, left-aligned, and the end of the line. *)
Definition name_line (s : bytes) : bytes := s ++ replicate (40 - length s) 32%Z ++ [10%Z].

(** The text that some statements print, one after the other. *)
Definition printer : Type := msg_state -> outcome (bytes * msg_state).
Definition print (buffer : bytes) : printer := fun m => Ret (MSG buffer m).
Definition indented (f : msg_state -> outcome msg_state) : printer := fun m => m ← f m; Ret ([], m).
Definition and_then (p q : printer) : printer := fun m => '(out, m) ← p m; '(out', m) ← q m; Ret (out ++ out', m).

Definition in_indent (p : printer) : printer := and_then (indented INDENT) (and_then p (indented UNINDENT)).

Definition show_leaf (verbose : nat) (t : Test) : printer :=
  and_then (print (name_line (COLOR (str (test_name t)) WHITE)))
    (if decide (0 < verbose) then
       in_indent (and_then (print (description t ++ [10%Z]))
         (if decide (1 < verbose) then
            and_then (print (str ".timeout = " ++ decimal (timeout t) ++ str " sec" ++ [10%Z]))
              (print (str ".minimum cores = " ++ decimal (minimum_cores_of t) ++ [10%Z] ++
                      str ".minimum terminals = " ++ decimal (minimum_terminals_of t) ++ [10%Z]))
          else print []))
     else print []).

Fixpoint show_test (verbose : nat) (t : Test) : printer :=
  match t with
  | SUITE_FUNC name suite =>
      and_then (print (name_line (COLOR (str name) YELLOW)))
        (in_indent (and_then (if decide (verbose <> 0) then print (description t ++ [10%Z]) else print [])
          ((fix show ts := match ts with [] => print [] | t :: ts => and_then (show_test verbose t) (show ts) end) suite)))
  | _ => show_leaf verbose t
  end.

(** [run_program]: what is shown, or the tests that are run, one after the other; [None] when the command line ends
  the program. *)
Definition run_program (run : program_arguments -> Test -> bool) (available : list Test) (default_test : Test) (ks : list key) (m : msg_state) :
    outcome (option (bytes + list bool)) :=
  o ← argp_parse available default_test ks ARGS0;
  match o with
  | None => Ret None
  | Some a =>
      if show_tests a then '(out, _) ← show_test (verbose a) (SUITE_FUNC "all_tests_available" available) m; Ret (Some (inl out))
      else Ret (Some (inr (run a <$> tests a)))
  end.
End show.

(** *** Lemmas *)

Lemma parse_tokens_range tokens : forall args nlist from to args', parse_tokens tokens args nlist from to = Ret (Some args') ->
  Forall (fun x => from <= x <= to)%Z args -> length args <= args_size from to ->
  Forall (fun x => from <= x <= to)%Z args' /\ length args' <= args_size from to.
Proof.
  induction tokens as [|token tokens IH]; intros args nlist from to args' Hp Ha Hl; cbn [parse_tokens] in Hp; [by simplify_eq|].
  destruct (strtol token) as [[v [|]]|]; try done. cbv zeta in Hp. destruct (decide _) as [|Hr]; [done|].
  apply bind_Ret in Hp as ([|] & Hd & Hp); [by eapply IH|].
  apply bind_Ret in Hp as ([] & Hlt & Hp). destruct (decide (length args < _)) in Hlt; [|done].
  eapply IH; [exact Hp| |rewrite length_app; simpl; lia]. apply Forall_app. split; [done|]. apply Forall_singleton. lia.
Qed.

(** A list of numbers of the command line: not empty, sorted, in range, in its array. *)
Definition int_list_ok (from to : Z) (n : nat) (l : list Z) : Prop :=
  0 < n <= length l /\ Sorted Z.le (take n l) /\ Forall (fun x => from <= x <= to)%Z (take n l).

Lemma parse_int_list_range arg nlist from to n l : parse_int_list arg nlist from to = Ret (true, Some (n, l)) ->
  int_list_ok from to n l /\ length l = length nlist.
Proof.
  unfold parse_int_list, int_list_ok. intros Hp. apply bind_Ret in Hp as ([args|] & Ht & Hp); [|done].
  apply bind_Ret in Hp as ([] & Hi & Hp). destruct (decide (length args <= length nlist)) as [Hle|]; [|done]. simplify_eq.
  match goal with H : bool_decide _ = true |- _ => apply bool_decide_eq_true in H end.
  pose proof (merge_sort_Permutation Z.le args) as Hperm. pose proof (Permutation_length Hperm) as Hlen.
  destruct (parse_tokens_range _ _ _ _ _ _ Ht) as [Hr _]; [constructor|simpl; lia|].
  rewrite length_app, Hlen, length_drop. split; [|lia]. split; [lia|].
  rewrite take_app_length' by done. split; [apply Sorted_merge_sort; intros ??; lia|]. by rewrite Hperm.
Qed.

Record args_ok (a : program_arguments) : Prop := {
  ao_cores : int_list_ok 1 max_cores (ncore_list a) (core_list a);
  ao_terms : int_list_ok 0 max_terminals (nterm_list a) (term_list a)
}.

Lemma int_option_ok arg nlist from to set b : int_option arg nlist from to set = Ret (Parsed b) ->
  exists n l, int_list_ok from to n l /\ b = set n l.
Proof.
  unfold int_option. intros Hp. apply bind_Ret in Hp as ([[] [[n l]|]] & E & Hp); simplify_eq.
  exists n, l. split; [|done]. by apply parse_int_list_range in E as [? _].
Qed.

Lemma parse_options_ok available default_test k a b : args_ok a -> parse_options available default_test k a = Ret (Parsed b) -> args_ok b.
Proof.
  intros [Hc Ht] Hp. destruct k as [c arg|arg| |]; cbn [parse_options] in Hp.
  - repeat (destruct (decide (c = _)) as [Hk|Hk]; [first [(simplify_eq; by split) | (apply int_option_ok in Hp as (n & l & Hl & ->); by split)]|clear Hk]). done.
  - destruct (decide _); [done|]. destruct (find_test _ _); simplify_eq. by split.
  - simplify_eq. by split.
  - done.
Qed.

Lemma argp_parse_ok available default_test ks : forall a b, args_ok a -> argp_parse available default_test ks a = Ret (Some b) -> args_ok b.
Proof.
  induction ks as [|k ks IH]; intros a b Ha Hp; cbn [argp_parse] in Hp; [by simplify_eq|].
  apply bind_Ret in Hp as (r & Hr & Hp). destruct r as [a'| |]; [|by eapply IH|done]. eapply IH, Hp. by eapply parse_options_ok.
Qed.

Lemma ARGS0_ok : args_ok ARGS0.
Proof.
  split; unfold int_list_ok, max_cores, max_terminals; cbn; (split; [lia|]); split; repeat constructor; lia.
Qed.

(** Whatever the command line, the machines that the tests run on are such as [boot] accepts: there is at least one
    number of cores and one of terminals, the numbers are sorted, and every one is in its range. *)
Theorem options_in_range available default_test ks a : argp_parse available default_test ks ARGS0 = Ret (Some a) ->
  int_list_ok 1 max_cores (ncore_list a) (core_list a) /\ int_list_ok 0 max_terminals (nterm_list a) (term_list a).
Proof. intros Hp. destruct (argp_parse_ok _ _ _ _ _ ARGS0_ok Hp). by split. Qed.

Lemma options_in_range_witness : exists a, argp_parse [] (NO_FUNC "none") [Option_key 99 (str "8,2"); Option_key 116 (str "4"); ARGP_KEY_NO_ARGS] ARGS0 = Ret (Some a) /\
  int_list_ok 1 max_cores (ncore_list a) (core_list a).
Proof.
  eexists. split; [vm_compute; reflexivity|].
  eapply (options_in_range [] (NO_FUNC "none") [Option_key 99 (str "8,2"); Option_key 116 (str "4"); ARGP_KEY_NO_ARGS]).
  vm_compute. reflexivity.
Defined.

(** A list that repeats a number often enough runs over the array. *)
Lemma repeated_numbers_overflow : parse_int_list (str "1,1,1,1,1,1") (term_list ARGS0) 0 max_terminals = Err BadAccess.
Proof. vm_compute; reflexivity. Qed.

(** What is shown keeps the indentation. *)
Definition keeps (p : printer) : Prop := forall m out m', p m = Ret (out, m') -> INDENT_STACK m' = INDENT_STACK m /\ INDENT_POS m' = INDENT_POS m.

Lemma print_keeps buffer : keeps (print buffer).
Proof. intros m out m' [= E]. pose proof (MSG_stack buffer m) as Hm. by rewrite E in Hm. Qed.

Lemma and_then_keeps p q : keeps p -> keeps q -> keeps (and_then p q).
Proof.
  intros Hp Hq m out m' E. unfold and_then in E. apply bind_Ret in E as ([o1 m1] & E1 & E). apply bind_Ret in E as ([o2 m2] & E2 & E).
  simplify_eq. destruct (Hp _ _ _ E1), (Hq _ _ _ E2). split; congruence.
Qed.

Lemma in_indent_keeps p : keeps p -> keeps (in_indent p).
Proof.
  intros Hp m out m' E. unfold in_indent, and_then, indented in E. inv_ret.
  match goal with H : p _ = Ret _ |- _ => apply Hp in H as [E1 E2] end.
  unfold INDENT, UNINDENT in *. inv_ret. match goal with H : INDENT_STACK _ = _ :: _ |- _ => rewrite H in * end. by simplify_eq/=.
Qed.

Lemma show_leaf_keeps description timeout mc mt tty verbose t : keeps (show_leaf description timeout mc mt tty verbose t).
Proof.
  unfold show_leaf. apply and_then_keeps; [apply print_keeps|]. destruct (decide _); [|apply print_keeps].
  apply in_indent_keeps, and_then_keeps; [apply print_keeps|]. destruct (decide _); [|apply print_keeps]. apply and_then_keeps; apply print_keeps.
Qed.

Lemma show_test_keeps description timeout mc mt tty verbose : forall t, keeps (show_test description timeout mc mt tty verbose t).
Proof.
  fix IH 1. intros t. destruct t as [name|name b|name b n1 n2|name suite]; try apply show_leaf_keeps. cbn [show_test].
  apply and_then_keeps; [apply print_keeps|]. apply in_indent_keeps, and_then_keeps; [destruct (decide _); apply print_keeps|].
  induction suite as [|t suite IHs]; [apply print_keeps|]. apply and_then_keeps; [apply IH|exact IHs].
Qed.
