(* ===== verification/TestRunner.v ===== *)
(** * The processes and threads of the test library (unit_testing.c)

  [UnitTest] says what a test does to the machine that it boots.  Here is what surrounds it on the host: the process in
  which a test is executed, with its time limit, and the daemons of the terminals. *)

From Stdlib Require Import String.
From S2P Require Import Prelude Bios Kernel.
#[local] Open Scope nat_scope.

(** ** Executing a function in a process of its own *)

Module Fork.
Definition SIGABRT : Z := 6.
Definition SIGALRM : Z := 14.
Definition SIGTERM : Z := 15.
Definition SIGCHLD : Z := 17.

(** The status that [waitpid] answers. *)
Inductive wait_status := Exited (code : Z) | Signaled (sig : Z).
#[export] Instance wait_status_eq_dec : EqDecision wait_status.
Proof. solve_decision. Defined.

(** [WIFEXITED(status) && WEXITSTATUS(status)==129] *)
Definition test_passed (st : wait_status) : bool := bool_decide (st = Exited 129).

(** How [procfunc] ends, if it ends: it returns, with [FLAG_FAILURE] set or not, or it ends the process. *)
Inductive ending := Returns (failed : bool) | Exits (code : Z) | Crashes (sig : Z).

(** [if(FLAG_FAILURE) abort(); exit(129);] *)
Definition child_status (e : ending) : wait_status :=
  match e with
  | Returns failed => if failed then Signaled SIGABRT else Exited 129
  | Exits code => Exited (code mod 256)
  | Crashes sig => Signaled sig
  end.

Inductive child := NoChild | Running | Zombie (st : wait_status) | Reaped.

Inductive fork_pc :=
  | F_block_chld | F_fork | F_block_alrm | F_alarm | F_sigwait | F_cancel (signo : Z) | F_kill | F_waitpid
  | F_restore (st : wait_status) | F_return (st : wait_status) | F_killed (sig : Z).

(** The runner: its signal mask, the signals that are pending, its alarm, its child and its [FLAG_FAILURE]. *)
Record runner := mkRunner { at_ : fork_pc; blocked : gset Z; pending : gset Z; alarm_set : bool; proc : child; flag : bool }.

Definition runner0 : runner := mkRunner F_block_chld ∅ ∅ false NoChild false.

Definition goto (pc : fork_pc) (s : runner) : runner := mkRunner pc (blocked s) (pending s) (alarm_set s) (proc s) (flag s).

(** A signal comes: by default SIGCHLD is ignored and SIGALRM ends the process. *)
Definition deliver (sig : Z) (s : runner) : runner :=
  if decide (sig ∈ blocked s) then mkRunner (at_ s) (blocked s) ({[sig]} ∪ pending s) (alarm_set s) (proc s) (flag s)
  else if decide (sig = SIGALRM) then goto (F_killed SIGALRM) s else s.

Definition child_ends (st : wait_status) (s : runner) : runner :=
  deliver SIGCHLD (mkRunner (at_ s) (blocked s) (pending s) (alarm_set s) (Zombie st) (flag s)).

(** The next instruction of the runner; [sig] is the signal that [sigwait] takes. *)
Definition execute_fork (timeout : nat) (sig : Z) (s : runner) : option runner :=
  match at_ s with
  | F_block_chld => Some (mkRunner F_fork ({[SIGCHLD]} ∪ blocked s) (pending s) (alarm_set s) (proc s) (flag s))
  | F_fork => Some (mkRunner F_block_alrm (blocked s) (pending s) (alarm_set s) Running (flag s))
  | F_block_alrm => Some (mkRunner F_alarm ({[SIGALRM; SIGCHLD]} ∪ blocked s) (pending s) (alarm_set s) (proc s) (flag s))
  | F_alarm => Some (mkRunner F_sigwait (blocked s) (pending s) (bool_decide (0 < timeout)) (proc s) (flag s))
  | F_sigwait => if decide (sig ∈ pending s) then Some (mkRunner (F_cancel sig) (blocked s) (pending s ∖ {[sig]}) (alarm_set s) (proc s) (flag s)) else None
  | F_cancel signo => Some (
      if decide (signo = SIGALRM) then mkRunner F_kill (blocked s) (pending s) false (proc s) true
      else mkRunner F_waitpid (blocked s) (pending s) false (proc s) (flag s))
  | F_kill => Some (goto F_waitpid (match proc s with Running => child_ends (Signaled SIGTERM) s | _ => s end))
  | F_waitpid => match proc s with Zombie st => Some (mkRunner (F_restore st) (blocked s) (pending s) (alarm_set s) Reaped (flag s)) | _ => None end
  | F_restore st => Some (mkRunner (if decide (SIGALRM ∈ pending s) then F_killed SIGALRM else F_return st) ∅ ∅ (alarm_set s) (proc s) (flag s))
  | F_return _ | F_killed _ => None
  end.

(** Besides, the child ends and the alarm rings. *)
Inductive fork_step (timeout : nat) (e : ending) (s : runner) : runner -> Prop :=
  | step_runner sig s' : execute_fork timeout sig s = Some s' -> fork_step timeout e s s'
  | step_child : proc s = Running -> fork_step timeout e s (child_ends (child_status e) s)
  | step_alarm : alarm_set s = true ->
      fork_step timeout e s (deliver SIGALRM (mkRunner (at_ s) (blocked s) (pending s) false (proc s) (flag s))).

(** [execute_nofork]: what it returns, if it does; a failure aborts the runner. *)
Definition execute_nofork (e : ending) : option wait_status := match e with Returns false => Some (Exited 129) | _ => None end.

(** *** The invariant *)

Section fork.
Context (timeout : nat) (e : ending).
Implicit Types (s : runner) (st : wait_status).

(** The statuses of the child: its own, or that of a child that was killed when the time was out. *)
Definition status_ok s st : Prop := st = child_status e \/ (st = Signaled SIGTERM /\ flag s = true).
Definition has_ended s : Prop := exists st, proc s = Zombie st /\ status_ok s st.
Definition alive_or_reported s : Prop := proc s = Running \/ (SIGCHLD ∈ pending s /\ proc s = Zombie (child_status e)).
Definition both_blocked s : Prop := SIGALRM ∈ blocked s /\ SIGCHLD ∈ blocked s.

Definition pc_inv s : Prop :=
  match at_ s with
  | F_block_chld => blocked s = ∅ /\ proc s = NoChild /\ pending s = ∅ /\ alarm_set s = false /\ flag s = false
  | F_fork => SIGCHLD ∈ blocked s /\ proc s = NoChild /\ pending s = ∅ /\ alarm_set s = false /\ flag s = false
  | F_block_alrm => SIGCHLD ∈ blocked s /\ alive_or_reported s /\ alarm_set s = false /\ flag s = false
  | F_alarm => both_blocked s /\ alive_or_reported s /\ alarm_set s = false /\ flag s = false
  | F_sigwait => both_blocked s /\ alive_or_reported s /\ (alarm_set s = true \/ SIGALRM ∈ pending s \/ timeout = 0) /\ flag s = false
  | F_cancel signo => both_blocked s /\ (if decide (signo = SIGALRM) then proc s = Running \/ has_ended s else has_ended s)
  | F_kill => both_blocked s /\ alarm_set s = false /\ flag s = true /\ (proc s = Running \/ has_ended s)
  | F_waitpid => both_blocked s /\ alarm_set s = false /\ has_ended s
  | F_restore st => both_blocked s /\ alarm_set s = false /\ proc s = Reaped /\ status_ok s st
  | F_return st => blocked s = ∅ /\ alarm_set s = false /\ proc s = Reaped /\ status_ok s st
  | F_killed _ => True
  end.

Record fork_inv s : Prop := {
  fi_pc : pc_inv s;
  fi_time : alarm_set s = true \/ SIGALRM ∈ pending s \/ flag s = true \/ at_ s = F_cancel SIGALRM -> 0 < timeout;
  fi_pending sig : sig ∈ pending s -> sig = SIGALRM \/ sig = SIGCHLD;
  fi_reported : SIGCHLD ∈ pending s -> proc s <> Running
}.

Lemma fork_inv0 : fork_inv runner0.
Proof. split; simpl; [done|..]; set_solver. Qed.

Lemma runner_step_ok sig s s' : fork_inv s -> execute_fork timeout sig s = Some s' -> fork_inv s'.
Proof.
  intros [I1 I2 I3 I4] E. unfold execute_fork, pc_inv in *. destruct (at_ s) eqn:Hpc; simplify_eq/=.
  - destruct I1 as (Hb & Hc & Hp & Ha & Hf). split; unfold pc_inv; simpl; [set_solver|..]; rewrite ?Hp, ?Hf, ?Ha in *; set_solver.
  - destruct I1 as (Hb & Hc & Hp & Ha & Hf). split; unfold pc_inv, alive_or_reported; simpl; [set_solver|..]; rewrite ?Hp, ?Hf, ?Ha in *; set_solver.
  - destruct I1 as (Hb & Hc & Ha & Hf). split; unfold pc_inv, both_blocked; simpl; [set_solver|..]; rewrite ?Hf, ?Ha in *; set_solver.
  - destruct I1 as (Hb & Hc & Ha & Hf). split; unfold pc_inv; simpl; [|..|done|done].
    + split; [done|]. split; [done|]. split; [|done]. destruct (decide (0 < timeout)); [left; by apply bool_decide_eq_true|right; right; lia].
    + rewrite bool_decide_eq_true. intros [?|[?|[?|?]]]; [done|auto|congruence|done].
  - destruct (decide (sig ∈ pending s)) as [Hs|]; [|done]. injection E as <-. destruct I1 as (Hb & Hc & Ha & Hf).
    split; unfold pc_inv; simpl; [|..|set_solver|set_solver].
    + split; [done|]. destruct (I3 sig Hs) as [-> | ->].
      * rewrite decide_True by done. destruct Hc as [?|[_ ?]]; [by left|right]. eexists. split; [done|by left].
      * rewrite decide_False by done. destruct Hc as [?|[_ ?]]; [by destruct (I4 Hs)|]. eexists. split; [done|by left].
    + intros [?|[?|[?|[= ->]]]]; apply I2; [by left|right; left; set_solver|auto|auto].
  - destruct I1 as [Hb Hc]. destruct (decide (signo = SIGALRM)) as [->|Hne]; (split; unfold pc_inv; simpl; [|..|done|done]).
    + split; [done|]. split; [done|]. split; [done|]. destruct Hc as [?|(st & ? & [?|[? ?]])]; [by left|right..]; exists st; (split; [done|]); [by left|by right].
    + intros _. apply I2. auto.
    + done.
    + intros [?|[?|[?|?]]]; [done|auto|auto|done].
  - destruct I1 as ((Hb1 & Hb2) & Ha & Hf & Hc). destruct (proc s) as [| |st|] eqn:Hp.
    + destruct Hc as [?|(st & ? & _)]; congruence.
    + unfold child_ends, deliver. simpl. rewrite decide_True by done. split; unfold pc_inv; simpl; [|..|set_solver|done].
      * split; [done|]. split; [done|]. exists (Signaled SIGTERM). split; [done|by right].
      * intros [?|[Hx|[?|?]]]; [auto|apply I2; right; left; set_solver|auto|done].
    + split; unfold pc_inv; simpl; [|..|done|by rewrite Hp].
      * split; [done|]. split; [done|]. destruct Hc as [?|Hc]; [congruence|]. exact Hc.
      * intros [?|[?|[?|?]]]; apply I2; auto.
    + destruct Hc as [?|(st & ? & _)]; congruence.
  - destruct I1 as (Hb & Ha & (st & Hp & Hst)). rewrite Hp in E. injection E as <-. split; unfold pc_inv; simpl; [done|..|done|done].
    intros [?|[?|[?|?]]]; [auto|auto|auto|done].
  - destruct I1 as (Hb & Ha & Hp & Hst). destruct (decide (SIGALRM ∈ pending s)); (split; unfold pc_inv; simpl; [done|..|set_solver|set_solver]);
      (intros [?|[?|[?|?]]]; [auto|set_solver|auto|done]).
Qed.

Lemma child_step_ok s : fork_inv s -> proc s = Running -> fork_inv (child_ends (child_status e) s).
Proof.
  intros [I1 I2 I3 I4] Hp. unfold child_ends, deliver, pc_inv in *. simpl.
  assert (has_ended (mkRunner (at_ s) (blocked s) ({[SIGCHLD]} ∪ pending s) (alarm_set s) (Zombie (child_status e)) (flag s))) as Hz.
  { exists (child_status e). split; [done|by left]. }
  destruct (decide (SIGCHLD ∈ blocked s)) as [Hb|Hb].
  - split; simpl; [|intros [?|[?|[?|?]]]; [auto|apply I2; right; left; set_solver|auto|auto]|set_solver|done].
    unfold pc_inv. simpl. destruct (at_ s) as [| | | | |signo| | |st|st|sig]; simpl in *; try done.
    + set_solver.
    + by destruct I1 as (? & ? & _); congruence.
    + destruct I1 as (H1 & _ & H2). split; [done|]. split; [right; split; [simpl; set_solver|done]|done].
    + destruct I1 as (H1 & _ & H2). split; [done|]. split; [right; split; [simpl; set_solver|done]|done].
    + destruct I1 as (H1 & _ & H2 & H3). split; [done|]. split; [right; split; [simpl; set_solver|done]|]. split; [|done].
      destruct H2 as [?|[?|?]]; [by left|right; left; set_solver|auto].
    + destruct I1 as [H1 _]. split; [done|]. by destruct (decide _); [right|].
    + destruct I1 as (H1 & H2 & H3 & _). split; [done|]. split; [done|]. split; [done|]. by right.
    + destruct I1 as (H1 & H2 & (st & ? & _)). congruence.
    + destruct I1 as (_ & _ & ? & _). congruence.
    + destruct I1 as (_ & _ & ? & _). congruence.
  - split; unfold pc_inv; simpl; [|done|done|done].
    destruct (at_ s) as [| | | | |signo| | |st|st|sig]; unfold both_blocked in I1; simpl in *; try done; try tauto; destruct_and?; congruence.
Qed.

Lemma alarm_step_ok s : fork_inv s -> alarm_set s = true ->
  fork_inv (deliver SIGALRM (mkRunner (at_ s) (blocked s) (pending s) false (proc s) (flag s))).
Proof.
  intros [I1 I2 I3 I4] Ha. assert (0 < timeout) as Ht by auto. unfold deliver, pc_inv in *. simpl.
  destruct (decide (SIGALRM ∈ blocked s)) as [Hb|Hb].
  - split; simpl; [|done|set_solver|set_solver].
    unfold pc_inv. simpl. destruct (at_ s) as [| | | | |signo| | |st|st|sig]; simpl in *; try done; try (destruct_and?; congruence).
    + destruct I1 as (H1 & H2 & _ & H3). split; [done|]. split; [destruct H2 as [?|[? ?]]; [by left|right; split; [simpl; set_solver|done]]|].
      split; [|done]. right. left. set_solver.
  - split; simpl; [done|done|done|done].
Qed.

Lemma fork_reach_inv s : reach (fork_step timeout e) runner0 s -> fork_inv s.
Proof.
  intros Hr. eapply reach_invariant; [|exact Hr|apply fork_inv0]. intros s1 s2 I [sig s3 E|Hp|Ha].
  - by eapply runner_step_ok.
  - by apply child_step_ok.
  - by apply alarm_step_ok.
Qed.
End fork.

(** C31.  Executing a test in a process of its own: the status that is returned is that of the test, unless its time was
  out; the test counts as passed only if it has returned without a failed assertion, or has called [exit] itself with a
  code that is 129 modulo 256; its process is gone and the signal mask is as before; and until then the runner can go on, or waits for a test that still has time, unless its own alarm
  ends it. *)
Theorem fork_verdict timeout e s : reach (fork_step timeout e) runner0 s ->
  (forall st, at_ s = F_return st ->
     (st = child_status e \/ (st = Signaled SIGTERM /\ flag s = true /\ 0 < timeout)) /\
     (test_passed st = true -> e = Returns false \/ exists code, e = Exits code /\ (code mod 256 = 129)%Z) /\
     proc s = Reaped /\ blocked s = ∅) /\
  ((exists st, at_ s = F_return st) \/ at_ s = F_killed SIGALRM \/ (exists sig s', execute_fork timeout sig s = Some s') \/
   (at_ s = F_sigwait /\ proc s = Running /\ (alarm_set s = true \/ timeout = 0))).
Proof.
  intros Hr. assert (at_ s = F_killed SIGALRM \/ forall sig, at_ s <> F_killed sig) as Hk.
  { eapply (reach_invariant (fork_step timeout e) (fun s => at_ s = F_killed SIGALRM \/ forall sig, at_ s <> F_killed sig)); [|exact Hr|by right].
    intros s1 s2 Hs [sig s3 E|Hp|Ha].
    - unfold execute_fork in E. destruct (at_ s1); repeat case_match; simplify_eq/=; try (by right); try (by left).
      all: unfold child_ends, deliver; simpl; repeat case_match; simpl; by right.
    - unfold child_ends, deliver. simpl. repeat case_match; simpl; try done; by left.
    - unfold deliver. simpl. repeat case_match; simpl; try done; by left. }
  pose proof (fork_reach_inv timeout e s Hr) as [I1 I2 I3 I4]. unfold pc_inv in I1. split.
  - intros st E. rewrite E in I1. destruct I1 as (Hb & _ & Hp & Hst). split; [|split; [|done]].
    + destruct Hst as [?|[? Hf]]; [by left|right]. split; [done|]. split; [done|]. auto.
    + unfold test_passed. rewrite bool_decide_eq_true. intros ->. destruct Hst as [Hst|[? _]]; [|done].
      destruct e as [[]|code|sig]; simpl in Hst; try done; [by left|right]. exists code. split; [done|congruence].
  - destruct (at_ s) as [| | | | |signo| | |st|st|sig] eqn:Hpc; try (right; right; left; unfold execute_fork; rewrite Hpc; by exists 0%Z; eexists).
    + destruct I1 as (_ & Hc & Ha & _). destruct (decide (SIGCHLD ∈ pending s)) as [Hs|Hs].
      { right. right. left. exists SIGCHLD. unfold execute_fork. rewrite Hpc, decide_True by done. by eexists. }
      destruct (decide (SIGALRM ∈ pending s)) as [Hs'|Hs'].
      { right. right. left. exists SIGALRM. unfold execute_fork. rewrite Hpc, decide_True by done. by eexists. }
      do 3 right. split; [done|]. destruct Hc as [?|[? _]]; [|done]. split; [done|]. tauto.
    + destruct I1 as (_ & _ & (st & Hp & _)). right. right. left. exists 0%Z. unfold execute_fork. rewrite Hpc, Hp. by eexists.
    + left. by eexists.
    + right. left. destruct Hk as [?|Hk]; [done|]. by destruct (Hk sig).
Qed.

(** The moves of a list. *)
Inductive fork_move := Runner (sig : Z) | Child | Alarm.
Definition fork_run (timeout : nat) (e : ending) (ms : list fork_move) (s : runner) : runner :=
  foldl (fun s m =>
    match m with
    | Runner sig => default s (execute_fork timeout sig s)
    | Child => match proc s with Running => child_ends (child_status e) s | _ => s end
    | Alarm => if alarm_set s then deliver SIGALRM (mkRunner (at_ s) (blocked s) (pending s) false (proc s) (flag s)) else s
    end) s ms.

Lemma fork_run_reach timeout e ms s : reach (fork_step timeout e) s (fork_run timeout e ms s).
Proof.
  unfold fork_run. induction ms as [|m ms IH] using rev_ind; [apply reach_refl|]. rewrite foldl_snoc. set (s' := foldl _ _ _) in *.
  destruct m as [sig| |].
  - destruct (execute_fork timeout sig s') eqn:E; [|done]. eapply reach_step; [exact IH|]. by eapply step_runner.
  - destruct (proc s') eqn:E; try done. eapply reach_step; [exact IH|]. by apply step_child.
  - destruct (alarm_set s') eqn:E; [|done]. eapply reach_step; [exact IH|]. by apply step_alarm.
Qed.

(** A test that passes, and one that takes too long. *)
Definition passing : runner := fork_run 20 (Returns false) (replicate 4 (Runner 0) ++ [Child; Runner SIGCHLD] ++ replicate 3 (Runner 0)) runner0.
Definition too_long : runner := fork_run 1 (Returns false) (replicate 4 (Runner 0) ++ [Alarm; Runner SIGALRM] ++ replicate 4 (Runner 0)) runner0.
Example passing_ex : at_ passing = F_return (Exited 129) /\ at_ too_long = F_return (Signaled SIGTERM).
Proof. vm_compute. done. Qed.

Lemma fork_verdict_witness : at_ passing = F_return (Exited 129) /\ proc passing = Reaped /\ blocked passing = ∅.
Proof.
  assert (at_ passing = F_return (Exited 129)) as E by (vm_compute; reflexivity). split; [exact E|].
  destruct (fork_verdict 20 (Returns false) passing) as [Hv _]; [apply fork_run_reach|]. destruct (Hv _ E) as (_ & _ & ?). assumption.
Defined.

(** The alarm rings after the test has ended and before it is cancelled: it stays pending, and ends the runner when the
  signal mask is restored. *)
Example alarm_kills_runner :
  at_ (fork_run 20 (Returns false) (replicate 4 (Runner 0) ++ [Child; Runner SIGCHLD; Alarm] ++ replicate 3 (Runner 0)) runner0) = F_killed SIGALRM.
Proof. vm_compute. reflexivity. Qed.
End Fork.

(** ** The tests of the library itself *)

Module Internal.
Import Fork.

Definition DEFAULT_TIMEOUT : nat := 10.

(** A bare test: how its function ends, after how many seconds, and what it asks for. *)
Record bare_test := mkBare { name : string; bare : ending; lasts : nat; timeout : nat; minimum_terminals : Z }.

(** [ASSERT(expr)] and the return. *)
Definition asserts (expr : bool) : ending := Returns (negb expr).

Definition internal_success : bare_test := mkBare "internal_success" (asserts true) 0 DEFAULT_TIMEOUT 0.
Definition internal_failure : bare_test := mkBare "internal_failure" (asserts false) 0 DEFAULT_TIMEOUT 0.
Definition internal_timeout : bare_test := mkBare "internal_timeout" (Returns false) 5 1 0.
Definition internal_skip : bare_test := mkBare "internal_skip" (Returns false) 0 DEFAULT_TIMEOUT (2 ^ 32 - 1).
Definition internal : list bare_test := [internal_success; internal_failure; internal_timeout; internal_skip].

(** What happens when the function ends, or the alarm rings, while the runner waits. *)
Definition undisturbed (t : bare_test) : list fork_move :=
  replicate 4 (Runner 0) ++
  (if decide (timeout t = 0 \/ lasts t < timeout t) then [Child; Runner SIGCHLD] else [Alarm; Runner SIGALRM]) ++
  replicate 4 (Runner 0).

(** [execute], with [--fork] or without. *)
Definition execute (fork : bool) (t : bare_test) : option wait_status :=
  if fork then match at_ (fork_run (timeout t) (bare t) (undisturbed t) runner0) with F_return st => Some st | _ => None end
  else execute_nofork (bare t).

(** [run_test] of a bare test: what it asks for is not looked at. *)
Definition run_bare (fork : bool) (t : bare_test) : option bool := st ← execute fork t; Some (test_passed st).

(** The suite shows a success, a failed assertion and a test that is killed; the test that is to be skipped is run.  Without
  a process of its own the failing test ends the program, and the one that takes too long passes. *)
Example internal_verdicts :
  run_bare true <$> internal = [Some true; Some false; Some false; Some true] /\
  run_bare false <$> internal = [Some true; None; Some true; Some true].
Proof. vm_compute. done. Qed.

Example internal_statuses :
  execute true <$> internal = [Some (Exited 129); Some (Signaled SIGABRT); Some (Signaled SIGTERM); Some (Exited 129)].
Proof. vm_compute. done. Qed.
End Internal.

(** ** The daemons of a terminal *)

Module Proxy.

(** [open_fifo] reads until nothing is left: [fifo] is what it holds, [cuts] how many bytes a read gives, where 0 is
  an interrupted read.  What it holds afterwards. *)
Fixpoint open_fifo (fifo : bytes) (cuts : list nat) : option bytes :=
  match fifo, cuts with
  | [], _ => Some []
  | _, [] => None
  | _, n :: cuts => open_fifo (drop (Nat.min n 256) fifo) cuts
  end.

Lemma open_fifo_empty fifo cuts left : open_fifo fifo cuts = Some left -> left = [].
Proof.
  revert fifo. induction cuts as [|n cuts IH]; intros [|b fifo] E; simpl in E; [by injection E as <-|done|by injection E as <-|by eapply IH].
Qed.

Lemma open_fifo_ends fifo cuts : Forall (fun n => 0 < n) cuts -> length fifo <= length cuts -> open_fifo fifo cuts = Some [].
Proof.
  revert fifo. induction cuts as [|n cuts IH]; intros [|b fifo] Hp Hl; simpl in *; [done|lia|done|].
  apply Forall_cons in Hp as [Hn Hp]. apply IH; [done|]. rewrite length_drop. simpl. lia.
Qed.

(** The monitor between the test and a daemon.  Each call locks the mutex and is one step; [Asleep] is the daemon in
  [pthread_cond_wait]. *)
Inductive daemon_pc := Getting | Asleep | Serving (pattern : bytes) | Ended.

Record proxy_daemon := mkDaemon { patterns : list bytes; complete : bool; daemon : daemon_pc; served : list bytes; added : list bytes }.

Definition term_proxy_daemon_init : proxy_daemon := mkDaemon [] false Getting [] [].

Definition cond_signal (pc : daemon_pc) : daemon_pc := match pc with Asleep => Getting | _ => pc end.

Definition proxy_daemon_add (pattern : bytes) (d : proxy_daemon) : outcome proxy_daemon :=
  _ ← c_assert (negb (complete d));
  Ret (mkDaemon (patterns d ++ [pattern]) (complete d) (cond_signal (daemon d)) (served d) (added d ++ [pattern])).

Definition term_proxy_daemon_close (d : proxy_daemon) : proxy_daemon :=
  mkDaemon (patterns d) true (cond_signal (daemon d)) (served d) (added d).

(** [term_proxy_daemon_get] in the loop of [term_proxy_daemon]: without a pattern the daemon ends. *)
Definition term_proxy_daemon_get (d : proxy_daemon) : proxy_daemon :=
  match patterns d with
  | p :: ps => mkDaemon ps (complete d) (Serving p) (served d) (added d)
  | [] => mkDaemon [] (complete d) (if complete d then Ended else Asleep) (served d) (added d)
  end.

Definition term_proxy_daemon (d : proxy_daemon) : option proxy_daemon :=
  match daemon d with
  | Getting => Some (term_proxy_daemon_get d)
  | Serving p => Some (mkDaemon (patterns d) (complete d) Getting (served d ++ [p]) (added d))
  | Asleep | Ended => None
  end.

Definition term_proxy_daemon_complete (d : proxy_daemon) : bool := complete d.

(** [term_proxy_init]: the daemons of the console and of the keyboard. *)
Definition term_proxy_init (term : nat) : outcome (proxy_daemon * proxy_daemon) :=
  _ ← c_assert (bool_decide (term < MAX_TERMINALS));
  Ret (term_proxy_daemon_init, term_proxy_daemon_init).

Inductive daemon_step (d : proxy_daemon) : proxy_daemon -> Prop :=
  | daemon_add p d' : proxy_daemon_add p d = Ret d' -> daemon_step d d'
  | daemon_close : daemon_step d (term_proxy_daemon_close d)
  | daemon_turn d' : term_proxy_daemon d = Some d' -> daemon_step d d'.

Definition in_service (d : proxy_daemon) : list bytes := match daemon d with Serving p => [p] | _ => [] end.

(** The steps that the daemon still has to take when nothing is added. *)
Definition daemon_left (d : proxy_daemon) : nat := 2 * length (patterns d) + match daemon d with Serving _ => 2 | Getting => 1 | _ => 0 end.

Record daemon_inv (d : proxy_daemon) : Prop := {
  di_order : added d = served d ++ in_service d ++ patterns d;
  di_asleep : daemon d = Asleep -> patterns d = [] /\ complete d = false;
  di_ended : daemon d = Ended -> patterns d = [] /\ complete d = true
}.

Lemma daemon_step_ok d d' : daemon_inv d -> daemon_step d d' -> daemon_inv d'.
Proof.
  intros [I1 I2 I3] Hst. unfold in_service in I1. destruct Hst as [p d' E| |d' E].
  - unfold proxy_daemon_add in E. destruct (complete d) eqn:Hc; [done|]. injection E as <-.
    split; unfold in_service; simpl; destruct (daemon d); simpl in *; rewrite ?I1, <- ?app_assoc; try done; naive_solver.
  - split; unfold in_service; simpl; destruct (daemon d); simpl in *; try done; naive_solver.
  - unfold term_proxy_daemon, term_proxy_daemon_get in E. destruct (daemon d) eqn:Hd; simplify_eq/=.
    + destruct (patterns d) as [|p ps] eqn:Hp; (split; unfold in_service; simpl; try done); [|..].
      * by destruct (complete d).
      * by destruct (complete d).
      * by destruct (complete d).
    + split; unfold in_service; simpl; [by rewrite I1, <- app_assoc|done|done].
Qed.

(** C32.  A daemon of a terminal serves the patterns in the order in which they were added, each once; it sleeps only
  when there is nothing to serve, so that no signal is lost; it ends only after it was closed, when it has served
  everything; and when it is closed it ends after a bounded number of its steps. *)
Theorem daemon_serves_all d : reach daemon_step term_proxy_daemon_init d ->
  added d = served d ++ in_service d ++ patterns d /\
  (daemon d = Asleep -> patterns d = [] /\ complete d = false) /\
  (daemon d = Ended -> served d = added d /\ complete d = true) /\
  (complete d = true -> daemon d = Ended \/ exists d', term_proxy_daemon d = Some d' /\ daemon_left d' < daemon_left d /\ complete d' = true).
Proof.
  intros Hr. assert (daemon_inv d) as [I1 I2 I3].
  { eapply (reach_invariant _ daemon_inv); [|exact Hr|done]. intros d1 d2. apply daemon_step_ok. }
  split; [done|]. split; [done|]. split.
  - intros E. destruct (I3 E) as [Hp Hc]. unfold in_service in I1. by rewrite E, Hp, !app_nil_r in I1.
  - intros Hc. unfold term_proxy_daemon, term_proxy_daemon_get, daemon_left. destruct (daemon d) eqn:Hd; [right|exfalso; destruct (I2 eq_refl); congruence|right|by left].
    + destruct (patterns d) as [|p ps]; simpl; (eexists; split; [done|]; simpl; rewrite ?Hc; split; [lia|done]).
    + eexists. split; [done|]. simpl. split; [lia|done].
Qed.

(** Two patterns; the daemon slept when the first came. *)
Definition two_patterns : proxy_daemon := mkDaemon [[2%Z]] true (Serving [1%Z]) [] [[1%Z]; [2%Z]].

Lemma two_patterns_reachable : reach daemon_step term_proxy_daemon_init two_patterns.
Proof.
  eapply reach_step; [eapply reach_step; [eapply reach_step; [eapply reach_step; [eapply reach_step; [apply reach_refl|]|]|]|]|].
  - by apply daemon_turn.
  - by apply (daemon_add _ [1%Z]).
  - by apply (daemon_add _ [2%Z]).
  - apply daemon_close.
  - by apply daemon_turn.
Qed.

Lemma daemon_serves_all_witness : exists d', term_proxy_daemon two_patterns = Some d' /\ daemon_left d' < daemon_left two_patterns /\ complete d' = true.
Proof. destruct (daemon_serves_all two_patterns two_patterns_reachable) as (_ & _ & _ & [E|?]); [reflexivity|discriminate E|assumption]. Defined.
End Proxy.

(** ** Reading a console against the machine

  [con_proc_turn] step by step, while the machine writes and then completes; [UnitTest.con_proc] is what it answers when the
  output has come.  [expects] is what is left of the pattern, [cached] the local variable [complete]. *)

Module ConProc.
Inductive con_pc := C_timeout | C_poll | C_while (have_data : bool) | C_read | C_done (plen : nat).

Record console := mkConsole { pc : con_pc; expects : bytes; cached : bool; fifo : bytes; read_so_far : bytes; output : bytes; vm_done : bool }.

Definition console0 (pattern output : bytes) : console :=
  mkConsole (if decide (pattern = []) then C_done 0 else C_timeout) pattern false [] [] output false.

Definition con_at (p : con_pc) (c : console) : console := mkConsole p (expects c) (cached c) (fifo c) (read_so_far c) (output c) (vm_done c).

(** [COMPLETE] *)
Definition check_complete (c : console) : console :=
  mkConsole (pc c) (expects c) (cached c || vm_done c) (fifo c) (read_so_far c) (output c) (vm_done c).

Definition con_proc_turn (c : console) : option console :=
  match pc c with
  | C_timeout => Some (con_at C_poll (check_complete c))
  | C_poll => Some (con_at (C_while (negb (bool_decide (fifo c = [])))) c)
  | C_while have_data => Some (
      if have_data then con_at C_read c
      else let c := check_complete c in con_at (if cached c then C_done (length (expects c)) else C_timeout) c)
  | C_read => Some (
      let n := Nat.min (Nat.min (length (expects c)) 1024) (length (fifo c)) in
      let c' := mkConsole (pc c) (drop n (expects c)) (cached c) (drop n (fifo c)) (read_so_far c ++ take n (fifo c)) (output c) (vm_done c) in
      if decide (take n (expects c) = take n (fifo c)) then con_at (if decide (expects c' = []) then C_done 0 else C_timeout) c'
      else con_at (C_done (length (expects c))) c')
  | C_done _ => None
  end.

Inductive con_step (c : console) : console -> Prop :=
  | con_turn c' : con_proc_turn c = Some c' -> con_step c c'
  | con_output n : con_step c (mkConsole (pc c) (expects c) (cached c) (fifo c ++ take n (output c)) (read_so_far c) (drop n (output c)) (vm_done c))
  | con_complete : output c = [] -> con_step c (mkConsole (pc c) (expects c) (cached c) (fifo c) (read_so_far c) [] true).

(** What the machine wrote is what was read, what waits and what is to come; a pattern that is found was written. *)
Record con_inv (pattern out : bytes) (c : console) : Prop := {
  cn_bytes : out = read_so_far c ++ fifo c ++ output c;
  cn_match : (exists plen, pc c = C_done plen /\ 0 < plen) \/ pattern = read_so_far c ++ expects c;
  cn_done plen : pc c = C_done plen -> plen = 0 -> expects c = [] /\ pattern = read_so_far c;
  cn_more : match pc c with C_done _ => True | _ => expects c <> [] end
}.

Lemma con_step_ok pattern out c c' : con_inv pattern out c -> con_step c c' -> con_inv pattern out c'.
Proof.
  intros [I1 I2 I3 I4] [c1 E|n|Ho].
  - unfold con_proc_turn in E. destruct (pc c) as [| |have| |plen] eqn:Hpc; simplify_eq/=.
    + split; simpl; try done. destruct I2 as [(? & ? & _)|?]; [done|by right].
    + split; simpl; try done. destruct I2 as [(? & ? & _)|?]; [done|by right].
    + destruct I2 as [(? & ? & _)|I2]; [done|]. destruct have; [by split; simpl; try done; right|].
      destruct (cached c || vm_done c); (split; simpl; [done|by right|..|done]); [|done].
      intros plen [= <-] Hz. by destruct (expects c).
    + destruct I2 as [(? & ? & _)|I2]; [done|]. set (n := Nat.min _ _). destruct (decide _) as [He|He].
      * assert (pattern = (read_so_far c ++ take n (fifo c)) ++ drop n (expects c)) as Hp by (by rewrite <- He, <- app_assoc, take_drop).
        split; simpl; [by rewrite <- app_assoc, (app_assoc (take n (fifo c))), take_drop|by right|..].
        -- intros plen Hd Hz. destruct (decide (drop n (expects c) = [])) as [Hn|]; [|done]. rewrite Hn, app_nil_r in Hp. done.
        -- by destruct (decide _).
      * assert (0 < length (expects c)) by (destruct (expects c); simpl; [done|lia]).
        split; simpl; [by rewrite <- app_assoc, (app_assoc (take n (fifo c))), take_drop|left; by eexists| |done].
        intros plen [= <-] Hz. lia.
  - split; simpl; try done. by rewrite <- !app_assoc, take_drop.
  - split; simpl; try done. by rewrite Ho in I1.
Qed.

(** A pattern that [con_proc_turn] accepts is what the machine wrote next. *)
Lemma con_proc_sound pattern out c : reach con_step (console0 pattern out) c -> pc c = C_done 0 -> pattern `prefix_of` out.
Proof.
  intros Hr Hd. assert (con_inv pattern out c) as [I1 _ I3 _].
  { eapply (reach_invariant _ (con_inv pattern out)); [|exact Hr|]; [intros c1 c2; apply con_step_ok|].
    unfold console0. split; simpl; [done|by right|..]; destruct (decide (pattern = [])); simplify_eq/=; done. }
  destruct (I3 0 Hd eq_refl) as [_ ->]. rewrite I1. by eexists.
Qed.

(** But it can refuse output that was there: the machine writes and completes after the daemon has polled and before it
  looks whether the machine is complete; it does not poll again. *)
Lemma con_proc_misses : exists c, reach con_step (console0 [65%Z] [65%Z]) c /\ pc c = C_done 1 /\ fifo c = [65%Z].
Proof.
  eexists. split; [|split].
  - eapply reach_step; [eapply reach_step; [eapply reach_step; [eapply reach_step; [eapply reach_step; [apply reach_refl|]|]|]|]|].
    + by apply con_turn.
    + by apply con_turn.
    + by apply (con_output _ 1).
    + by apply con_complete.
    + by apply con_turn.
  - reflexivity.
  - reflexivity.
Qed.
End ConProc.
