(* ===== verification/ApiTests.v ===== *)
(** * The tests of the kernel (validate_api.c)

  The tests of processes and of input and output are programs that the modelled kernel runs.  [MAX_PROC], the
  number of levels and of children of the tests that build trees of processes, and the number of blocks of the
  tests that transfer much, are parameters.  The tests of threads, pipes, sockets and concurrency are in
  [ExerciseTests], those that measure time in [ClockTests], and those of timed waits in [TimedTests]. *)

From Stdlib Require Import String Ascii.
From S2P Require Import Prelude Rlist Iface Sched SchedInv SchedSys Instances Kernel Dev Streams Proc Boot Sys Prog UnitTest.

#[local] Open Scope Z_scope.

(** A task that does not look at its arguments. *)
Definition task_of (body : test Z) : Task tmem := fun _ _ => returns_int body.

Definition exec_task (t : Task tmem) (argl : Z) (args : option bytes) : test Z := sc (Exec (Some t) argl args).

(** A pointer as an argument. *)
Definition POINTER : nat := 8.
Definition pointer_arg (args : option bytes) : Z := of_le (default [] args).

(** ** Processes *)

Definition test_pid_of_init_is_one : Task tmem := task_of (
  pid ← sc GetPid;
  _ ← ASSERT (bool_decide (pid = 1));
  mret 0).

Section waitchild_error_on_invalid_pid.
Context (MAX_PROC : Z).

Definition waitchild_error : test unit :=
  pid ← sc GetPid;
  r ← sc (WaitChild pid);
  _ ← ASSERT (bool_decide (r = NOPROC));
  r ← sc (WaitChild MAX_PROC);
  _ ← ASSERT (bool_decide (r = NOPROC));
  pid ← sc GetPid;
  r ← sc (WaitChild (pid + 1));
  ASSERT (bool_decide (r = NOPROC)).

Definition subprocess : Task tmem := task_of (
  pid ← sc GetPid;
  _ ← ASSERT (bool_decide (pid <> 1));
  _ ← waitchild_error;
  mret 0).

Definition test_waitchild_error_on_invalid_pid : Task tmem := task_of (
  _ ← waitchild_error;
  cpid ← exec_task subprocess 0 None;
  r ← sc (WaitChild NOPROC);
  _ ← ASSERT (bool_decide (r = cpid));
  mret 0).
End waitchild_error_on_invalid_pid.

Definition void_child : Task tmem := task_of (mret 0).

Definition bad_child (cpid : Z) : Task tmem := task_of (
  r ← sc (WaitChild cpid);
  _ ← ASSERT (bool_decide (r = NOPROC));
  mret 0).

Definition test_waitchild_error_on_nonchild : Task tmem := task_of (
  cpid ← exec_task void_child 0 None;
  badpid ← exec_task (bad_child cpid) 0 None;
  _ ← ASSERT (bool_decide (badpid <> NOPROC));
  r ← sc (WaitChild badpid);
  _ ← ASSERT (bool_decide (r = badpid));
  r ← sc (WaitChild cpid);
  _ ← ASSERT (bool_decide (r = cpid));
  mret 0).

(** [struct test_pid_rec]: the cell [pid] and the cell [level]. *)
Definition pid_of (rec : Z) : Z := rec.
Definition level_of (rec : Z) : Z := rec + 1.

(** The task executes itself; [n] bounds the depth, and is above the level of the first, which is 7 in the test. *)
Fixpoint exec_getpid_wait (LEVEL : Z) (n : nat) : Task tmem := fun argl args => returns_int (
  prec ← (if decide (argl = 0) then
            pid ← sc GetPid;
            _ ← ASSERT (bool_decide (pid = 1));
            myrec ← alloc 2;
            _ ← store_cell (level_of myrec) LEVEL;
            mret myrec
          else
            _ ← ASSERT (bool_decide (argl = Z.of_nat POINTER));
            mret (pointer_arg args));
  pid ← sc GetPid;
  _ ← store_cell (pid_of prec) pid;
  level ← load_cell (level_of prec);
  _ ← (if decide (0 < level) then
         for_upto 3 (fun _ =>
           rec ← alloc 2;
           level ← load_cell (level_of prec);
           _ ← store_cell (level_of rec) (level - 1);
           cpid ← match n with
                  | O => _ ← abort_unless false; mret NOPROC
                  | Datatypes.S n => exec_task (exec_getpid_wait LEVEL n) (Z.of_nat POINTER) (Some (to_le POINTER rec))
                  end;
           _ ← ASSERT (bool_decide (cpid <> NOPROC));
           if decide (cpid <> NOPROC) then
             r ← issue (WaitChild cpid);
             _ ← ASSERT (bool_decide (ret r = cpid));
             ASSERT (bool_decide (status r = Some cpid))
           else mret tt)
       else mret tt);
  sc GetPid).

Definition test_exec_getpid_wait (LEVEL : Z) : Task tmem := exec_getpid_wait LEVEL (Z.to_nat LEVEL).

(** The child writes to the copy of its arguments, which nobody else sees. *)
Definition overwriting_child : Task tmem := fun _ args => returns_int (
  let args := (fun _ => to_le 4 1) <$> args in
  _ ← abort_unless (bool_decide (is_Some args));
  mret 0).

Definition test_exec_copies_arguments : Task tmem := task_of (
  value ← alloc 1;
  _ ← store_cell value 0;
  v ← load_cell value;
  cpid ← exec_task overwriting_child 4 (Some (to_le 4 v));
  _ ← ASSERT (bool_decide (cpid <> NOPROC));
  _ ← sc (WaitChild cpid);
  v ← load_cell value;
  _ ← ASSERT (bool_decide (v = 0));
  mret 0).

(** [for(j=0; j<NCHILDREN; j++) if(rec[j].pid == cpid) break;]: the index of the first of the records. *)
Fixpoint find_rec (recs : list Z) (cpid : Z) (j : nat) : test nat :=
  match recs with
  | [] => mret j
  | rec :: recs =>
      pid ← load_cell (pid_of rec);
      if decide (pid = cpid) then mret j else find_rec recs cpid (j + 1)%nat
  end.

(** [NCHILDREN] is 5 and [NLEVELS] is 3 in the test. *)
Fixpoint wait_for_any (NCHILDREN : nat) (NLEVELS : Z) (n : nat) : Task tmem := fun argl args => returns_int (
  prec ← (if decide (argl = 0) then
            pid ← sc GetPid;
            _ ← ASSERT (bool_decide (pid = 1));
            myrec ← alloc 2;
            _ ← store_cell (level_of myrec) NLEVELS;
            mret myrec
          else
            pid ← sc GetPid;
            _ ← store_cell (pid_of (pointer_arg args)) pid;
            mret (pointer_arg args));
  level ← load_cell (level_of prec);
  _ ← (if decide (0 < level) then
         recs ← for_map (seq 0 NCHILDREN) (fun _ =>
           rec ← alloc 2;
           level ← load_cell (level_of prec);
           _ ← store_cell (level_of rec) (level - 1);
           cpid ← match n with
                  | O => _ ← abort_unless false; mret NOPROC
                  | Datatypes.S n => exec_task (wait_for_any NCHILDREN NLEVELS n) (Z.of_nat POINTER) (Some (to_le POINTER rec))
                  end;
           _ ← ASSERT (bool_decide (cpid <> NOPROC));
           mret rec);
         _ ← for_upto NCHILDREN (fun _ =>
           cpid ← sc (WaitChild NOPROC);
           _ ← ASSERT (bool_decide (cpid <> NOPROC));
           j ← find_rec recs cpid 0;
           _ ← ASSERT (bool_decide (j < NCHILDREN)%nat);
           match recs !! j with Some rec => store_cell (pid_of rec) NOPROC | None => mret tt end);
         r ← sc (WaitChild NOPROC);
         ASSERT (bool_decide (r = NOPROC))
       else mret tt);
  mret 0).

Definition test_wait_for_any_child (NCHILDREN : nat) (NLEVELS : Z) : Task tmem := wait_for_any NCHILDREN NLEVELS (Z.to_nat NLEVELS).

(** [N] children that end with their pids, and the parent that compares. *)
Definition check_statuses (child : Task tmem) (N : nat) : test Z :=
  children ← for_map (seq 0 N) (fun _ => exec_task child 0 None);
  _ ← for_each children (fun pid =>
    r ← issue (WaitChild pid);
    ASSERT (bool_decide (status r = Some pid)));
  mret 0.

Definition exit_child : Task tmem := task_of (
  pid ← sc GetPid;
  _ ← sc (Exit pid);
  _ ← ASSERT false;
  mret 1).

Definition test_exit_returns_status : Task tmem := task_of (check_statuses exit_child 100).

Definition return_child : Task tmem := task_of (sc GetPid).

Definition test_main_return_returns_status : Task tmem := task_of (check_statuses return_child 10).

Definition orphan_grandchild : Task tmem := task_of (mret 1).

Definition orphan_child : Task tmem := task_of (
  _ ← for_upto 5 (fun _ =>
    r ← exec_task orphan_grandchild 0 None;
    ASSERT (bool_decide (r <> NOPROC)));
  mret 100).

Definition test_orphans_adopted_by_init : Task tmem := task_of (
  _ ← for_upto 3 (fun _ =>
    r ← exec_task orphan_child 0 None;
    ASSERT (bool_decide (r <> NOPROC)));
  statuses ← for_map (seq 0 18) (fun _ =>
    r ← issue (WaitChild NOPROC);
    _ ← ASSERT (bool_decide (ret r <> NOPROC));
    mret (default 0 (status r)));
  r ← sc (WaitChild NOPROC);
  _ ← ASSERT (bool_decide (r = NOPROC));
  _ ← ASSERT (bool_decide (foldr Z.add 0 statuses = 315));
  mret 0).

(** ** Input and output *)

Definition MAX_FILEID_ : nat := Kernel.MAX_FILEID.
Definition fids : list Z := Z.of_nat <$> seq 0 MAX_FILEID_.

Definition test_get_terminals : Task tmem := task_of (
  n ← bios_serial_ports;
  m ← sc GetTerminalDevices;
  _ ← ASSERT (bool_decide (Z.of_nat n = m));
  mret 0).

Definition test_dup2_error_on_nonfile : Task tmem := task_of (
  _ ← for_each fids (fun fid =>
    r ← sc (Dup2 fid (Z.of_nat MAX_FILEID_ - 1 - fid));
    ASSERT (bool_decide (r = -1)));
  mret 0).

Definition test_dup2_error_on_invalid_fid : Task tmem := task_of (
  r ← sc (Dup2 NOFILE 3);
  _ ← ASSERT (bool_decide (r = -1));
  r ← sc (Dup2 (Z.of_nat MAX_FILEID_) 3);
  _ ← ASSERT (bool_decide (r = -1));
  fid ← sc OpenNull;
  _ ← abort_unless (bool_decide (fid <> NOFILE));
  r ← sc (Dup2 fid NOFILE);
  _ ← ASSERT (bool_decide (r = -1));
  r ← sc (Dup2 fid (Z.of_nat MAX_FILEID_));
  _ ← ASSERT (bool_decide (r = -1));
  mret 0).

(** [for(i=0; i<GetTerminalDevices(); i++)]: the condition is a call each time, and its value does not change. *)
Definition for_terminals (body : nat -> test unit) : test unit :=
  n ← sc GetTerminalDevices;
  for_upto (Z.to_nat n) body.

(** [term[i] = OpenTerminal(i)] for every terminal. *)
Definition open_all : test (list Z) :=
  n ← sc GetTerminalDevices;
  for_map (seq 0 (Z.to_nat n)) (fun i =>
    fid ← sc (OpenTerminal i);
    _ ← ASSERT (bool_decide (fid <> NOFILE));
    mret fid).

Definition test_open_terminals : Task tmem := task_of (_ ← open_all; mret 0).

Definition test_close_error_on_invalid_fid : Task tmem := task_of (
  r ← sc (Close NOFILE);
  _ ← ASSERT (bool_decide (r = -1));
  r ← sc (Close (Z.of_nat MAX_FILEID_));
  _ ← ASSERT (bool_decide (r = -1));
  mret 0).

Definition test_close_success_on_valid_nonfile_fid : Task tmem := task_of (
  _ ← for_each fids (fun i =>
    r ← sc (Close i);
    ASSERT (bool_decide (r = 0)));
  mret 0).

Definition test_close_terminals : Task tmem := task_of (
  term ← open_all;
  _ ← for_each term (fun fid =>
    r ← sc (Close fid);
    ASSERT (bool_decide (r = 0)));
  mret 0).

Definition checked_read (fid : Z) (message : bytes) : test unit :=
  r ← issue (Read fid (length message));
  _ ← ASSERT (bool_decide (ret r = Z.of_nat (length message)));
  ASSERT (bool_decide (data r = message)).

(** Terminal 0, open. *)
Definition open_terminal_0 : test Z :=
  fterm ← sc (OpenTerminal 0);
  _ ← ASSERT (bool_decide (fterm <> NOFILE));
  mret fterm.

Definition need_terminals : test unit :=
  n ← sc GetTerminalDevices;
  abort_unless (bool_decide (0 < n)).

Definition test_read_kbd : Task tmem := task_of (
  _ ← need_terminals;
  fterm ← open_terminal_0;
  _ ← sendme 0 (str "Hello");
  _ ← checked_read fterm (str "Hello");
  mret 0).

(** [blocks] is 1024: the patterns of 1024 bytes that are sent; the loop makes at most [fuel] rounds. *)
Definition FUDGED (n : nat) : bytes := replicate n 170.

Fixpoint read_loop (fuel : nat) (fterm count total : Z) : test unit :=
  if decide (count < total) then
    match fuel with
    | O => abort_unless false
    | Datatypes.S fuel =>
        let remain := total - count in
        rc ← sc (Read fterm (Z.to_nat (if decide (remain < 16384) then remain else 16384)));
        _ ← ASSERT (bool_decide (0 < rc));
        read_loop fuel fterm (count + rc) total
    end
  else mret tt.

Definition test_read_kbd_big (blocks : nat) : Task tmem := task_of (
  _ ← need_terminals;
  fterm ← open_terminal_0;
  _ ← for_upto blocks (fun _ => sendme 0 (FUDGED 1024));
  _ ← read_loop (blocks * 1024) fterm 0 (Z.of_nat blocks * 1024);
  mret 0).

Definition test_dup2_copies_file : Task tmem := task_of (
  fterm ← open_terminal_0;
  _ ← (if decide (fterm <> 0) then
         r ← sc (Dup2 fterm 0);
         _ ← ASSERT (bool_decide (r = 0));
         _ ← sc (Close fterm);
         mret tt
       else mret tt);
  _ ← sendme 0 (str "zavarakatranemia");
  _ ← for_each [1; 2; 3; 4] (fun fid =>
    r ← sc (Dup2 0 fid);
    ASSERT (bool_decide (r = 0)));
  _ ← checked_read 1 (str "zava");
  _ ← checked_read 3 (str "raka");
  _ ← checked_read 2 (str "trane");
  _ ← checked_read 4 (str "mia");
  mret 0).

Definition test_read_error_on_bad_fid : Task tmem := task_of (
  r ← sc (Read 0 10);
  _ ← ASSERT (bool_decide (r = -1));
  mret 0).

Definition terminal_message (i : nat) : bytes := str "This is terminal " ++ decimal (Z.of_nat i).

Definition test_read_from_many_terminals : Task tmem := task_of (
  term ← open_all;
  _ ← for_terminals (fun i => sendme i (terminal_message i));
  _ ← for_terminals (fun i => checked_read (default NOFILE (term !! i)) (terminal_message i));
  mret 0).

Definition greeted_child : Task tmem := task_of (
  _ ← checked_read 0 (str "Hello child");
  _ ← checked_read 0 (str "Hello again");
  mret 0).

Definition test_child_inherits_files : Task tmem := task_of (
  fterm ← open_terminal_0;
  _ ← (if decide (fterm <> 0) then
         r ← sc (Dup2 fterm 0);
         ASSERT (bool_decide (r = 0))
       else mret tt);
  _ ← sendme 0 (str "Hello child");
  cpid ← exec_task greeted_child 0 None;
  r ← sc (Close 0);
  _ ← ASSERT (bool_decide (r = 0));
  r ← sc (Close fterm);
  _ ← ASSERT (bool_decide (r = 0));
  _ ← sendme 0 (str "Hello again");
  _ ← ASSERT (bool_decide (cpid <> NOPROC));
  r ← sc (WaitChild NOPROC);
  _ ← ASSERT (bool_decide (r = cpid));
  mret 0).

(** The buffer [z], of which [Read] overwrites the start. *)
Definition test_null_device : Task tmem := task_of (
  fn ← sc OpenNull;
  _ ← ASSERT (bool_decide (fn <> -1));
  let z := str "zavarakatranemia" in
  r ← issue (Read fn 10);
  _ ← ASSERT (bool_decide (ret r = 10));
  _ ← ASSERT (bool_decide (data r ++ drop (length (data r)) z = replicate 10 0 ++ str "anemia"));
  r ← sc (Write fn [] (Z.to_nat 123456));
  _ ← ASSERT (bool_decide (r = 123456));
  r ← sc (Close fn);
  _ ← ASSERT (bool_decide (r = 0));
  mret 0).

(** Bytes are written one at a time; [fuel] bounds the attempts. *)
Fixpoint checked_write (fuel : nat) (fid : Z) (message : bytes) : test unit :=
  match message, fuel with
  | [], _ => mret tt
  | _, O => abort_unless false
  | _, Datatypes.S fuel =>
      wno ← sc (Write fid message 1);
      _ ← ASSERT (bool_decide (0 < wno));
      checked_write fuel fid (drop (Z.to_nat wno) message)
  end.

Definition test_write_con : Task tmem := task_of (
  _ ← need_terminals;
  fterm ← open_terminal_0;
  _ ← expect 0 (str "Hello");
  _ ← checked_write 5 fterm (str "Hello");
  mret 0).

Fixpoint write_loop (fuel : nat) (fterm : Z) (buffer : bytes) (count total : Z) : test unit :=
  if decide (count < total) then
    match fuel with
    | O => abort_unless false
    | Datatypes.S fuel =>
        let remain := total - count in
        rc ← sc (Write fterm buffer (Z.to_nat (if decide (remain < 16384) then remain else 16384)));
        _ ← ASSERT (bool_decide (0 < rc));
        write_loop fuel fterm buffer (count + rc) total
    end
  else mret tt.

Definition test_write_con_big (blocks : nat) : Task tmem := task_of (
  _ ← need_terminals;
  fterm ← open_terminal_0;
  _ ← for_upto blocks (fun _ => expect 0 (FUDGED 1024));
  _ ← write_loop (blocks * 1024) fterm (FUDGED (Z.to_nat 16384)) 0 (Z.of_nat blocks * 1024);
  mret 0).

Definition test_write_error_on_bad_fid : Task tmem := task_of (
  r ← sc (Write 0 (FUDGED 10) 10);
  _ ← ASSERT (bool_decide (r = -1));
  mret 0).

Definition test_write_to_many_terminals : Task tmem := task_of (
  term ← open_all;
  _ ← for_terminals (fun i => expect i (terminal_message i));
  _ ← for_terminals (fun i => checked_write 32 (default NOFILE (term !! i)) (terminal_message i));
  mret 0).

(** ** The suite *)

Definition boot_test (name : string) (t : Task tmem) (minimum_terminals : nat) : Test := BOOT_FUNC name t minimum_terminals 1.

(** [struct test_cpu_rec]: the cells from [rec] on. *)
Definition ncores_of (rec : Z) : Z := rec.
Definition core_of (rec : Z) : Z := rec + 1.
Definition nterm_of (rec : Z) : Z := rec + 2.
Definition argl_of (rec : Z) : Z := rec + 3.
Definition args_of (rec : Z) : Z := rec + 4.
Definition rec_of (rec : Z) : Z := rec + 5.

(** [copy] is the address of the arguments, which the kernel has copied; the machine has [cores] cores, and the task
  runs on [core]. *)
Definition test_boot_boot (copy cores core : Z) : Task tmem := fun argl args => returns_int (
  _ ← ASSERT (bool_decide (argl = Z.of_nat POINTER));
  let rec := pointer_arg args in
  nterm ← bios_serial_ports;
  _ ← store_cell (rec_of rec) rec;
  _ ← store_cell (args_of rec) copy;
  _ ← store_cell (argl_of rec) argl;
  _ ← store_cell (ncores_of rec) cores;
  _ ← store_cell (core_of rec) core;
  _ ← store_cell (nterm_of rec) (Z.of_nat nterm);
  mret 0).

Section boot.
Context {T S : Type} `{SpawnOps T S} `{WakeOps T S}.
Context (tid_of : T -> Z) (initialize_scheduler : S -> S) (sched0 : S).

(** [cpu_rec] is at the address 8, after [FUDGE], and [cpu_rec_ptr] at the address [cpu_rec_ptr]. *)
Definition test_boot (fuel max_proc : nat) (cpu_rec_ptr copy : Z) : bool :=
  let cpu_rec := 8 in
  let fudged : gmap Z Z := <[args_of cpu_rec := of_le (FUDGED 8)]> (<[rec_of cpu_rec := of_le (FUDGED 8)]>
    (list_to_map ((fun i => (cpu_rec + Z.of_nat i, of_le (FUDGED 4))) <$> seq 0 4))) in
  match (s ← Sys.boot initialize_scheduler max_proc max_proc (test_boot_boot copy 1 0) (Z.of_nat POINTER)
               (Some (to_le POINTER cpu_rec)) sched0 [] (mkTmem false fudged 14 []);
         test_run tid_of max_proc fuel s) with
  | Ret s =>
      let value a := default 0 (cells (memory s) !! a) in
      negb (FLAG_FAILURE (memory s)) && bool_decide (value (argl_of cpu_rec) = Z.of_nat POINTER)
        && bool_decide (value (args_of cpu_rec) <> cpu_rec_ptr) && bool_decide (value (rec_of cpu_rec) = cpu_rec)
        && bool_decide (value (nterm_of cpu_rec) = 0) && bool_decide (value (ncores_of cpu_rec) = 1)
        && bool_decide (value (core_of cpu_rec) = 0)
  | Err _ => false
  end.
End boot.

(** The tests of timed waits, which are programs on condition variables, are arguments ([TimedTests]), and so is
  whether [test_boot] passes.  The source has 7 levels, 5 children on 3 levels and 1024 blocks. *)
Definition basic_tests (boots : bool) (timedwait_timeout timedwait_signal timedwait_broadcast : Test)
    (max_proc LEVEL : Z) (NCHILDREN : nat) (NLEVELS : Z) (blocks : nat) : Test := SUITE_FUNC "basic_tests" [
  BARE_FUNC "test_boot" boots;
  boot_test "test_pid_of_init_is_one" test_pid_of_init_is_one 0;
  boot_test "test_waitchild_error_on_nonchild" test_waitchild_error_on_nonchild 0;
  boot_test "test_waitchild_error_on_invalid_pid" (test_waitchild_error_on_invalid_pid max_proc) 0;
  boot_test "test_exec_getpid_wait" (test_exec_getpid_wait LEVEL) 0;
  boot_test "test_exec_copies_arguments" test_exec_copies_arguments 0;
  boot_test "test_exit_returns_status" test_exit_returns_status 0;
  boot_test "test_main_return_returns_status" test_main_return_returns_status 0;
  boot_test "test_wait_for_any_child" (test_wait_for_any_child NCHILDREN NLEVELS) 0;
  boot_test "test_orphans_adopted_by_init" test_orphans_adopted_by_init 0;
  timedwait_timeout;
  timedwait_signal;
  timedwait_broadcast;
  boot_test "test_null_device" test_null_device 0;
  boot_test "test_get_terminals" test_get_terminals 0;
  boot_test "test_open_terminals" test_open_terminals 0;
  boot_test "test_dup2_error_on_nonfile" test_dup2_error_on_nonfile 0;
  boot_test "test_dup2_error_on_invalid_fid" test_dup2_error_on_invalid_fid 0;
  boot_test "test_dup2_copies_file" test_dup2_copies_file 1;
  boot_test "test_close_error_on_invalid_fid" test_close_error_on_invalid_fid 0;
  boot_test "test_close_success_on_valid_nonfile_fid" test_close_success_on_valid_nonfile_fid 0;
  boot_test "test_close_terminals" test_close_terminals 0;
  boot_test "test_read_kbd" test_read_kbd 1;
  boot_test "test_read_kbd_big" (test_read_kbd_big blocks) 1;
  boot_test "test_read_error_on_bad_fid" test_read_error_on_bad_fid 0;
  boot_test "test_read_from_many_terminals" test_read_from_many_terminals 2;
  boot_test "test_write_con" test_write_con 1;
  boot_test "test_write_con_big" (test_write_con_big blocks) 1;
  boot_test "test_write_error_on_bad_fid" test_write_error_on_bad_fid 0;
  boot_test "test_write_to_many_terminals" test_write_to_many_terminals 2;
  boot_test "test_child_inherits_files" test_child_inherits_files 1
]%string.

(** ** The tests pass *)

#[local] Instance wake_in_tests : WakeOps tid (Sched.sched Z) := sched_wake 0.

(** [test_boot] on this kernel: the initial task gets the pointer, and its arguments are a copy. *)
Example test_boot_passes : test_boot (fun _ : tid => 1) initialize_scheduler (mkSched ∅ ∅ ∅ 0 ∅ 0) 1000 128 1000 2000 = true.
Proof. vm_compute; reflexivity. Qed.

(** The suite with smaller numbers: a table of 128 processes, a tree of processes of depth 3, one with three children on
  two levels, and transfers of one block; and without the tests of timed waits. *)
Definition run_basic_tests (term_list : list nat) : bool :=
  run_test (fun _ : tid => 1) initialize_scheduler (mkSched ∅ ∅ ∅ 0 ∅ 0) 128 1000 [1%nat] term_list
    (basic_tests true (NO_FUNC "test_cond_timedwait_timeout") (NO_FUNC "test_cond_timedwait_signal") (NO_FUNC "test_cond_timedwait_broadcast")
      128 3 3 2 1).

(** With these numbers, when the processes take turns, the tests pass on a machine without terminals and on one with two. *)
Example basic_tests_pass : run_basic_tests [0; 2]%nat = true.
Proof.
  unfold run_basic_tests, basic_tests. cbn [run_test]. rewrite run_suite_ok.
  vm_compute; reflexivity.
Qed.
