(* ===== verification/Exceptions.v ===== *)
(** * Exceptions (util.h, util.c)

  The stack of frames with their catchers and finalizers, and its unwinding.  A [jmp_buf] is known by the block that
  [setjmp] was called in: the depth at which this block is nested in others.  A piece of code falls through to what
  comes after it, or jumps to a [jmp_buf]; the TRY-block whose [jmp_buf] it is lands the jump and unwinds the frame at
  the top of the stack, and every other block is left by it.  Handlers are actions on a state of type [St]:
  [act h err st] is the state after handler [h] was called with [err] in [st], and whether it raised an exception. *)

From S2P Require Import Prelude.

Section exceptions.
Context {St : Type} (act : nat -> Z -> St -> St * bool).

(** A frame: its jump target, and its lists of handlers, the last that was installed first. *)
Record exception_stack_frame := mkFrame { jbuf : nat; catchers : list nat; finalizers : list nat }.

Abbreviation context := (list exception_stack_frame).

(** How a piece of code ends. *)
Inductive flow (A : Type) := Fall (a : A) | Longjmp (buf : nat).
Arguments Fall {A}.
Arguments Longjmp {A}.

Abbreviation ended A := (flow A * (context * St))%type.

(** ** Frames *)

Definition exc_push_frame (buf : nat) (ctx : context) : context := mkFrame buf [] [] :: ctx.

(** [ON_ERROR] and [FINALLY], in the block of the frame at the top. *)
Definition ON_ERROR (h : nat) (ctx : context) : outcome context :=
  match ctx with [] => Err BadAccess | fr :: ctx => Ret (mkFrame (jbuf fr) (h :: catchers fr) (finalizers fr) :: ctx) end.

Definition FINALLY (h : nat) (ctx : context) : outcome context :=
  match ctx with [] => Err BadAccess | fr :: ctx => Ret (mkFrame (jbuf fr) (catchers fr) (h :: finalizers fr) :: ctx) end.

(** ** Unwinding *)

(** [while(list) { h = list; list = h->next; h->handler(errcode); }]: the state, and the handlers that are left
  when one of them raises. *)
Fixpoint run_handlers (errcode : Z) (hs : list nat) (st : St) : St * option (list nat) :=
  match hs with
  | [] => (st, None)
  | h :: hs => let '(st, raised) := act h errcode st in if raised then (st, Some hs) else run_handlers errcode hs st
  end.

(** A jump to the frame at the top; without a frame it does nothing. *)
Definition raise_exception (ctx : context) : flow unit := match ctx with [] => Fall tt | fr :: _ => Longjmp (jbuf fr) end.

(** A handler that raises does so with its frame still on the stack. *)
Definition exception_unwind (ctx : context) (errcode : Z) (st : St) : outcome (ended unit) :=
  match ctx with
  | [] => Err BadAccess
  | frame :: next =>
      let captured := bool_decide (catchers frame <> []) in
      match run_handlers errcode (catchers frame) st with
      | (st, Some cs) => let ctx := mkFrame (jbuf frame) cs (finalizers frame) :: next in Ret (raise_exception ctx, (ctx, st))
      | (st, None) =>
          match run_handlers errcode (finalizers frame) st with
          | (st, Some fs) => let ctx := mkFrame (jbuf frame) [] fs :: next in Ret (raise_exception ctx, (ctx, st))
          | (st, None) =>
              let ctx := next in
              Ret (if decide (errcode <> 0%Z /\ captured = false) then raise_exception ctx else Fall tt, (ctx, st))
          end
      end
  end.

(** [__exc_exit_try], at the end of the block. *)
Definition exc_exit_try (ctx : context) (st : St) : outcome (ended unit) :=
  match ctx with
  | [] => Err BadAccess
  | fr :: ctx => exception_unwind (mkFrame (jbuf fr) [] (finalizers fr) :: ctx) 0 st
  end.

(** ** Blocks

  The code of a block, given the depth at which it is nested, on the stack of frames and the state. *)
Abbreviation block A := (nat -> context * St -> outcome (ended A)).

Definition seq {A C} (b : block A) (k : A -> block C) : block C := fun d cs =>
  '(o, cs) ← b d cs;
  match o with Fall a => k a d cs | Longjmp buf => Ret (Longjmp buf, cs) end.

(** A statement that neither installs handlers nor raises. *)
Definition do_ (f : St -> St) : block unit := fun _ '(ctx, st) => Ret (Fall tt, (ctx, f st)).

Definition on_error (h : nat) : block unit := fun _ '(ctx, st) => ctx ← ON_ERROR h ctx; Ret (Fall tt, (ctx, st)).
Definition finally (h : nat) : block unit := fun _ '(ctx, st) => ctx ← FINALLY h ctx; Ret (Fall tt, (ctx, st)).

Definition RAISE : block unit := fun _ '(ctx, st) => Ret (raise_exception ctx, (ctx, st)).

(** [setjmp] returns 1 and [__exc_try] unwinds, as often as there are jumps to [buf]; any other jump leaves the block. *)
Fixpoint exc_try (fuel : nat) (buf : nat) (e : ended unit) : outcome (ended unit) :=
  match e with
  | (Longjmp t, (ctx, st)) =>
      if decide (t = buf) then
        match fuel with
        | O => Err OutOfFuel
        | S fuel => e ← exception_unwind ctx 1 st; exc_try fuel buf e
        end
      else Ret e
  | _ => Ret e
  end.

(** Enough fuel: a jump for every handler of the frame, and one by the code of the block. *)
Definition landings (ctx : context) : nat := match ctx with [] => 0 | fr :: _ => S (length (catchers fr) + length (finalizers fr)) end.

(** [TRY_WITH(context) body]. *)
Definition TRY_WITH (body : block unit) : block unit := fun buf '(ctx, st) =>
  '(o, (ctx, st)) ← body (S buf) (exc_push_frame buf ctx, st);
  e ← (match o with Fall _ => exc_exit_try ctx st | Longjmp _ => Ret (o, (ctx, st)) end);
  exc_try (landings ctx) buf e.

(** ** What a block means

  Every handler of the frame runs once, the catchers first, whatever they raise.  [err] is the error code that the
  next one is given, and [cap] whether the exception is handled so far: it is once a catcher runs, and is not once
  a handler raises. *)
Fixpoint run_each (catching : bool) (hs : list nat) (err : Z) (cap : bool) (st : St) : Z * bool * St :=
  match hs with
  | [] => (err, cap, st)
  | h :: hs =>
      let '(st, raised) := act h err st in
      if raised then run_each catching hs 1 false st else run_each catching hs err (catching || cap) st
  end.

Definition run_frame (fr : exception_stack_frame) (err : Z) (st : St) : Z * bool * St :=
  let '(err, cap, st) := run_each true (catchers fr) err false st in run_each false (finalizers fr) err cap st.

(** The frame is popped, and an exception that is not handled is raised in the block around. *)
Definition leave_frame (next : context) (r : Z * bool * St) : ended unit :=
  let '(err, cap, st) := r in (if decide (err <> 0%Z /\ cap = false) then raise_exception next else Fall tt, (next, st)).

(** The frames of the blocks around depth [d], innermost first. *)
Fixpoint nested (d : nat) (ctx : context) : Prop :=
  match ctx with [] => True | fr :: ctx => jbuf fr < d /\ nested (jbuf fr) ctx end.

(** What is asked of the code of a block: it ends, and leaves the frames below its own alone, unless it jumps to its
  TRY-block or to one around it, and then the frame of that block is at the top. *)
Definition disciplined {A} (b : block A) : Prop := forall d fr next st, nested d (fr :: next) -> exists o ctx' st',
  b d (fr :: next, st) = Ret (o, (ctx', st')) /\
  match o with
  | Fall _ => exists fr', ctx' = fr' :: next /\ jbuf fr' = jbuf fr
  | Longjmp t => exists fr' rest, ctx' = fr' :: rest /\ t = jbuf fr' /\ (rest = next /\ jbuf fr' = jbuf fr \/ ctx' `suffix_of` next)
  end.

(** ** Lemmas *)

(** A round of [run_handlers] is the start of [run_each]. *)
Lemma run_each_round catching err hs cap st :
  match run_handlers err hs st with
  | (st', None) => run_each catching hs err cap st = (err, catching && bool_decide (hs <> []) || cap, st')
  | (st', Some hs') => run_each catching hs err cap st = run_each catching hs' 1 false st' /\ length hs' < length hs
  end.
Proof.
  revert cap st. induction hs as [|h hs IH]; intros cap st; simpl; [by rewrite andb_false_r|].
  destruct (act h err st) as [st1 [|]]; [split; [done|lia]|]. specialize (IH (catching || cap) st1).
  destruct (run_handlers err hs st1) as [st' [hs'|]]; [destruct IH; split; [done|lia]|]. rewrite IH. f_equal. f_equal.
  destruct catching, cap, (bool_decide (hs <> [])); done.
Qed.

(** A call of [exception_unwind] runs the handlers of its frame up to the first that raises. *)
Lemma unwind_round fr next err st : exists e, exception_unwind (fr :: next) err st = Ret e /\
  (e = leave_frame next (run_frame fr err st) \/
   exists fr' st', e = (Longjmp (jbuf fr), (fr' :: next, st')) /\ jbuf fr' = jbuf fr /\ run_frame fr err st = run_frame fr' 1 st' /\
     landings (fr' :: next) < landings (fr :: next)).
Proof.
  cbn [exception_unwind]. cbv zeta. unfold run_frame at 1 2.
  pose proof (run_each_round true err (catchers fr) false st) as Hc.
  destruct (run_handlers err (catchers fr) st) as [st1 [cs|]].
  - destruct Hc as [Hc Hl]. eexists. split; [done|]. right. exists (mkFrame (jbuf fr) cs (finalizers fr)), st1. split; [done|]. split; [done|].
    unfold run_frame. simpl. rewrite Hc. split; [done|lia].
  - rewrite Hc. pose proof (run_each_round false err (finalizers fr) (true && bool_decide (catchers fr <> []) || false) st1) as Hf.
    destruct (run_handlers err (finalizers fr) st1) as [st2 [fs|]].
    + destruct Hf as [Hf Hl]. eexists. split; [done|]. right. exists (mkFrame (jbuf fr) [] fs), st2. split; [done|]. split; [done|].
      unfold run_frame. simpl in *. rewrite Hf. split; [done|lia].
    + rewrite Hf. eexists. split; [done|]. left. simpl. by rewrite orb_false_r.
Qed.

Lemma raise_elsewhere d next buf : nested d next -> raise_exception next = Longjmp buf -> buf <> d.
Proof. destruct next as [|fr next]; [done|]. intros [Hl _] [= <-]. lia. Qed.

Lemma exc_try_left fuel next r d : nested d next -> exc_try fuel d (leave_frame next r) = Ret (leave_frame next r).
Proof.
  intros Hn. destruct r as [[err cap] st]. unfold leave_frame. destruct (decide _); [|by destruct fuel].
  destruct (raise_exception next) as [[]|buf] eqn:E; [by destruct fuel|]. pose proof (raise_elsewhere _ _ _ Hn E).
  destruct fuel; simpl; by rewrite decide_False.
Qed.

(** Landing jumps to a block until its frame is popped. *)
Lemma exc_try_ok fuel : forall fr next st, nested (jbuf fr) next -> landings (fr :: next) <= fuel ->
  exc_try fuel (jbuf fr) (Longjmp (jbuf fr), (fr :: next, st)) = Ret (leave_frame next (run_frame fr 1 st)).
Proof.
  induction fuel as [|fuel IH]; intros fr next st Hn Hf; [simpl in Hf; lia|].
  cbn [exc_try]. rewrite decide_True by done. destruct (unwind_round fr next 1 st) as (e & E & He). rewrite (bind_eq _ _ _ E).
  destruct He as [->|(fr' & st' & -> & Hj & Hr & Hl)]; [by apply exc_try_left|].
  rewrite Hr, <- Hj. apply IH; [by rewrite Hj|lia].
Qed.

(** The end of a block. *)
Lemma exit_try_ok fr next st : nested (jbuf fr) next -> exists e, exc_exit_try (fr :: next) st = Ret e /\
  exc_try (landings (fr :: next)) (jbuf fr) e = Ret (leave_frame next (run_frame (mkFrame (jbuf fr) [] (finalizers fr)) 0 st)).
Proof.
  intros Hn. cbn [exc_exit_try]. destruct (unwind_round (mkFrame (jbuf fr) [] (finalizers fr)) next 0 st) as (e & E & He).
  exists e. split; [done|]. destruct He as [->|(fr' & st' & -> & Hj & Hr & Hl)]; [by apply exc_try_left|]. cbn [jbuf] in *.
  rewrite Hr, <- Hj. apply exc_try_ok; [by rewrite Hj|]. simpl in *. lia.
Qed.

(** Handlers that do not raise: they run in order, and a catcher handles the exception. *)
Lemma run_each_quiet catching hs err cap st : (forall h e s, (act h e s).2 = false) ->
  run_each catching hs err cap st = (err, catching && bool_decide (hs <> []) || cap, foldl (fun s h => (act h err s).1) st hs).
Proof.
  intros Hq. pose proof (run_each_round catching err hs cap st) as Hr.
  assert (run_handlers err hs st = (foldl (fun s h => (act h err s).1) st hs, None)) as E; [|by rewrite E in Hr].
  clear Hr. revert st. induction hs as [|h hs IH]; intros st; [done|]. simpl. specialize (Hq h err st).
  destruct (act h err st) as [st' raised]. simpl in Hq. subst raised. apply IH.
Qed.

Lemma run_frame_quiet fr err st : (forall h e s, (act h e s).2 = false) ->
  run_frame fr err st = (err, bool_decide (catchers fr <> []), foldl (fun s h => (act h err s).1) st (catchers fr ++ finalizers fr)).
Proof. intros Hq. unfold run_frame. rewrite !(run_each_quiet _ _ _ _ _ Hq). simpl. by rewrite orb_false_r, foldl_app. Qed.

(** ** Disciplined code *)

Lemma seq_disciplined {A C} (b : block A) (k : A -> block C) : disciplined b -> (forall a, disciplined (k a)) -> disciplined (seq b k).
Proof.
  intros Hb Hk d fr next st Hn. destruct (Hb d fr next st Hn) as (o & ctx' & st' & E & Ho). unfold seq. rewrite (bind_eq _ _ _ E).
  destruct o as [a|t]; [|by exists (Longjmp t), ctx', st']. destruct Ho as (fr' & -> & Hj).
  destruct (Hk a d fr' next st') as (o & ctx' & st2 & E2 & Ho); [simpl; by rewrite Hj|]. exists o, ctx', st2. split; [done|]. by rewrite <- Hj.
Qed.

Lemma do_disciplined f : disciplined (do_ f).
Proof. intros d fr next st _. cbn. eexists _, _, _. split; [done|]. by eexists. Qed.

Lemma on_error_disciplined h : disciplined (on_error h).
Proof. intros d fr next st _. cbn. eexists _, _, _. split; [done|]. by eexists. Qed.

Lemma finally_disciplined h : disciplined (finally h).
Proof. intros d fr next st _. cbn. eexists _, _, _. split; [done|]. by eexists. Qed.

Lemma raise_disciplined : disciplined RAISE.
Proof. intros d fr next st _. cbn. eexists _, _, _. split; [done|]. exists fr, next. split; [done|]. split; [done|]. by left. Qed.

Lemma leave_frame_cases next r : exists o st', leave_frame next r = (o, (next, st')) /\
  match o with Fall _ => True | Longjmp t => exists fr rest, next = fr :: rest /\ t = jbuf fr end.
Proof.
  destruct r as [[err cap] st]. eexists _, _. split; [done|]. destruct (decide _); [|done]. destruct next as [|fr rest]; [done|]. by exists fr, rest.
Qed.

(** What a TRY-block does, by how its code ends. *)
Lemma try_cases body d ctx st : disciplined body -> nested d ctx -> exists o ctx1 st1,
  body (S d) (exc_push_frame d ctx, st) = Ret (o, (ctx1, st1)) /\
  match o with
  | Fall _ => exists fr, ctx1 = fr :: ctx /\
      TRY_WITH body d (ctx, st) = Ret (leave_frame ctx (run_frame (mkFrame d [] (finalizers fr)) 0 st1))
  | Longjmp t =>
      (t = d /\ exists fr, ctx1 = fr :: ctx /\ TRY_WITH body d (ctx, st) = Ret (leave_frame ctx (run_frame fr 1 st1))) \/
      (t <> d /\ TRY_WITH body d (ctx, st) = Ret (Longjmp t, (ctx1, st1)) /\
       exists fr rest, ctx1 = fr :: rest /\ t = jbuf fr /\ ctx1 `suffix_of` ctx)
  end.
Proof.
  intros Hb Hn. destruct (Hb (S d) (mkFrame d [] []) ctx st) as (o & ctx1 & st1 & E & Ho); [by split; [simpl; lia|]|].
  exists o, ctx1, st1. split; [done|]. unfold TRY_WITH, exc_push_frame. rewrite (bind_eq _ _ _ E). destruct o as [[]|t].
  - destruct Ho as (fr & -> & Hj). cbn [jbuf] in Hj. exists fr. split; [done|].
    destruct (exit_try_ok fr ctx st1) as (e & E1 & E2); [by rewrite Hj|]. rewrite (bind_eq _ _ _ E1), <- Hj. exact E2.
  - rewrite ret_bind. destruct Ho as (fr & rest & -> & -> & [[-> Hj]|Hs]); cbn [jbuf] in *.
    + left. split; [done|]. exists fr. split; [done|]. rewrite <- Hj. apply exc_try_ok; [by rewrite Hj|done].
    + assert (jbuf fr <> d) as Hne.
      { assert (nested d (fr :: rest)) as [Hl _]; [|lia]. destruct Hs as [k ->]. clear -Hn. revert d Hn.
        induction k as [|g k IH]; intros d Hn; [done|]. destruct Hn as [Hl Hn]. apply IH in Hn as [? ?]. split; [simpl in *; lia|done]. }
      right. split; [done|]. split; [simpl; by rewrite decide_False|]. by exists fr, rest.
Qed.

Lemma try_disciplined body : disciplined body -> disciplined (TRY_WITH body).
Proof.
  intros Hb d fr next st Hn. destruct (try_cases body d (fr :: next) st Hb Hn) as (o & ctx1 & st1 & _ & Ho).
  assert (forall r, TRY_WITH body d (fr :: next, st) = Ret (leave_frame (fr :: next) r) -> exists o ctx' st',
    TRY_WITH body d (fr :: next, st) = Ret (o, (ctx', st')) /\
    match o with
    | Fall _ => exists fr', ctx' = fr' :: next /\ jbuf fr' = jbuf fr
    | Longjmp t => exists fr' rest, ctx' = fr' :: rest /\ t = jbuf fr' /\ (rest = next /\ jbuf fr' = jbuf fr \/ ctx' `suffix_of` next)
    end) as Hleft.
  { intros r E. destruct (leave_frame_cases (fr :: next) r) as (o' & st' & Er & Ho'). rewrite Er in E. exists o', (fr :: next), st'. split; [done|].
    destruct o' as [a|t]; [by exists fr|]. destruct Ho' as (? & ? & [= <- <-] & ->). exists fr, next. split; [done|]. split; [done|]. by left. }
  destruct o as [a|t].
  - destruct Ho as (fr1 & -> & E). by eapply Hleft.
  - destruct Ho as [[-> (fr1 & -> & E)]|(Hne & E & fr1 & rest & -> & -> & Hs)]; [by eapply Hleft|].
    eexists _, _, _. split; [exact E|]. exists fr1, rest. split; [done|]. split; [done|].
    destruct Hs as [[|g k] Hk]; simpl in Hk; simplify_eq; [by left|right; by exists k].
Qed.
End exceptions.
Arguments Fall {A}.
Arguments Longjmp {A}.

#[export] Hint Resolve do_disciplined on_error_disciplined finally_disciplined raise_disciplined try_disciplined : tinyos.
#[export] Hint Extern 5 (disciplined (seq _ _)) => apply seq_disciplined; [|intros ?] : tinyos.

(** ** Properties *)

(** C39.  Whatever is raised in a TRY-block and in its handlers, the block does what its frame says: if its code falls
  through it runs the finalizers, if its code jumps to it it runs the catchers and then the finalizers, each of them
  exactly once and the last one installed first, and nothing else; a jump to a block around it is passed on.  When no
  handler raises, an exception is handled exactly if there is a catcher, as the documentation says.  When a handler
  raises, the exception is handled only if a catcher runs after the last handler that raises: the documentation asks for
  less, that a catcher did execute. *)
Theorem unwind_runs_each_once {St} (act : nat -> Z -> St -> St * bool) body d ctx st : disciplined body -> nested d ctx ->
  (exists o ctx1 st1, body (S d) (exc_push_frame d ctx, st) = Ret (o, (ctx1, st1)) /\
    match o with
    | Fall _ => exists fr, ctx1 = fr :: ctx /\
        TRY_WITH act body d (ctx, st) = Ret (leave_frame ctx (run_frame act (mkFrame d [] (finalizers fr)) 0 st1))
    | Longjmp t =>
        (t = d /\ exists fr, ctx1 = fr :: ctx /\ TRY_WITH act body d (ctx, st) = Ret (leave_frame ctx (run_frame act fr 1 st1))) \/
        (t <> d /\ TRY_WITH act body d (ctx, st) = Ret (Longjmp t, (ctx1, st1)))
    end) /\
  ((forall h e s, (act h e s).2 = false) -> forall fr err s,
    run_frame act fr err s = (err, bool_decide (catchers fr <> []), foldl (fun s h => (act h err s).1) s (catchers fr ++ finalizers fr))).
Proof.
  intros Hb Hn. split.
  - destruct (try_cases act body d ctx st Hb Hn) as (o & ctx1 & st1 & E & Ho). exists o, ctx1, st1. split; [done|].
    destruct o; [done|]. destruct Ho as [?|(? & ? & _)]; [by left|by right].
  - intros Hq fr err s. by apply run_frame_quiet.
Qed.

(** Handlers that write their names down; those in [bad] raise. *)
Definition logging (bad : list nat) (h : nat) (err : Z) (log : list (nat * Z)) : list (nat * Z) * bool :=
  (log ++ [(h, err)], bool_decide (h ∈ bad)).

(** A block with three handlers, of which the second catcher raises; the exception is raised again in a block around. *)
Definition three_handlers : nat -> list exception_stack_frame * list (nat * Z) -> outcome (flow unit * (list exception_stack_frame * list (nat * Z))) :=
  seq (finally 3) (fun _ => seq (on_error 2) (fun _ => seq (on_error 1) (fun _ => RAISE))).

Lemma unwind_runs_each_once_witness :
  TRY_WITH (logging [2]) three_handlers 1 ([mkFrame 0 [4] []], []) = Ret (Longjmp 0, ([mkFrame 0 [4] []], [(1, 1%Z); (2, 1%Z); (3, 1%Z)])).
Proof.
  destruct (unwind_runs_each_once (logging [2]) three_handlers 1 [mkFrame 0 [4] []] []) as [(o & ctx1 & st1 & E & Ho) _].
  - unfold three_handlers. auto 10 with tinyos.
  - simpl. lia.
  - revert E Ho. vm_compute. intros [= <- <- <-] [[_ (fr & [= <-] & Hf)]|[Hne _]]; [exact Hf|by destruct Hne].
Defined.

(** A finalizer that raises after a catcher ran: the exception is not handled. *)
Lemma finalizer_raises :
  TRY_WITH (logging [2]) (seq (finally 2) (fun _ => seq (on_error 1) (fun _ => RAISE))) 1 ([mkFrame 0 [3] []], []) =
  Ret (Longjmp 0, ([mkFrame 0 [3] []], [(1, 1%Z); (2, 1%Z)])).
Proof. vm_compute; reflexivity. Qed.

(** C38.  A TRY-block ends, whatever is raised in it, in what it calls, or in its handlers, and leaves the exception
  stack balanced: if execution goes on after it, then with the stack as it was before; and if a jump leaves it, then to
  a block around it, with the frame of that block at the top and the frames below as they were.  The outermost block is
  never left by a jump. *)
Theorem try_balanced {St} (act : nat -> Z -> St -> St * bool) body d ctx st : disciplined body -> nested d ctx ->
  exists o ctx' st', TRY_WITH act body d (ctx, st) = Ret (o, (ctx', st')) /\
    match o with
    | Fall _ => ctx' = ctx
    | Longjmp t => exists fr rest, ctx' = fr :: rest /\ t = jbuf fr /\ ctx' `suffix_of` ctx
    end /\ (ctx = [] -> o = Fall tt).
Proof.
  intros Hb Hn. destruct (try_cases act body d ctx st Hb Hn) as (o & ctx1 & st1 & _ & Ho).
  assert (forall r, TRY_WITH act body d (ctx, st) = Ret (leave_frame ctx r) -> exists o ctx' st',
    TRY_WITH act body d (ctx, st) = Ret (o, (ctx', st')) /\
    match o with Fall _ => ctx' = ctx | Longjmp t => exists fr rest, ctx' = fr :: rest /\ t = jbuf fr /\ ctx' `suffix_of` ctx end /\
    (ctx = [] -> o = Fall tt)) as Hleft.
  { intros r E. destruct (leave_frame_cases ctx r) as (o' & st' & Er & Ho'). rewrite Er in E. exists o', ctx, st'. split; [done|].
    destruct o' as [[]|t]; [done|]. destruct Ho' as (fr & rest & -> & ->). split; [by exists fr, rest|done]. }
  destruct o as [a|t].
  - destruct Ho as (fr & -> & E). by eapply Hleft.
  - destruct Ho as [[-> (fr & -> & E)]|(Hne & E & fr & rest & -> & -> & Hs)]; [by eapply Hleft|].
    eexists _, _, _. split; [exact E|]. split; [by exists fr, rest|]. intros ->. by apply suffix_nil_inv in Hs.
Qed.

(** A block whose finalizer raises, in a block whose catcher handles that. *)
Lemma try_balanced_witness :
  let inner := TRY_WITH (logging [1]) (seq (finally 1) (fun _ => seq (finally 2) (fun _ => do_ id))) in
  exists ctx' st', TRY_WITH (logging [1]) (seq (on_error 3) (fun _ => inner)) 0 ([], []) = Ret (Fall tt, (ctx', st')) /\
    ctx' = [] /\ st' = [(2, 0%Z); (1, 0%Z); (3, 1%Z)].
Proof.
  intros inner. destruct (try_balanced (logging [1]) (seq (on_error 3) (fun _ => inner)) 0 [] []) as (o & ctx' & st' & E & Ho & Hn).
  - unfold inner. auto 10 with tinyos.
  - exact I.
  - rewrite (Hn eq_refl) in E, Ho. exists ctx', st'. split; [exact E|]. split; [exact Ho|].
    revert E. vm_compute. by intros [= _ <-].
Defined.
