(* ===== verification/Symposium.v ===== *)
(** * The dining philosophers (symposium.c)

  The monitor and the philosophers.  What a philosopher does while it holds the mutex is one step; the mutex is
  held until the philosopher unlocks it or sleeps in [Cond_Wait], and [Cond_Signal] wakes the philosopher that
  sleeps on the condition variable.  Thinking and eating are steps of their own, outside of the mutex: each draws a
  number, which divides by the number of choices, and computes a Fibonacci number.  What is printed is logged, with
  the state of the table that it shows.  [Philosophers] refines the steps to instructions. *)

From Stdlib Require Import String.
From S2P Require Import Prelude Kernel Prog.
#[local] Open Scope nat_scope.

(** The slow routine that thinking consists of. *)
Fixpoint fibo (n : nat) : Z :=
  match n with
  | O => 0
  | S O => 1
  | S (S n as m) => u32 (fibo m + fibo n)
  end%Z.

(** A symposium: how many philosophers, how many bites each, and the bounds of what thinking and eating draw. *)
Record symposium_t := mkSymposium { sy_N : Z; sy_bites : Z; sy_fmin : Z; sy_fmax : Z }.

(** [rnd] is the number that [lrand48] gives; [None] is a division by zero. *)
Definition fiborand (rnd fmin fmax : Z) : option Z :=
  let d := s32 (s32 (fmax - fmin) + 1) in
  if decide (d = 0)%Z then None else Some (s32 (Z.rem rnd d + fmin)).

Definition think (rnd fmin fmax : Z) : option Z := n ← fiborand rnd fmin fmax; Some (fibo (Z.to_nat (u32 n))).
Definition eat (rnd fmin fmax : Z) : option Z := think rnd fmin fmax.

(** There is no number to choose: [fmax-fmin+1] is zero. *)
Definition no_choice (fmin fmax : Z) : Prop := s32 (s32 (fmax - fmin) + 1)%Z = 0%Z.

Lemma think_traps rnd fmin fmax : think rnd fmin fmax = None <-> no_choice fmin fmax.
Proof. unfold think, fiborand, no_choice. destruct (decide _) as [E|E]; [by split|by split]. Qed.

Inductive PHIL := NOTHERE | THINKING | HUNGRY | EATING.
#[export] Instance PHIL_eq_dec : EqDecision PHIL.
Proof. solve_decision. Defined.

Definition LEFT (i N : nat) : nat := (i + 1) mod N.
Definition RIGHT (i N : nat) : nat := (i + N - 1) mod N.

(** A call of [print_state]: the state that it shows, the format without its newline and the philosopher. *)
Record print := mkPrint { shown : list PHIL; fmt : string; ph : nat }.

(** [sleeping] are the philosophers that sleep on their condition variables; [printed] is what was printed. *)
Record SymposiumTable := mkTable { state : list PHIL; sleeping : gset nat; printed : list print }.

Definition set_state (i : nat) (p : PHIL) (t : SymposiumTable) : SymposiumTable :=
  mkTable (<[i := p]> (state t)) (sleeping t) (printed t).

Definition Cond_Signal_hungry (i : nat) (t : SymposiumTable) : SymposiumTable := mkTable (state t) (sleeping t ∖ {[i]}) (printed t).
Definition Cond_Wait_hungry (i : nat) (t : SymposiumTable) : SymposiumTable := mkTable (state t) ({[i]} ∪ sleeping t) (printed t).

Definition print_state (f : string) (i : nat) (t : SymposiumTable) : SymposiumTable :=
  mkTable (state t) (sleeping t) (printed t ++ [mkPrint (state t) f i]).

(** The text of a call: the states, if they are fewer than 100, with that of the philosopher in brackets, and
  [printf(fmt, ph)]. *)
Definition PHIL_char (p : PHIL) : Z := match p with NOTHERE => 46 | THINKING => 84 | HUNGRY => 72 | EATING => 69 end.

Fixpoint printf_d (f : bytes) (n : Z) : bytes :=
  match f with
  | c :: f' =>
      match f' with
      | d :: f'' => if decide (c = 37 /\ d = 100)%Z then decimal n ++ f'' else c :: printf_d f' n
      | [] => [c]
      end
  | [] => []
  end.

Definition print_text (N : nat) (p : print) : bytes :=
  (if decide (N < 100) then
     concat (imap (fun i st => if decide (i = ph p) then [91; PHIL_char st; 93]%Z else [32; PHIL_char st; 32]%Z) (take N (shown p)))
   else []) ++ printf_d (str (fmt p)) (Z.of_nat (ph p)) ++ [10%Z].

Definition trytoeat (N i : nat) (t : SymposiumTable) : SymposiumTable :=
  if decide (state t !! i = Some HUNGRY /\ state t !! LEFT i N <> Some EATING /\ state t !! RIGHT i N <> Some EATING)
  then Cond_Signal_hungry i (print_state "     %d is eating" i (set_state i EATING t)) else t.

(** Where a philosopher is; the number counts the bites after the present one. *)
Inductive place :=
  | Arriving
  | Thinking (j : nat)
  | Thought (j : nat)
  | Waiting (j : nat)
  | Eating (j : nat)
  | Eaten (j : nat)
  | Leaving
  | Gone.

(** The head of [for(j=0; j<bites; j++)], with that many bites left. *)
Definition next_bite (j : nat) : place := match j with O => Leaving | Datatypes.S j => Thinking j end.

(** [while(state[i]==HUNGRY) Cond_Wait(..); assert(state[i]==EATING);] *)
Definition wait_hungry (i j : nat) (t : SymposiumTable) : outcome (place * SymposiumTable) :=
  if decide (state t !! i = Some HUNGRY) then Ret (Waiting j, Cond_Wait_hungry i (print_state "     %d waits hungry" i t))
  else _ ← c_assert (bool_decide (state t !! i = Some EATING)); Ret (Eating j, t).

(** What all philosophers read and none of them changes: the numbers that [lrand48] gives, in the order of the calls,
  and the bounds that they have cached. *)
Class Thoughts := { lrand48 : nat -> Z; fmin : Z; fmax : Z }.

Section steps.
Context `{Thoughts}.

(** [think(fmin, fmax);] or [eat(fmin, fmax);], with the [k]th number; a division by zero ends the machine. *)
Definition burn (thought : option Z) : outcome unit := match thought with Some _ => Ret tt | None => Err Fatal end.

(** The next step of philosopher [i], a critical section or what is between two; [None] when it sleeps or has left.
  [k] numbers were drawn before. *)
Definition SymposiumTable_philosopher (N bites i k : nat) (p : place) (t : SymposiumTable) : option (outcome (place * SymposiumTable)) :=
  match p with
  | Arriving => Some (Ret (next_bite bites, print_state "     %d has arrived" i (set_state i THINKING t)))
  | Thinking j => Some (_ ← burn (think (lrand48 k) fmin fmax); Ret (Thought j, t))
  | Thought j => Some (wait_hungry i j (trytoeat N i (set_state i HUNGRY t)))
  | Waiting j => if decide (i ∈ sleeping t) then None else Some (wait_hungry i j t)
  | Eating j => Some (_ ← burn (eat (lrand48 k) fmin fmax); Ret (Eaten j, t))
  | Eaten j => Some (Ret (next_bite j,
      trytoeat N (RIGHT i N) (trytoeat N (LEFT i N) (print_state "     %d is thinking" i (set_state i THINKING t)))))
  | Leaving => Some (Ret (Gone, print_state "     %d is leaving" i (set_state i NOTHERE t)))
  | Gone => None
  end.

(** Whether the step draws a number. *)
Definition draws (p : place) : bool := match p with Thinking _ | Eating _ => true | _ => false end.

Definition SymposiumTable_init (N : nat) : SymposiumTable := mkTable (replicate N NOTHERE) ∅ [].

(** The symposium: the table, where each philosopher is, and how many numbers were drawn. *)
Record symposium := mkSymp { table : SymposiumTable; places : list place; drawn : nat }.

Definition symp_start (N : nat) : symposium := mkSymp (SymposiumTable_init N) (replicate N Arriving) 0.

(** Philosopher [i], who was at [p0], is at [p], and the table is [t]. *)
Definition moved (i : nat) (p0 p : place) (t : SymposiumTable) (s : symposium) : symposium :=
  mkSymp t (<[i := p]> (places s)) ((if draws p0 then 1 else 0) + drawn s).

Definition symp_turn (N bites i : nat) (s : symposium) : option (outcome symposium) :=
  p0 ← places s !! i;
  o ← SymposiumTable_philosopher N bites i (drawn s) p0 (table s);
  Some ('(p, t) ← o; Ret (moved i p0 p t s)).

Inductive symp_step (N bites : nat) (s : symposium) : symposium -> Prop :=
  | symp_step_at i s' : symp_turn N bites i s = Some (Ret s') -> symp_step N bites s s'.
End steps.

(** ** Neighbours *)

Definition adj (N i j : nat) : Prop := j = LEFT i N \/ j = RIGHT i N.

Lemma left_right N i : i < N -> LEFT (RIGHT i N) N = i /\ RIGHT (LEFT i N) N = i /\ LEFT i N < N /\ RIGHT i N < N.
Proof.
  intros Hi. unfold LEFT, RIGHT. split; [|split; [|split; apply Nat.mod_upper_bound; lia]].
  - rewrite Nat.Div0.add_mod_idemp_l. replace (i + N - 1 + 1) with (i + 1 * N) by lia. rewrite Nat.Div0.mod_add. by apply Nat.mod_small.
  - destruct (decide (i + 1 = N)) as [He|Hne].
    + rewrite He, Nat.Div0.mod_same. simpl. rewrite Nat.mod_small by lia. lia.
    + rewrite (Nat.mod_small (i + 1)) by lia. replace (i + 1 + N - 1) with (i + 1 * N) by lia. rewrite Nat.Div0.mod_add. by apply Nat.mod_small.
Qed.

Lemma adj_sym N i j : i < N -> adj N i j -> adj N j i /\ j < N.
Proof. intros Hi. destruct (left_right N i Hi) as (E1 & E2 & ? & ?). intros [-> | ->]; unfold adj; split; auto. Qed.

(** ** The invariant *)

(** The state of a philosopher and whether it sleeps, by its place. *)
Definition place_ok (i : nat) (t : SymposiumTable) (p : place) : Prop :=
  match p with
  | Arriving | Gone => state t !! i = Some NOTHERE /\ i ∉ sleeping t
  | Thinking _ | Thought _ | Leaving => state t !! i = Some THINKING /\ i ∉ sleeping t
  | Eating _ | Eaten _ => state t !! i = Some EATING /\ i ∉ sleeping t
  | Waiting _ => (state t !! i = Some HUNGRY /\ i ∈ sleeping t) \/ (state t !! i = Some EATING /\ i ∉ sleeping t)
  end.

(** Neighbours do not eat at the same time. *)
Definition apart (N : nat) (st : list PHIL) : Prop :=
  forall i j, i < N -> adj N i j -> i <> j -> ~ (st !! i = Some EATING /\ st !! j = Some EATING).
Definition exclusive (N : nat) (t : SymposiumTable) : Prop := apart N (state t).

(** Nor do they in what was printed. *)
Definition printed_ok (N : nat) (t : SymposiumTable) : Prop := Forall (fun p => apart N (shown p)) (printed t).

(** A hungry philosopher has a neighbour who eats. *)
Definition calm (N : nat) (t : SymposiumTable) (i : nat) : Prop :=
  state t !! i = Some HUNGRY -> exists j, adj N i j /\ state t !! j = Some EATING.

Record sinv (N : nat) (s : symposium) : Prop := {
  si_len : length (state (table s)) = N;
  si_places : length (places s) = N;
  si_excl : exclusive N (table s);
  si_calm i : i < N -> calm N (table s) i;
  si_place i p : places s !! i = Some p -> place_ok i (table s) p;
  si_printed : printed_ok N (table s)
}.

(** What changes, but for the philosophers in [X]: nothing, unless one is woken to eat. *)
Definition gentle (X : gset nat) (t t' : SymposiumTable) : Prop :=
  length (state t') = length (state t) /\
  forall k, k ∉ X -> (state t' !! k = state t !! k /\ (k ∈ sleeping t' <-> k ∈ sleeping t)) \/
    (state t !! k = Some HUNGRY /\ state t' !! k = Some EATING /\ k ∉ sleeping t').

Lemma gentle_refl X t : gentle X t t.
Proof. split; [done|]. intros k _. by left. Qed.

Lemma gentle_trans X t1 t2 t3 : gentle X t1 t2 -> gentle X t2 t3 -> gentle X t1 t3.
Proof.
  intros [L1 G1] [L2 G2]. split; [congruence|]. intros k Hk. destruct (G1 k Hk) as [[E1 S1]|(? & ? & ?)], (G2 k Hk) as [[E2 S2]|(? & ? & ?)].
  - left. split; [congruence|]. by rewrite S2.
  - right. split; [congruence|]. done.
  - right. split; [done|]. split; [congruence|]. by rewrite S2.
  - congruence.
Qed.

Lemma trytoeat_ok N X i t : i < N -> length (state t) = N -> exclusive N t ->
  gentle X t (trytoeat N i t) /\ exclusive N (trytoeat N i t) /\ calm N (trytoeat N i t) i /\
  forall k, calm N t k -> calm N (trytoeat N i t) k.
Proof.
  intros Hi Hlen Hex. unfold trytoeat. destruct (decide _) as [(Hh & Hl & Hr)|Hno].
  - assert (forall k, <[i := EATING]> (state t) !! k = if decide (k = i) then Some EATING else state t !! k) as El.
    { intros k. simpl. destruct (decide (k = i)) as [->|Hne]; [apply list_lookup_insert_eq; lia|by apply list_lookup_insert_ne]. }
    split; [split; [simpl; by rewrite length_insert|]|split; [|split]].
    + intros k _. rewrite El. destruct (decide (k = i)) as [->|Hne]; [right|left]; simpl; set_solver.
    + assert (forall a, adj N i a -> a <> i -> state t !! a <> Some EATING) as Hnb by (intros a [-> | ->] _; done).
      intros a b Ha Hab Hne [Ea Eb]. rewrite El in Ea, Eb. destruct (adj_sym N a b Ha Hab) as [Hba Hb].
      destruct (decide (a = i)) as [->|], (decide (b = i)) as [->|].
      * done.
      * by apply (Hnb b).
      * by apply (Hnb a).
      * by apply (Hex a b).
    + intros Hi'. rewrite El, decide_True in Hi' by done. done.
    + intros k Hk Hk'. rewrite El in Hk'. destruct (decide (k = i)); [done|]. destruct (Hk Hk') as (j & Hj & Hje). exists j. split; [done|].
      rewrite El. by destruct (decide (j = i)).
  - split; [apply gentle_refl|]. split; [done|]. split; [|done]. intros Hh. destruct (decide (state t !! LEFT i N = Some EATING)) as [?|?].
    + exists (LEFT i N). split; [by left|done].
    + exists (RIGHT i N). split; [by right|]. destruct (decide (state t !! RIGHT i N = Some EATING)); [done|]. by destruct Hno.
Qed.

(** Setting the state of a philosopher that is not asleep. *)
Lemma set_state_lookup i p t k : i < length (state t) -> state (set_state i p t) !! k = if decide (k = i) then Some p else state t !! k.
Proof. intros Hi. simpl. destruct (decide (k = i)) as [->|Hne]; [by apply list_lookup_insert_eq|by apply list_lookup_insert_ne]. Qed.

Lemma set_state_gentle i p t : gentle {[i]} t (set_state i p t).
Proof. split; [simpl; by rewrite length_insert|]. intros k Hk. left. split; [|done]. simpl. apply list_lookup_insert_ne. set_solver. Qed.

Lemma set_state_exclusive N i p t : length (state t) = N -> i < N -> p <> EATING -> exclusive N t -> exclusive N (set_state i p t).
Proof.
  intros Hl Hi Hp Hex a b Ha Hab Hne. rewrite !set_state_lookup by lia. intros [Ea Eb].
  destruct (decide (a = i)), (decide (b = i)); try congruence. by apply (Hex a b).
Qed.

(** Who is not next to a philosopher that stops eating stays calm. *)
Lemma set_state_calm N i p t k : length (state t) = N -> i < N -> k <> i -> state t !! i <> Some EATING \/ ~ adj N k i ->
  calm N t k -> calm N (set_state i p t) k.
Proof.
  intros Hl Hi Hne Hor Hc. unfold calm. rewrite set_state_lookup by lia. rewrite decide_False by done. intros Hh.
  destruct (Hc Hh) as (j & Hj & Hje). exists j. split; [done|]. rewrite set_state_lookup by lia.
  destruct (decide (j = i)) as [->|]; [|done]. by destruct Hor.
Qed.

Lemma set_state_calm_self N i p t : length (state t) = N -> i < N -> p <> HUNGRY -> calm N (set_state i p t) i.
Proof. intros Hl Hi Hp. unfold calm. rewrite set_state_lookup, decide_True by (done || lia). congruence. Qed.

(** What is printed when nobody eats next to another. *)
Lemma print_state_ok N f i t : exclusive N t -> printed_ok N t -> printed_ok N (print_state f i t).
Proof. intros Hx Hp. apply Forall_app. split; [done|]. by apply Forall_singleton. Qed.

Lemma trytoeat_printed N i t : i < N -> length (state t) = N -> exclusive N t -> printed_ok N t -> printed_ok N (trytoeat N i t).
Proof.
  intros Hi Hl Hx Hp. destruct (trytoeat_ok N ∅ i t Hi Hl Hx) as (_ & Hx' & _). unfold trytoeat in *.
  destruct (decide _); [|done]. by apply print_state_ok.
Qed.

(** One philosopher moves. *)
Lemma sinv_move N s i p0 p t : sinv N s -> places s !! i = Some p0 -> gentle {[i]} (table s) t -> exclusive N t ->
  printed_ok N t -> (forall k, k < N -> calm N t k) -> place_ok i t p -> sinv N (moved i p0 p t s).
Proof.
  intros [I1 I2 I3 I4 I5 I6] Hp [Hl Hg] Hex Hpr Hc Hok. split; simpl; [congruence|by rewrite length_insert|done|done| |done].
  intros k q [(-> & <- & _)|[Hne Hq]]%list_lookup_insert_Some; [done|]. pose proof (I5 k q Hq) as Hk.
  destruct (Hg k ltac:(set_solver)) as [[E Sl]|(Hh & He & Hs)].
  - destruct q; simpl in *; by rewrite E, Sl.
  - destruct q; simpl in *; try (destruct Hk; congruence). by right.
Qed.

Lemma wait_hungry_ok i j t : state t !! i = Some HUNGRY \/ state t !! i = Some EATING ->
  (state t !! i = Some EATING -> i ∉ sleeping t) ->
  exists p t', wait_hungry i j t = Ret (p, t') /\ state t' = state t /\ place_ok i t' p /\ gentle {[i]} t t' /\
    (forall N, exclusive N t -> printed_ok N t -> printed_ok N t') /\ (p = Waiting j /\ state t !! i = Some HUNGRY \/ p = Eating j).
Proof.
  intros Hor Hs. unfold wait_hungry. destruct (decide (state t !! i = Some HUNGRY)) as [Hh|Hh].
  - eexists _, _. split; [done|]. split; [done|]. split; [left; set_solver|]. split.
    { split; [done|]. intros k Hk. left. split; [done|]. simpl. set_solver. }
    split; [|by left]. intros N Hx Hp. by apply (print_state_ok N "     %d waits hungry" i t).
  - assert (state t !! i = Some EATING) as He by naive_solver. rewrite bool_decide_true by done. eexists _, _. split; [done|].
    split; [done|]. split; [split; [done|by apply Hs]|]. split; [apply gentle_refl|]. split; [done|by right].
Qed.

(** ** Termination

  How many critical sections, and how many numbers to draw, a philosopher has left, at most. *)
Definition sections_left (bites : nat) (p : place) : nat :=
  match p with
  | Arriving => 3 * bites + 2
  | Thinking j | Thought j => 3 * j + 4
  | Waiting j => 3 * j + 3
  | Eating j | Eaten j => 3 * j + 2
  | Leaving => 1
  | Gone => 0
  end.

Definition thoughts_left (bites : nat) (p : place) : nat :=
  match p with
  | Arriving => 2 * bites
  | Thinking j => 2 * j + 2
  | Thought j | Waiting j | Eating j => 2 * j + 1
  | Eaten j => 2 * j
  | Leaving | Gone => 0
  end.

(** The total of a measure of the philosophers. *)
Definition total (f : place -> nat) (s : symposium) : nat := sum_list (f <$> places s).

Definition steps_left (bites : nat) (p : place) : nat := sections_left bites p + thoughts_left bites p.
Definition total_left (bites : nat) (s : symposium) : nat := total (steps_left bites) s.

Lemma sum_list_insert (l : list nat) i x y : l !! i = Some x -> sum_list (<[i := y]> l) + x = sum_list l + y.
Proof. revert i. induction l as [|z l IH]; intros [|i] Hi; simpl in *; [done..|simplify_eq; lia|]. specialize (IH i Hi). lia. Qed.

Lemma total_moved f t s i p0 p : places s !! i = Some p0 -> total f (moved i p0 p t s) + f p0 = total f s + f p.
Proof. intros Hp. unfold total. simpl. rewrite list_fmap_insert. apply sum_list_insert. by rewrite list_lookup_fmap, Hp. Qed.

Lemma total_start f N : total f (symp_start N) = N * f Arriving.
Proof.
  unfold total, symp_start. cbn [places]. induction N as [|N IH]; [done|]. cbn [replicate]. rewrite fmap_cons.
  change (f Arriving + sum_list (f <$> replicate N Arriving) = Datatypes.S N * f Arriving). rewrite IH. simpl. lia.
Qed.

Lemma start_left N bites : total_left bites (symp_start N) = N * (5 * bites + 2).
Proof. unfold total_left. rewrite total_start. unfold steps_left. simpl. lia. Qed.

Lemma next_bite_left bites j : sections_left bites (next_bite j) < 3 * j + 2 /\ thoughts_left bites (next_bite j) <= 2 * j.
Proof. destruct j; simpl; lia. Qed.

Lemma next_bite_ok i t j : state t !! i = Some THINKING -> i ∉ sleeping t -> place_ok i t (next_bite j).
Proof. by destruct j. Qed.

(** The three kinds of critical sections. *)
Lemma arrive_ok N bites i f s : sinv N s -> places s !! i = Some Arriving \/ places s !! i = Some Leaving ->
  forall p st, (places s !! i = Some Arriving -> p = next_bite bites /\ st = THINKING) ->
  (places s !! i = Some Leaving -> p = Gone /\ st = NOTHERE) ->
  forall p0, places s !! i = Some p0 -> sinv N (moved i p0 p (print_state f i (set_state i st (table s))) s).
Proof.
  intros I Hor p st HA HL p0 Hp0. pose proof I as [I1 I2 I3 I4 I5 I6].
  assert (state (table s) !! i <> Some EATING /\ i ∉ sleeping (table s)) as [Hne Hs].
  { destruct Hor as [Hp|Hp]; destruct (I5 i _ Hp) as [E ?]; split; congruence. }
  assert (i < N) as Hi by (rewrite <- I2; by eapply lookup_lt_Some).
  assert (st <> HUNGRY /\ st <> EATING) as [Hh He] by (destruct Hor; naive_solver).
  assert (exclusive N (set_state i st (table s))) as Hx by (by apply set_state_exclusive).
  eapply sinv_move; [exact I|exact Hp0|apply set_state_gentle|exact Hx|by apply print_state_ok| |].
  - intros k Hk. destruct (decide (k = i)) as [->|?]; [by apply set_state_calm_self|]. apply set_state_calm; auto.
  - assert (state (set_state i st (table s)) !! i = Some st) as E by (rewrite set_state_lookup by lia; by rewrite decide_True).
    destruct Hor as [Hp|Hp]; [destruct (HA Hp) as [-> ->]; by apply next_bite_ok|by destruct (HL Hp) as [-> ->]].
Qed.

Lemma hungry_ok N i j s : sinv N s -> places s !! i = Some (Thought j) ->
  exists p t, wait_hungry i j (trytoeat N i (set_state i HUNGRY (table s))) = Ret (p, t) /\
    sinv N (moved i (Thought j) p t s) /\ (p = Waiting j \/ p = Eating j).
Proof.
  intros I Hp. pose proof I as [I1 I2 I3 I4 I5 I6]. destruct (I5 i _ Hp) as [Es Hs].
  assert (i < N) as Hi by (rewrite <- I2; by eapply lookup_lt_Some).
  set (t1 := set_state i HUNGRY (table s)). assert (length (state t1) = N) as Hl1 by (simpl; by rewrite length_insert).
  assert (exclusive N t1) as Hx1 by (by apply set_state_exclusive).
  destruct (trytoeat_ok N {[i]} i t1 Hi Hl1 Hx1) as (G & Hx & Hc & Hcs).
  assert (state t1 !! i = Some HUNGRY) as E1 by (unfold t1; rewrite set_state_lookup by lia; by rewrite decide_True).
  assert ((state (trytoeat N i t1) !! i = Some HUNGRY \/ state (trytoeat N i t1) !! i = Some EATING) /\ i ∉ sleeping (trytoeat N i t1)) as [Hor Hs2].
  { unfold trytoeat. destruct (decide _); simpl; [split; [right; apply list_lookup_insert_eq; simpl in *; lia|set_solver]|by split; [left|]]. }
  destruct (wait_hungry_ok i j (trytoeat N i t1) Hor) as (p & t & E & Est & Hpk & Hg & Hpr & Hcase); [done|].
  exists p, t. split; [exact E|]. split; [|tauto].
  eapply sinv_move; [exact I|exact Hp| | | | |exact Hpk].
  - eapply gentle_trans; [apply set_state_gentle|]. by eapply gentle_trans; [exact G|].
  - intros a b. rewrite Est. apply Hx.
  - apply Hpr; [done|]. by apply trytoeat_printed.
  - intros k Hk. unfold calm. rewrite Est. destruct (decide (k = i)) as [->|Hne]; [done|]. apply Hcs, set_state_calm; auto. left. congruence.
Qed.

Lemma wake_ok N i j s : sinv N s -> places s !! i = Some (Waiting j) -> i ∉ sleeping (table s) ->
  wait_hungry i j (table s) = Ret (Eating j, table s) /\ sinv N (moved i (Waiting j) (Eating j) (table s) s).
Proof.
  intros I Hp Hs. pose proof I as [I1 I2 I3 I4 I5 I6]. destruct (I5 i _ Hp) as [[_ ?]|[Es _]]; [done|]. split.
  - unfold wait_hungry. rewrite decide_False by congruence. by rewrite bool_decide_true.
  - eapply sinv_move; [exact I|exact Hp|apply gentle_refl|done..].
Qed.

Lemma eat_ok N i j f s : sinv N s -> places s !! i = Some (Eaten j) ->
  sinv N (moved i (Eaten j) (next_bite j) (trytoeat N (RIGHT i N) (trytoeat N (LEFT i N) (print_state f i (set_state i THINKING (table s))))) s).
Proof.
  intros I Hp. pose proof I as [I1 I2 I3 I4 I5 I6]. destruct (I5 i _ Hp) as [Es Hs].
  assert (i < N) as Hi by (rewrite <- I2; by eapply lookup_lt_Some). destruct (left_right N i Hi) as (_ & _ & HL & HR).
  set (t1 := print_state f i (set_state i THINKING (table s))). assert (length (state t1) = N) as Hl1 by (simpl; by rewrite length_insert).
  assert (exclusive N t1) as Hx1 by (by apply (set_state_exclusive N i THINKING)).
  assert (printed_ok N t1) as Hp1 by (by apply print_state_ok).
  destruct (trytoeat_ok N ∅ (LEFT i N) t1 HL Hl1 Hx1) as (G2 & Hx2 & Hc2 & Hcs2). set (t2 := trytoeat N (LEFT i N) t1) in *.
  assert (length (state t2) = N) as Hl2 by (destruct G2; congruence).
  destruct (trytoeat_ok N ∅ (RIGHT i N) t2 HR Hl2 Hx2) as (G3 & Hx3 & Hc3 & Hcs3). set (t3 := trytoeat N (RIGHT i N) t2) in *.
  assert (gentle ∅ t1 t3) as G by (by eapply gentle_trans).
  assert (state t1 !! i = Some THINKING) as E1 by (change (state t1) with (state (set_state i THINKING (table s))); rewrite set_state_lookup by lia; by rewrite decide_True).
  eapply sinv_move; [exact I|exact Hp| |exact Hx3|by repeat apply trytoeat_printed| |].
  - eapply (gentle_trans _ _ t1); [apply (set_state_gentle i THINKING)|]. destruct G as [? G]. split; [done|]. intros k _. apply G. set_solver.
  - intros k Hk. destruct (decide (k = RIGHT i N)) as [->|HnR]; [done|]. apply Hcs3. destruct (decide (k = LEFT i N)) as [->|HnL]; [done|].
    apply Hcs2. destruct (decide (k = i)) as [->|Hne]; [by apply (set_state_calm_self N i THINKING)|].
    apply (set_state_calm N i THINKING); auto. right.
    intros Ha. destruct (adj_sym N k i Hk Ha) as [[?|?] _]; done.
  - destruct G as [_ G]. destruct (G i ltac:(set_solver)) as [[E Sl]|(? & _)]; [|congruence]. apply next_bite_ok; [congruence|]. by rewrite Sl.
Qed.

(** Thinking and eating change nothing. *)
Lemma burn_ok N s i p0 p : sinv N s -> places s !! i = Some p0 -> (forall t, place_ok i t p <-> place_ok i t p0) ->
  sinv N (moved i p0 p (table s) s).
Proof.
  intros I Hp Hok. pose proof I as [I1 I2 I3 I4 I5 I6]. eapply sinv_move; [exact I|exact Hp|apply gentle_refl|done..|].
  apply Hok. by apply I5.
Qed.

(** A critical section is without error. *)
Lemma section_ok `{Thoughts} N bites s i k p : sinv N s -> places s !! i = Some p -> draws p = false ->
  match SymposiumTable_philosopher N bites i k p (table s) with
  | Some o => exists p' t, o = Ret (p', t) /\ sinv N (moved i p p' t s) /\
      sections_left bites p' < sections_left bites p /\ thoughts_left bites p' <= thoughts_left bites p
  | None => p = Gone \/ (exists j, p = Waiting j) /\ state (table s) !! i = Some HUNGRY
  end.
Proof.
  intros I Hp Hd. destruct p as [|j|j|j|j|j| |]; try done; simpl.
  - eexists _, _. split; [done|]. pose proof (next_bite_left bites bites). split; [|lia].
    apply (arrive_ok N bites i _ s I (or_introl Hp)); [done|congruence|done].
  - destruct (hungry_ok N i j s I Hp) as (p & t & E & I' & Hpj). exists p, t. split; [done|]. split; [done|].
    destruct Hpj as [-> | ->]; simpl; lia.
  - destruct (decide _) as [Hs|Hs].
    + right. split; [by exists j|]. by destruct (si_place _ _ I i _ Hp) as [[? _]|[_ ?]].
    + destruct (wake_ok N i j s I Hp Hs) as [E I']. exists (Eating j), (table s). split; [done|]. split; [done|]. simpl. lia.
  - eexists _, _. split; [done|]. pose proof (next_bite_left bites j). split; [by apply eat_ok|lia].
  - eexists _, _. split; [done|]. split; [|simpl; lia]. apply (arrive_ok N bites i _ s I (or_intror Hp)); [congruence|done|done].
  - by left.
Qed.

(** Thinking and eating are without error if there is a number to choose. *)
Lemma thinking_ok `{Thoughts} N bites s i k p : sinv N s -> places s !! i = Some p -> draws p = true ->
  no_choice fmin fmax /\ SymposiumTable_philosopher N bites i k p (table s) = Some (Err Fatal) \/
  ~ no_choice fmin fmax /\ exists p', SymposiumTable_philosopher N bites i k p (table s) = Some (Ret (p', table s)) /\ draws p' = false /\
    sinv N (moved i p p' (table s) s) /\ sections_left bites p' = sections_left bites p /\ thoughts_left bites p' + 1 = thoughts_left bites p.
Proof.
  intros I Hp Hd.
  assert (forall j, (p = Thinking j \/ p = Eating j) -> no_choice fmin fmax /\ think (lrand48 k) fmin fmax = None \/
    ~ no_choice fmin fmax /\ exists z, think (lrand48 k) fmin fmax = Some z) as Hth.
  { intros j _. pose proof (think_traps (lrand48 k) fmin fmax) as Ht. destruct (think _ _ _) as [z|]; [right|left]; [|by split; [apply Ht|]].
    split; [|by exists z]. intros Hn. by apply Ht in Hn. }
  destruct p as [|j|j|j|j|j| |]; try done; simpl; unfold eat;
    (destruct (Hth j) as [[Hn ->]|[Hn [z ->]]]; [auto|by left|right]; split; [done|]; eexists; split; [done|]; split; [done|]);
    (split; [by eapply burn_ok|simpl; lia]).
Qed.

Lemma symp_turn_ok `{Thoughts} N bites s i : sinv N s ->
  match symp_turn N bites i s with
  | Some o => (exists s', o = Ret s' /\ sinv N s' /\ total_left bites s' < total_left bites s) \/ o = Err Fatal /\ no_choice fmin fmax
  | None => forall p, places s !! i = Some p -> p = Gone \/ (exists j, p = Waiting j) /\ state (table s) !! i = Some HUNGRY
  end.
Proof.
  intros I. unfold symp_turn. destruct (places s !! i) as [p|] eqn:Hp; simpl; [|done]. destruct (draws p) eqn:Hd.
  - destruct (thinking_ok N bites s i (drawn s) p I Hp Hd) as [[Hn ->]|(_ & p' & -> & _ & I' & Hs & Ht)]; simpl; [by right|left].
    eexists. split; [done|]. split; [done|]. unfold total_left. pose proof (total_moved (steps_left bites) (table s) s i p p' Hp) as Htot.
    unfold steps_left in *. lia.
  - pose proof (section_ok N bites s i (drawn s) p I Hp Hd) as Hok.
    destruct (SymposiumTable_philosopher _ _ _ _ _ _); simpl; [|by intros ? [= <-]].
    destruct Hok as (p' & t & -> & I' & Hs & Ht). left. eexists. split; [done|]. split; [done|]. unfold total_left.
    pose proof (total_moved (steps_left bites) t s i p p' Hp) as Htot. unfold steps_left in *. lia.
Qed.

Lemma symp_start_inv N : sinv N (symp_start N).
Proof.
  assert (forall i p, replicate N NOTHERE !! i = Some p -> p = NOTHERE) as Hst by (intros i p [? _]%lookup_replicate; done).
  split; simpl; [apply length_replicate..| | | |constructor].
  - intros i j Hi Hij Hne [Ei%Hst _]. done.
  - intros i Hi Hh%Hst. done.
  - intros i p [-> Hi]%lookup_replicate. split; [by apply lookup_replicate|set_solver].
Qed.

Section reachable.
Context `{Thoughts}.

Definition symp_reachable (N bites : nat) (s : symposium) : Prop := reach (symp_step N bites) (symp_start N) s.

Lemma symp_reach_inv N bites s : symp_reachable N bites s -> sinv N s.
Proof.
  intros Hr. eapply reach_invariant; [|exact Hr|apply symp_start_inv]. intros s1 s2 I [i s' E].
  pose proof (symp_turn_ok N bites s1 i I) as Hok. rewrite E in Hok. by destruct Hok as [(s3 & [= <-] & ? & _)|[? _]].
Qed.

(** Somebody can take a step, unless all have left. *)
Lemma symp_progress N bites s : sinv N s -> places s = replicate N Gone \/ exists i o, symp_turn N bites i s = Some o.
Proof.
  intros I. destruct (decide (Exists (fun i => is_Some (symp_turn N bites i s)) (seq 0 N))) as [Hx|Hx].
  { apply Exists_exists in Hx as (i & _ & o & E). right. by exists i, o. }
  apply not_Exists_Forall in Hx; [|apply _]. rewrite Forall_forall in Hx.
  assert (forall i p, places s !! i = Some p -> p = Gone \/ (exists j, p = Waiting j) /\ state (table s) !! i = Some HUNGRY) as Hno.
  { intros i p Hp. assert (i < N) as Hi by (rewrite <- (si_places _ _ I); by eapply lookup_lt_Some).
    assert (symp_turn N bites i s = None) as E by (apply eq_None_not_Some, Hx, elem_of_seq; lia).
    pose proof (symp_turn_ok N bites s i I) as Hok. rewrite E in Hok. by apply Hok. }
  left. apply list_eq_Forall2. apply Forall2_same_length_lookup_2; [by rewrite length_replicate, (si_places _ _ I)|].
  intros i p q Hp [-> Hi]%lookup_replicate. destruct (Hno i p Hp) as [->|[_ Hh]]; [done|]. exfalso.
  destruct (si_calm _ _ I i Hi Hh) as (j & Hj & He). destruct (adj_sym N i j Hi Hj) as [_ HjN]. rewrite <- (si_places _ _ I) in HjN.
  apply lookup_lt_is_Some_2 in HjN as [pj Hpj]. pose proof (si_place _ _ I j pj Hpj) as Hok.
  destruct (Hno j pj Hpj) as [->|[_ ?]]; [destruct Hok|]; congruence.
Qed.

(** Who is hungry sleeps, and nobody else does. *)
Lemma hungry_sleeps N s i : sinv N s -> i < N -> i ∈ sleeping (table s) <-> state (table s) !! i = Some HUNGRY.
Proof.
  intros I Hi. rewrite <- (si_places _ _ I) in Hi. apply lookup_lt_is_Some_2 in Hi as [p Hp]. pose proof (si_place _ _ I i p Hp) as Hok.
  destruct p; simpl in Hok; [..|destruct Hok as [[E ?]|[E ?]]| | | |]; try (destruct Hok as [E ?]); rewrite E; by split.
Qed.

(** A step of another one leaves a philosopher hungry and asleep, or makes it eat and wakes it. *)
Lemma hungry_step N bites s s' i : sinv N s -> sinv N s' -> symp_step N bites s s' -> i < N -> state (table s) !! i = Some HUNGRY ->
  state (table s') !! i = Some HUNGRY \/ state (table s') !! i = Some EATING /\ i ∉ sleeping (table s').
Proof.
  intros I I' Hst Hi Hh. revert I'. destruct Hst as [k s2 E]. intros I'. pose proof (hungry_sleeps N s i I Hi) as Hsl. apply Hsl in Hh as Hs.
  rewrite <- (si_places _ _ I) in Hi. apply lookup_lt_is_Some_2 in Hi as [p Hp].
  assert (exists j, p = Waiting j) as [j ->].
  { pose proof (si_place _ _ I i p Hp) as Hok. destruct p; simpl in Hok; (by eexists) || (destruct Hok; congruence). }
  unfold symp_turn in E. destruct (places s !! k) as [p0|] eqn:Hk; [|done]. cbn in E.
  destruct (decide (k = i)) as [->|Hne].
  - replace p0 with (Waiting j) in E by congruence. cbn in E. by rewrite decide_True in E.
  - destruct (SymposiumTable_philosopher _ _ _ _ _ _) as [[[p' t]|]|]; cbn in E; try done. injection E as <-.
    assert (places (moved k p0 p' t s) !! i = Some (Waiting j)) as Hp' by (simpl; by rewrite list_lookup_insert_ne).
    pose proof (si_place _ _ I' i _ Hp') as Hok. simpl in Hok. tauto.
Qed.

(** ** Properties *)

(** C36.  At the symposium neighbours never eat at the same time, and nothing that is printed shows neighbours that eat.
  The philosophers that sleep are those that are hungry: each has a neighbour who eats, stays hungry and asleep only
  as long as it has one, and is woken by the step after which it eats. *)
Theorem neighbours_exclude N bites s i j : symp_reachable N bites s -> i < N -> adj N i j -> i <> j ->
  ~ (state (table s) !! i = Some EATING /\ state (table s) !! j = Some EATING) /\
  (forall p, p ∈ printed (table s) -> ~ (shown p !! i = Some EATING /\ shown p !! j = Some EATING)) /\
  (i ∈ sleeping (table s) <-> state (table s) !! i = Some HUNGRY) /\
  (state (table s) !! i = Some HUNGRY -> (exists k, adj N i k /\ state (table s) !! k = Some EATING) /\
     forall s', symp_step N bites s s' ->
       state (table s') !! i = Some HUNGRY /\ i ∈ sleeping (table s') /\ (exists k, adj N i k /\ state (table s') !! k = Some EATING) \/
       state (table s') !! i = Some EATING /\ i ∉ sleeping (table s')).
Proof.
  intros Hr Hi Hij Hne. pose proof (symp_reach_inv _ _ _ Hr) as I. split; [by apply (si_excl _ _ I)|]. split.
  { intros p Hp. pose proof (si_printed _ _ I) as Hok. eapply Forall_forall in Hok; [|exact Hp]. by apply Hok. }
  split; [by apply (hungry_sleeps N)|]. intros Hh. split; [by apply (si_calm _ _ I)|]. intros s' Hs.
  assert (sinv N s') as I' by (eapply symp_reach_inv, reach_step; [exact Hr|exact Hs]).
  destruct (hungry_step N bites s s' i I I' Hs Hi Hh) as [Hh'|?]; [left|by right].
  split; [done|]. split; [by apply (hungry_sleeps N s' i I')|by apply (si_calm _ _ I')].
Qed.

(** The symposium ends, if there is a number to choose for thinking: as long as somebody has not left a philosopher can
  take a step, the assertion that it eats when it is woken holds, and every step takes the symposium nearer to its end,
  which comes after at most [N * (5 * bites + 2)] steps. *)
Theorem symposium_terminates N bites s : ~ no_choice fmin fmax -> symp_reachable N bites s ->
  (places s = replicate N Gone \/ exists s', symp_step N bites s s') /\
  (forall i o, symp_turn N bites i s = Some o -> exists s', o = Ret s' /\ total_left bites s' < total_left bites s) /\
  total_left bites (symp_start N) = N * (5 * bites + 2).
Proof.
  intros Hc I%symp_reach_inv. split; [|split].
  - destruct (symp_progress N bites s I) as [?|(i & o & E)]; [by left|right]. pose proof (symp_turn_ok N bites s i I) as Hok. rewrite E in Hok.
    destruct Hok as [(s' & -> & _)|[_ ?]]; [|done]. exists s'. by econstructor.
  - intros i o E. pose proof (symp_turn_ok N bites s i I) as Hok. rewrite E in Hok. naive_solver.
  - apply start_left.
Qed.
End reachable.

(** The lines of the terminal. *)
Example print_text_ex : print_text 3 (mkPrint [THINKING; EATING; NOTHERE] "     %d is eating" 1) =
  str " T [E] .      1 is eating" ++ [10%Z].
Proof. reflexivity. Qed.

(** Three philosophers with two bites each, who always think about 0: the first eats and the second waits. *)
Section run.
#[local] Instance think_of_0 : Thoughts := {| lrand48 _ := 0%Z; fmin := 0%Z; fmax := 0%Z |}.

Definition turns (N bites : nat) (l : list nat) (s : symposium) : symposium :=
  foldl (fun s i => match symp_turn N bites i s with Some (Ret s') => s' | _ => s end) s l.

Lemma turns_reachable N bites l : symp_reachable N bites (turns N bites l (symp_start N)).
Proof.
  unfold turns, symp_reachable. induction l as [|i l IH] using rev_ind; [apply reach_refl|]. rewrite foldl_snoc.
  destruct (symp_turn _ _ _ _) as [[s'|]|] eqn:E; [|done..]. eapply reach_step; [exact IH|]. by econstructor.
Qed.

Definition one_waits : symposium := turns 3 2 [0; 1; 0; 1; 0; 1; 0] (symp_start 3).

Lemma neighbours_exclude_witness : 1 ∈ sleeping (table one_waits) /\ exists k, adj 3 1 k /\ state (table one_waits) !! k = Some EATING.
Proof.
  destruct (neighbours_exclude 3 2 one_waits 1 2) as (_ & _ & Hs & Hh); [apply turns_reachable|lia|left; reflexivity|lia|].
  split; [apply Hs; vm_compute; reflexivity|apply Hh; vm_compute; reflexivity].
Defined.

Lemma symposium_terminates_witness : exists s', symp_step 3 2 one_waits s'.
Proof.
  destruct (symposium_terminates 3 2 one_waits) as [[E|?] _]; [vm_compute; discriminate|apply turns_reachable| |assumption].
  vm_compute in E. discriminate.
Defined.
End run.
