(* ===== verification/Philosophers.v ===== *)
(** * The philosophers on condition variables (symposium.c)

  The philosophers of symposium.c, instruction by instruction, as a program on monitors: each one locks [mx], looks at
  the states, signals, waits on its condition variable and unlocks.  They refine the monitor of [Symposium], in which
  what a philosopher does between locking and unlocking is one step: a philosopher that holds the mutex is in the
  middle of such a step, and nobody else can move. *)

From Stdlib Require Import String.
From S2P Require Import Prelude Rlist Iface CondVar Monitor Kernel Prog Symposium.
#[local] Open Scope nat_scope.

(** ** The program

  The memory: the states, what was printed, and how many numbers were drawn.  The mutex [mx] is number 0, [hungry[i]]
  is number [i]. *)

Record pmem := mkMem { m_state : list PHIL; m_printed : list print; m_drawn : nat }.

Definition m_set (i : nat) (p : PHIL) (u : pmem) : pmem := mkMem (<[i := p]> (m_state u)) (m_printed u) (m_drawn u).
Definition m_print (f : string) (i : nat) (u : pmem) : pmem :=
  mkMem (m_state u) (m_printed u ++ [mkPrint (m_state u) f i]) (m_drawn u).
Definition m_draw (u : pmem) : pmem := mkMem (m_state u) (m_printed u) (1 + m_drawn u).

(** The control points of [SymposiumTable_philosopher]; the numbers count the bites after the present one. *)
Inductive phil_pc :=
  | L_arrive | L_arrive_set | L_arrive_unlock
  | L_think (j : nat) | L_hungry (j : nat) | L_hungry_set (j : nat) | L_try (j : nat) | L_try_signal (j : nat)
  | L_while (j : nat) | L_wait (j : nat) | L_assert (j : nat) | L_hungry_unlock (j : nat)
  | L_eat (j : nat) | L_eaten (j : nat) | L_eat_set (j : nat) | L_left (j : nat) | L_left_signal (j : nat) | L_right (j : nat)
  | L_right_signal (j : nat) | L_eat_unlock (j : nat)
  | L_leave | L_leave_set | L_leave_unlock | L_gone | L_fail.

(** The head of the loop over the bites. *)
Definition L_next (j : nat) : phil_pc := match j with O => L_leave | S j => L_think j end.

(** The body of [trytoeat(S,i)], up to the signal. *)
Definition m_trytoeat (N i : nat) (signal next : phil_pc) (u : pmem) : pmem * phil_pc :=
  if decide (m_state u !! i = Some HUNGRY /\ m_state u !! LEFT i N <> Some EATING /\ m_state u !! RIGHT i N <> Some EATING)
  then (m_print "     %d is eating" i (m_set i EATING u), signal) else (u, next).

Section program.
Context `{Thoughts}.

Definition philosopher_code (N bites i : nat) (l : phil_pc) : instr phil_pc pmem :=
  match l with
  | L_arrive => ILock 0 L_arrive_set
  | L_arrive_set => ILocal (fun u => (m_print "     %d has arrived" i (m_set i THINKING u), L_arrive_unlock))
  | L_arrive_unlock => IUnlock 0 (L_next bites)
  | L_think j => ITry (fun u => _ ← burn (think (lrand48 (m_drawn u)) fmin fmax); Ret (m_draw u, L_hungry j))
  | L_hungry j => ILock 0 (L_hungry_set j)
  | L_hungry_set j => ILocal (fun u => (m_set i HUNGRY u, L_try j))
  | L_try j => ILocal (m_trytoeat N i (L_try_signal j) (L_while j))
  | L_try_signal j => ISignal i (L_while j)
  | L_while j => ILocal (fun u => if decide (m_state u !! i = Some HUNGRY) then (m_print "     %d waits hungry" i u, L_wait j) else (u, L_assert j))
  | L_wait j => IWait 0 i None (L_while j) (L_while j)
  | L_assert j => ILocal (fun u => (u, if decide (m_state u !! i = Some EATING) then L_hungry_unlock j else L_fail))
  | L_hungry_unlock j => IUnlock 0 (L_eat j)
  | L_eat j => ITry (fun u => _ ← burn (eat (lrand48 (m_drawn u)) fmin fmax); Ret (m_draw u, L_eaten j))
  | L_eaten j => ILock 0 (L_eat_set j)
  | L_eat_set j => ILocal (fun u => (m_print "     %d is thinking" i (m_set i THINKING u), L_left j))
  | L_left j => ILocal (m_trytoeat N (LEFT i N) (L_left_signal j) (L_right j))
  | L_left_signal j => ISignal (LEFT i N) (L_right j)
  | L_right j => ILocal (m_trytoeat N (RIGHT i N) (L_right_signal j) (L_eat_unlock j))
  | L_right_signal j => ISignal (RIGHT i N) (L_eat_unlock j)
  | L_eat_unlock j => IUnlock 0 (L_next j)
  | L_leave => ILock 0 L_leave_set
  | L_leave_set => ILocal (fun u => (m_print "     %d is leaving" i (m_set i NOTHERE u), L_leave_unlock))
  | L_leave_unlock => IUnlock 0 L_gone
  | L_gone => IEnd
  | L_fail => IFail
  end.
End program.

(** The table as [SymposiumTable_init] leaves it, and [N] philosophers. *)
Definition phil_start (N : nat) : msys phil_pc pmem :=
  mon_start (list_to_set (seq 0 N)) (mkMem (replicate N NOTHERE) [] 0) (list_to_map ((fun i => (i, At L_arrive)) <$> seq 0 N)).

(** ** What is left of a critical section

  [rest_of_section N bites i l t]: what [Symposium] makes of the rest of the critical section of the philosopher [i] from the
  control point [l], when the table is [t]. *)
Definition rest_of_section (N bites i : nat) (l : phil_pc) (t : SymposiumTable) : outcome (place * SymposiumTable) :=
  let try_left := trytoeat N (LEFT i N) in
  let try_right := trytoeat N (RIGHT i N) in
  match l with
  | L_arrive_set => Ret (next_bite bites, print_state "     %d has arrived" i (set_state i THINKING t))
  | L_arrive_unlock => Ret (next_bite bites, t)
  | L_hungry_set j => wait_hungry i j (trytoeat N i (set_state i HUNGRY t))
  | L_try j => wait_hungry i j (trytoeat N i t)
  | L_try_signal j => wait_hungry i j (Cond_Signal_hungry i t)
  | L_while j => wait_hungry i j t
  | L_wait j => Ret (Waiting j, Cond_Wait_hungry i t)
  | L_assert j => _ ← c_assert (bool_decide (state t !! i = Some EATING)); Ret (Eating j, t)
  | L_hungry_unlock j => Ret (Eating j, t)
  | L_eat_set j => Ret (next_bite j, try_right (try_left (print_state "     %d is thinking" i (set_state i THINKING t))))
  | L_left j => Ret (next_bite j, try_right (try_left t))
  | L_left_signal j => Ret (next_bite j, try_right (Cond_Signal_hungry (LEFT i N) t))
  | L_right j => Ret (next_bite j, try_right t)
  | L_right_signal j => Ret (next_bite j, Cond_Signal_hungry (RIGHT i N) t)
  | L_eat_unlock j => Ret (next_bite j, t)
  | L_leave_set => Ret (Gone, print_state "     %d is leaving" i (set_state i NOTHERE t))
  | L_leave_unlock => Ret (Gone, t)
  | _ => Err AssertFail
  end.

(** ** The condition variables of the philosophers

  [conds N y sl W]: the philosophers of [W] are in their waits; those of [sl] sleep, each one alone in the list of
  its condition variable, and the others were signalled. *)

Abbreviation pinv := (cc_inv any_ok any_live).

Record conds (N : nat) (y : ccsys (T := nat) (S := gset nat)) (sl W : gset nat) : Prop := {
  co_inv : exists wl, pinv (cc y) wl /\ forall k, k < N -> wl !! k = Some (if decide (k ∈ sl) then [k] else []);
  co_sch : sch (cc y) = sl;
  co_sub : sl ⊆ W;
  co_waiter k : waiters (cc y) !! k =
    if decide (k ∈ W) then Some (if decide (k ∈ sl) then mkWaiter k false false else mkWaiter k true true) else None;
  co_home k : k ∈ W -> home y !! k = Some k
}.

Section conds.
Implicit Types (y : ccsys (T := nat) (S := gset nat)) (sl W : gset nat) (i k : nat).

Lemma cc_list_single st wl k : pinv st wl -> wl !! k = Some [k] -> exists x, waiters st !! k = Some x.
Proof. intros I Hk. destruct (cc_waiting _ _ _ _ I k _ k Hk) as (x & Hx & _); [by left|by exists x]. Qed.

Lemma conds_signal N y sl W k : conds N y sl W -> k < N ->
  exists y', cc_perform (CallSignal k) y = Ret (None, y') /\ conds N y' (sl ∖ {[k]}) W /\ held (cc y') = held (cc y).
Proof.
  intros [(wl & I & Hwl) Hs Hsub Hw Hh] Hk. pose proof (Hwl k Hk) as Hk'.
  destruct (cv_signal_ok any_ok asleep_in any_live (cc y) wl k _ I Hk') as (st & k0 & sig & r & E & I' & [S1 S2 S3 S4 S5 S6 S7 _]).
  assert ((k ∈ sl -> k0 = [] /\ sig = Some k /\ r = []) /\ (k ∉ sl -> k0 = [] /\ sig = None /\ r = [])) as [Hin Hout].
  { split; intros Hks; [rewrite decide_True in S1 by done|rewrite decide_False in S1 by done].
    - destruct k0 as [|a k0]; simpl in S1.
      { destruct sig as [w|]; [by injection S1 as <- <-|]. by rewrite (S2 eq_refl) in S1. }
      injection S1 as <- _. destruct (S3 k) as (x & Hx & Hn); [by left|]. exfalso. apply Hn. rewrite Hw in Hx.
      rewrite decide_True in Hx by set_solver. rewrite decide_True in Hx by done. injection Hx as <-. by rewrite Hs.
    - destruct k0, sig; simpl in S1; by simplify_eq. }
  assert (forall u, u ∈ sch st <-> u ∈ sl ∖ {[k]}) as Hsch.
  { intros u. pose proof (S7 u) as Hu. unfold asleep_in in Hu. rewrite Hu, Hs, elem_of_difference, elem_of_singleton.
    destruct (decide (k ∈ sl)) as [Hks|Hks].
    - destruct (Hin Hks) as (_ & -> & _). destruct (cc_list_single _ _ k I) as [x Hx]; [rewrite Hk'; by destruct (decide (k ∈ sl))|].
      assert (thread x = k) as Hx'. { rewrite Hw in Hx. repeat case_decide; simplify_eq/=; done. }
      split; [intros [? Hn]; split; [done|]; rewrite <- Hx'; by eapply Hn|].
      intros [? Hn]. split; [done|]. intros w z [= <-] Hz. congruence.
    - destruct (Hout Hks) as (_ & -> & _). split; [intros [? _]; split; [done|congruence]|by intros [? _]]. }
  assert (r = []) as -> by (destruct (decide (k ∈ sl)); [by apply Hin|by apply Hout]).
  exists (mkSys st (home y)). unfold cc_perform, Cond_Signal. rewrite E, ret_bind. split; [done|]. split; [|done].
  split; cbn [cc home]; [| |set_solver| |done].
  - exists (<[k := []]> wl). split; [done|]. intros j Hj. destruct (decide (j = k)) as [->|Hne].
    + rewrite lookup_insert_eq, decide_False by set_solver. done.
    + rewrite lookup_insert_ne by done. rewrite Hwl by done. by rewrite (decide_ext (j ∈ sl ∖ {[k]}) (j ∈ sl)) by set_solver.
  - by apply set_eq.
  - intros j. rewrite S5, Hw. destruct (decide (j ∈ W)) as [HjW|]; [|by repeat case_decide].
    destruct (decide (j = k)) as [->|Hne].
    + rewrite (decide_False (P := k ∈ sl ∖ {[k]})) by set_solver. destruct (decide (k ∈ sl)) as [Hks|Hks].
      * destruct (Hin Hks) as (-> & -> & _). by rewrite decide_True.
      * destruct (Hout Hks) as (-> & -> & _). rewrite !decide_False by (done || apply not_elem_of_nil). done.
    + rewrite (decide_ext (j ∈ sl ∖ {[k]}) (j ∈ sl)) by set_solver.
      assert (sig <> Some j /\ j ∉ k0) as [Hsig Hk0].
      { destruct (decide (k ∈ sl)) as [Hks|Hks]; [destruct (Hin Hks) as (-> & -> & _)|destruct (Hout Hks) as (-> & -> & _)];
          (split; [congruence|apply not_elem_of_nil]). }
      rewrite !decide_False by done. by rewrite option_fmap_id.
Qed.

Lemma conds_wait N y sl W i timeout : conds N y sl W -> i < N -> i ∉ W ->
  exists y', cc_perform (CallWait i i 0 i timeout) y = Ret (None, y') /\ conds N y' ({[i]} ∪ sl) ({[i]} ∪ W) /\
    held (cc y') = held (cc y) ∖ {[0]}.
Proof.
  intros [(wl & I & Hwl) Hs Hsub Hw Hh] Hi HiW. pose proof (Hwl i Hi) as Hl. rewrite decide_False in Hl by set_solver.
  destruct (cv_wait_begin_ok any_ok asleep_in any_live awake_in (cc y) wl i i 0 i timeout [] I Hl)
    as (st & E & I' & Ew & Eh & Hb & Ho).
  { rewrite Hw. by rewrite decide_False. }
  { intros v x Hx Ht. rewrite Hw in Hx. repeat case_decide; simplify_eq/=; done. }
  { unfold awake_in. rewrite Hs. set_solver. }
  exists (mkSys st (<[i := i]> (home y))). unfold cc_perform. rewrite E, ret_bind. split; [done|]. split; [|done].
  split; cbn [cc home].
  - exists (<[i := [i]]> wl). split; [done|]. intros k Hk. destruct (decide (k = i)) as [->|Hne].
    + rewrite lookup_insert_eq. by rewrite decide_True by set_solver.
    + rewrite lookup_insert_ne, Hwl by done. by rewrite (decide_ext (k ∈ {[i]} ∪ sl) (k ∈ sl)) by set_solver.
  - apply set_eq. intros u. destruct (decide (u = i)) as [->|Hne]; [by split; [set_solver|]|].
    pose proof (Ho u Hne) as Hu. unfold asleep_in in Hu. rewrite Hu, Hs. set_solver.
  - set_solver.
  - intros k. rewrite Ew. destruct (decide (k = i)) as [->|Hne].
    + rewrite lookup_insert_eq. by rewrite !decide_True by set_solver.
    + rewrite lookup_insert_ne, Hw by done. rewrite (decide_ext (k ∈ {[i]} ∪ sl) (k ∈ sl)) by set_solver.
      by rewrite (decide_ext (k ∈ {[i]} ∪ W) (k ∈ W)) by set_solver.
  - intros k Hk. destruct (decide (k = i)) as [->|Hne]; [by rewrite lookup_insert_eq|].
    rewrite lookup_insert_ne by done. apply Hh. set_solver.
Qed.

Lemma conds_wake N y sl W i : conds N y sl W -> i ∈ W -> i ∉ sl ->
  exists y', cc_perform (CallWaitEnd i i 0) y = Ret (Some true, y') /\ conds N y' sl (W ∖ {[i]}) /\
    held (cc y') = {[0]} ∪ held (cc y).
Proof.
  intros [(wl & I & Hwl) Hs Hsub Hw Hh] HiW His.
  assert (waiters (cc y) !! i = Some (mkWaiter i true true)) as Hx by (rewrite Hw; by rewrite decide_True, decide_False).
  destruct (cv_wait_end_ok any_ok any_live (cc y) wl i i 0 _ I Hx) as (st & wl' & E & I' & Ew & Eh & Es & Hwl'); [done..|].
  exists (mkSys st (delete i (home y))). unfold cc_perform. rewrite E, ret_bind. split; [done|]. split; [|done].
  split; cbn [cc home].
  - exists wl'. split; [done|]. intros k Hk. rewrite Hwl', Hwl by done. done.
  - by rewrite Es.
  - set_solver.
  - intros k. rewrite Ew. destruct (decide (k = i)) as [->|Hne].
    + rewrite lookup_delete_eq. by rewrite decide_False by set_solver.
    + rewrite lookup_delete_ne, Hw by done. by rewrite (decide_ext (k ∈ W ∖ {[i]}) (k ∈ W)) by set_solver.
  - intros k Hk. rewrite lookup_delete_ne by set_solver. apply Hh. set_solver.
Qed.

Lemma conds_start N l : conds N (cc_start (list_to_set (seq 0 N)) l ∅) ∅ ∅.
Proof.
  split; cbn; [|done..].
  exists (gset_to_gmap [] (list_to_set (seq 0 N))). split; [by apply (cc_start_inv any_ok any_live)|].
  intros k Hk. rewrite decide_False by set_solver. apply lookup_gset_to_gmap_Some. split; [|done].
  apply elem_of_list_to_set, elem_of_seq. lia.
Qed.
End conds.

(** ** The simulation *)

(** The table that the memory and the sleeping threads make up. *)
Definition table_of (s : msys phil_pc pmem) : SymposiumTable := mkTable (m_state (mem s)) (sleepers s) (m_printed (mem s)).

(** Where the thread of a philosopher is between its critical sections. *)
Definition thread_of (i : nat) (p : place) : mon_thread phil_pc :=
  match p with
  | Arriving => At L_arrive
  | Thinking j => At (L_think j)
  | Thought j => At (L_hungry j)
  | Waiting j => InCond 0 i false (L_while j) (L_while j)
  | Eating j => At (L_eat j)
  | Eaten j => At (L_eaten j)
  | Leaving => At L_leave
  | Gone => At L_gone
  end.

(** The instructions that are left of a critical section, at most. *)
Definition section_left (l : phil_pc) : nat :=
  match l with
  | L_hungry_set _ | L_eat_set _ => 6
  | L_try _ | L_left _ => 5
  | L_try_signal _ | L_left_signal _ => 4
  | L_while _ | L_right _ => 3
  | L_arrive_set | L_leave_set | L_wait _ | L_assert _ | L_right_signal _ => 2
  | _ => 1
  end.

Section refinement.
Context `{Thoughts}.

(** The instructions that a philosopher has left, at most: seven for a critical section and one for a thought. *)
Definition instrs_left (bites : nat) (p : place) : nat := 7 * sections_left bites p + thoughts_left bites p.
Definition total_instrs (bites : nat) (a : symposium) : nat := total (instrs_left bites) a.

Definition waits (a : symposium) (k : nat) : Prop := exists j, places a !! k = Some (Waiting j).

(** [simulates N bites s a n]: the threads [s] are at the state [a] of [Symposium], or one of them holds the mutex and
  is in the middle of a step from [a]; at most [n] instructions are left. *)
Inductive simulates (N bites : nat) (s : msys phil_pc pmem) (a : symposium) (n : nat) : Prop :=
  | sim_free W :
      locks s = ∅ -> table_of s = table a -> m_drawn (mem s) = drawn a -> (forall k, thr s !! k = thread_of k <$> places a !! k) ->
      conds N (sync s) (sleepers s) W -> (forall k, k ∈ W <-> waits a k) ->
      n = total_instrs bites a -> simulates N bites s a n
  | sim_busy i l p W :
      locks s = {[0]} -> m_drawn (mem s) = drawn a -> thr s !! i = Some (At l) -> (forall k, k <> i -> thr s !! k = thread_of k <$> places a !! k) ->
      conds N (sync s) (sleepers s) W -> (forall k, k ∈ W <-> k <> i /\ waits a k) ->
      places a !! i = Some p -> draws p = false ->
      (forall k, SymposiumTable_philosopher N bites i k p (table a) = Some (rest_of_section N bites i l (table_of s))) ->
      n + 7 = total_instrs bites a + section_left l -> simulates N bites s a n.

(** *** Inside of a critical section *)

Section busy.
Context (N bites : nat) (s : msys phil_pc pmem) (a : symposium) (i : nat) (l : phil_pc) (p : place) (W : gset nat).
Context (I : sinv N a) (Hlock : locks s = {[0]}) (Hdr : m_drawn (mem s) = drawn a) (Hi : thr s !! i = Some (At l)).
Context (Hthr : forall k, k <> i -> thr s !! k = thread_of k <$> places a !! k).
Context (Hco : conds N (sync s) (sleepers s) W) (HW : forall k, k ∈ W <-> k <> i /\ waits a k).
Context (Hp : places a !! i = Some p) (Hd : draws p = false).
Context (Hfin : forall k, SymposiumTable_philosopher N bites i k p (table a) = Some (rest_of_section N bites i l (table_of s))).

(** The step of [Symposium] is one without error. *)
Lemma busy_step : exists p' t', rest_of_section N bites i l (table_of s) = Ret (p', t') /\
  symp_step N bites a (moved i p p' t' a) /\ total_instrs bites (moved i p p' t' a) + 7 <= total_instrs bites a.
Proof.
  clear Hlock Hdr Hi Hthr Hco HW. pose proof (section_ok N bites a i (drawn a) p I Hp Hd) as Hok. rewrite Hfin in Hok. destruct Hok as (p' & t' & E & _ & Hs & Ht).
  exists p', t'. split; [done|]. split.
  - apply (symp_step_at _ _ _ i). unfold symp_turn. rewrite Hp. cbn. rewrite Hfin. cbn. by rewrite E.
  - unfold total_instrs. pose proof (total_moved (instrs_left bites) t' a i p p' Hp) as Htot. unfold instrs_left in *. lia.
Qed.

(** The next instruction, with what comes of it, inside of the section. *)
Lemma busy_goes_on s' l' : locks s' = {[0]} -> m_drawn (mem s') = m_drawn (mem s) -> thr s' = <[i := At l']> (thr s) -> conds N (sync s') (sleepers s') W ->
  rest_of_section N bites i l' (table_of s') = rest_of_section N bites i l (table_of s) -> section_left l' < section_left l ->
  forall n, n + 7 = total_instrs bites a + section_left l -> exists n', n' < n /\ simulates N bites s' a n'.
Proof.
  intros Hk Hdr' Ht Hc Hf Hr n Hn. assert (7 <= total_instrs bites a) as Hpos.
  { destruct busy_step as (p' & t' & _ & _ & ?). lia. }
  assert (1 <= section_left l') as Hl1 by (destruct l'; simpl; lia).
  exists (total_instrs bites a + section_left l' - 7). split; [lia|].
  eapply (sim_busy _ _ _ _ _ i l' p W); try done.
  - congruence.
  - rewrite Ht. apply lookup_insert_eq.
  - intros k Hne. rewrite Ht, lookup_insert_ne by done. by apply Hthr.
  - intros k. by rewrite Hf.
  - lia.
Qed.

(** The end of the section. *)
Lemma busy_ends s' p' t' W' : rest_of_section N bites i l (table_of s) = Ret (p', t') ->
  locks s' = ∅ -> m_drawn (mem s') = m_drawn (mem s) -> thr s' = <[i := thread_of i p']> (thr s) ->
  conds N (sync s') (sleepers s') W' -> table_of s' = t' -> (forall k, k ∈ W' <-> waits (moved i p p' t' a) k) ->
  forall n, n + 7 = total_instrs bites a + section_left l -> exists a' n', symp_step N bites a a' /\ n' < n /\ simulates N bites s' a' n'.
Proof.
  intros Hf Hk Hdr' Ht Hc Htab HW' n Hn. destruct busy_step as (p1 & t1 & Hf1 & Hst & Hlt). rewrite Hf in Hf1. injection Hf1 as <- <-.
  eexists _, _. split; [exact Hst|]. assert (1 <= section_left l) as Hl1 by (destruct l; simpl; lia). split; [|eapply sim_free; try done].
  - lia.
  - simpl. rewrite Hd. simpl. congruence.
  - intros k. rewrite Ht. simpl. destruct (decide (k = i)) as [->|Hne].
    + rewrite lookup_insert_eq, list_lookup_insert_eq; [done|]. by eapply lookup_lt_Some.
    + rewrite lookup_insert_ne, list_lookup_insert_ne by done. by apply Hthr.
Qed.

Lemma waits_other p' t' : (forall j, p' <> Waiting j) -> forall k, k ∈ W <-> waits (moved i p p' t' a) k.
Proof.
  intros Hn k. rewrite HW. unfold waits. simpl. destruct (decide (k = i)) as [->|Hne].
  - rewrite list_lookup_insert_eq by (by eapply lookup_lt_Some). split; [by intros []|]. intros [j [= E]]. by destruct (Hn j).
  - rewrite list_lookup_insert_ne by done. by split; [intros []|].
Qed.

Lemma waits_self j t' : forall k, k ∈ {[i]} ∪ W <-> waits (moved i p (Waiting j) t' a) k.
Proof.
  intros k. rewrite elem_of_union, elem_of_singleton, HW. unfold waits. simpl. destruct (decide (k = i)) as [->|Hne].
  - rewrite list_lookup_insert_eq by (by eapply lookup_lt_Some). split; [by eexists|by left].
  - rewrite list_lookup_insert_ne by done. naive_solver.
Qed.

(** *** The instructions *)

Context (n : nat) (Hn : n + 7 = total_instrs bites a + section_left l).

Definition follows (o : option (outcome (msys phil_pc pmem))) : Prop := exists s' a' n', o = Some (Ret s') /\
  (a' = a \/ symp_step N bites a a') /\ n' < n /\ simulates N bites s' a' n'.

Lemma follows_local u l' : m_drawn u = m_drawn (mem s) -> rest_of_section N bites i l' (mkTable (m_state u) (sleepers s) (m_printed u)) = rest_of_section N bites i l (table_of s) ->
  section_left l' < section_left l -> follows (Some (Ret (at_point i l' (with_mem u s)))).
Proof.
  intros Hdr' Hf Hr. destruct (busy_goes_on (at_point i l' (with_mem u s)) l') with (n := n) as (n' & ? & ?); try done.
  by exists (at_point i l' (with_mem u s)), a, n'; auto.
Qed.

Lemma follows_signal k l' : k < N -> rest_of_section N bites i l' (Cond_Signal_hungry k (table_of s)) = rest_of_section N bites i l (table_of s) ->
  section_left l' < section_left l -> follows (exec_instr (philosopher_code N bites) i (ISignal k l') s).
Proof.
  intros Hk Hf Hr. destruct (conds_signal N (sync s) (sleepers s) W k Hco Hk) as (y & E & Hc & Hh).
  cbn [exec_instr]. unfold cc_do. rewrite E. cbn. set (s' := at_point i l' (with_sync y s)).
  pose proof (co_sch _ _ _ _ Hc) as Hs. destruct (busy_goes_on s' l') with (n := n) as (n' & ? & ?); try done.
  - unfold s', locks. simpl. by rewrite Hh.
  - unfold sleepers. simpl. by rewrite Hs.
  - unfold table_of, sleepers. simpl. rewrite Hs. exact Hf.
  - by exists s', a, n'; auto.
Qed.

Lemma follows_try k signal next (g : SymposiumTable -> outcome (place * SymposiumTable)) :
  (forall t, rest_of_section N bites i l t = g (trytoeat N k t)) -> (forall t, rest_of_section N bites i signal t = g (Cond_Signal_hungry k t)) ->
  (forall t, rest_of_section N bites i next t = g t) -> section_left signal < section_left l -> section_left next < section_left l ->
  follows (exec_instr (philosopher_code N bites) i (ILocal (m_trytoeat N k signal next)) s).
Proof.
  intros Hl Hs Hx Hr1 Hr2. cbn [exec_instr]. unfold m_trytoeat. destruct (decide _) as [Hdec|Hdec].
  - apply follows_local; [done| |done]. rewrite Hs, Hl. f_equal. unfold trytoeat. by rewrite decide_True.
  - apply follows_local; [done| |done]. rewrite Hx, Hl. f_equal. unfold trytoeat. by rewrite decide_False.
Qed.

Lemma follows_unlock p' l' : rest_of_section N bites i l (table_of s) = Ret (p', table_of s) -> (forall j, p' <> Waiting j) ->
  thread_of i p' = At l' -> follows (exec_instr (philosopher_code N bites) i (IUnlock 0 l') s).
Proof.
  intros Hf Hw Ht. cbn [exec_instr]. set (s' := at_point i l' (with_locks (locks s ∖ {[0]}) s)).
  destruct (busy_ends s' p' (table_of s) W) with (n := n) as (a' & n' & ? & ? & ?); try done.
  - unfold s', locks. simpl. fold (locks s). rewrite Hlock. set_solver.
  - by rewrite Ht.
  - destruct Hco as [(wl & Iw & Hwl) C2 C3 C4 C5]. split; try done. exists wl. split; [|done].
    by destruct Iw as [? ? ? ? ? ? ? ? ? ?]; split.
  - by apply waits_other.
  - by exists s', a', n'; auto.
Qed.

Lemma follows_wait j : rest_of_section N bites i l (table_of s) = Ret (Waiting j, Cond_Wait_hungry i (table_of s)) ->
  follows (exec_instr (philosopher_code N bites) i (IWait 0 i None (L_while j) (L_while j)) s).
Proof.
  intros Hf. assert (i < N) as HiN by (rewrite <- (si_places _ _ I); by eapply lookup_lt_Some).
  assert (i ∉ W) as HiW by (rewrite HW; tauto).
  destruct (conds_wait N (sync s) (sleepers s) W i (timeout_of None) Hco HiN HiW) as (y & E & Hc & Hh).
  cbn [exec_instr]. unfold cc_do. rewrite E. cbn. set (s' := mkMon _ _ _).
  pose proof (co_sch _ _ _ _ Hc) as Hs.
  destruct (busy_ends s' (Waiting j) (Cond_Wait_hungry i (table_of s)) ({[i]} ∪ W)) with (n := n) as (a' & n' & ? & ? & ?); try done.
  - unfold s', locks. simpl. rewrite Hh. fold (locks s). rewrite Hlock. set_solver.
  - unfold sleepers. simpl. by rewrite Hs.
  - unfold table_of, sleepers. simpl. by rewrite Hs.
  - by apply waits_self.
  - by exists s', a', n'; auto.
Qed.

Ltac section_goal E := rewrite ?E; intros; first [done | simpl; lia | eauto].

(** The philosopher that holds the mutex can go on. *)
Lemma busy_turn l0 : l = l0 -> follows (exec_instr (philosopher_code N bites) i (philosopher_code N bites i l0) s).
Proof.
  intros E. assert (i < N) as HiN by (rewrite <- (si_places _ _ I); by eapply lookup_lt_Some).
  destruct (left_right N i HiN) as (_ & _ & HL & HR). destruct busy_step as (p' & t' & Ef & _). rewrite E in Ef.
  assert (forall j, thread_of i (next_bite j) = At (L_next j)) as Hnext by (by intros []).
  assert (forall j k, next_bite j <> Waiting k) as Hnw by (by intros []).
  destruct l0 as [| | |j|j|j|j|j|j|j|j|j|j|j|j|j|j|j|j|j| | | | |]; cbn [rest_of_section] in Ef; try done; cbn [philosopher_code].
  - cbn [exec_instr]. apply follows_local; section_goal E.
  - eapply follows_unlock; section_goal E.
  - cbn [exec_instr]. apply follows_local; section_goal E.
  - apply (follows_try i _ _ (wait_hungry i j)); section_goal E.
  - apply follows_signal; section_goal E.
  - cbn [exec_instr]. destruct (decide (m_state (mem s) !! i = Some HUNGRY)) as [Hh|Hh]; (apply follows_local; rewrite ?E; [done| |simpl; lia]);
      cbn [rest_of_section]; unfold wait_hungry; [by rewrite decide_True|by rewrite decide_False].
  - by apply follows_wait; rewrite E.
  - cbn [exec_instr]. destruct (decide (m_state (mem s) !! i = Some EATING)) as [He|He]; [|by rewrite bool_decide_false in Ef].
    apply follows_local; rewrite ?E; [done| |simpl; lia]. cbn [rest_of_section]. by rewrite bool_decide_true.
  - apply (follows_unlock (Eating j)); section_goal E.
  - cbn [exec_instr]. apply follows_local; section_goal E.
  - apply (follows_try (LEFT i N) _ _ (fun t => Ret (next_bite j, trytoeat N (RIGHT i N) t))); section_goal E.
  - apply follows_signal; section_goal E.
  - apply (follows_try (RIGHT i N) _ _ (fun t => Ret (next_bite j, t))); section_goal E.
  - apply follows_signal; section_goal E.
  - eapply follows_unlock; section_goal E.
  - cbn [exec_instr]. apply follows_local; section_goal E.
  - apply (follows_unlock Gone); section_goal E.
Qed.
End busy.

(** ** The simulation *)

Section simulation.
Context (N bites : nat).
Implicit Types (s : msys phil_pc pmem) (a : symposium) (i n : nat).

Lemma thread_of_waits s i p : thr s !! i = Some (thread_of i p) -> 0 ∈ locks s -> draws p = false ->
  thread_turn (philosopher_code N bites) i s = None.
Proof.
  intros Hi Hl Hd. unfold thread_turn. rewrite Hi. destruct p; simpl in *; rewrite ?decide_True by auto; done.
Qed.

(** Thinking and eating is a step of the symposium, whoever holds the mutex. *)
Lemma thinking_turn s a i p : sinv N a -> thr s !! i = Some (thread_of i p) -> m_drawn (mem s) = drawn a ->
  places a !! i = Some p -> draws p = true ->
  thread_turn (philosopher_code N bites) i s = Some (Err Fatal) /\ no_choice fmin fmax \/
  exists p', thread_turn (philosopher_code N bites) i s = Some (Ret (mkMon (sync s) (m_draw (mem s)) (<[i := thread_of i p']> (thr s)))) /\
    symp_step N bites a (moved i p p' (table a) a) /\ (forall j, p' <> Waiting j) /\ sinv N (moved i p p' (table a) a) /\
    total_instrs bites (moved i p p' (table a) a) + 1 = total_instrs bites a.
Proof.
  intros I Hi Hdr Hp Hd.
  assert (forall p', SymposiumTable_philosopher N bites i (drawn a) p (table a) = Some (Ret (p', table a)) ->
    thread_turn (philosopher_code N bites) i s = Some (Ret (mkMon (sync s) (m_draw (mem s)) (<[i := thread_of i p']> (thr s)))) /\
    forall j, p' <> Waiting j) as Hgo.
  { intros p' E. unfold thread_turn. rewrite Hi. destruct p; try done; simpl in *; rewrite Hdr; destruct (burn _); simpl in *; by simplify_eq. }
  destruct (thinking_ok N bites a i (drawn a) p I Hp Hd) as [[Hn E]|(_ & p' & E & Hd' & I' & Hs & Ht)]; [left|right].
  - split; [|done]. unfold thread_turn. rewrite Hi. destruct p; try done; simpl in *; rewrite Hdr; destruct (burn _); simpl in *; by simplify_eq.
  - destruct (Hgo p' E) as [Eg Hnw]. exists p'. split; [done|]. split; [|split; [done|split; [done|]]].
    + apply (symp_step_at _ _ _ i). unfold symp_turn. rewrite Hp. cbn [mbind option_bind]. by rewrite E.
    + unfold total_instrs. pose proof (total_moved (instrs_left bites) (table a) a i p p' Hp) as Htot. unfold instrs_left in *. lia.
Qed.

Lemma waits_moved a i p p' t : places a !! i = Some p -> (forall j, p <> Waiting j) -> (forall j, p' <> Waiting j) ->
  forall k, waits (moved i p p' t a) k <-> waits a k.
Proof.
  intros Hp Hn Hn' k. unfold waits. simpl. destruct (decide (k = i)) as [->|Hne].
  - rewrite list_lookup_insert_eq by (by eapply lookup_lt_Some). rewrite Hp. naive_solver.
  - by rewrite list_lookup_insert_ne.
Qed.

(** A philosopher outside of its critical sections can take the mutex, unless it sleeps or has left. *)
Lemma free_turn s a i p W n : sinv N a ->
  locks s = ∅ -> table_of s = table a -> m_drawn (mem s) = drawn a -> (forall k, thr s !! k = thread_of k <$> places a !! k) ->
  conds N (sync s) (sleepers s) W -> (forall k, k ∈ W <-> waits a k) -> n = total_instrs bites a ->
  places a !! i = Some p -> draws p = false -> is_Some (SymposiumTable_philosopher N bites i 0 p (table a)) ->
  exists s' n', thread_turn (philosopher_code N bites) i s = Some (Ret s') /\ n' < n /\ simulates N bites s' a n'.
Proof.
  intros I Hk Ht Hdr Hthr Hco HW Hn Hp Hd Hsome. pose proof (section_ok N bites a i 0 p I Hp Hd) as Hok. destruct Hsome as [o Ho].
  assert (7 <= total_instrs bites a) as Hlt.
  { rewrite Ho in Hok. destruct Hok as (p' & t & _ & _ & Hs & Hth). unfold total_instrs.
    pose proof (total_moved (instrs_left bites) t a i p p' Hp) as Htot. unfold instrs_left in *. lia. }
  assert (forall s' l W', locks s' = {[0]} -> m_drawn (mem s') = drawn a -> thr s' = <[i := At l]> (thr s) -> conds N (sync s') (sleepers s') W' ->
    (forall k, k ∈ W' <-> k <> i /\ waits a k) ->
    (forall k, SymposiumTable_philosopher N bites i k p (table a) = Some (rest_of_section N bites i l (table_of s'))) ->
    section_left l <= 6 -> exists n', n' < n /\ simulates N bites s' a n') as Hgo.
  { intros s' l W' Hk' Hdr' Ht' Hc' HW' Hf Hl. exists (total_instrs bites a + section_left l - 7). split; [lia|].
    eapply (sim_busy _ _ _ _ _ i l p W'); try done.
    - rewrite Ht'. apply lookup_insert_eq.
    - intros k Hne. rewrite Ht', lookup_insert_ne by done. apply Hthr.
    - lia. }
  unfold thread_turn. rewrite Hthr, Hp. cbn [fmap option_fmap option_map].
  assert (forall l, (forall j, p <> Waiting j) ->
    (forall k, SymposiumTable_philosopher N bites i k p (table a) = Some (rest_of_section N bites i l (table_of s))) -> section_left l <= 6 ->
    exists s' n', exec_instr (philosopher_code N bites) i (ILock 0 l) s = Some (Ret s') /\ n' < n /\ simulates N bites s' a n') as Hlock.
  { intros l Hnw Hf Hl. cbn [exec_instr]. rewrite decide_False by (rewrite Hk; set_solver). set (s' := at_point _ _ _).
    destruct (Hgo s' l W) as (n' & ? & ?); try done.
    - unfold s', locks. simpl. fold (locks s). rewrite Hk. set_solver.
    - destruct Hco as [(wl & Iw & Hwl) C2 C3 C4 C5]. split; try done. exists wl. split; [|done].
      by destruct Iw as [? ? ? ? ? ? ? ? ? ?]; split.
    - intros k. rewrite HW. split; [|by intros []]. intros [j Hj]. split; [|by exists j]. intros ->. by destruct (Hnw j); congruence.
    - by exists s', n'. }
  destruct p as [|j|j|j|j|j| |]; try done; cbn [thread_of philosopher_code]; cbn in Ho.
  - apply (Hlock L_arrive_set); [done| |simpl; lia]. by rewrite Ht.
  - apply (Hlock (L_hungry_set j)); [done| |simpl; lia]. by rewrite Ht.
  - destruct (decide (i ∈ sleeping (table a))) as [|Hns]; [done|].
    assert (i ∉ sleepers s) as His by (rewrite <- Ht in Hns; exact Hns).
    destruct (conds_wake N (sync s) (sleepers s) W i Hco) as (y & E & Hc & Hh); [by apply HW; eexists|done|].
    rewrite decide_False by (rewrite Hk; set_solver). unfold cc_do. rewrite E. cbn. set (s' := at_point _ _ _).
    pose proof (co_sch _ _ _ _ Hc) as Hs. destruct (Hgo s' (L_while j) (W ∖ {[i]})) as (n' & ? & ?); try done.
    + unfold s', locks. simpl. rewrite Hh. fold (locks s). rewrite Hk. set_solver.
    + unfold sleepers. simpl. by rewrite Hs.
    + intros k. rewrite elem_of_difference, elem_of_singleton, HW. tauto.
    + intros k. cbn. rewrite decide_False by done. unfold s', table_of, sleepers. simpl. rewrite Hs. by rewrite <- Ht.
    + simpl; lia.
    + by exists s', n'.
  - apply (Hlock (L_eat_set j)); [done| |simpl; lia]. by rewrite Ht.
  - apply (Hlock L_leave_set); [done| |simpl; lia]. by rewrite Ht.
Qed.

Abbreviation phils := (philosopher_code N bites).

(** Who is outside of its critical sections does not move while another one holds the mutex. *)
Lemma others_wait s i p m : thr s !! i = Some (thread_of i p) -> locks s = {[0]} -> draws p = false -> m = Turn i \/ m = Timer i ->
  mon_turn true phils m s = None.
Proof.
  intros Hi Hl Hd [-> | ->]; simpl; [apply (thread_of_waits s i p Hi); [rewrite Hl; set_solver|done]|].
  unfold timer_turn. rewrite Hi. by destruct p.
Qed.

(** What a turn does: it goes on with the step of the symposium, or completes one; or nobody can think. *)
Definition turn_sound s a n (o : outcome (msys phil_pc pmem)) : Prop :=
  (exists s' a' n', o = Ret s' /\ (a' = a \/ symp_step N bites a a') /\ n' < n /\ simulates N bites s' a' n') \/
  o = Err Fatal /\ no_choice fmin fmax.

Lemma free_turn_sound s a W n m o : sinv N a -> locks s = ∅ -> table_of s = table a -> m_drawn (mem s) = drawn a ->
  (forall k, thr s !! k = thread_of k <$> places a !! k) -> conds N (sync s) (sleepers s) W -> (forall k, k ∈ W <-> waits a k) ->
  n = total_instrs bites a -> mon_turn true phils m s = Some o -> turn_sound s a n o.
Proof.
  intros I Hk Ht Hdr Hthr Hco HW Hn Hm. destruct m as [i|i]; simpl in Hm.
  2: { unfold timer_turn in Hm. rewrite Hthr in Hm. by destruct (places a !! i) as [[]|]. }
  destruct (places a !! i) as [p|] eqn:Hp; [|unfold thread_turn in Hm; by rewrite Hthr, Hp in Hm].
  assert (thr s !! i = Some (thread_of i p)) as Hi by (by rewrite Hthr, Hp). destruct (draws p) eqn:Hd.
  - destruct (thinking_turn s a i p I Hi Hdr Hp Hd) as [[E ?]|(p' & E & Hst & Hnw & _ & Hlt)]; rewrite E in Hm; injection Hm as <-; [by right|left].
    eexists _, _, _. split; [done|]. split; [right; exact Hst|].
    split; [|apply (sim_free _ _ _ _ _ W); try done; simpl; [by rewrite Hd, Hdr| |]]; [lia| |].
    + intros k. destruct (decide (k = i)) as [->|Hne].
      * rewrite lookup_insert_eq, list_lookup_insert_eq; [done|by eapply lookup_lt_Some].
      * rewrite lookup_insert_ne, list_lookup_insert_ne by done. apply Hthr.
    + intros k. rewrite HW. symmetry. apply waits_moved; try done. by destruct p.
  - destruct (SymposiumTable_philosopher N bites i 0 p (table a)) as [o'|] eqn:Ho.
    + destruct (free_turn s a i p W n I Hk Ht Hdr Hthr Hco HW Hn Hp Hd (mk_is_Some _ _ Ho)) as (s' & n' & E & ? & ?).
      rewrite E in Hm. injection Hm as <-. left. by exists s', a, n'; auto.
    + exfalso. unfold thread_turn in Hm. rewrite Hi in Hm. destruct p; simpl in *; try done.
      destruct (decide (i ∈ sleeping (table a))) as [Hsl|]; [|done]. rewrite <- Ht in Hsl.
      by rewrite decide_True in Hm by (left; exact Hsl).
Qed.

Lemma busy_turn_sound s a i l p W n m o : sinv N a -> locks s = {[0]} -> m_drawn (mem s) = drawn a -> thr s !! i = Some (At l) ->
  (forall k, k <> i -> thr s !! k = thread_of k <$> places a !! k) -> conds N (sync s) (sleepers s) W ->
  (forall k, k ∈ W <-> k <> i /\ waits a k) -> places a !! i = Some p -> draws p = false ->
  (forall k, SymposiumTable_philosopher N bites i k p (table a) = Some (rest_of_section N bites i l (table_of s))) ->
  n + 7 = total_instrs bites a + section_left l -> mon_turn true phils m s = Some o -> turn_sound s a n o.
Proof.
  intros I Hk Hdr Hi Hthr Hco HW Hp Hd Hfin Hn Hm.
  assert (exists k, m = Turn k \/ m = Timer k) as [k Hmk] by (destruct m as [k|k]; exists k; auto).
  destruct (decide (k = i)) as [->|Hne]; [destruct Hmk as [-> | ->]|].
  - left. unfold mon_turn, thread_turn in Hm. rewrite Hi in Hm.
    destruct (busy_turn N bites s a i l p W I Hk Hdr Hi Hthr Hco HW Hp Hd Hfin n Hn l eq_refl) as (s' & a' & n' & E & ?).
    rewrite E in Hm. injection Hm as <-. by exists s', a', n'.
  - simpl in Hm. unfold timer_turn in Hm. by rewrite Hi in Hm.
  - pose proof (Hthr k Hne) as Hk'. destruct (places a !! k) as [q|] eqn:Hq; simpl in Hk'.
    2: { destruct Hmk as [-> | ->]; simpl in Hm; unfold thread_turn, timer_turn in Hm; by rewrite Hk' in Hm. }
    destruct (draws q) eqn:Hdq; [|by rewrite (others_wait s k q m Hk' Hk Hdq Hmk) in Hm].
    destruct Hmk as [-> | ->]; simpl in Hm; [|unfold timer_turn in Hm; rewrite Hk' in Hm; by destruct q].
    destruct (thinking_turn s a k q I Hk' Hdr Hq Hdq) as [[E ?]|(q' & E & Hst & Hnw & I2 & Hlt)]; rewrite E in Hm; injection Hm as <-; [by right|left].
    assert (places (moved k q q' (table a) a) !! i = Some p) as Hp' by (simpl; by rewrite list_lookup_insert_ne).
    eexists _, _, (n - 1). split; [done|]. split; [right; exact Hst|].
    destruct (busy_step N bites s (moved k q q' (table a) a) i l p) as (? & ? & _ & _ & Hge); [exact I2|exact Hp'|done|exact Hfin|].
    assert (1 <= section_left l) by (destruct l; simpl; lia). split; [lia|].
    apply (sim_busy _ _ _ _ _ i l p W); try done; simpl.
    + by rewrite Hdq, Hdr.
    + by rewrite lookup_insert_ne.
    + intros z Hz. destruct (decide (z = k)) as [->|Hzk].
      * rewrite lookup_insert_eq, list_lookup_insert_eq; [done|by eapply lookup_lt_Some].
      * rewrite lookup_insert_ne, list_lookup_insert_ne by done. by apply Hthr.
    + intros z. rewrite HW, (waits_moved a k q q'); [done|done|by destruct q|done].
    + lia.
Qed.

Lemma simulates_turn timers s a n m o : sinv N a -> simulates N bites s a n -> mon_turn timers phils m s = Some o -> turn_sound s a n o.
Proof.
  intros I Hs Hm. assert (mon_turn true phils m s = Some o) as Hm'.
  { destruct m; simpl in *; [done|]. by destruct timers. }
  destruct Hs; [by eapply free_turn_sound|by eapply busy_turn_sound].
Qed.

Lemma simulates_progress s a n : sinv N a -> simulates N bites s a n ->
  (forall i, thr s !! i = if decide (i < N) then Some (At L_gone) else None) \/ exists i o, thread_turn phils i s = Some o.
Proof.
  intros I [W Hk Ht Hdr Hthr Hco HW Hn|i l p W Hk Hdr Hi Hthr Hco HW Hp Hd Hfin Hn].
  - destruct (symp_progress N bites a I) as [E|(i & o & E)]; [left|right].
    + intros k. rewrite Hthr, E. destruct (decide (k < N)); [by rewrite lookup_replicate_2|by rewrite lookup_ge_None_2 by (rewrite length_replicate; lia)].
    + unfold symp_turn in E. destruct (places a !! i) as [p|] eqn:Hp; [|done]. simpl in E. exists i.
      assert (thr s !! i = Some (thread_of i p)) as Hi by (by rewrite Hthr, Hp). destruct (draws p) eqn:Hd.
      * destruct (thinking_turn s a i p I Hi Hdr Hp Hd) as [[-> _]|(p' & -> & _)]; by eexists.
      * destruct (SymposiumTable_philosopher N bites i (drawn a) p (table a)) as [o'|] eqn:Ho; [|done].
        assert (is_Some (SymposiumTable_philosopher N bites i 0 p (table a))) as Hs by (destruct p; try done; simpl in *; by eexists).
        destruct (free_turn s a i p W n I Hk Ht Hdr Hthr Hco HW Hn Hp Hd Hs) as (s' & n' & E' & _). by exists (Ret s').
  - right. destruct (busy_turn N bites s a i l p W I Hk Hdr Hi Hthr Hco HW Hp Hd Hfin n Hn l eq_refl) as (s' & a' & n' & E & _).
    exists i. unfold thread_turn. rewrite Hi. by eexists.
Qed.

Lemma simulates_start : simulates N bites (phil_start N) (symp_start N) (N * (23 * bites + 14)).
Proof.
  apply (sim_free _ _ _ _ _ ∅); [done|done|done| |apply conds_start| |unfold total_instrs; rewrite total_start; unfold instrs_left; simpl; lia].
  - intros k. simpl. destruct (decide (k < N)).
    + rewrite lookup_replicate_2 by done. apply elem_of_list_to_map_1.
      * rewrite <- list_fmap_compose. change (NoDup ((fun i => i) <$> seq 0 N)). rewrite list_fmap_id. apply NoDup_seq.
      * apply list_elem_of_fmap. exists k. split; [done|]. apply elem_of_seq. lia.
    + rewrite lookup_ge_None_2 by (rewrite length_replicate; lia). apply not_elem_of_list_to_map_1.
      intros (x & Hx & Hin)%list_elem_of_fmap. apply list_elem_of_fmap in Hin as (j & -> & Hj%elem_of_seq). simpl in Hx. lia.
  - intros k. split; [set_solver|]. intros [j Hj]. simpl in Hj. by apply lookup_replicate in Hj as [? _].
Qed.

Lemma simulates_run timers k s : mon_run timers phils (phil_start N) k s ->
  exists a n, symp_reachable N bites a /\ simulates N bites s a n /\ k + n <= N * (23 * bites + 14).
Proof.
  induction 1 as [|k s1 s2 Hr (a & n & Ha & Hs & Hn) Hst].
  - exists (symp_start N), (N * (23 * bites + 14)). split; [apply reach_refl|]. split; [apply simulates_start|lia].
  - destruct Hst as [m s2 Hm]. destruct (simulates_turn _ _ _ _ _ _ (symp_reach_inv _ _ _ Ha) Hs Hm) as [(s' & a' & n' & [= <-] & Ha' & ? & ?)|[? _]]; [|done].
    exists a', n'. split; [destruct Ha' as [-> |]; [done|by eapply reach_step]|]. split; [done|lia].
Qed.
End simulation.

(** ** Properties *)

(** C35.  The philosophers on mutexes and condition variables refine the symposium whose steps are whole critical
  sections, and thoughts between them: every run of their instructions, under every schedule, is at a reachable state of
  the symposium or inside of one of its steps.  Every further instruction stays so or completes one step of the
  symposium, no assertion fails, nobody is stuck before all have left, and all have left after at most
  [N * (23 * bites + 14)] instructions, seven for a critical section and one for a thought.  The one error is the
  division by zero of a thought when there is no number to choose. *)
Theorem monitor_refines_symposium timers N bites k s : mon_run timers (philosopher_code N bites) (phil_start N) k s ->
  exists a n, symp_reachable N bites a /\ simulates N bites s a n /\ k + n <= N * (23 * bites + 14) /\
    (forall m o, mon_turn timers (philosopher_code N bites) m s = Some o ->
      (exists s' a' n', o = Ret s' /\ (a' = a \/ symp_step N bites a a') /\ n' < n /\ simulates N bites s' a' n') \/
      o = Err Fatal /\ no_choice fmin fmax) /\
    ((forall i, thr s !! i = if decide (i < N) then Some (At L_gone) else None) \/
     exists i o, thread_turn (philosopher_code N bites) i s = Some o).
Proof.
  intros (a & n & Ha & Hs & Hn)%simulates_run. pose proof (symp_reach_inv _ _ _ Ha) as I.
  exists a, n. split; [done|]. split; [done|]. split; [done|]. split; [|by eapply simulates_progress].
  intros m o Hm. exact (simulates_turn N bites timers s a n m o I Hs Hm).
Qed.
End refinement.

(** Two philosophers, who always think about 0: both arrive, the first gets hungry and eats, the second waits. *)
Section run.
#[local] Instance think_of_0 : Thoughts := {| lrand48 _ := 0%Z; fmin := 0%Z; fmax := 0%Z |}.

Definition run_turns (N bites : nat) (l : list nat) (s : msys phil_pc pmem) : msys phil_pc pmem :=
  foldl (fun s i => match thread_turn (philosopher_code N bites) i s with Some (Ret s') => s' | _ => s end) s l.

Lemma run_turns_run N bites l : exists k, mon_run false (philosopher_code N bites) (phil_start N) k (run_turns N bites l (phil_start N)).
Proof.
  unfold run_turns. induction l as [|i l [k IH]] using rev_ind; [exists 0; constructor|]. rewrite foldl_snoc.
  destruct (thread_turn _ _ _) as [[s'|]|] eqn:E; [|by exists k..]. exists (S k). econstructor; [exact IH|]. by apply (mon_step_at _ _ _ (Turn i)).
Qed.

Definition two_meet : list nat := replicate 3 0 ++ replicate 3 1 ++ replicate 8 0 ++ replicate 6 1.

Example two_meet_ex : thr (run_turns 2 1 two_meet (phil_start 2)) !! 0 = Some (At (L_eat 0)) /\
  thr (run_turns 2 1 two_meet (phil_start 2)) !! 1 = Some (InCond 0 1 false (L_while 0) (L_while 0)).
Proof. vm_compute. done. Qed.

Lemma monitor_refines_symposium_witness : exists a n, symp_reachable 2 1 a /\
  simulates 2 1 (run_turns 2 1 two_meet (phil_start 2)) a n.
Proof.
  destruct (run_turns_run 2 1 two_meet) as [k Hk].
  destruct (monitor_refines_symposium false 2 1 k _ Hk) as (a & n & ? & ? & _). exists a, n. split; assumption.
Defined.
End run.
