(* ===== verification/Utilities.v ===== *)
(** * The utilities of the shell (tinyoslib.c, tinyos_shell.c)

  The streams of the C library on file ids, without buffers, and the programs that read, write and compute.
  A loop that reads its input to the end is given [fuel], more than the bytes that it reads; a program that uses
  it up stops with the value -2, and so does one that traps. *)

From Stdlib Require Import String Ascii.
From S2P Require Import Prelude Rlist Iface Kernel Dev Streams Proc Boot Sys Prog Symposium.

#[local] Open Scope Z_scope.

Section utilities.
Context {U : Type}.
Implicit Types (c : Z) (s input : bytes).

(** ** Streams *)

Definition out_of_fuel {A} : stmt U A := fun _ => Done (-2).

(** A division by zero. *)
Definition trap {A} : stmt U A := fun _ => Done (-2).

(** [tinyos_fid_read] and [tinyos_fid_write]: what the C library calls, and what it is answered. *)
Definition tinyos_fid_read (fid : Z) (size : nat) : stmt U reply := issue (Read fid size).

Definition tinyos_fid_write (fid : Z) (buf : bytes) : stmt U Z :=
  ret ← sc (Write fid buf (length buf));
  mret (if decide (ret < 0) then 0 else ret).

(** [fputs], [fputc] and [fprintf] on an unbuffered stream; what is not written sets an error flag that nobody reads. *)
Definition fputs (fid : Z) s : stmt U unit := _ ← tinyos_fid_write fid s; mret tt.

(** [printf], on the stream of file id 1. *)
Definition printf s : stmt U unit := fputs 1 s.

(** A byte, the end of the input or an error. *)
Inductive fgetc_result := GChar (c : Z) | GEof | GError.

Definition fgetc (fid : Z) : stmt U fgetc_result :=
  r ← tinyos_fid_read fid 1;
  mret (if decide (ret r < 0) then GError else match data r with c :: _ => GChar c | [] => GEof end).

(** [char c; (c=fgetc(fin))!=EOF]: a [char] is signed, so that the byte 255 is taken for [EOF]. *)
Definition getchar_loop (fid : Z) : stmt U (option Z) :=
  r ← fgetc fid;
  mret (match r with GChar c => if decide (c = 255) then None else Some c | _ => None end).

(** [getline]: a line with its newline, or what comes before the end; [GLine None] is the end, [GLErr] an error. *)
Inductive getline_result := GLine (l : bytes) | GLEof | GLErr.

Fixpoint getline (fuel : nat) (fid : Z) (acc : bytes) : stmt U getline_result :=
  match fuel with
  | O => out_of_fuel
  | Datatypes.S fuel =>
      r ← fgetc fid;
      match r with
      | GChar c => if decide (c = 10) then mret (GLine (acc ++ [c])) else getline fuel fid (acc ++ [c])
      | GEof => mret (match acc with [] => GLEof | _ => GLine acc end)
      | GError => mret (match acc with [] => GLErr | _ => GLine acc end)
      end
  end.

(** ** Programs *)

Definition Program : Type := list bytes -> prog U.

Definition program_of (body : list bytes -> stmt U Z) : Program := fun argv => returns_int (body argv).

(** The number [n] in a field of [w] places, right-aligned. *)
Definition pad (w : nat) s : bytes := replicate (w - length s) 32 ++ s.

(** [checkargs(argno)], before the rest of the program. *)
Definition checkargs (argno : nat) (argv : list bytes) (rest : stmt U Z) : stmt U Z :=
  if decide (length argv <= argno)%nat then
    _ ← printf (str "Insufficient arguments. " ++ decimal (Z.of_nat argno) ++ str " expected, " ++
                decimal (Z.of_nat (length argv) - 1) ++ str " given." ++ [10]);
    mret (-1)
  else rest.

Definition getint (n : nat) (argv : list bytes) : Z := atoi (default [] (argv !! n)).

(** ** Loops over the input

  [while((c=fgetc(fin))!=EOF)] with a body that changes a state and prints. *)
Fixpoint filter_loop {A} (fuel : nat) (fin fout : Z) (body : A -> Z -> A * bytes) (a : A) : stmt U A :=
  match fuel with
  | O => out_of_fuel
  | Datatypes.S fuel =>
      o ← getchar_loop fin;
      match o with
      | None => mret a
      | Some c => let '(a, out) := body a c in _ ← fputs fout out; filter_loop fuel fin fout body a
      end
  end.

Definition cap_body (_ : unit) c : unit * bytes := (tt, [toupper c]).
Definition Capitalize (fuel : nat) : Program := program_of (fun argv => _ ← filter_loop fuel 0 1 cap_body tt; mret 0).

Definition lcase_body (_ : unit) c : unit * bytes := (tt, [tolower c]).
Definition LowerCase (fuel : nat) : Program := program_of (fun argv => _ ← filter_loop fuel 0 1 lcase_body tt; mret 0).

(** The state is [atend] and [count]. *)
Definition lenum_body (a : bool * Z) c : (bool * Z) * bytes :=
  let '(atend, count) := a in
  let count := if (atend : bool) then count + 1 else count in
  let prefix := if atend then pad 6 (decimal count) ++ str ": " else [] in
  ((bool_decide (c = 10), count), prefix ++ [c]).
Definition LineEnum (fuel : nat) : Program := program_of (fun argv => _ ← filter_loop fuel 0 1 lenum_body (true, 0); mret 0).

Record wc_state := mkWc { nchar : Z; nword : Z; nline : Z; wspace : bool }.

Definition wc_body (a : wc_state) c : wc_state :=
  let starts := wspace a && negb (isblank c) in
  mkWc (nchar a + 1) (if starts then nword a + 1 else nword a) (if decide (c = 10) then nline a + 1 else nline a)
    (if isblank c then true else if decide (c = 10) then true else if starts then false else wspace a).

Fixpoint wc_loop (fuel : nat) (fin : Z) (a : wc_state) : stmt U wc_state :=
  match fuel with
  | O => out_of_fuel
  | Datatypes.S fuel => o ← getchar_loop fin; match o with None => mret a | Some c => wc_loop fuel fin (wc_body a c) end
  end.

Definition wc_line (a : wc_state) : bytes :=
  pad 8 (decimal (nline a)) ++ [32] ++ pad 8 (decimal (nword a)) ++ [32] ++ pad 8 (decimal (nchar a)) ++ [10].

Definition WordCount (fuel : nat) : Program := program_of (fun argv =>
  a ← wc_loop fuel 0 (mkWc 0 0 0 true); _ ← printf (wc_line a); mret 0).

(** [More]: a page of [page] lines; [count % page] traps when [page] is zero, and a negative [page] is converted
  to [size_t].  The keyboard is read from file id 1. *)
Fixpoint more_loop (fuel : nat) (page : Z) (atend : bool) (count : Z) : stmt U unit :=
  match fuel with
  | O => out_of_fuel
  | Datatypes.S fuel =>
      o ← getchar_loop 0;
      match o with
      | None => mret tt
      | Some c =>
          let count := if atend then count + 1 else count in
          _ ← (if atend then
                 if decide (page = 0) then trap
                 else if decide (count mod u64 page = 0) then
                   _ ← fputs 1 (str "press enter to continue:");
                   _ ← getline fuel 1 [];
                   mret tt
                 else mret tt
               else mret tt);
          _ ← fputs 1 [c];
          more_loop fuel page (bool_decide (c = 10)) count
      end
  end.

Definition More (fuel : nat) : Program := program_of (fun argv =>
  let page := if decide (2 <= length argv)%nat then getint 1 argv else 25 in
  _ ← more_loop fuel page true 0; mret 0).

(** [Echo] prints its first argument as often as it has arguments. *)
Definition Echo : Program := program_of (fun argv =>
  _ ← for_each (seq 1 (length argv - 1)) (fun i =>
        _ ← (if decide (1 < i)%nat then fputs 1 [32] else mret tt);
        fputs 1 (default [] (argv !! 1%nat)));
  _ ← fputs 1 [10];
  mret 0).

Definition Fibonacci : Program := program_of (fun argv => checkargs 1 argv (
  let n := getint 1 argv in
  _ ← printf (str "Fibonacci(" ++ decimal n ++ str ")=" ++ decimal (s32 (fibo (Z.to_nat (u32 n)))) ++ [10]);
  mret 0)).

(** ** The towers of Hanoi *)

(** The moves, in order: from which tile to which. *)
Fixpoint hanoi (n : nat) (a b c : Z) : list (Z * Z) :=
  match n with O => [] | Datatypes.S n => hanoi n a c b ++ [(a, b)] ++ hanoi n c b a end.

Definition hanoi_line (m : Z * Z) : bytes :=
  str "Move the top disk from tile " ++ pad 2 (decimal m.1) ++ str " to tile " ++ pad 2 (decimal m.2) ++ [10].

Definition Hanoi : Program := program_of (fun argv => checkargs 1 argv (
  let n := getint 1 argv in
  let MAXN := 15 in
  if decide (n < 1 \/ MAXN < n) then
    _ ← printf (str "The argument must be between 1 and " ++ decimal MAXN ++ str "." ++ [10]);
    mret n
  else
    _ ← printf (str "We shall move " ++ decimal n ++ str " disks from tile 1 to tile 2 via tile 3." ++ [10]);
    _ ← for_each (hanoi (Z.to_nat n) 1 2 3) (fun m => printf (hanoi_line m));
    mret 0)).
End utilities.

(** ** Programs on streams

  What a program does when its input is the bytes [input] and then ends, and its output goes to a file: the value
  that it returns and what it printed.  Other system calls fail. *)
Section streams.
Context {U : Type}.

Fixpoint on_streams (p : prog U) (u : U) (input output : bytes) : Z * bytes :=
  match p with
  | Done v => (v, output)
  | Local f => let '(u, q) := f u in on_streams q u input output
  | Call c k =>
      match c with
      | Read 0 size => on_streams (k (mkReply (Z.of_nat (length (take size input))) None (take size input))) u (drop size input) output
      | Write 1 buf size => on_streams (k (mkReply (Z.of_nat size) None [])) u input (output ++ take size buf)
      | _ => on_streams (k (mkReply (-1) None [])) u input output
      end
  end.

(** What comes before the end of the input, or the first byte that is taken for it. *)
Fixpoint until_eof (input : bytes) : bytes :=
  match input with [] => [] | c :: input => if decide (c = 255) then [] else c :: until_eof input end.

Definition is_output (p : prog U) (input out : bytes) : Prop := forall u output, on_streams p u input output = (0, output ++ out).

(** The filter without system calls. *)
Fixpoint filter_run {A} (body : A -> Z -> A * bytes) (a : A) (input : bytes) : bytes :=
  match input with [] => [] | c :: input => let '(a, out) := body a c in out ++ filter_run body a input end.

Fixpoint wc_run (a : wc_state) (input : bytes) : wc_state :=
  match input with [] => a | c :: input => wc_run (wc_body a c) input end.

Lemma on_fputs s (k : unit -> prog U) u input output : on_streams (fputs 1 s k) u input output = on_streams (k tt) u input (output ++ s).
Proof.
  change (on_streams (k tt) u input (output ++ take (length s) s) = on_streams (k tt) u input (output ++ s)). by rewrite take_ge by lia.
Qed.

Lemma on_getchar (k : option Z -> prog U) u input output : on_streams (getchar_loop 0 k) u input output =
  match input with
  | [] => on_streams (k None) u [] output
  | c :: input => if decide (c = 255) then on_streams (k None) u input output else on_streams (k (Some c)) u input output
  end.
Proof.
  destruct input as [|c input]; [done|].
  change (on_streams (k (if decide (c = 255) then None else Some c)) u input output =
    if decide (c = 255) then on_streams (k None) u input output else on_streams (k (Some c)) u input output).
  by destruct (decide (c = 255)).
Qed.

Lemma on_filter {A} fuel body (a : A) input : (length (until_eof input) < fuel)%nat ->
  is_output (filter_loop fuel 0 1 body a (fun _ => Done 0)) input (filter_run body a (until_eof input)).
Proof.
  revert a input. induction fuel as [|fuel IH]; intros a input Hf u output; [lia|].
  change (filter_loop (Datatypes.S fuel) 0 1 body a (fun _ => Done 0)) with
    (getchar_loop 0 (fun o => match o with None => mret a | Some c => let '(a, out) := body a c in
       _ ← fputs 1 out; filter_loop fuel 0 1 body a end (fun _ => Done 0)) : prog U).
  rewrite on_getchar. destruct input as [|c input]; simpl until_eof in *; [simpl; by rewrite app_nil_r|].
  destruct (decide (c = 255)); [simpl; by rewrite app_nil_r|]. cbn [filter_run]. destruct (body a c) as [a' out].
  change (on_streams (fputs 1 out (fun _ => filter_loop fuel 0 1 body a' (fun _ => Done 0))) u input output = (0, output ++ out ++ filter_run body a' (until_eof input))).
  rewrite on_fputs, (assoc_L (++)). apply IH. simpl in Hf. lia.
Qed.

Lemma on_wc fuel a (k : wc_state -> prog U) input u output : (length (until_eof input) < fuel)%nat ->
  on_streams (wc_loop fuel 0 a k) u input output = on_streams (k (wc_run a (until_eof input))) u (drop (length (until_eof input) + 1) input) output.
Proof.
  revert a input. induction fuel as [|fuel IH]; intros a input Hf; [lia|].
  change (wc_loop (Datatypes.S fuel) 0 a k) with
    (getchar_loop 0 (fun o => match o with None => mret a | Some c => wc_loop fuel 0 (wc_body a c) end k) : prog U).
  rewrite on_getchar. destruct input as [|c input]; simpl until_eof in *; [done|]. destruct (decide (c = 255)); [done|].
  cbn [wc_run length]. rewrite IH by (simpl in Hf; lia). done.
Qed.

(** ** The filters, without programs *)

Lemma cap_run input : filter_run cap_body tt input = toupper <$> input.
Proof. induction input as [|c input IH]; [done|]. simpl. by rewrite IH. Qed.

Lemma lcase_run input : filter_run lcase_body tt input = tolower <$> input.
Proof. induction input as [|c input IH]; [done|]. simpl. by rewrite IH. Qed.

(** The lines of a text, each with its newline; the last may have none. *)
Fixpoint lines (input : bytes) : list bytes :=
  match input with
  | [] => []
  | c :: input =>
      if decide (c = 10) then [c] :: lines input
      else match lines input with [] => [[c]] | l :: ls => (c :: l) :: ls end
  end.

Fixpoint numbered (count : Z) (ls : list bytes) : bytes :=
  match ls with [] => [] | l :: ls => (pad 6 (decimal count) ++ str ": ") ++ l ++ numbered (count + 1) ls end.

Lemma lines_nil input : lines input = [] -> input = [].
Proof. destruct input as [|c input]; [done|]. simpl. destruct (decide _); [done|]. by destruct (lines input). Qed.

Lemma lines_concat input : mjoin (lines input) = input.
Proof.
  induction input as [|c input IH]; [done|]. simpl. destruct (decide (c = 10)); simpl; [by rewrite IH|].
  destruct (lines input) as [|l ls]; simpl in *; by rewrite <- IH.
Qed.

Lemma lenum_run input : forall atend count, filter_run lenum_body (atend, count) input =
  if (atend : bool) then numbered (count + 1) (lines input)
  else match lines input with [] => [] | l :: ls => l ++ numbered (count + 1) ls end.
Proof.
  induction input as [|c input IH]; intros atend count; [by destruct atend|]. cbn [filter_run lenum_body lines]. rewrite IH.
  destruct (decide (c = 10)) as [->|Hc].
  - rewrite bool_decide_true by done. destruct atend; cbn [numbered]; rewrite <- ?app_assoc; done.
  - rewrite bool_decide_false by done. destruct atend, (lines input) as [|l ls]; cbn [numbered]; rewrite <- ?app_assoc; simpl; rewrite ?app_nil_r; done.
Qed.

(** [wc] counts bytes, newlines, and the bytes that are not blank and come first or after a blank or a newline. *)
Fixpoint word_starts (after_space : bool) (input : bytes) : Z :=
  match input with
  | [] => 0
  | c :: input =>
      (if after_space && negb (isblank c) then 1 else 0) + word_starts (isblank c || bool_decide (c = 10)) input
  end.

Definition newlines (input : bytes) : Z := Z.of_nat (length (filter (fun c => c = 10) input)).

Lemma wc_run_ok input : forall a, let a' := wc_run a input in
  nchar a' = nchar a + Z.of_nat (length input) /\ nline a' = nline a + newlines input /\ nword a' = nword a + word_starts (wspace a) input.
Proof.
  induction input as [|c input IH]; intros a; simpl; [unfold newlines; simpl; lia|].
  destruct (IH (wc_body a c)) as (E1 & E2 & E3). rewrite E1, E2, E3. unfold newlines. rewrite filter_cons. cbn [wc_body nchar nline nword wspace].
  split; [lia|]. split; [destruct (decide (c = 10)); simpl; lia|].
  assert (word_starts (if isblank c then true else if decide (c = 10) then true else if wspace a && negb (isblank c) then false else wspace a) input =
    word_starts (isblank c || bool_decide (c = 10)) input) as ->; [|destruct (wspace a && negb (isblank c)); lia].
  f_equal. destruct (isblank c); [done|]. destruct (decide (c = 10)); [by rewrite bool_decide_true|rewrite bool_decide_false by done]. by destruct (wspace a).
Qed.
End streams.

(** ** Properties *)

(** The filters print what they mean to: [cap] and [lcase] convert the letters of the input, [lenum] puts its
  number before each of the lines, and [wc] prints the numbers of newlines, of bytes that start a word, and of
  bytes.  The input ends where it ends or at its first byte 255. *)
Theorem filters_correct {U} (input : bytes) (fuel : nat) (argv : list bytes) : (length (until_eof input) < fuel)%nat ->
  is_output (Capitalize fuel argv : prog U) input (toupper <$> until_eof input) /\
  is_output (LowerCase fuel argv : prog U) input (tolower <$> until_eof input) /\
  is_output (LineEnum fuel argv : prog U) input (numbered 1 (lines (until_eof input))) /\
  is_output (WordCount fuel argv : prog U) input
    (wc_line (mkWc (Z.of_nat (length (until_eof input))) (word_starts true (until_eof input)) (newlines (until_eof input)) true)).
Proof.
  intros Hf. split; [|split; [|split]].
  - rewrite <- cap_run. by apply on_filter.
  - rewrite <- lcase_run. by apply on_filter.
  - pose proof (lenum_run (until_eof input) true 0) as E. change (0 + 1) with 1 in E. cbv iota in E. rewrite <- E. by apply on_filter.
  - intros u output. unfold WordCount, program_of, returns_int. unfold mbind at 1, stmt_bind. rewrite on_wc by done.
    destruct (wc_run_ok (until_eof input) (mkWc 0 0 0 true)) as (E1 & E2 & E3). unfold printf. unfold mbind, stmt_bind. rewrite on_fputs.
    simpl in E1, E2, E3. unfold wc_line. simpl. by rewrite E1, E2, E3.
Qed.

Lemma filters_correct_witness : on_streams (LineEnum 100 [] : prog unit) tt (str "one" ++ [10] ++ str "two") [] = (0, str "     1: one" ++ [10] ++ str "     2: two").
Proof.
  destruct (filters_correct (U := unit) (str "one" ++ [10] ++ str "two") 100 []) as (_ & _ & E & _); [vm_compute; lia|].
  rewrite (E tt []). vm_compute; reflexivity.
Defined.

(** ** The towers

  The disks on each tile, the top one first; a disk is its size. *)
Abbreviation tiles := (gmap Z (list nat)).

(** The top disk of a tile is moved; it must not lie on a smaller one. *)
Definition fits (d : nat) (r : list nat) : bool := match r with [] => true | e :: _ => bool_decide (d < e)%nat end.

Definition move_disk (m : Z * Z) (t : tiles) : option tiles :=
  l ← t !! m.1;
  r ← t !! m.2;
  match l with
  | [] => None
  | d :: l =>
      if fits d r then Some (<[m.2 := d :: r]> (<[m.1 := l]> t)) else None
  end.

Fixpoint play (ms : list (Z * Z)) (t : tiles) : option tiles :=
  match ms with [] => Some t | m :: ms => t ← move_disk m t; play ms t end.

Definition tower (n : nat) : list nat := seq 1 n.

Lemma play_app ms ms' t : play (ms ++ ms') t = (t ← play ms t; play ms' t).
Proof. revert t. induction ms as [|m ms IH]; intros t; [done|]. simpl. destruct (move_disk m t); simpl; [apply IH|done]. Qed.

Lemma hanoi_plays n : forall a b c t ra rb rc, a <> b -> a <> c -> b <> c ->
  t !! a = Some (tower n ++ ra) -> t !! b = Some rb -> t !! c = Some rc ->
  Forall (lt n) ra -> Forall (lt n) rb -> Forall (lt n) rc ->
  play (hanoi n a b c) t = Some (<[b := tower n ++ rb]> (<[a := ra]> t)).
Proof.
  induction n as [|n IH]; intros a b c t ra rb rc Hab Hac Hbc Ha Hb Hc Hra Hrb Hrc.
  - simpl. f_equal. symmetry. simpl in Ha. rewrite (insert_id t a) by done. by apply insert_id.
  - assert (forall l, Forall (lt (S n)) l -> Forall (lt n) l) as Hw by (intros l Hl; eapply Forall_impl; [exact Hl|simpl; lia]).
    unfold tower in *. rewrite seq_S in *. simpl in Ha. rewrite <- app_assoc in Ha. cbn [app] in Ha.
    cbn [hanoi]. rewrite play_app. rewrite (IH a c b t (S n :: ra) rc rb) by (auto using Forall_cons_2 with lia). cbn [mbind option_bind app play].
    set (t1 := <[c := seq 1 n ++ rc]> (<[a := S n :: ra]> t)).
    assert (move_disk (a, b) t1 = Some (<[b := S n :: rb]> (<[a := ra]> t1))) as ->.
    { assert (t1 !! a = Some (S n :: ra)) as E1 by (unfold t1; by rewrite lookup_insert_ne, lookup_insert_eq by done).
      assert (t1 !! b = Some rb) as E2 by (unfold t1; by rewrite !lookup_insert_ne by done).
      unfold move_disk. cbn [fst snd]. rewrite E1. cbn [mbind option_bind]. rewrite E2. cbn [mbind option_bind].
      assert (fits (S n) rb = true) as ->; [|done].
      destruct rb as [|e rb]; [done|]. apply Forall_cons in Hrb as [? _]. by apply bool_decide_eq_true. }
    cbn [mbind option_bind]. rewrite (IH c b a (<[b := S n :: rb]> (<[a := ra]> t1)) rc (S n :: rb) ra);
      [|auto..|unfold t1; by rewrite !lookup_insert_ne, lookup_insert_eq by auto|by rewrite lookup_insert_eq
       |by rewrite lookup_insert_ne, lookup_insert_eq by auto|auto|auto using Forall_cons_2 with lia|auto].
    f_equal. unfold t1. rewrite <- app_assoc. cbn [app Nat.add]. apply map_eq. intros i.
    destruct (decide (i = b)) as [->|]; [by rewrite !lookup_insert_eq|]. rewrite !(lookup_insert_ne _ b) by done.
    destruct (decide (i = c)) as [->|]; [by rewrite lookup_insert_eq, lookup_insert_ne by auto|]. rewrite (lookup_insert_ne _ c) by done. rewrite (lookup_insert_ne _ b) by done.
    destruct (decide (i = a)) as [->|]; [by rewrite !lookup_insert_eq|]. by rewrite !lookup_insert_ne by done.
Qed.

Lemma hanoi_length n a b c : Z.of_nat (length (hanoi n a b c)) = 2 ^ Z.of_nat n - 1.
Proof.
  revert a b c. induction n as [|n IH]; intros a b c; [done|]. cbn [hanoi]. rewrite !length_app, !Nat2Z.inj_add, !IH.
  rewrite Nat2Z.inj_succ, Z.pow_succ_r by lia. simpl. lia.
Qed.

(** The moves that [hanoi] prints take the tower from the first tile to the second: each moves the top disk of a
  tile, no disk is put on a smaller one, at the end the whole tower lies on the second tile, and there are
  2^n-1 moves. *)
Theorem hanoi_correct n a b c (t : tiles) : a <> b -> a <> c -> b <> c ->
  t !! a = Some (tower n) -> t !! b = Some [] -> t !! c = Some [] ->
  play (hanoi n a b c) t = Some (<[b := tower n]> (<[a := []]> t)) /\ Z.of_nat (length (hanoi n a b c)) = 2 ^ Z.of_nat n - 1.
Proof.
  intros Hab Hac Hbc Ha Hb Hc. split; [|apply hanoi_length].
  rewrite (hanoi_plays n a b c t [] [] []); rewrite ?app_nil_r; auto.
Qed.

Definition hanoi_start (n : nat) : tiles := <[1 := tower n]> (<[2 := []]> {[3 := []]}).

Lemma hanoi_correct_witness : play (hanoi 4 1 2 3) (hanoi_start 4) = Some (<[2 := tower 4]> (<[1 := []]> (hanoi_start 4))).
Proof. apply (hanoi_correct 4 1 2 3 (hanoi_start 4)); [lia..| | |]; vm_compute; reflexivity. Defined.
