(* ===== verification/Party.v ===== *)
(** * A symposium as a program (symposium.c, tinyos_shell.c)

  The numbers that a symposium is made from, and the process that runs a symposium: it executes a process for each
  philosopher, waits for as many children, and frees the table that they share.  [Exec] may refuse a philosopher,
  which the program does not notice.  The philosophers are those of [Symposium], with their thinking and eating; a step
  of theirs on a table that was freed is an error.  *)

From Stdlib Require Import String.
From S2P Require Import Prelude Kernel Prog Symposium Utilities.
#[local] Open Scope nat_scope.

(** ** The numbers of a symposium *)

Definition FBASE : Z := 35.
Definition FGAP : Z := 10.

Section numbers.
#[local] Open Scope Z_scope.

(** [log_phi x] is [(int)(log((double)x) / log(.5+.5*sqrt(5.)))], of the mathematical library. *)
Context (log_phi : Z -> Z).

Definition adjust_symposium (symp : symposium_t) (dBASE dGAP : Z) : symposium_t :=
  let fmin := s32 (s32 (FBASE + dBASE) - log_phi (s32 (s32 (2 * sy_N symp) * sy_bites symp))) in
  mkSymposium (sy_N symp) (sy_bites symp) fmin (s32 (s32 (fmin + FGAP) + dGAP)).

(** The arguments of the commands [symposium] and [symp_thr]; the fields that are not set hold [junk]. *)
Definition symp_argproc (junk : Z) (argv : list bytes) : symposium_t :=
  let symp := mkSymposium (getint 1 argv) (getint 2 argv) junk junk in
  let dBASE := if decide (4 <= length argv)%nat then getint 3 argv else 0 in
  let dGAP := if decide (5 <= length argv)%nat then getint 4 argv else 0 in
  adjust_symposium symp dBASE dGAP.
End numbers.

(** ** The process that runs the symposium *)

(** What has become of the process of a philosopher: not executed (yet, or refused), executed with [argl], running,
  exited, waited for.  The arguments that it was given hold the number of its seat. *)
Inductive seat := Vacant | Called (argl : Z) | Dining | Exited | Reaped.
#[export] Instance seat_eq_dec : EqDecision seat.
Proof. solve_decision. Defined.

#[export] Instance symp_place_eq_dec : EqDecision place.
Proof. solve_decision. Defined.

(** Where the process is: at the [i]th [Exec], at the [i]th [WaitChild], before [SymposiumTable_destroy], done. *)
Inductive host_place := Inviting (i : nat) | Awaiting (i : nat) | Destroying | Returned.
#[export] Instance host_place_eq_dec : EqDecision host_place.
Proof. solve_decision. Defined.

(** [freed]: the arrays of the table are freed, and the table is out of scope. *)
Record party := mkParty { feast : symposium; seats : list seat; host : host_place; freed : bool }.

Definition with_host (h : host_place) (p : party) : party := mkParty (feast p) (seats p) h (freed p).
Definition with_seat (i : nat) (x : seat) (p : party) : party := mkParty (feast p) (<[i := x]> (seats p)) (host p) (freed p).

(** A child of the process: running, or exited and not waited for. *)
Definition is_child (x : seat) : bool := match x with Called _ | Dining | Exited => true | _ => false end.

(** [sizeof(symposium_t)] and [sizeof(philosopher_args)]: four integers; an integer and a pointer, aligned. *)
Definition sizeof_symposium_t : Z := 16.
Definition sizeof_philosopher_args : Z := 16.

Section steps.
Context `{Thoughts}.

(** The next step of the process: [ok] is what [Exec] answers, [c] the child that [WaitChild] finds; [None] when
  it waits, or has returned. *)
Definition SymposiumOfProcesses (N : nat) (ok : bool) (c : nat) (p : party) : option (outcome party) :=
  match host p with
  | Inviting i =>
      if decide (i < N) then Some (Ret (with_host (Inviting (S i)) (if ok then with_seat i (Called sizeof_philosopher_args) p else p)))
      else Some (Ret (with_host (Awaiting 0) p))
  | Awaiting i =>
      if decide (i < N) then
        if decide (Exists (fun x => is_child x = true) (seats p)) then
          if decide (seats p !! c = Some Exited) then Some (Ret (with_host (Awaiting (S i)) (with_seat c Reaped p))) else None
        else Some (Ret (with_host (Awaiting (S i)) p))
      else Some (Ret (with_host Destroying p))
  | Destroying => Some (Ret (mkParty (feast p) (seats p) Returned true))
  | Returned => None
  end.

(** The next step of the process of philosopher [i]: it looks at its arguments, uses the table until it has left, and
  exits. *)
Definition PhilosopherProcess (N bites i : nat) (p : party) : option (outcome party) :=
  match seats p !! i with
  | Some (Called argl) => Some (_ ← c_assert (bool_decide (argl = sizeof_philosopher_args)); Ret (with_seat i Dining p))
  | Some Dining =>
      if decide (places (feast p) !! i = Some Gone) then Some (Ret (with_seat i Exited p))
      else if freed p then Some (Err BadAccess)
      else o ← symp_turn N bites i (feast p); Some (s ← o; Ret (mkParty s (seats p) (host p) (freed p)))
  | _ => None
  end.

(** Who moves, and with what answers. *)
Inductive move := HostMove (ok : bool) (c : nat) | GuestMove (i : nat).

Definition party_turn (N bites : nat) (a : move) (p : party) : option (outcome party) :=
  match a with
  | HostMove ok c => SymposiumOfProcesses N ok c p
  | GuestMove i => PhilosopherProcess N bites i p
  end.

(** [SymposiumTable_init] and the start of the process; [xmalloc] of a negative size, which is a huge one, stops the machine. *)
Definition party_start (argl : Z) (symp : symposium_t) : outcome party :=
  _ ← c_assert (bool_decide (argl = sizeof_symposium_t));
  if decide (sy_N symp < 0)%Z then Err Fatal
  else let N := Z.to_nat (sy_N symp) in Ret (mkParty (symp_start N) (replicate N Vacant) (Inviting 0) false).

Inductive party_step (N bites : nat) (p : party) : party -> Prop :=
  | party_step_at a p' : party_turn N bites a p = Some (Ret p') -> party_step N bites p p'.
End steps.

(** The symposium [symp] when [lrand48] gives the numbers [rnd]. *)
Definition thoughts_of (rnd : nat -> Z) (symp : symposium_t) : Thoughts :=
  {| lrand48 := rnd; fmin := sy_fmin symp; fmax := sy_fmax symp |}.

Definition turn_of (rnd : nat -> Z) (symp : symposium_t) : move -> party -> option (outcome party) :=
  party_turn (H := thoughts_of rnd symp) (Z.to_nat (sy_N symp)) (Z.to_nat (sy_bites symp)).
Definition step_of (rnd : nat -> Z) (symp : symposium_t) : party -> party -> Prop :=
  party_step (H := thoughts_of rnd symp) (Z.to_nat (sy_N symp)) (Z.to_nat (sy_bites symp)).

Definition party_reachable (rnd : nat -> Z) (symp : symposium_t) (p : party) : Prop :=
  exists p0, party_start sizeof_symposium_t symp = Ret p0 /\ reach (step_of rnd symp) p0 p.

(** ** Invariant *)

Definition children (l : list seat) : nat := length (filter (fun x => is_child x = true) l).

(** What the seat of a philosopher says of where it is. *)
Definition seat_ok (x : seat) (p : place) : Prop :=
  match x with Vacant => p = Arriving | Called argl => p = Arriving /\ argl = sizeof_philosopher_args | Dining => True | Exited | Reaped => p = Gone end.

(** At the [i]th wait at most as many children are left as there are waits to come. *)
Definition host_ok (N : nat) (h : host_place) (l : list seat) : Prop :=
  match h with
  | Inviting i => i <= N /\ forall k, i <= k < N -> l !! k = Some Vacant
  | Awaiting i => i <= N /\ children l <= N - i
  | Destroying | Returned => children l = 0
  end.

Record pinv (N : nat) (p : party) : Prop := {
  pi_feast : sinv N (feast p);
  pi_len : length (seats p) = N;
  pi_seat i x q : seats p !! i = Some x -> places (feast p) !! i = Some q -> seat_ok x q;
  pi_host : host_ok N (host p) (seats p);
  pi_freed : freed p = bool_decide (host p = Returned)
}.

(** How many steps are left, at most. *)
Definition seat_rank (x : seat) : nat := match x with Vacant => 4 | Called _ => 3 | Dining => 2 | Exited => 1 | Reaped => 0 end.
Definition host_rank (N : nat) (h : host_place) : nat :=
  match h with Inviting i => (N - i) + N + 3 | Awaiting i => (N - i) + 2 | Destroying => 1 | Returned => 0 end.
Definition party_left (N bites : nat) (p : party) : nat :=
  total_left bites (feast p) + sum_list (seat_rank <$> seats p) + host_rank N (host p).

Lemma children_insert l i x y : l !! i = Some x ->
  children (<[i := y]> l) + (if is_child x then 1 else 0) = children l + (if is_child y then 1 else 0).
Proof.
  unfold children. revert i. induction l as [|z l IH]; intros [|i] Hi; simpl in *; [done..|simplify_eq|].
  - rewrite !filter_cons. destruct (is_child x), (is_child y); simpl; lia.
  - specialize (IH i Hi). rewrite !filter_cons. destruct (is_child z); simpl; lia.
Qed.

Lemma children_le l : children l <= length l.
Proof. apply length_filter. Qed.

Lemma no_children l : children l = 0 <-> Forall (fun x => is_child x = false) l.
Proof.
  unfold children. induction l as [|x l IH]; [by split; [constructor|]|]. rewrite filter_cons, Forall_cons, <- IH.
  destruct (is_child x); simpl; split; (lia || naive_solver).
Qed.

Lemma seat_left l i x y : l !! i = Some x -> sum_list (seat_rank <$> <[i := y]> l) + seat_rank x = sum_list (seat_rank <$> l) + seat_rank y.
Proof.
  intros Hi. rewrite list_fmap_insert. apply sum_list_insert. by rewrite list_lookup_fmap, Hi.
Qed.

(** A seat changes, and the place of the host. *)
Lemma pinv_seat N p i x0 x h : pinv N p -> seats p !! i = Some x0 ->
  (forall q, places (feast p) !! i = Some q -> seat_ok x q) -> host_ok N h (<[i := x]> (seats p)) ->
  freed p = bool_decide (h = Returned) -> pinv N (mkParty (feast p) (<[i := x]> (seats p)) h (freed p)).
Proof.
  intros [I1 I2 I3 I4 I5] Hi Hx Hh Hf. split; simpl; [done|by rewrite length_insert| |done|done].
  intros k y q [(<- & <- & _)|[Hne Hk]]%list_lookup_insert_Some Hq; [by apply Hx|by eapply I3].
Qed.

Lemma pinv_host N p h b : pinv N p -> host_ok N h (seats p) -> b = bool_decide (h = Returned) ->
  pinv N (mkParty (feast p) (seats p) h b).
Proof. intros [I1 I2 I3 I4 I5] Hh Hf. by split. Qed.

Section invariant.
Context `{Thoughts}.

(** What a turn guarantees: progress, and no error but that of a thought when there is no number to choose. *)
Definition turn_good (N bites : nat) (p : party) (o : option (outcome party)) : Prop :=
  forall o', o = Some o' ->
    (exists p', o' = Ret p' /\ pinv N p' /\ party_left N bites p' < party_left N bites p) \/ o' = Err Fatal /\ no_choice fmin fmax.

Lemma turn_intro N bites p p' : pinv N p' -> party_left N bites p' < party_left N bites p -> turn_good N bites p (Some (Ret p')).
Proof. intros I Hlt o [= <-]. left. by exists p'. Qed.

Lemma inviting_ok N bites ok c p i : pinv N p -> host p = Inviting i -> turn_good N bites p (SymposiumOfProcesses N ok c p).
Proof.
  intros I Hh. pose proof I as [I1 I2 I3 I4 I5]. unfold SymposiumOfProcesses. rewrite Hh in *. destruct I4 as [Hi Hv].
  assert (freed p = false) as Hf by done. destruct (decide (i < N)) as [HiN|HiN].
  - assert (seats p !! i = Some Vacant) as Hs by (apply Hv; lia). destruct ok; apply turn_intro.
    + eapply (pinv_seat N p i Vacant (Called sizeof_philosopher_args) (Inviting (S i))); try done; [intros q Hq; split; [by apply (I3 i Vacant)|done]|]. split; [lia|]. intros k Hk.
      rewrite list_lookup_insert_ne by lia. apply Hv. lia.
    + unfold party_left. simpl. pose proof (seat_left _ i _ (Called sizeof_philosopher_args) Hs) as Hl. rewrite Hh. simpl in *. lia.
    + apply (pinv_host N p (Inviting (S i))); try done. split; [lia|]. intros k Hk. apply Hv. lia.
    + unfold party_left. simpl. rewrite Hh. simpl. lia.
  - apply turn_intro.
    + apply (pinv_host N p (Awaiting 0)); try done. split; [lia|]. pose proof (children_le (seats p)). lia.
    + unfold party_left. simpl. rewrite Hh. simpl. lia.
Qed.

Lemma awaiting_ok N bites ok c p i : pinv N p -> host p = Awaiting i -> turn_good N bites p (SymposiumOfProcesses N ok c p).
Proof.
  intros I Hh. pose proof I as [I1 I2 I3 I4 I5]. unfold SymposiumOfProcesses. rewrite Hh in *. destruct I4 as [Hi Hc].
  assert (freed p = false) as Hf by done. destruct (decide (i < N)) as [HiN|HiN];
    [destruct (decide (Exists _ _)) as [Hx|Hx]; [destruct (decide (_ = Some Exited)) as [Hs|Hs]; [|done]|]|].
  - pose proof (children_insert _ _ _ Reaped Hs) as Hci. simpl in Hci. apply turn_intro.
    + eapply (pinv_seat N p c Exited Reaped (Awaiting (S i))); try done; [|split; lia]. intros q Hq. by apply (I3 c Exited q).
    + unfold party_left. simpl. pose proof (seat_left _ c _ Reaped Hs) as Hl. rewrite Hh. simpl in *. lia.
  - apply turn_intro.
    + apply (pinv_host N p (Awaiting (S i))); try done. assert (children (seats p) = 0) as Hz; [|split; lia].
      apply no_children. apply Forall_forall. intros x Hin. destruct (is_child x) eqn:E; [|done]. exfalso. apply Hx.
      apply Exists_exists. by exists x.
    + unfold party_left. simpl. rewrite Hh. simpl. lia.
  - apply turn_intro.
    + apply (pinv_host N p Destroying); try done. simpl. lia.
    + unfold party_left. simpl. rewrite Hh. simpl. lia.
Qed.

Lemma host_turn_ok N bites ok c p : pinv N p -> turn_good N bites p (SymposiumOfProcesses N ok c p).
Proof.
  intros I. destruct (host p) as [i|i| |] eqn:Hh; [by eapply inviting_ok|by eapply awaiting_ok| |].
  - unfold SymposiumOfProcesses. rewrite Hh. apply turn_intro.
    + apply (pinv_host N p Returned); try done. destruct I as [_ _ _ I4 _]. by rewrite Hh in I4.
    + unfold party_left. simpl. rewrite Hh. simpl. lia.
  - unfold SymposiumOfProcesses. by rewrite Hh.
Qed.

(** The host does not get past the wait for a philosopher that is still there. *)
Lemma dining_not_freed N p i x : pinv N p -> seats p !! i = Some x -> is_child x = true -> freed p = false.
Proof.
  intros [_ _ _ I4 I5] Hi Hx. rewrite I5. apply bool_decide_eq_false. intros Hh. rewrite Hh in I4. simpl in I4.
  apply no_children in I4. rewrite Forall_lookup in I4. specialize (I4 _ _ Hi). simpl in I4. congruence.
Qed.

(** A child goes on to another state of a process. *)
Lemma child_moves N p i x y : pinv N p -> seats p !! i = Some x -> is_child x = true -> is_child y = true ->
  (forall q, places (feast p) !! i = Some q -> seat_ok y q) -> pinv N (mkParty (feast p) (<[i := y]> (seats p)) (host p) (freed p)).
Proof.
  intros I Hi Hx Hy Hok. pose proof I as [I1 I2 I3 I4 I5]. pose proof (children_insert _ _ _ y Hi) as Hc. rewrite Hx, Hy in Hc.
  eapply (pinv_seat N p i x y (host p)); try done.
  destruct (host p) as [k|k| |]; simpl in *; try lia. destruct I4 as [? Hv]. split; [done|]. intros z Hz.
  rewrite list_lookup_insert_ne; [by apply Hv|]. intros ->. rewrite Hv in Hi by done. by simplify_eq.
Qed.

Lemma guest_turn_ok N bites i p : pinv N p -> turn_good N bites p (PhilosopherProcess N bites i p).
Proof.
  intros I. pose proof I as [I1 I2 I3 I4 I5]. unfold PhilosopherProcess.
  destruct (seats p !! i) as [x|] eqn:Hi; [|done]. destruct x as [|argl| | |]; try done.
  - assert (argl = sizeof_philosopher_args) as ->.
    { assert (i < length (places (feast p))) as Hlt by (rewrite (si_places _ _ I1), <- I2; by eapply lookup_lt_Some).
      apply lookup_lt_is_Some_2 in Hlt as [q Hq]. by destruct (I3 _ _ _ Hi Hq). }
    apply turn_intro; [by eapply (child_moves N p i (Called sizeof_philosopher_args) Dining)|].
    unfold party_left. simpl. pose proof (seat_left _ i _ Dining Hi) as Hl. simpl in *. lia.
  - destruct (decide (places (feast p) !! i = Some Gone)) as [Hg|Hg].
    { apply turn_intro; [eapply (child_moves N p i Dining Exited); try done; intros q Hq; simpl; congruence|].
      unfold party_left. simpl. pose proof (seat_left _ i _ Exited Hi) as Hl. simpl in *. lia. }
    rewrite (dining_not_freed N p i Dining I Hi eq_refl). pose proof (symp_turn_ok N bites (feast p) i I1) as Hok.
    destruct (symp_turn N bites i (feast p)) as [o|] eqn:E; [|done]. destruct Hok as [(s & -> & I' & Hlt)|[-> ?]]; cbn.
    2: { intros o [= <-]. by right. }
    apply turn_intro; [|unfold party_left; simpl; lia].
    split; simpl; try done; [|by rewrite <- (dining_not_freed N p i Dining I Hi eq_refl)].
    intros k x q Hx Hq. destruct (decide (k = i)) as [->|Hne].
    + rewrite Hi in Hx. by injection Hx as <-.
    + eapply I3; [done|]. unfold symp_turn in E. destruct (places (feast p) !! i); simpl in E; [|done].
      destruct (SymposiumTable_philosopher _ _ _ _ _ _) as [[[p' t']|]|]; simpl in E; simplify_eq. simpl in Hq.
      by rewrite list_lookup_insert_ne in Hq.
Qed.

Lemma party_turn_ok N bites a p : pinv N p -> turn_good N bites p (party_turn N bites a p).
Proof. destruct a; [apply host_turn_ok|apply guest_turn_ok]. Qed.

(** A philosopher that cannot move and has not left waits for one that can. *)
Lemma guest_progress N bites p i x : pinv N p -> seats p !! i = Some x -> x = Dining \/ (exists argl, x = Called argl) ->
  exists k, is_Some (PhilosopherProcess N bites k p).
Proof.
  intros I Hi [->|[argl ->]]; [|exists i; unfold PhilosopherProcess; rewrite Hi; by eexists]. pose proof I as [I1 I2 I3 I4 I5].
  assert (forall k, seats p !! k = Some Dining -> places (feast p) !! k = Some Gone \/ is_Some (symp_turn N bites k (feast p)) ->
    is_Some (PhilosopherProcess N bites k p)) as Hmove.
  { intros k Hk Hor. unfold PhilosopherProcess. rewrite Hk. destruct (decide _); [by eexists|].
    rewrite (dining_not_freed N p k Dining I Hk eq_refl). destruct Hor as [?|[o ->]]; [done|by eexists]. }
  assert (forall k, k < N -> exists q, places (feast p) !! k = Some q) as Hpl.
  { intros k Hk. apply lookup_lt_is_Some_2. by rewrite (si_places _ _ I1). }
  assert (i < N) as HiN by (rewrite <- I2; by eapply lookup_lt_Some). destruct (Hpl i HiN) as [q Hq].
  pose proof (symp_turn_ok N bites (feast p) i I1) as Hok. destruct (symp_turn N bites i (feast p)) as [o|] eqn:E.
  { exists i. apply Hmove; [done|]. right. by eexists. }
  destruct (Hok q Hq) as [->|[_ Hh]]; [exists i; apply Hmove; [done|by left]|].
  destruct (si_calm _ _ I1 i HiN Hh) as (k & Hk & He). destruct (adj_sym N i k HiN Hk) as [_ HkN].
  destruct (Hpl k HkN) as [r Hr]. pose proof (si_place _ _ I1 k r Hr) as Hpk. exists k. apply Hmove.
  - rewrite <- I2 in HkN. apply lookup_lt_is_Some_2 in HkN as [x Hx]. pose proof (I3 k x r Hx Hr) as Hxr.
    destruct x as [|argl| | |]; [|destruct Hxr as [Hxr _]|done|..]; simpl in Hxr; subst r; destruct Hpk; congruence.
  - right. pose proof (symp_turn_ok N bites (feast p) k I1) as Hok'. destruct (symp_turn N bites k (feast p)); [by eexists|].
    destruct (Hok' r Hr) as [->|[_ ?]]; [destruct Hpk|]; congruence.
Qed.

Lemma party_progress N bites p : pinv N p -> host p = Returned \/ exists a, is_Some (party_turn N bites a p).
Proof.
  intros I. destruct (host p) as [i|i| |] eqn:Hh; [right..|by left].
  - exists (HostMove true 0). simpl. unfold SymposiumOfProcesses. rewrite Hh. destruct (decide _); by eexists.
  - destruct (decide (Exists (fun x => is_child x = true) (seats p) /\ i < N)) as [[Hx Hi]|Hno].
    + destruct (decide (Exists (fun x => x = Exited) (seats p))) as [(x & [c Hc]%list_elem_of_lookup & ->)%Exists_exists|Hne].
      * exists (HostMove true c). simpl. unfold SymposiumOfProcesses. rewrite Hh, !decide_True by done. by eexists.
      * apply Exists_exists in Hx as (x & Hin & Hx). assert (x = Dining \/ exists argl, x = Called argl) as Hd.
        { destruct x as [|argl| | |]; [done|right; by exists argl|by left| |done]. exfalso. apply Hne, Exists_exists. by exists Exited. }
        apply list_elem_of_lookup in Hin as [k Hk]. destruct (guest_progress N bites p k x I Hk Hd) as [j Hj]. by exists (GuestMove j).
    + exists (HostMove true 0). simpl. unfold SymposiumOfProcesses. rewrite Hh. destruct (decide (i < N)); [|by eexists].
      rewrite decide_False by tauto. by eexists.
  - exists (HostMove true 0). simpl. unfold SymposiumOfProcesses. rewrite Hh. by eexists.
Qed.

End invariant.

Lemma party_start_inv argl symp p : party_start argl symp = Ret p -> pinv (Z.to_nat (sy_N symp)) p.
Proof.
  unfold party_start. intros (_ & _ & Hs)%bind_Ret. revert Hs. destruct (decide _); [done|]. intros [= <-]. set (N := Z.to_nat _).
  split; simpl; [apply symp_start_inv|apply length_replicate| |split; [lia|]|done].
  - intros i x q [-> _]%lookup_replicate [-> _]%lookup_replicate. done.
  - intros k Hk. apply lookup_replicate. split; [done|lia].
Qed.

Lemma party_reach_inv rnd symp p : party_reachable rnd symp p -> pinv (Z.to_nat (sy_N symp)) p.
Proof.
  intros (p0 & E & Hr). eapply reach_invariant; [|exact Hr|by eapply party_start_inv]. intros p1 p2 I [a p' Ea].
  by destruct (party_turn_ok _ _ a p1 I _ Ea) as [(p3 & [= ->] & ? & _)|[? _]].
Qed.

Lemma party_start_left argl symp p bites : party_start argl symp = Ret p ->
  let N := Z.to_nat (sy_N symp) in party_left N bites p = N * (5 * bites + 8) + 3.
Proof.
  unfold party_start. intros (_ & _ & Hs)%bind_Ret. revert Hs. destruct (decide _); [done|]. intros [= <-]. set (N := Z.to_nat (sy_N symp)).
  unfold party_left. cbn [feast seats host].
  rewrite start_left. assert (forall k, sum_list (seat_rank <$> replicate k Vacant) = 4 * k) as Hs.
  { intros k. induction k as [|k IH]; [done|]. change (4 + sum_list (seat_rank <$> replicate k Vacant) = 4 * S k). rewrite IH. lia. }
  rewrite Hs. simpl. lia.
Qed.

(** A philosopher that is about to think, or to eat, when there is no number to choose. *)
Lemma thinking_traps rnd symp p i j : party_reachable rnd symp p -> no_choice (sy_fmin symp) (sy_fmax symp) ->
  seats p !! i = Some Dining -> places (feast p) !! i = Some (Thinking j) \/ places (feast p) !! i = Some (Eating j) ->
  turn_of rnd symp (GuestMove i) p = Some (Err Fatal).
Proof.
  intros I%party_reach_inv Hn Hi Hp. unfold turn_of. simpl. unfold PhilosopherProcess. rewrite Hi.
  assert (forall q, places (feast p) !! i = Some q -> draws q = true -> 
    symp_turn (H := thoughts_of rnd symp) (Z.to_nat (sy_N symp)) (Z.to_nat (sy_bites symp)) i (feast p) = Some (Err Fatal)) as Ht.
  { intros q Hq Hd. unfold symp_turn. rewrite Hq. cbn [mbind option_bind].
    destruct (thinking_ok (H := thoughts_of rnd symp) (Z.to_nat (sy_N symp)) (Z.to_nat (sy_bites symp)) (feast p) i (drawn (feast p)) q
      (pi_feast _ _ I) Hq Hd) as [[_ ->]|[? _]]; done. }
  rewrite decide_False by (intros Hg; rewrite Hg in Hp; by destruct Hp).
  rewrite (dining_not_freed _ p i Dining I Hi eq_refl). by destruct Hp as [Hp|Hp]; rewrite (Ht _ Hp).
Qed.

(** ** Properties *)

(** C37.  The process that runs a symposium returns, whichever of its philosophers [Exec] refuses and in whichever
  order all of them run, if there is a number to choose for their thinking: until then somebody can take a step, every
  step is without error (no philosopher uses the table after it was freed, and the assertions hold) and takes the
  program nearer to its end, which comes after at most [N * (5 * bites + 8) + 3] steps.  When it returns every
  philosopher that was executed has left and was waited for.  If [fmax-fmin+1] is zero the one error that a step has is
  the division by zero, and the first philosopher that thinks has it. *)
Theorem symposium_ends rnd symp p : party_reachable rnd symp p ->
  let N := Z.to_nat (sy_N symp) in let bites := Z.to_nat (sy_bites symp) in
  (host p = Returned \/ exists a o, turn_of rnd symp a p = Some o) /\
  (forall a o, turn_of rnd symp a p = Some o ->
     (exists p', o = Ret p' /\ party_left N bites p' < party_left N bites p) \/
     o = Err Fatal /\ no_choice (sy_fmin symp) (sy_fmax symp)) /\
  (no_choice (sy_fmin symp) (sy_fmax symp) -> forall i j, seats p !! i = Some Dining ->
     places (feast p) !! i = Some (Thinking j) -> turn_of rnd symp (GuestMove i) p = Some (Err Fatal)) /\
  (forall p0, party_start sizeof_symposium_t symp = Ret p0 -> party_left N bites p0 = N * (5 * bites + 8) + 3) /\
  (host p = Returned -> forall i x q, seats p !! i = Some x -> places (feast p) !! i = Some q ->
    x = Vacant /\ q = Arriving \/ x = Reaped /\ q = Gone).
Proof.
  intros Hr N bites. pose proof (party_reach_inv _ _ _ Hr) as I. fold N in I. split; [|split; [|split; [|split]]].
  - destruct (party_progress (H := thoughts_of rnd symp) N bites p I) as [?|[a [o Ha]]]; [by left|right]. by exists a, o.
  - intros a o Ha. destruct (party_turn_ok (H := thoughts_of rnd symp) N bites a p I o Ha) as [(p' & ? & _ & ?)|?]; [left; by exists p'|by right].
  - intros Hn i j Hi Hp. apply (thinking_traps rnd symp p i j Hr Hn Hi). by left.
  - intros p0 E. by eapply party_start_left.
  - intros Hh i x q Hx Hq. destruct I as [_ _ I3 I4 _]. rewrite Hh in I4. apply no_children in I4.
    rewrite Forall_lookup in I4. specialize (I4 _ _ Hx). specialize (I3 _ _ _ Hx Hq). destruct x; naive_solver.
Qed.

(** A run: the moves that cannot be made are skipped. *)
Definition party_moves (rnd : nat -> Z) (symp : symposium_t) (l : list move) (p : party) : party :=
  foldl (fun p a => match turn_of rnd symp a p with Some (Ret p') => p' | _ => p end) p l.

Lemma party_moves_reachable rnd symp p0 l : party_start sizeof_symposium_t symp = Ret p0 ->
  party_reachable rnd symp (party_moves rnd symp l p0).
Proof.
  intros E. exists p0. split; [done|]. unfold party_moves. induction l as [|a l IH] using rev_ind; [apply reach_refl|].
  rewrite foldl_snoc. destruct (turn_of _ _ a _) as [[p'|]|] eqn:Ea; [|done..]. eapply reach_step; [exact IH|]. by econstructor.
Qed.

(** Three seats for one bite; the second philosopher is refused.  They think about numbers from 1 to 3. *)
Definition dinner : symposium_t := mkSymposium 3 1 1 3.
Definition dinner_start : party := mkParty (symp_start 3) (replicate 3 Vacant) (Inviting 0) false.
Definition dinner_moves : list move :=
  [HostMove true 0; GuestMove 0; GuestMove 0; HostMove false 0; HostMove true 0; HostMove true 0; GuestMove 2; GuestMove 2;
   GuestMove 0; GuestMove 0; GuestMove 2; GuestMove 2;
   HostMove true 0; GuestMove 0; GuestMove 0; GuestMove 2; GuestMove 2; GuestMove 2; GuestMove 0; GuestMove 0; GuestMove 2; HostMove true 0;
   GuestMove 2; GuestMove 2; HostMove true 2; HostMove true 0; HostMove true 0; HostMove true 0].

Definition dice (k : nat) : Z := Z.of_nat (3 * k + 1).

Example dinner_ends : let p := party_moves dice dinner dinner_moves dinner_start in
  host p = Returned /\ seats p = [Reaped; Vacant; Reaped] /\ places (feast p) = [Gone; Arriving; Gone] /\ drawn (feast p) = 4 /\
  concat (print_text 3 <$> take 4 (printed (table (feast p)))) =
    str "[T] .  .      0 has arrived" ++ [10%Z] ++ str " T  . [T]     2 has arrived" ++ [10%Z] ++
    str "[E] .  T      0 is eating" ++ [10%Z] ++ str " E  . [H]     2 waits hungry" ++ [10%Z].
Proof. repeat split; reflexivity. Qed.

Definition before_thinking : list move := [HostMove true 0; GuestMove 0; GuestMove 0].
Definition dull_dinner : symposium_t := mkSymposium 3 1 1 0.

Lemma symposium_ends_witness :
  (exists a o, turn_of dice dinner a (party_moves dice dinner (take 8 dinner_moves) dinner_start) = Some o) /\
  turn_of dice dull_dinner (GuestMove 0) (party_moves dice dull_dinner before_thinking dinner_start) = Some (Err Fatal).
Proof.
  split.
  - destruct (symposium_ends dice dinner _ (party_moves_reachable dice dinner dinner_start (take 8 dinner_moves) eq_refl)) as [[E|?] _]; [|assumption].
    vm_compute in E. discriminate.
  - apply (symposium_ends dice dull_dinner _ (party_moves_reachable dice dull_dinner dinner_start before_thinking eq_refl)) with (j := 0);
      vm_compute; reflexivity.
Defined.

(** What is drawn lies between the bounds. *)
Theorem fiborand_range rnd fmin fmax : (0 <= rnd)%Z -> (- 2 ^ 31 <= fmin <= fmax)%Z -> (fmax < 2 ^ 31)%Z ->
  (fmax - fmin < 2 ^ 31 - 1)%Z -> exists n, fiborand rnd fmin fmax = Some n /\ (fmin <= n <= fmax)%Z.
Proof.
  intros Hr Hmin Hmax Hd. unfold fiborand. rewrite (s32_small (fmax - fmin)), (s32_small (fmax - fmin + 1)) by lia.
  destruct (decide _); [lia|]. pose proof (Z.rem_bound_pos rnd (fmax - fmin + 1) Hr ltac:(lia)).
  rewrite s32_small by lia. eexists. split; [done|]. lia.
Qed.

Lemma fiborand_range_witness : exists n, fiborand 12345 20 30 = Some n /\ (20 <= n <= 30)%Z.
Proof. apply (fiborand_range 12345 20 30); vm_compute; (congruence || (split; congruence)). Defined.

(** The arguments of the command are not checked: a gap of -11 makes the number of choices zero. *)
Lemma no_gap_traps log_phi junk rnd argv : (-1000 <= log_phi (s32 (s32 (2 * getint 1 argv) * getint 2 argv)) <= 1000)%Z ->
  length argv = 5 -> getint 3 argv = 0%Z -> getint 4 argv = (-11)%Z ->
  let symp := symp_argproc log_phi junk argv in think rnd (sy_fmin symp) (sy_fmax symp) = None.
Proof.
  intros Hlog Hl H3 H4. unfold symp_argproc, adjust_symposium, think, fiborand. 
  rewrite (decide_True (P := 4 <= length argv)), (decide_True (P := 5 <= length argv)), H3, H4 by lia.
  cbn [sy_N sy_bites sy_fmin sy_fmax]. set (x := log_phi _) in *. clearbody x. unfold FBASE, FGAP.
  rewrite (s32_small (35 + 0)), (s32_small (35 + 0 - x)), (s32_small (35 + 0 - x + 10)), (s32_small (35 + 0 - x + 10 + -11)),
    (s32_small (35 + 0 - x + 10 + -11 - (35 + 0 - x))) by lia.
  by rewrite decide_True by (rewrite s32_small; lia).
Qed.

(** A negative number of philosophers stops the machine, and with it every process. *)
Lemma negative_party symp : (sy_N symp < 0)%Z -> party_start sizeof_symposium_t symp = Err Fatal.
Proof. intros H. unfold party_start. by rewrite decide_True. Qed.
