(* ===== verification/Shell.v ===== *)
(** * The shell (tinyos_shell.c, tinyoslib.c)

  The table of commands, the programs that execute others, command lines and their pipelines, the shell and the
  initial task that starts one on every terminal.  [text] gives the program at an address of the code: the
  programs execute each other through it.  The server of remote executions is in [Remote], the process that runs a
  symposium in [Party]; at the addresses of these programs [text] has nothing. *)

From Stdlib Require Import String Ascii.
From S2P Require Import Prelude Rlist Iface Sched SchedInv SchedSys Instances Kernel Dev Streams Proc Boot Sys Prog Argv Utilities.

#[local] Open Scope Z_scope.

(** ** Standard streams *)

(** A stream of the C library: one of the host, or on a file id. *)
Inductive stream := HostStream (n : nat) | FidStream (fid : Z).

Record stdio := mkStdio { stdin : stream; stdout : stream; saved_in : option stream; saved_out : option stream }.

Definition tinyos_replace_stdio (t : stdio) : outcome stdio :=
  _ ← c_assert (bool_decide (is_Some (saved_in t) -> False));
  _ ← c_assert (bool_decide (is_Some (saved_out t) -> False));
  Ret (mkStdio (FidStream 0) (FidStream 1) (Some (stdin t)) (Some (stdout t))).

Definition tinyos_restore_stdio (t : stdio) : outcome stdio :=
  match saved_out t with
  | None => Ret t
  | Some out => inp ← deref (saved_in t); Ret (mkStdio inp out None None)
  end.

Lemma stdio_roundtrip t t' : tinyos_replace_stdio t = Ret t' -> tinyos_restore_stdio t' = Ret t.
Proof.
  destruct t as [i o [si|] [so|]]; unfold tinyos_replace_stdio; simpl; intros; inv_ret; try done;
    exfalso; match goal with H : bool_decide _ = true |- _ => apply bool_decide_eq_true in H; apply H; by eexists end.
Qed.

(** ** Commands *)

Record command := mkCommand { cmdname : string; nargs : nat; help : string }.

Definition COMMANDS : list command := [
  mkCommand "help" 0 "A help message.";
  mkCommand "ls" 0 "List available programs programs.";
  mkCommand "sysinfo" 0 "Print some basic info about the current system.";
  mkCommand "runterm" 2 "runterm <term> <prog>  <args...> : execute '<prog> <args...>' on terminal <term>.";
  mkCommand "sh" 0 "Run a shell.";
  mkCommand "repeat" 2 "repeat <n> <prog> <args...>: execute '<prog> <args...>' <n> times.";
  mkCommand "fibo" 1 "Compute a fibonacci number.";
  mkCommand "cap" 0 "Copy stdin to stdout, capitalizing all letters";
  mkCommand "lcase" 0 "Copy stdin to stdout, lower-casing all letters";
  mkCommand "wc" 0 "Count and print lines, words and chars of stdin";
  mkCommand "lenum" 0 "Copy stdin to stdout, adding line numbers";
  mkCommand "more" 0 "more [<n>] (default: <n>=20). Read the input <n> lines at a time.";
  mkCommand "symposium" 2 "Dining Philosophers(processes): symposium  <philosophers> <bites>";
  mkCommand "symp_thr" 2 "Dining Philosophers(threads): symp_thr  <philosophers> <bites>";
  mkCommand "hanoi" 1 "The towers of Hanoi.";
  mkCommand "rserver" 0 "A server for remote execution.";
  mkCommand "rcli" 1 "Remote client: rcli <cmd> [<args...>].";
  mkCommand "echo" 0 "echo [<args...>], send the <args...> to stdout"
]%string.

(** The entry that ends the table is counted. *)
Definition programs : nat := length COMMANDS + 1.

Fixpoint find_command (cs : list command) (name : bytes) (c : nat) : option nat :=
  match cs with
  | [] => None
  | x :: cs => if decide (str (cmdname x) = name) then Some c else find_command cs name (c + 1)
  end.

Definition getprog_byname (name : bytes) : option nat := find_command COMMANDS name 0.

(** The address of the program of a command. *)
Definition address (c : nat) : Z := 4096 + Z.of_nat c.

Section shell.
Context {U : Type} (text : Z -> option (list bytes -> prog U)).
(** What a [pipe_t] and an [int] hold that nobody initialised. *)
Context (pipe0 : Z * Z) (junk : Z).
Implicit Types (argv : list bytes).

Definition getprog (n : nat) argv : option nat := getprog_byname (default [] (argv !! n)).

Definition Execute_command (c : nat) argv : stmt U Z := Execute text (address c) argv.

Definition ListPrograms : Program := program_of (U := U) (fun argv =>
  _ ← printf (str "no.  Command         no.of.args   help " ++ [10]);
  _ ← printf (str "---------------------------------------------------" ++ [10]);
  _ ← for_each (imap (fun c x => (Z.of_nat c, x)) COMMANDS) (fun '(c, x) =>
        printf (pad 3 (decimal c) ++ str "  " ++ (str (cmdname x) ++ replicate (20 - length (str (cmdname x))) 32) ++ [32] ++
                pad 2 (decimal (Z.of_nat (nargs x))) ++ str "   " ++ str (help x) ++ [10]));
  mret 0).

(** The fields of a [procinfo] that was read as bytes: [pid], [ppid], [alive], [thread_count], [main_task], [argl] and
  [args], as the compiler lays them out. *)
Definition sizeof_procinfo : nat := 168.
Definition field (off n : nat) (info : bytes) : Z := of_le (take n (drop off info)).

Definition read_procinfo (wrapper : Z) (info : bytes) : procinfo :=
  mkProcinfo (bool_decide (field 24 8 info = wrapper)) (s32 (field 32 4 info)) (take PROCINFO_MAX_ARGS_SIZE (drop 36 info)).

(** A line of [sysinfo]; [wrapper] is the address of [exec_wrapper]. *)
Definition info_line (wrapper : Z) (info : bytes) : outcome bytes :=
  let pi := read_procinfo wrapper info in
  '(argc, argv) ← ParseProcInfo pi (Some 10%nat);
  let pid := s32 (field 0 4 info) in
  pname ← (if decide (1 <= argc) then arg ← deref (argv !! 0%nat); deref (string_at (pi_args pi) arg)
           else if decide (argc = -1 /\ pid = 1) then Ret (str "init") else Ret (str "-"));
  Ret (pad 5 (decimal pid) ++ [32] ++ pad 5 (decimal (s32 (field 4 4 info))) ++ [32] ++
       pad 6 (if decide (field 8 4 info = 0) then str "ZOMBIE" else str "ALIVE") ++ [32] ++
       pad 8 (decimal (u32 (field 16 8 info))) ++ [32] ++ pad 20 pname ++ [10]).

Fixpoint info_loop (fuel : nat) (finfo wrapper : Z) : stmt U unit :=
  match fuel with
  | O => out_of_fuel
  | Datatypes.S fuel =>
      r ← issue (Read finfo sizeof_procinfo);
      if decide (0 < ret r) then
        match info_line wrapper (data r) with
        | Ret line => _ ← printf line; info_loop fuel finfo wrapper
        | Err _ => trap
        end
      else mret tt
  end.

(** On a machine with these cores and serial ports. *)
Definition SystemInfo (cores serials : nat) (wrapper : Z) (fuel : nat) : Program := program_of (U := U) (fun argv =>
  _ ← printf (str "Number of cores         = " ++ decimal (Z.of_nat cores) ++ [10]);
  _ ← printf (str "Number of serial devices= " ++ decimal (Z.of_nat serials) ++ [10]);
  finfo ← sc OpenInfo;
  _ ← (if decide (finfo <> NOFILE) then
         _ ← printf (str "  PID  PPID  State  Threads         Main program" ++ [10]);
         info_loop fuel finfo wrapper
       else mret tt);
  _ ← printf [10];
  mret 0).

Definition HelpMessage : Program := program_of (U := U) (fun argv =>
  _ ← printf (str "This is a simple shell for tinyos." ++ [10; 10] ++
              str "You can run some simple commands. Every command takes a" ++ [10] ++
              str "only **integer** arguments. The list of commands and the" ++ [10] ++
              str "number of arguments for each command is shown by" ++ [10] ++
              str "typing 'ls'. " ++ [10; 10] ++
              str "When you are tired of playing, type 'exit' to quit." ++ [10]);
  mret 0).

(** [while(times--)]: a negative number of times counts down through the whole range of [int]. *)
Definition Repeat : Program := program_of (fun argv => checkargs 2 argv (
  let times := getint 1 argv in
  match getprog 2 argv with
  | None => _ ← printf (str "Program not found. See 'ls' for program names." ++ [10]); mret (-1)
  | Some prog =>
      _ ← (if decide (times < 0) then printf (str "Cannot execute a negative number of times!" ++ [10]) else mret tt);
      _ ← for_upto (Z.to_nat (u32 times)) (fun _ =>
            _ ← Execute_command prog (drop 2 argv);
            _ ← sc (WaitChild NOPROC);
            mret tt);
      mret 0
  end)).

Definition RunTerm : Program := program_of (fun argv => checkargs 2 argv (
  let term := getint 1 argv in
  bad ← (if decide (term < 0) then mret true else n ← sc GetTerminalDevices; mret (bool_decide (u32 n <= u32 term)));
  if (bad : bool) then
    _ ← printf (str "The terminal provided is not valid: " ++ decimal term ++ [10]); mret 1
  else
    match getprog 2 argv with
    | None => _ ← printf (str "The program provided is not valid: " ++ default [] (argv !! 2%nat) ++ [10]); mret 2
    | Some prog =>
        termfid ← sc (OpenTerminal (Z.to_nat term));
        _ ← (if decide (termfid <> 0) then _ ← sc (Dup2 termfid 0); _ ← sc (Close termfid); mret tt else mret tt);
        _ ← sc (Dup2 0 1);
        Execute_command prog (drop 2 argv)
    end)).

(** ** Remote execution *)

(** Are [len] bytes received?  [fuel] is [len]: every round receives a byte or is the last. *)
Fixpoint recv_message (fuel : nat) (sock : Z) (len : nat) (buf : bytes) : stmt U (bool * bytes) :=
  if decide (length buf < len)%nat then
    match fuel with
    | O => out_of_fuel
    | Datatypes.S fuel =>
        r ← issue (Read sock (len - length buf));
        if decide (ret r < 1) then mret (false, buf) else recv_message fuel sock len (buf ++ data r)
    end
  else mret (bool_decide (length buf = len), buf).

Fixpoint send_loop (fuel : nat) (sock : Z) (buf : bytes) (count : nat) : stmt U nat :=
  if decide (count < length buf)%nat then
    match fuel with
    | O => out_of_fuel
    | Datatypes.S fuel =>
        rc ← sc (Write sock (drop count buf) (length buf - count));
        if decide (rc < 1) then mret count else send_loop fuel sock buf (count + Z.to_nat rc)
    end
  else mret count.

Definition send_message (sock : Z) (buf : bytes) : stmt U unit :=
  count ← send_loop (length buf) sock buf 0;
  if decide (count <> length buf) then
    _ ← printf (str "In client: I/O error writing " ++ decimal (Z.of_nat (length buf)) ++ str " bytes (" ++ decimal (Z.of_nat count) ++ str " written)" ++ [10]);
    _ ← sc (Exit 1);
    mret tt
  else mret tt.

Definition rsrv_process : Program := program_of (fun argv => checkargs 2 argv (
  let sock := getint 1 argv in
  if decide (sock = 0 \/ sock = 1) then trap
  else
    _ ← sc (Dup2 sock 0);
    _ ← sc (Dup2 sock 1);
    _ ← sc (Close sock);
    match getprog 2 argv with
    | None => _ ← printf (str "Error in remote process: Command " ++ default [] (argv !! 2%nat) ++ str " is not found" ++ [10]); mret (-1)
    | Some c =>
        pid ← Execute_command c (drop 2 argv);
        r ← issue (WaitChild pid);
        mret (default junk (status r))
    end)).

Definition REMOTE_SERVER_DEFAULT_PORT : Z := 20.
Definition NOPORT : Z := 0.
Definition SHUTDOWN_WRITE : Z := 2.

Definition copy_body (_ : unit) (c : Z) : unit * bytes := (tt, [c]).

Definition RemoteClient (fuel : nat) : Program := program_of (fun argv => checkargs 1 argv (
  sock ← sc (Socket NOPORT);
  r ← sc (Connect sock REMOTE_SERVER_DEFAULT_PORT 1000);
  if decide (r = -1) then _ ← printf (str "Could not connect to the server" ++ [10]); mret (-1)
  else if decide (sock = NOFILE) then trap
  else
    let argl := argvlen (drop 1 argv) in
    match argvpack 0 (replicate argl 0) (drop 1 argv) with
    | Err _ => trap
    | Ret (_, args) =>
        _ ← send_message sock (to_le 4 (Z.of_nat argl));
        _ ← send_message sock args;
        _ ← sc (ShutDown sock SHUTDOWN_WRITE);
        _ ← filter_loop fuel sock 1 copy_body tt;
        mret 0
    end)).

(** ** Command lines *)

(** Is the command line a command of the shell itself? *)
Definition process_builtin argv : stmt U bool :=
  if decide (argv !! 0%nat = Some (str "?")) then _ ← printf (str "Type 'help' for help, 'exit' to quit." ++ [10]); mret true else mret false.

Definition savefid (fsaved : Z) : stmt U Z :=
  savior ← sc OpenNull;
  if decide (savior = NOFILE) then trap else _ ← sc (Dup2 fsaved savior); mret savior.

Definition bar : bytes := str "|".

(** The fragments of a pipeline.  [Vargc] has [argc] entries, and a line of bars only needs one more. *)
Fixpoint split_loop (argc frag : nat) (cur : list bytes) argv : outcome (list (list bytes)) :=
  match argv with
  | [] => Ret [cur]
  | a :: argv =>
      if decide (a = bar) then
        _ ← (if decide (frag + 1 < argc)%nat then Ret tt else Err BadAccess);
        frags ← split_loop argc (frag + 1) [] argv;
        Ret (cur :: frags)
      else split_loop argc frag (cur ++ [a]) argv
  end.

Definition split_pipeline argv : outcome (list (list bytes)) := split_loop (length argv) 0 [] argv.

(** No fragment is empty and each has a program: the indices of the programs, or the message. *)
Fixpoint check_fragments (frags : list (list bytes)) : list nat + bytes :=
  match frags with
  | [] => inl []
  | frag :: frags =>
      match frag with
      | [] => inr (str "Error: a pipeline fragment was empty." ++ [10])
      | name :: _ =>
          match getprog_byname name with
          | None => inr (str "Command not found: '" ++ name ++ str "'" ++ [10])
          | Some c => match check_fragments frags with inl cs => inl (c :: cs) | inr m => inr m end
          end
      end
  end.

(** The children of the pipeline, one for each fragment; the last has the saved streams. *)
Fixpoint start_children (savein saveout : Z) (frags : list (list bytes)) (comd : list nat) : stmt U (list Z) :=
  match frags, comd with
  | frag :: frags, c :: comd =>
      let last := match frags with [] => true | _ => false end in
      _ ← (if last then _ ← sc (Dup2 saveout 1); _ ← sc (Close saveout); mret tt
           else _ ← sc Pipe; _ ← sc (Dup2 pipe0.2 1); _ ← sc (Close pipe0.2); mret tt);
      child ← Execute_command c frag;
      _ ← (if last then _ ← sc (Dup2 savein 0); _ ← sc (Close savein); mret tt
           else _ ← sc (Dup2 pipe0.1 0); _ ← sc (Close pipe0.1); mret tt);
      children ← start_children savein saveout frags comd;
      mret (child :: children)
  | _, _ => mret []
  end.

Definition wait_children (frags : list (list bytes)) (children : list Z) : stmt U unit :=
  for_each (zip frags children) (fun '(frag, pid) =>
    r ← issue (WaitChild pid);
    let exitval := default junk (status r) in
    if decide (exitval <> 0) then printf (default [] (frag !! 0%nat) ++ str " exited with status " ++ decimal exitval ++ [10]) else mret tt).

Definition process_line argv : stmt U Z :=
  match split_pipeline argv with
  | Err _ => trap
  | Ret frags =>
      match check_fragments frags with
      | inr message => _ ← printf message; mret 0
      | inl comd =>
          savein ← savefid 0;
          saveout ← savefid 1;
          children ← start_children savein saveout frags comd;
          _ ← wait_children frags children;
          mret 1
      end
  end.

(** ** The shell *)

Definition ARGN : nat := 128.

Definition is_separator (c : Z) : bool := bool_decide (c = 32 \/ c = 10 \/ c = 9).

Definition break_up (cmdline : bytes) : list bytes := take (ARGN - 1) (strtok is_separator cmdline []).

(** [old] is what the buffer of the line breaks up into when [getline] fails and does not change it: the first
  word of the last line, or nothing when there is no buffer yet.  [fuel] bounds the lines and their lengths. *)
Fixpoint shell_loop (fuel : nat) (old : option (list bytes)) : stmt U Z :=
  match fuel with
  | O => out_of_fuel
  | Datatypes.S fuel =>
      _ ← fputs 1 (str "% ");
      rc ← getline fuel 0 [];
      let words := match rc with GLine l => Some (break_up l) | GLEof => None | GLErr => old end in
      match rc, words with
      | GLEof, _ => _ ← fputs 1 (str "Exiting" ++ [10]); mret 0
      | _, None => trap
      | _, Some argv =>
          let old := Some (take 1 argv) in
          match argv with
          | [] => shell_loop fuel old
          | name :: _ =>
              if decide (name = str "exit") then mret (if decide (2 <= length argv)%nat then getint 1 argv else 0)
              else
                b ← process_builtin argv;
                if (b : bool) then shell_loop fuel old
                else _ ← process_line argv; shell_loop fuel old
          end
      end
  end.

Definition Shell (fuel : nat) : Program := program_of (fun argv =>
  _ ← fputs 1 (str "Starting tinyos shell" ++ [10] ++ str "Type 'help' for help, 'exit' to quit." ++ [10]);
  shell_loop fuel None).

(** ** The initial task

  [while(WaitChild(NOPROC, NULL)!=NOPROC)] *)
Fixpoint wait_all (fuel : nat) : stmt U unit :=
  match fuel with
  | O => out_of_fuel
  | Datatypes.S fuel => r ← sc (WaitChild NOPROC); if decide (r <> NOPROC) then wait_all fuel else mret tt
  end.

(** A terminal on the two standard file ids. *)
Definition open_as (i : nat) (fid : Z) : stmt U unit :=
  fd ← sc (OpenTerminal i);
  if decide (fd <> fid) then _ ← sc (Dup2 fd fid); _ ← sc (Close fd); mret tt else mret tt.

(** With terminals; without them the shell runs on the pseudo console. *)
Definition boot_shell (fuel : nat) : Task U := fun argl args => returns_int (
  n ← sc GetTerminalDevices;
  if decide (n <= 0) then trap
  else
    match getprog_byname (str "sh") with
    | None => trap
    | Some shprog =>
        _ ← for_upto (Z.to_nat n) (fun i =>
              _ ← open_as i 0;
              _ ← open_as i 1;
              _ ← Execute_command shprog [str "sh"];
              _ ← sc (Close 0);
              mret tt);
        _ ← wait_all fuel;
        mret 0
    end).
End shell.

(** ** The code

  The program of a command; the programs that it executes are found with less fuel. *)
Section code.
Context {U : Type} (pipe0 : Z * Z) (junk : Z) (cores serials : nat) (wrapper : Z).

Fixpoint program_text (depth fuel : nat) (a : Z) : option (list bytes -> prog U) :=
  match depth with
  | O => None
  | Datatypes.S depth =>
      let text := program_text depth fuel in
      x ← COMMANDS !! Z.to_nat (a - 4096);
      let name := cmdname x in
      if decide (name = "help"%string) then Some HelpMessage
      else if decide (name = "ls"%string) then Some ListPrograms
      else if decide (name = "sysinfo"%string) then Some (SystemInfo cores serials wrapper fuel)
      else if decide (name = "runterm"%string) then Some (RunTerm text)
      else if decide (name = "sh"%string) then Some (Shell text pipe0 junk fuel)
      else if decide (name = "repeat"%string) then Some (Repeat text)
      else if decide (name = "fibo"%string) then Some Fibonacci
      else if decide (name = "cap"%string) then Some (Capitalize fuel)
      else if decide (name = "lcase"%string) then Some (LowerCase fuel)
      else if decide (name = "wc"%string) then Some (WordCount fuel)
      else if decide (name = "lenum"%string) then Some (LineEnum fuel)
      else if decide (name = "more"%string) then Some (More fuel)
      else if decide (name = "hanoi"%string) then Some Hanoi
      else if decide (name = "rcli"%string) then Some (RemoteClient fuel)
      else if decide (name = "echo"%string) then Some Echo
      else None
  end.
End code.

(** ** Properties *)

(** The command line that has the given fragments. *)
Fixpoint join_fragments (frags : list (list bytes)) : list bytes :=
  match frags with
  | [] => []
  | [frag] => frag
  | frag :: frags => frag ++ bar :: join_fragments frags
  end.

Lemma join_cons frag frags : frags <> [] -> join_fragments (frag :: frags) = frag ++ bar :: join_fragments frags.
Proof. by destruct frags. Qed.

Definition bars (argv : list bytes) : nat := length (filter (fun a => a = bar) argv).

Lemma bars_cons a argv : bars (a :: argv) = if decide (a = bar) then Datatypes.S (bars argv) else bars argv.
Proof. unfold bars. rewrite filter_cons. by destruct (decide (a = bar)). Qed.

Lemma split_loop_ok argc frag cur argv : bar ∉ cur ->
  if decide (frag + bars argv < argc \/ bars argv = 0)%nat
  then exists frags, split_loop argc frag cur argv = Ret frags /\ frags <> [] /\ join_fragments frags = cur ++ argv /\
    length frags = Datatypes.S (bars argv) /\ Forall (fun f => bar ∉ f) frags
  else split_loop argc frag cur argv = Err BadAccess.
Proof.
  revert frag cur. induction argv as [|a argv IH]; intros frag cur Hcur.
  - rewrite decide_True by (by right). exists [cur]. simpl. rewrite app_nil_r. repeat split; try done. by constructor.
  - rewrite bars_cons. cbn [split_loop]. destruct (decide (a = bar)) as [->|Ha].
    + specialize (IH (frag + 1)%nat [] ltac:(set_solver)). destruct (decide (frag + 1 < argc)%nat) as [Hf|Hf].
      * cbn [mbind outcome_bind]. destruct (decide (frag + 1 + bars argv < argc \/ bars argv = 0)%nat) as [Hc|Hc].
        -- rewrite decide_True by lia. destruct IH as (frags & E & Hne & Hj & Hl & Hb). exists (cur :: frags). rewrite E, join_cons, Hj by done.
           simpl. rewrite Hl. repeat split; try done. by constructor.
        -- rewrite decide_False by lia. by rewrite IH.
      * by rewrite decide_False by lia.
    + specialize (IH frag (cur ++ [a])). rewrite <- app_assoc in IH. apply IH. set_solver.
Qed.

Lemma bars_length argv : (bars argv <= length argv)%nat /\ (bars argv = length argv <-> Forall (fun a => a = bar) argv).
Proof.
  induction argv as [|a argv [IH1 IH2]]; [done|]. rewrite bars_cons, Forall_cons. simpl.
  destruct (decide (a = bar)); (split; [lia|]); [rewrite <- IH2; naive_solver lia|]. split; [lia|tauto].
Qed.

(** C16.  A command line is split into the fragments of its pipeline: joined by bars they give the line back, none of
  them holds a bar, and there is one more of them than there are bars; but a line of bars only makes the shell
  write past the end of its array. *)
Theorem pipeline_split argv : argv <> [] ->
  if decide (Forall (fun a => a = bar) argv) then split_pipeline argv = Err BadAccess
  else exists frags, split_pipeline argv = Ret frags /\ join_fragments frags = argv /\
    length frags = Datatypes.S (bars argv) /\ Forall (fun f => bar ∉ f) frags.
Proof.
  intros Hne. destruct (bars_length argv) as [Hle Hiff]. pose proof (split_loop_ok (length argv) 0 [] argv ltac:(set_solver)) as Hs.
  assert (length argv <> 0)%nat by (by destruct argv). destruct (decide (Forall _ argv)) as [Hall|Hall].
  - apply Hiff in Hall. rewrite decide_False in Hs by lia. done.
  - rewrite decide_True in Hs by (rewrite <- Hiff in Hall; lia). destruct Hs as (frags & E & _ & Hj & Hl & Hb). by exists frags.
Qed.

Lemma pipeline_split_witness : split_pipeline [str "ls"; bar; str "wc"] = Ret [[str "ls"]; [str "wc"]].
Proof.
  pose proof (pipeline_split [str "ls"; bar; str "wc"] ltac:(discriminate)) as E. rewrite decide_False in E.
  - destruct E as (frags & E & _). rewrite E. revert E. vm_compute. intros [= <-]. reflexivity.
  - intros Hall. apply Forall_cons in Hall as [Hb _]. revert Hb. vm_compute. discriminate.
Defined.

(** ** A session

  The machine boots with one terminal, at which somebody types. *)
#[local] Instance wake_in_shell : WakeOps tid (Sched.sched Z) := sched_wake 0.

Definition line (s : string) : bytes := str s ++ [10].

Definition session (typed : bytes) : outcome (list bytes * bool) :=
  let text := program_text (U := unit) (5, 6) 0 1 1 4096 4 200 in
  s ← (Sys.boot initialize_scheduler 16 16 (boot_shell text 200) 0 None (mkSched ∅ ∅ ∅ 0 ∅ 0) [mkTty typed []] tt
       : outcome (sys unit tid (Sched.sched Z) ttys));
  s ← run (fun _ : tid => 1) 5000 16 s;
  Ret (screen <$> (ports (kern s) : list tty), bool_decide (threads s = ∅)).

(** The system as a whole: it boots with a terminal, the shell reads the commands that are typed and executes
  their programs as processes, which print on the terminal, reports their exit statuses, and after [exit] every
  process is gone and the machine halts. *)
Theorem shell_session :
  session (line "echo hi" ++ line "hanoi 2" ++ line "repeat 2 fibo 10" ++ line "nosuch" ++ line "?" ++ line "sysinfo" ++ line "hanoi 99" ++ line "exit") =
  Ret ([line "Starting tinyos shell" ++ line "Type 'help' for help, 'exit' to quit." ++
        line "% hi" ++
        line "% We shall move 2 disks from tile 1 to tile 2 via tile 3." ++
        line "Move the top disk from tile  1 to tile  3" ++
        line "Move the top disk from tile  1 to tile  2" ++
        line "Move the top disk from tile  3 to tile  2" ++
        line "% Fibonacci(10)=55" ++ line "Fibonacci(10)=55" ++
        line "% Command not found: 'nosuch'" ++
        line "% Type 'help' for help, 'exit' to quit." ++
        line "% Number of cores         = 1" ++ line "Number of serial devices= 1" ++ line "" ++
        line "% The argument must be between 1 and 15." ++
        line "hanoi exited with status 99" ++
        str "% "], true).
Proof. vm_compute; reflexivity. Qed.
