(* ===== verification/Terminal.v ===== *)
(** * The terminal emulator (terminal.c)

  A program of the host that copies bytes from its standard input to the pipe of the keyboard, and from the pipe
  of the console to its standard output.  A file is polled as long as it is not known to be ready; a negative
  descriptor is not polled.  What [poll] answers is an argument of the loop. *)

From S2P Require Import Prelude.

(** ** The polling array *)

(** An entry of [fds] with its entries of [state] and [errst]. *)
Record pfd := mkPfd { fd : Z; ready : bool; err : bool }.

(** [flip(i)]: the negative of a descriptor, which is flipped back by another [flip]. *)
Definition flip (p : pfd) : pfd := mkPfd (- fd p - 1) (ready p) (err p).
Definition polled (p : pfd) : bool := bool_decide (0 <= fd p)%Z.

(** Standard input and output, and the pipes of the keyboard and of the console. *)
Record fdset := mkFds { IN : pfd; OUT : pfd; KBD : pfd; CON : pfd }.

(** What [poll] says of a file: the event that was asked for, and [POLLERR|POLLHUP]. *)
Record revents := mkRev { r_ready : bool; r_err : bool }.
Record answers := mkAnswers { a_in : revents; a_out : revents; a_kbd : revents; a_con : revents }.

(** The body of the loop that updates the indicators. *)
Definition update (r : revents) (p : pfd) : pfd :=
  if polled p then
    let p := mkPfd (fd p) (r_ready r) (err p) in
    let p := if ready p then flip p else p in
    mkPfd (fd p) (ready p) (r_err r)
  else p.

Definition update_all (a : answers) (f : fdset) : fdset :=
  mkFds (update (a_in a) (IN f)) (update (a_out a) (OUT f)) (update (a_kbd a) (KBD f)) (update (a_con a) (CON f)).

(** ** The files

  What can be read of the two inputs and whether they have been closed, what was written, and whether the machine
  still reads its keyboard. *)
Record files := mkFiles {
  f_stdin : list Z; stdin_closed : bool; f_kbd : list Z; kbd_open : bool;
  f_con : list Z; con_closed : bool; f_stdout : list Z
}.

(** [read(fd, &buf, 1)] of an input: [None] when it has ended; a read that would block is [Stalled]. *)
Definition read_byte (input : list Z) (closed : bool) : outcome (option Z * list Z) :=
  match input with
  | c :: input => Ret (Some c, input)
  | [] => if closed then Ret (None, []) else Err Stalled
  end.

(** [if(rc==1) rc=write(tofd, &buf, 1)]: the signal of a pipe that nobody reads kills the program. *)
Definition write_byte (o : option Z) (reader : bool) (output : list Z) : outcome (list Z) :=
  match o with
  | Some c => if reader then Ret (output ++ [c]) else Err Fatal
  | None => Ret output
  end.

(** [transfer_byte(0, 2, 0, kbdfd)] and [transfer_byte(3, 1, confd, 1)]. *)
Definition transfer_kbd (f : fdset) (w : files) : outcome (fdset * files) :=
  '(o, input) ← read_byte (f_stdin w) (stdin_closed w);
  output ← write_byte o (kbd_open w) (f_kbd w);
  Ret (mkFds (flip (IN f)) (OUT f) (flip (KBD f)) (CON f),
       mkFiles input (stdin_closed w) output (kbd_open w) (f_con w) (con_closed w) (f_stdout w)).

Definition transfer_con (f : fdset) (w : files) : outcome (fdset * files) :=
  '(o, input) ← read_byte (f_con w) (con_closed w);
  output ← write_byte o true (f_stdout w);
  Ret (mkFds (IN f) (flip (OUT f)) (KBD f) (flip (CON f)),
       mkFiles (f_stdin w) (stdin_closed w) (f_kbd w) (kbd_open w) input (con_closed w) output).

(** A round of [io_loop]; the flag says that the loop goes on. *)
Definition io_round (a : answers) (f : fdset) (w : files) : outcome (bool * (fdset * files)) :=
  let f := update_all a f in
  let XKBD := ready (IN f) && ready (KBD f) in
  let XCON := ready (OUT f) && ready (CON f) in
  if negb XKBD && negb XCON && (err (KBD f) || err (CON f)) then Ret (false, (f, w))
  else
    '(f, w) ← (if XKBD then transfer_kbd f w else Ret (f, w));
    '(f, w) ← (if XCON then transfer_con f w else Ret (f, w));
    Ret (true, (f, w)).

(** The start of [io_loop]: the pipes are (re)opened. *)
Definition io_start (kbdfd confd : Z) (f : fdset) : fdset :=
  mkFds (IN f) (OUT f) (mkPfd kbdfd (ready (KBD f)) (err (KBD f))) (mkPfd confd (ready (CON f)) (err (CON f))).

Definition fds0 : fdset := mkFds (mkPfd 0 false false) (mkPfd 1 false false) (mkPfd 0 false false) (mkPfd 0 false false).

(** ** The terminal with its surroundings

  [typed] and [printed] are all the bytes that ever came in.  An answer of [poll] is right when an input that is
  said to be ready has a byte, or was closed. *)
Record emulator := mkTerm { running : bool; fdsets : fdset; world : files; typed : list Z; printed : list Z }.

Definition honest (a : answers) (w : files) : Prop :=
  (r_ready (a_in a) = true -> f_stdin w <> [] \/ stdin_closed w = true) /\
  (r_ready (a_con a) = true -> f_con w <> [] \/ con_closed w = true).

(** What happens around the terminal: somebody types, or closes standard input; the machine prints, or closes its
    console or its keyboard. *)
Inductive event := Type_byte (c : Z) | Close_stdin | Print_byte (c : Z) | Close_con | Close_kbd.

Definition happens (e : event) (t : emulator) : emulator :=
  let w := world t in
  match e with
  | Type_byte c =>
      if stdin_closed w then t
      else mkTerm (running t) (fdsets t) (mkFiles (f_stdin w ++ [c]) false (f_kbd w) (kbd_open w) (f_con w) (con_closed w) (f_stdout w)) (typed t ++ [c]) (printed t)
  | Close_stdin => mkTerm (running t) (fdsets t) (mkFiles (f_stdin w) true (f_kbd w) (kbd_open w) (f_con w) (con_closed w) (f_stdout w)) (typed t) (printed t)
  | Print_byte c =>
      if con_closed w then t
      else mkTerm (running t) (fdsets t) (mkFiles (f_stdin w) (stdin_closed w) (f_kbd w) (kbd_open w) (f_con w ++ [c]) false (f_stdout w)) (typed t) (printed t ++ [c])
  | Close_con => mkTerm (running t) (fdsets t) (mkFiles (f_stdin w) (stdin_closed w) (f_kbd w) (kbd_open w) (f_con w) true (f_stdout w)) (typed t) (printed t)
  | Close_kbd => mkTerm (running t) (fdsets t) (mkFiles (f_stdin w) (stdin_closed w) (f_kbd w) false (f_con w) (con_closed w) (f_stdout w)) (typed t) (printed t)
  end.

Inductive tstep (t : emulator) : emulator -> Prop :=
  | t_happens e : tstep t (happens e t)
  | t_round a b f w : running t = true -> honest a (world t) -> io_round a (fdsets t) (world t) = Ret (b, (f, w)) ->
      tstep t (mkTerm b f w (typed t) (printed t)).

Definition tstart (kbdfd confd : Z) : emulator := mkTerm true (io_start kbdfd confd fds0) (mkFiles [] false [] true [] false []) [] [].

(** ** The invariant *)

(** A file that is not polled is ready. *)
Definition quiet_ok (p : pfd) : Prop := ready p = bool_decide (fd p < 0)%Z.

(** Between rounds a file that is not polled is known to be ready. *)
Definition pfd_ok (p : pfd) : Prop := (fd p < 0)%Z -> ready p = true.

Definition input_ok (p : pfd) (input : list Z) (closed : bool) : Prop :=
  (fd p < 0)%Z -> input <> [] \/ closed = true.

(** Of the files, and of what was typed and printed so far. *)
Record rinv (f : fdset) (w : files) (kbd con : list Z) : Prop := {
  ri_in : pfd_ok (IN f); ri_out : pfd_ok (OUT f); ri_kbd : pfd_ok (KBD f); ri_con : pfd_ok (CON f);
  ri_stdin : input_ok (IN f) (f_stdin w) (stdin_closed w);
  ri_coninput : input_ok (CON f) (f_con w) (con_closed w);
  ri_typed : f_kbd w ++ f_stdin w = kbd;
  ri_printed : f_stdout w ++ f_con w = con
}.

Definition tinv (t : emulator) : Prop := rinv (fdsets t) (world t) (typed t) (printed t).

Definition all_idle (f : fdset) : Prop := quiet_ok (IN f) /\ quiet_ok (OUT f) /\ quiet_ok (KBD f) /\ quiet_ok (CON f).

Lemma flip_ok p : quiet_ok p -> ready p = true -> (0 <= fd (flip p))%Z.
Proof. unfold quiet_ok, flip. intros E Hr. rewrite Hr in E. symmetry in E. apply bool_decide_eq_true in E. cbn. lia. Qed.

(** After the update a file is ready exactly if it is not polled any more. *)
Lemma update_ok r p : pfd_ok p -> quiet_ok (update r p) /\ ((fd (update r p) < 0)%Z -> (fd p < 0)%Z \/ r_ready r = true).
Proof.
  unfold pfd_ok, quiet_ok, update, polled. intros Hp. case_bool_decide as Hfd; cbv zeta; cbn [ready fd].
  - destruct (r_ready r) eqn:Hr; cbn [ready fd flip].
    + split; [symmetry; apply bool_decide_eq_true_2; lia|auto].
    + split; [symmetry; apply bool_decide_eq_false_2; lia|auto].
  - split; [|by left]. rewrite Hp by lia. symmetry. apply bool_decide_eq_true_2. lia.
Qed.

Lemma idle_pfd p : quiet_ok p -> pfd_ok p.
Proof. unfold quiet_ok, pfd_ok. intros -> ?. by apply bool_decide_eq_true_2. Qed.

Hint Resolve idle_pfd : core.

Lemma input_ok_app p input closed c : input_ok p input closed -> input_ok p (input ++ [c]) false.
Proof. intros H Hp. left. by destruct input. Qed.

Lemma input_ok_closed p input : input_ok p input true.
Proof. intros _. by right. Qed.

Lemma happens_tinv e t : tinv t -> tinv (happens e t).
Proof.
  intros [I1 I2 I3 I4 Hin Hcon Ht Hp].
  destruct e as [c| |c| |]; cbn [happens]; cbv zeta; repeat case_match; try (split; assumption); split; cbn [fdsets world f_stdin stdin_closed f_kbd f_con con_closed f_stdout typed printed]; eauto using input_ok_app, input_ok_closed.
  - by rewrite H.
  - by rewrite app_assoc, Ht.
  - by rewrite H.
  - by rewrite app_assoc, Hp.
Qed.

(** *** Rounds *)

Lemma polled_pfd p : (0 <= fd p)%Z -> pfd_ok p.
Proof. unfold pfd_ok. lia. Qed.

Lemma polled_input p input closed : (0 <= fd p)%Z -> input_ok p input closed.
Proof. unfold input_ok. lia. Qed.

Hint Resolve polled_pfd polled_input flip_ok : core.

Lemma ready_not_polled p : quiet_ok p -> ready p = true -> (fd p < 0)%Z.
Proof. unfold quiet_ok. intros E Hr. rewrite Hr in E. symmetry in E. by apply bool_decide_eq_true in E. Qed.

Lemma update_input r p input closed :
  pfd_ok p -> input_ok p input closed -> (r_ready r = true -> input <> [] \/ closed = true) -> input_ok (update r p) input closed.
Proof. intros Hp Hi Hr Hfd. destruct (proj2 (update_ok r p Hp) Hfd); auto. Qed.

Lemma read_byte_ok input closed :
  input <> [] \/ closed = true -> exists o rest, read_byte input closed = Ret (o, rest).
Proof. destruct input; cbn; eauto. intros [|Hc]; [done|]. rewrite Hc. eauto. Qed.

(** What is read is what is written. *)
Lemma read_write input closed o rest reader output output' :
  read_byte input closed = Ret (o, rest) -> write_byte o reader output = Ret output' -> output' ++ rest = output ++ input.
Proof.
  unfold read_byte, write_byte. intros Hr Hw. repeat case_match; simplify_eq/=; try done; by rewrite <-app_assoc.
Qed.

Lemma update_all_rinv a f w kbd con : rinv f w kbd con -> honest a w -> rinv (update_all a f) w kbd con /\ all_idle (update_all a f).
Proof.
  intros [] [Hi Hc].
  assert (forall r p, pfd_ok p -> quiet_ok (update r p)) as Hu by (intros; by apply update_ok).
  split; [|by repeat split; apply Hu]. split; cbn [update_all IN OUT KBD CON]; eauto using update_input.
Qed.

Lemma transfer_kbd_rinv f w f' w' kbd con :
  rinv f w kbd con -> all_idle f -> ready (IN f) && ready (KBD f) = true -> transfer_kbd f w = Ret (f', w') -> rinv f' w' kbd con.
Proof.
  intros [] (? & ? & ? & ?) [? ?]%andb_true_iff Ht. unfold transfer_kbd in Ht.
  apply bind_Ret in Ht as ([o rest] & Hr & Ht). apply bind_Ret in Ht as (out & Hw & Ht). simplify_eq.
  split; cbn [IN OUT KBD CON f_stdin stdin_closed f_kbd f_con con_closed f_stdout]; eauto.
  eauto using read_write.
Qed.

Lemma transfer_con_rinv f w f' w' kbd con :
  rinv f w kbd con -> quiet_ok (OUT f) -> quiet_ok (CON f) -> ready (OUT f) && ready (CON f) = true -> transfer_con f w = Ret (f', w') -> rinv f' w' kbd con.
Proof.
  intros [] ? ? [? ?]%andb_true_iff Ht. unfold transfer_con in Ht.
  apply bind_Ret in Ht as ([o rest] & Hr & Ht). apply bind_Ret in Ht as (out & Hw & Ht). simplify_eq.
  split; cbn [IN OUT KBD CON f_stdin stdin_closed f_kbd f_con con_closed f_stdout]; eauto.
  eauto using read_write.
Qed.

(** A transfer from a ready input is done, unless there is nobody any more who reads the byte. *)
Lemma transfer_kbd_total f w kbd con :
  rinv f w kbd con -> all_idle f -> ready (IN f) && ready (KBD f) = true ->
  (exists fw, transfer_kbd f w = Ret fw) \/ kbd_open w = false /\ f_stdin w <> [] /\ transfer_kbd f w = Err Fatal.
Proof.
  intros [] (? & ? & ? & ?) [? ?]%andb_true_iff. unfold transfer_kbd, read_byte.
  assert (f_stdin w <> [] \/ stdin_closed w = true) as Hor by eauto using ready_not_polled.
  destruct (f_stdin w) as [|c l].
  - destruct Hor as [?|Hc]; [done|]. rewrite Hc. left. by eexists.
  - destruct (kbd_open w) eqn:Hk; [left|right]; rewrite ret_bind; cbn [write_byte]; [by eexists|done].
Qed.

Lemma transfer_con_done f w kbd con :
  rinv f w kbd con -> quiet_ok (CON f) -> ready (OUT f) && ready (CON f) = true -> exists fw, transfer_con f w = Ret fw.
Proof.
  intros [] ? [? ?]%andb_true_iff. unfold transfer_con.
  destruct (read_byte_ok (f_con w) (con_closed w)) as (o & rest & E); [eauto using ready_not_polled|].
  rewrite (bind_eq _ _ _ E). destruct o; cbn; eauto.
Qed.

(** What a transfer between the keyboard's files leaves of the other two. *)
Lemma transfer_kbd_con f w f' w' : transfer_kbd f w = Ret (f', w') -> OUT f' = OUT f /\ CON f' = CON f.
Proof.
  unfold transfer_kbd. intros Ht.
  apply bind_Ret in Ht as ([o rest] & Hr & Ht). apply bind_Ret in Ht as (out & Hw & Ht). by simplify_eq.
Qed.

(** The two transfers of a round. *)
Lemma maybe_kbd_rinv f w f' w' kbd con (X := ready (IN f) && ready (KBD f)) :
  rinv f w kbd con -> all_idle f -> (if X then transfer_kbd f w else Ret (f, w)) = Ret (f', w') ->
  rinv f' w' kbd con /\ OUT f' = OUT f /\ CON f' = CON f.
Proof.
  intros Hf Hi. destruct X eqn:HX; [|by intros [= <- <-]].
  intros Ht. split; [by eapply transfer_kbd_rinv|by eapply transfer_kbd_con].
Qed.

Lemma io_round_rinv a f w b f' w' kbd con :
  rinv f w kbd con -> honest a w -> io_round a f w = Ret (b, (f', w')) -> rinv f' w' kbd con.
Proof.
  intros Hf Ha Hr. destruct (update_all_rinv _ _ _ _ _ Hf Ha) as [Hu Hi]. unfold io_round in Hr.
  set (fu := update_all a f) in *. cbv zeta in Hr. case_match; [by simplify_eq|].
  apply bind_Ret in Hr as ([f1 w1] & E1 & Hr). apply bind_Ret in Hr as ([f2 w2] & E2 & Hr). simplify_eq.
  destruct (maybe_kbd_rinv _ _ _ _ _ _ Hu Hi E1) as (H1 & Ho & Hc).
  destruct (ready (OUT fu) && ready (CON fu)) eqn:HX; [|by simplify_eq].
  destruct Hi as (? & ? & ? & ?). eapply transfer_con_rinv; [exact H1|rewrite ?Ho, ?Hc; done..|done].
Qed.

(** A round does the transfers of the files that are ready. *)
Lemma io_round_eq a f w : let fu := update_all a f in ready (IN fu) && ready (KBD fu) = true \/ ready (OUT fu) && ready (CON fu) = true ->
  io_round a f w = ('(f, w) ← (if ready (IN fu) && ready (KBD fu) then transfer_kbd fu w else Ret (fu, w));
    '(f, w) ← (if ready (OUT fu) && ready (CON fu) then transfer_con f w else Ret (f, w)); Ret (true, (f, w))).
Proof.
  intros fu Hor. unfold io_round. fold fu. cbv zeta. set (X := ready (IN fu) && ready (KBD fu)) in *.
  set (Y := ready (OUT fu) && ready (CON fu)) in *. destruct X; [done|]. destruct Y; [done|]. by destruct Hor.
Qed.

(** A round is without error, but for a byte that is written to a keyboard which is closed. *)
Lemma io_round_total a f w kbd con : rinv f w kbd con -> honest a w ->
  (exists r, io_round a f w = Ret r) \/ kbd_open w = false /\ f_stdin w <> [] /\ io_round a f w = Err Fatal.
Proof.
  intros Hf Ha. destruct (update_all_rinv _ _ _ _ _ Hf Ha) as [Hu Hi]. set (fu := update_all a f) in *.
  assert (forall f1 w1, (if ready (IN fu) && ready (KBD fu) then transfer_kbd fu w else Ret (fu, w)) = Ret (f1, w1) ->
    exists r, ('(f, w) ← (if ready (OUT fu) && ready (CON fu) then transfer_con f1 w1 else Ret (f1, w1)); Ret (true, (f, w))) = Ret r) as Hcon.
  { intros f1 w1 E1. destruct (maybe_kbd_rinv _ _ _ _ _ _ Hu Hi E1) as (H1 & Ho & Hc).
    destruct (ready (OUT fu) && ready (CON fu)) eqn:HX; [|by eauto].
    destruct Hi as (_ & _ & _ & Hi). rewrite <-Hc in Hi.
    destruct (transfer_con_done _ _ _ _ H1 Hi) as [[f2 w2] E2]; [by rewrite Ho, Hc|].
    rewrite (bind_eq _ _ _ E2). eauto. }
  destruct (ready (IN fu) && ready (KBD fu)) eqn:HX.
  - rewrite io_round_eq by (by left). fold fu. rewrite HX.
    destruct (transfer_kbd_total _ _ _ _ Hu Hi HX) as [[[f1 w1] E]|(? & ? & ->)]; [left|by right].
    rewrite (bind_eq _ _ _ E). by apply Hcon.
  - left. unfold io_round. fold fu. cbv zeta. rewrite HX. destruct (_ && _) in |- *; [by eexists|]. rewrite ret_bind. by apply Hcon.
Qed.

Lemma tstart_tinv kbdfd confd : (0 <= kbdfd)%Z -> (0 <= confd)%Z -> tinv (tstart kbdfd confd).
Proof. intros. split; cbn; try done; (apply polled_pfd || apply polled_input); cbn; lia. Qed.

Lemma treach_tinv kbdfd confd t :
  (0 <= kbdfd)%Z -> (0 <= confd)%Z -> rtc tstep (tstart kbdfd confd) t -> tinv t.
Proof.
  intros Hk Hc. apply (rtc_ind_r tinv); [by apply tstart_tinv|].
  intros x y _ Hs Hx. destruct Hs; [by apply happens_tinv|]. unfold tinv. cbn. eauto using io_round_rinv.
Qed.

(** A file is known to be ready when it is not polled any more, or [poll] says so. *)
Definition known_ready (r : revents) (p : pfd) : Prop := (fd p < 0)%Z \/ r_ready r = true.

Lemma update_ready r p : pfd_ok p -> known_ready r p -> ready (update r p) = true.
Proof.
  unfold pfd_ok, known_ready, update, polled. intros Hp Hr. case_bool_decide; cbv zeta; cbn [ready fd].
  - destruct Hr as [?|Hr]; [lia|]. rewrite Hr. by cbn.
  - apply Hp. lia.
Qed.

(** A transfer touches one side only. *)
Lemma maybe_con_kbd (X : bool) f w f' w' :
  (if X then transfer_con f w else Ret (f, w)) = Ret (f', w') -> f_kbd w' = f_kbd w /\ f_stdin w' = f_stdin w.
Proof.
  destruct X; [|by intros [= <- <-]]. unfold transfer_con. intros Ht.
  apply bind_Ret in Ht as ([o rest] & Hr & Ht). apply bind_Ret in Ht as (out & Hw & Ht). by simplify_eq.
Qed.

Lemma maybe_kbd_con (X : bool) f w f' w' :
  (if X then transfer_kbd f w else Ret (f, w)) = Ret (f', w') -> f_stdout w' = f_stdout w /\ f_con w' = f_con w.
Proof.
  destruct X; [|by intros [= <- <-]]. unfold transfer_kbd. intros Ht.
  apply bind_Ret in Ht as ([o rest] & Hr & Ht). apply bind_Ret in Ht as (out & Hw & Ht). by simplify_eq.
Qed.

(** A round with a byte at the keyboard moves it. *)
Lemma io_round_moves a f w kbd con c rest r :
  rinv f w kbd con -> io_round a f w = Ret r -> known_ready (a_in a) (IN f) -> known_ready (a_kbd a) (KBD f) -> f_stdin w = c :: rest ->
  exists f' w', r = (true, (f', w')) /\ f_kbd w' = f_kbd w ++ [c] /\ f_stdin w' = rest.
Proof.
  intros Hf E Hi Hkb Hs. set (fu := update_all a f).
  assert (ready (IN fu) && ready (KBD fu) = true) as HX.
  { apply andb_true_iff. split; cbn; apply update_ready; auto; apply Hf. }
  rewrite io_round_eq in E by (fold fu; by left). fold fu in E. rewrite HX in E.
  apply bind_Ret in E as ([f1 w1] & E1 & E). apply bind_Ret in E as ([f2 w2] & E2 & E). simplify_eq.
  eexists _, _. split; [done|]. destruct (maybe_con_kbd _ _ _ _ _ E2) as [-> ->].
  unfold transfer_kbd in E1. rewrite Hs in E1. cbn in E1. destruct (kbd_open w); by simplify_eq/=.
Qed.

(** A round with a byte from the console prints it. *)
Lemma io_round_prints a f w kbd con c rest r :
  rinv f w kbd con -> honest a w -> io_round a f w = Ret r -> known_ready (a_out a) (OUT f) -> known_ready (a_con a) (CON f) -> f_con w = c :: rest ->
  exists f' w', r = (true, (f', w')) /\ f_stdout w' = f_stdout w ++ [c] /\ f_con w' = rest.
Proof.
  intros Hf Ha E Ho Hc Hs. destruct (update_all_rinv _ _ _ _ _ Hf Ha) as [Hu Hi]. set (fu := update_all a f) in *.
  assert (ready (OUT fu) && ready (CON fu) = true) as HX.
  { apply andb_true_iff. split; cbn; apply update_ready; auto; apply Hf. }
  rewrite io_round_eq in E by (fold fu; by right). fold fu in E. rewrite HX in E.
  apply bind_Ret in E as ([f1 w1] & E1 & E). apply bind_Ret in E as ([f2 w2] & E2 & E). simplify_eq.
  eexists _, _. split; [done|]. destruct (maybe_kbd_con _ _ _ _ _ E1) as [<- E3].
  unfold transfer_con in E2. rewrite E3, Hs in E2. cbn in E2. by simplify_eq/=.
Qed.

(** C40.  The terminal is faithful to both sides: in every state that it reaches, the bytes that the keyboard got, followed
    by those still to be read, are the bytes that were typed, and the same holds of standard output and the console.
    A round never blocks, and it fails only when it writes a byte to a keyboard that the machine has closed, whose signal
    kills the program.  A round that does not fail moves the next byte to the keyboard as soon as standard input and the
    keyboard are both known to be ready, and the next byte from the console as soon as that and standard output are. *)
Theorem terminal_faithful kbdfd confd t :
  (0 <= kbdfd)%Z -> (0 <= confd)%Z -> rtc tstep (tstart kbdfd confd) t ->
  let f := fdsets t in let w := world t in
  f_kbd w ++ f_stdin w = typed t /\
  f_stdout w ++ f_con w = printed t /\
  forall a, honest a w ->
    ((exists r, io_round a f w = Ret r) \/ kbd_open w = false /\ f_stdin w <> [] /\ io_round a f w = Err Fatal) /\
    forall r, io_round a f w = Ret r ->
      (forall c rest, known_ready (a_in a) (IN f) -> known_ready (a_kbd a) (KBD f) -> f_stdin w = c :: rest ->
         exists f' w', r = (true, (f', w')) /\ f_kbd w' = f_kbd w ++ [c] /\ f_stdin w' = rest) /\
      (forall c rest, known_ready (a_out a) (OUT f) -> known_ready (a_con a) (CON f) -> f_con w = c :: rest ->
         exists f' w', r = (true, (f', w')) /\ f_stdout w' = f_stdout w ++ [c] /\ f_con w' = rest).
Proof.
  intros Hk Hc Hr f w. pose proof (treach_tinv _ _ _ Hk Hc Hr) as Ht.
  split; [apply Ht|]. split; [apply Ht|]. intros a Ha. split; [by eapply io_round_total|]. intros r E. split; intros c rest.
  - by eapply io_round_moves.
  - by eapply io_round_prints.
Qed.

(** Two keys are typed; the first round finds the input ready but the pipe full, the second one moves a byte. *)
Definition say (r : bool) : revents := mkRev r false.
Definition full_pipe : answers := mkAnswers (say true) (say true) (say false) (say false).
Definition all_ready : answers := mkAnswers (say true) (say true) (say true) (say false).

Definition after_round (a : answers) (t : emulator) : emulator :=
  match io_round a (fdsets t) (world t) with
  | Ret (b, (f, w)) => mkTerm b f w (typed t) (printed t)
  | _ => t
  end.

(** A byte is printed, and standard output is ready. *)
Definition console_ready : answers := mkAnswers (say true) (say true) (say true) (say true).
Definition typed_and_printed : emulator :=
  happens (Print_byte 99) (after_round full_pipe (happens (Type_byte 98) (happens (Type_byte 97) (tstart 5 6)))).

Lemma terminal_faithful_witness : exists f w,
  io_round console_ready (fdsets typed_and_printed) (world typed_and_printed) = Ret (true, (f, w)) /\
  f_kbd w = [97%Z] /\ f_stdin w = [98%Z] /\ f_stdout w = [99%Z].
Proof.
  destruct (terminal_faithful 5 6 typed_and_printed) as (_ & _ & Hround); [lia|lia| |].
  { eapply rtc_l; [apply (t_happens _ (Type_byte 97))|]. eapply rtc_l; [apply (t_happens _ (Type_byte 98))|].
    eapply rtc_l; [eapply (t_round _ full_pipe); [reflexivity|split; [intros _; left; discriminate|discriminate]|vm_compute; reflexivity]|].
    apply rtc_once, (t_happens _ (Print_byte 99)). }
  destruct (Hround console_ready) as [[[r Er]|(Hk & _)] Hmoves]; [split; intros _; left; discriminate| |discriminate Hk].
  destruct (Hmoves r Er) as [Hkbd Hcon].
  destruct (Hkbd 97%Z [98%Z]) as (f & w & -> & E1 & E2); [left; reflexivity|right; reflexivity|reflexivity|].
  destruct (Hcon 99%Z []) as (f' & w' & Er' & E3 & _); [left; reflexivity|right; reflexivity|reflexivity|].
  injection Er' as <- <-. exists f, w. split; [exact Er|]. split; [exact E1|]. split; [exact E2|exact E3].
Defined.

(** The keyboard was found ready, the machine closes it, and a key is typed: the signal kills the terminal. *)
Definition closed_keyboard : emulator :=
  happens (Type_byte 98) (happens Close_kbd (after_round (mkAnswers (say false) (say false) (say true) (say false)) (tstart 5 6))).

Lemma closed_keyboard_kills : io_round all_ready (fdsets closed_keyboard) (world closed_keyboard) = Err Fatal.
Proof. reflexivity. Qed.
