(* ===== verification/UtilTests.v ===== *)
(** * The tests of the utilities (test_util.c)

  The tests of the resource lists, of the argument vectors and of the exceptions, run on the models of [util.h].
  Left out are the two tests that measure the time of a loop. *)

From Stdlib Require Import String.
From S2P Require Import Prelude Rlist Iface Kernel Prog Argv Exceptions UnitTest.

(** ** The memory of a test

  A node has an address of type [Z], and so has what its key points at. *)
Record lmem := mkLmem { nodes : rlheap Z Z; top : Z; failed : bool }.

Definition ltest (A : Type) : Type := lmem -> outcome (A * lmem).

#[export] Instance ltest_ret : MRet ltest := fun A a m => Ret (a, m).
#[export] Instance ltest_bind : MBind ltest := fun A B k t m => '(a, m) ← t m; k a m.

Definition sizeof_rlnode : Z := 24.

(** Local variables of type [rlnode], or a block of [malloc]: [n] nodes that are not initialised. *)
Definition rlnodes (n : Z) : ltest Z := fun m => Ret (top m, mkLmem (nodes m) (top m + n * sizeof_rlnode) (failed m)).

(** The operations of the lists, as those of a test: they look at the store, change it, or do both. *)
Definition look {A} (op : rlheap Z Z -> outcome A) : ltest A := fun m => a ← op (nodes m); Ret (a, m).
Definition change (op : rlheap Z Z -> outcome (rlheap Z Z)) : ltest unit := fun m => h ← op (nodes m); Ret (tt, mkLmem h (top m) (failed m)).
Definition both {A} (op : rlheap Z Z -> outcome (A * rlheap Z Z)) : ltest A :=
  fun m => '(a, h) ← op (nodes m); Ret (a, mkLmem h (top m) (failed m)).

Definition node (p : Z) : ltest (rlnode Z Z) := look (fun h => deref (h !! p)).
Definition set_num (p v : Z) : ltest unit := change (fun h => nd ← deref (h !! p); Ret (<[p := RLNode v (prev nd) (next nd)]> h)).

(** [ASSERT]: the test goes on, and has failed. *)
Definition check (b : bool) : ltest unit := fun m => Ret (tt, mkLmem (nodes m) (top m) (negb b || failed m)).

Abbreviation equal x y := (bool_decide (x = y)).

(** [for(int i = from; i < from + n*d; i += d)]. *)
Fixpoint loop (n : nat) (i d : Z) (body : Z -> ltest unit) : ltest unit :=
  match n with
  | O => mret tt
  | Datatypes.S n => _ ← body i; loop n (i + d) d body
  end.

Fixpoint each {A} (l : list A) (body : A -> ltest unit) : ltest unit :=
  match l with
  | [] => mret tt
  | a :: l => _ ← body a; each l body
  end.

(** Does the test pass?  It has returned, and no assertion failed. *)
Definition passes {A} (t : ltest A) : bool :=
  match t (mkLmem ∅ 4096 false) with Ret (_, m) => negb (failed m) | Err _ => false end.

(** ** Lists *)

Definition new (p : Z) : ltest Z := both (fun h => Ret (rlnode_new p h)).
Definition init (p ptr : Z) : ltest Z := both (fun h => Ret (rlnode_init p ptr h)).

Definition make_list (L : Z) (data : bytes) : ltest Z :=
  _ ← init L 0;
  _ ← each data (fun d => p ← rlnodes 1; p ← new p; _ ← set_num p d; change (rlist_push_back L p));
  len ← look (rlist_len L);
  _ ← check (equal len (Z.of_nat (length data)));
  mret L.

Definition Data : list bytes := [str ""; str "H"; str "Ha"; str "a"; str "asdas"]%string.

Definition test_list_init : ltest unit :=
  L ← rlnodes 1; _ ← init L 0;
  nl ← node L;
  _ ← check (equal (obj nl) 0%Z);
  _ ← check (equal (prev nl) (next nl));
  _ ← check (equal (prev nl) L);
  n1 ← rlnodes 1; n2 ← rlnodes 1;
  _ ← init n1 L;
  p ← new n2; _ ← set_num p 5;
  nd ← node n2; _ ← check (equal (obj nd) 5%Z);
  R ← rlnodes 1;
  _ ← change (fun h => Ret (<[R := RLNode 0%Z R R]> h));
  _ ← each [R; L; n1; n2] (fun p => e ← look (is_rlist_empty p); check e);
  _ ← both (rl_splice n1 n2);
  _ ← each [n1; n2] (fun p => e ← look (is_rlist_empty p); check (negb e));
  d1 ← node n1; d2 ← node n2;
  _ ← check (equal (next d1) n2);
  _ ← check (equal (next d2) n1);
  _ ← check (equal (prev d1) n2);
  _ ← check (equal (prev d2) n1);
  len ← look (rlist_len n1); _ ← check (equal len 1%Z);
  _ ← both (rl_splice n1 n2);
  _ ← each [n1; n2] (fun p => e ← look (is_rlist_empty p); check e);
  len ← look (rlist_len n1); check (equal len 0%Z).

Definition test_list_len : ltest unit :=
  L ← rlnodes 1; _ ← new L;
  n ← rlnodes 10;
  let at_ i := (n + i * sizeof_rlnode)%Z in
  _ ← loop 10 0 1 (fun i =>
    len ← look (rlist_len L); _ ← check (equal len i);
    p ← new (at_ i); _ ← set_num p i;
    _ ← change (rlist_push_back L (at_ i));
    len ← look (rlist_len L); check (equal len (i + 1)%Z));
  len ← look (rlist_len L); _ ← check (equal len 10%Z);
  let remove_at i := (
    l ← look (rlist_len L);
    _ ← both (rlist_remove (at_ i));
    len ← look (rlist_len L); check (equal len (l - 1)%Z)) in
  _ ← loop 5 0 2 remove_at;
  _ ← loop 5 1 2 remove_at;
  each Data (fun s =>
    _ ← make_list L s;
    len ← look (rlist_len L); check (equal len (Z.of_nat (length s)))).

(** [while(! is_rlist_empty(&L)) { p = rlist_pop_back(&L); ASSERT(I==p); I++; }]; the number of rounds is returned. *)
Fixpoint pop_all (fuel : nat) (L I rounds : Z) : ltest Z :=
  match fuel with
  | O => fun _ => Err OutOfFuel
  | Datatypes.S fuel =>
      e ← look (is_rlist_empty L);
      if e : bool then mret rounds
      else p ← both (rlist_pop_back L); _ ← check (equal I p); pop_all fuel L (I + sizeof_rlnode) (rounds + 1)
  end.

(** The loop that compares the list with the array, backwards. *)
Fixpoint walk_back (n : nat) (I p : Z) : ltest unit :=
  match n with
  | O => mret tt
  | Datatypes.S n => _ ← check (equal I p); nd ← node I; walk_back n (prev nd) (p + sizeof_rlnode)
  end.

Definition test_list_queue : ltest Z :=
  L ← rlnodes 1; _ ← new L;
  n ← rlnodes 10;
  _ ← loop 10 n sizeof_rlnode (fun p => _ ← new p; change (rlist_push_front L p));
  nl ← node L;
  _ ← walk_back 10 (prev nl) n;
  rounds ← pop_all 11 L n 0;
  e ← look (is_rlist_empty L); _ ← check e;
  I ← both (rlist_pop_back L);
  _ ← check (equal I L);
  e ← look (is_rlist_empty L); _ ← check e;
  mret rounds.

Fixpoint build_list (fuel : nat) (L from to key esize : Z) : ltest unit :=
  match fuel with
  | O => fun _ => Err OutOfFuel
  | Datatypes.S fuel =>
      if decide (from = to) then mret tt
      else _ ← init from key; _ ← change (rlist_push_back L from); build_list fuel L (from + sizeof_rlnode) to (key + esize) esize
  end.

(** The array [a] of the tests, at an address of its own. *)
Definition a_base : Z := 1024.
Definition a_data : list Z := [4; 2; 5; 7; 8; 3; 2; 9; 3]%Z.
Definition a_at (p : Z) : Z := default 0%Z (a_data !! Z.to_nat ((p - a_base) / 2)).
Definition gt5 (p : Z) (h : rlheap Z Z) : bool := match h !! p with Some nd => bool_decide (5 <= a_at (obj nd))%Z | None => false end.

Fixpoint walk_keys (fuel : nat) (L p i : Z) : ltest unit :=
  match fuel with
  | O => fun _ => Err OutOfFuel
  | Datatypes.S fuel =>
      if decide (p = L) then mret tt
      else nd ← node p; _ ← check (equal (obj nd) (a_base + 2 * i)%Z); walk_keys fuel L (next nd) (i + 1)
  end.

Definition test_list_select : ltest unit :=
  L ← rlnodes 1; _ ← new L;
  ns ← rlnodes 9;
  len ← look (rlist_len L); _ ← check (equal len 0%Z);
  _ ← build_list 10 L ns (ns + 9 * sizeof_rlnode) a_base 2;
  len ← look (rlist_len L); _ ← check (equal len 9%Z);
  nl ← node L; _ ← walk_keys 10 L (next nl) 0;
  Q ← rlnodes 1; _ ← new Q;
  _ ← change (rlist_select L Q gt5);
  len ← look (rlist_len Q); _ ← check (equal len 4%Z);
  len ← look (rlist_len L); check (equal len 5%Z).

Definition test_list_equal : ltest unit :=
  L1 ← rlnodes 1; L2 ← rlnodes 1;
  each (imap pair Data) (fun '(i, Di) => each (imap pair Data) (fun '(j, Dj) =>
    _ ← make_list L1 Di; _ ← make_list L2 Dj;
    e ← look (rlist_equal L1 L2); check (Bool.eqb e (equal i j)))).

Definition test_list_prepend : ltest unit :=
  Ld ← rlnodes 1; Ls ← rlnodes 1; Le ← rlnodes 1; La ← rlnodes 1;
  _ ← each [Ld; Ls; Le; La] (fun L => _ ← init L 0; mret tt);
  ns ← rlnodes 18;
  let at_ i := (ns + i * sizeof_rlnode)%Z in
  _ ← build_list 19 Ld ns (at_ 5%Z) a_base 2;
  _ ← build_list 19 Ls (at_ 5%Z) (at_ 9%Z) (a_base + 2 * 5) 2;
  _ ← build_list 19 La (at_ 9%Z) (at_ 18%Z) a_base 2;
  _ ← change (rlist_prepend Ls Le); e ← look (is_rlist_empty Le); _ ← check e;
  _ ← change (rlist_prepend Le Ls); e ← look (is_rlist_empty Ls); _ ← check e;
  _ ← change (rlist_prepend Le Ld); e ← look (is_rlist_empty Ld); _ ← check e;
  len ← look (rlist_len Le); _ ← check (equal len 9%Z);
  e ← look (rlist_equal Le La); check e.

Definition test_list_append : ltest unit :=
  L1 ← rlnodes 1; L2 ← rlnodes 1; L3 ← rlnodes 1;
  _ ← make_list L1 (str "Hello "); _ ← make_list L2 (str "world");
  _ ← init L3 0;
  _ ← change (rlist_append L3 L1);
  _ ← change (rlist_append L3 L2);
  L ← make_list L1 (str "Hello world");
  e ← look (rlist_equal L3 L); check e.

Definition rlist_tests : list bool :=
  [passes test_list_init; passes test_list_len; passes test_list_queue; passes test_list_select;
   passes test_list_equal; passes test_list_prepend; passes test_list_append].

Lemma rlist_tests_pass : Forall (fun b => b = true) rlist_tests.
Proof. repeat constructor; vm_compute; reflexivity. Qed.

(** The test of the queue pops once, although ten nodes are in the list, and cannot tell. *)
Lemma queue_test_pops_once : fst <$> (match test_list_queue (mkLmem ∅ 4096 false) with Ret r => Some r | Err _ => None end) = Some 1%Z.
Proof. vm_compute; reflexivity. Qed.

(** ** Argument vectors *)

(** [char args[l]] is not initialised: [fill] is in it. *)
Definition test_argv (fill : Z) (argv : list bytes) : outcome bool :=
  let argc := length argv in
  let l := argvlen argv in
  '(argl, args) ← argvpack 0 (replicate l fill) argv;
  n ← argscount argl 0 args;
  '(uargv, _) ← argvunpack argc 0 args;
  Ret (bool_decide (argl = l) && bool_decide (n = argc) && bool_decide ((string_at args <$> uargv) = (Some <$> argv))).

Definition pack_case (argv : list bytes) (len : nat) : outcome bool :=
  ok ← test_argv 170 argv; Ret (bool_decide (argvlen argv = len) && ok).

Definition test_pack_unpack : outcome bool :=
  b1 ← pack_case [str "Hello"; str "Goodbye"] 14;
  b2 ← pack_case [] 0;
  b3 ← pack_case [str "Goodbye"] 8;
  b4 ← pack_case [[]; []] 2;
  b5 ← pack_case [[]] 1;
  Ret (b1 && b2 && b3 && b4 && b5).

Lemma pack_unpack_passes : test_pack_unpack = Ret true.
Proof. vm_compute; reflexivity. Qed.

(** ** Exceptions *)

Record xmem := mkX { count : Z; fine : bool }.

Definition incr (x : xmem) : xmem := mkX (count x + 1) (fine x).
Definition reset (n : Z) (x : xmem) : xmem := mkX n (fine x).
Definition expect_that (b : xmem -> bool) (x : xmem) : xmem := mkX (count x) (b x && fine x).
Definition expect_count (n : Z) : xmem -> xmem := expect_that (fun x => equal (count x) n).

(** The handlers of the tests, which do not raise. *)
Definition wrong : nat := 0.
Definition counts : nat := 1.
Definition first_finally : nat := 2.
Definition says_two : nat := 3.
Definition says_one : nat := 4.
Definition nested_try : nat := 5.
Definition bar_handler : nat := 6.

Definition simple_handler (h : nat) (e : Z) (x : xmem) : xmem :=
  if decide (h = counts) then incr x
  else if decide (h = first_finally) then incr (expect_count 0 (expect_that (fun _ => equal e 0%Z) x))
  else if decide (h = says_two) then expect_count 2 (incr x)
  else if decide (h = says_one) then expect_count 1 (incr x)
  else if decide (h = bar_handler) then incr (expect_count 1 x)
  else expect_that (fun _ => false) x.

Definition handler (h : nat) (e : Z) (x : xmem) : xmem * bool :=
  if decide (h = nested_try) then
    match TRY_WITH (fun h e x => (simple_handler h e x, false)) (finally counts) 0 ([], x) with
    | Ret (_, (_, x)) => (incr x, false)
    | Err _ => (expect_that (fun _ => false) x, false)
    end
  else (simple_handler h e x, false).

Definition xblock (A : Type) : Type := nat -> list exception_stack_frame * xmem -> outcome (flow A * (list exception_stack_frame * xmem)).

#[export] Instance xblock_ret : MRet xblock := fun A a _ cs => Ret (Fall a, cs).
#[export] Instance xblock_bind : MBind xblock := fun A B k b => seq b k.

Definition TRY (b : xblock unit) : xblock unit := TRY_WITH handler b.
Definition RAISE_ERROR : xblock unit := RAISE.
Definition stmt_ (f : xmem -> xmem) : xblock unit := do_ f.
Definition fin (h : nat) : xblock unit := finally h.
Definition onerr (h : nat) : xblock unit := on_error h.

Definition test_exc_empty_body : xblock unit :=
  _ ← stmt_ (reset 0);
  _ ← TRY (mret tt);
  _ ← TRY (_ ← fin first_finally; onerr wrong);
  _ ← stmt_ (expect_count 1);
  _ ← stmt_ (reset 0);
  _ ← TRY (_ ← fin says_two; fin says_one);
  _ ← stmt_ (expect_count 2);
  _ ← stmt_ (reset 10);
  _ ← TRY (_ ← fin nested_try; stmt_ (expect_count 10));
  stmt_ (expect_count 12).

Definition test_exc_catcher_match : xblock unit :=
  _ ← stmt_ (reset 0);
  _ ← TRY (_ ← onerr counts; _ ← onerr counts; RAISE_ERROR);
  _ ← stmt_ (expect_count 2);
  _ ← stmt_ (reset 0);
  _ ← TRY (_ ← RAISE_ERROR; _ ← onerr wrong; onerr wrong);
  _ ← stmt_ (expect_count 0);
  _ ← stmt_ (reset 0);
  _ ← TRY (_ ← onerr counts; _ ← RAISE_ERROR; onerr wrong);
  stmt_ (expect_count 1).

Definition __foo2 : xblock unit := RAISE_ERROR.
Definition __foo : xblock unit := TRY (_ ← fin counts; _ ← __foo2; stmt_ (expect_that (fun _ => false))).

(** [ASSERT(unwind_context != NULL)] and [ASSERT(unwind_context == NULL)]. *)
Definition expect_context (empty : bool) : xblock unit :=
  fun _ '(ctx, x) => Ret (Fall tt, (ctx, expect_that (fun _ => Bool.eqb empty (equal ctx [])) x)).

Definition get_count : xblock Z := fun _ '(ctx, x) => Ret (Fall (count x), (ctx, x)).

Definition __bar : xblock Z :=
  _ ← stmt_ (reset 0);
  _ ← expect_context false;
  _ ← TRY (_ ← onerr bar_handler; __foo);
  _ ← stmt_ (expect_count 2);
  get_count.

Definition test_exc_unwind : xblock unit :=
  _ ← TRY (_ ← onerr wrong; n ← __bar; stmt_ (expect_that (fun _ => equal n 2%Z)));
  expect_context true.

(** A test of exceptions passes if it ends where it should, with no frame left and no assertion failed. *)
Definition xpasses (t : xblock unit) : bool :=
  match t 0%nat ([], mkX 0 true) with Ret (Fall _, ([], x)) => fine x | _ => false end.

Lemma exception_tests_pass : Forall (fun t => xpasses t = true) [test_exc_empty_body; test_exc_catcher_match; test_exc_unwind].
Proof. repeat constructor; vm_compute; reflexivity. Qed.

(** *** Exceptions in a loop

  The two tests that measure the time, without the clock: [n] is 10000000 there, and the sums stay far from the
  bounds of [long long]. *)
Record sums := mkSums { sum : Z; sum2 : Z; index : Z }.

Definition lblock : Type := nat -> list exception_stack_frame * sums -> outcome (flow unit * (list exception_stack_frame * sums)).

(** [FINALLY(e) { sum += i; }]. *)
Definition add_index (h : nat) (e : Z) (s : sums) : sums * bool := (mkSums (sum s + index s) (sum2 s) (index s), false).

Definition compute_func : lblock := RAISE.

Definition inloop_body : lblock :=
  TRY_WITH add_index (seq (finally 0) (fun _ => seq (do_ (fun s => mkSums (sum s) (sum2 s + index s) (index s))) (fun _ => compute_func))).

Definition compute_func2 (m : Z) : Z := m * 3.

Definition inloop2_body : lblock :=
  TRY_WITH add_index (seq (do_ (fun s => mkSums (sum s) (sum2 s + 3 * index s) (index s))) (fun _ =>
    do_ (fun s => mkSums (sum s + compute_func2 (index s)) (sum2 s) (index s)))).

(** [for(int i=1; i<=n; i++)]; [k] rounds are left. *)
Fixpoint for_1_to (k : nat) (body : lblock) : lblock :=
  match k with
  | O => do_ id
  | Datatypes.S k => seq body (fun _ => seq (do_ (fun s => mkSums (sum s) (sum2 s) (index s + 1))) (fun _ => for_1_to k body))
  end.

Definition test_exc_inloop (n : nat) : lblock := seq (do_ (fun _ => mkSums 0 0 1)) (fun _ => for_1_to n inloop_body).
Definition test_exc_inloop2 (n : nat) : lblock := seq (do_ (fun _ => mkSums 0 0 1)) (fun _ => for_1_to n inloop2_body).

Lemma for_1_to_sums k body c s : 
  (forall s, body 0%nat ([], s) = Ret (Fall tt, ([], mkSums (sum s + c * index s) (sum2 s + c * index s) (index s)))) ->
  exists s', for_1_to k body 0%nat ([], s) = Ret (Fall tt, ([], s')) /\
    (2 * sum s' = 2 * sum s + c * (Z.of_nat k * (2 * index s + Z.of_nat k - 1)))%Z /\
    (2 * sum2 s' = 2 * sum2 s + c * (Z.of_nat k * (2 * index s + Z.of_nat k - 1)))%Z.
Proof.
  intros Hb. revert s. induction k as [|k IH]; intros s.
  - exists s. split; [done|]. lia.
  - cbn [for_1_to]. unfold seq at 1. rewrite Hb. cbn -[Z.of_nat Z.mul]. cbv zeta.
    edestruct (IH (mkSums (sum s + c * index s) (sum2 s + c * index s) (index s + 1))) as (s' & E & H1 & H2).
    exists s'. split; [exact E|]. cbn -[Z.of_nat Z.mul Z.add] in *. split; nia.
Qed.

Lemma inloop_sums n : exists s, test_exc_inloop n 0%nat ([], mkSums 0 0 0) = Ret (Fall tt, ([], s)) /\
  sum s = (Z.of_nat n * (Z.of_nat n + 1) / 2)%Z /\ sum2 s = (Z.of_nat n * (Z.of_nat n + 1) / 2)%Z.
Proof.
  destruct (for_1_to_sums n inloop_body 1 (mkSums 0 0 1)) as (s & E & H1 & H2).
  { intros [a b i]. unfold inloop_body. cbn -[Z.mul Z.add]. rewrite Z.mul_1_l. reflexivity. }
  exists s. split; [exact E|]. cbn -[Z.of_nat Z.mul Z.add] in *. split; apply Z.div_unique_exact; nia.
Qed.

Lemma inloop2_sums n : exists s, test_exc_inloop2 n 0%nat ([], mkSums 0 0 0) = Ret (Fall tt, ([], s)) /\
  sum s = sum2 s /\ sum s = (3 * Z.of_nat n * (Z.of_nat n + 1) / 2)%Z.
Proof.
  destruct (for_1_to_sums n inloop2_body 3 (mkSums 0 0 1)) as (s & E & H1 & H2).
  { intros [a b i]. unfold inloop2_body, compute_func2. cbn -[Z.mul Z.add]. rewrite (Z.mul_comm i 3). reflexivity. }
  exists s. split; [exact E|]. cbn -[Z.of_nat Z.mul Z.add] in *. split; [lia|]. apply Z.div_unique_exact; nia.
Qed.
