(* ===== verification/Remote.v ===== *)
(** * Remote execution (tinyos_shell.c)

  The log of the server, the server's thread for a client, its listener and its console.  The client, its messages
  and the process that executes a command are in [Shell].  The variables that the threads of the server share are a
  part of the memory [U]; [args], the pointer to them, is not looked at. *)

From Stdlib Require Import String Ascii.
From S2P Require Import Prelude Rlist Iface Instances Kernel Dev Streams Proc Boot Sys Prog Argv Utilities Shell.

#[local] Open Scope Z_scope.

(** ** The log

  A record of the log is a node with a message behind it; [messages] has the message at the address of the node.  The
  sentinel [GS(log)] and the list of [log_truncate] have addresses of their own, and [malloc] gives each record a
  fresh one. *)
Record logging_state := mkLogging { lognodes : rlheap Z Z; messages : gmap Z bytes; logcount : Z; next_free : Z }.

Definition log_addr : Z := 1.
Definition list_addr : Z := 2.

Definition log_init (g : logging_state) : logging_state :=
  mkLogging (rlnode_init log_addr 0 (lognodes g)).2 (messages g) 0 (next_free g).

Definition log_message (msg : bytes) (g : logging_state) : outcome logging_state :=
  let rec := next_free g in
  let count := u64 (logcount g + 1) in
  let h := <[rec := RLNode count rec rec]> (lognodes g) in
  h ← rlist_push_back log_addr rec h;
  Ret (mkLogging h (<[rec := msg]> (messages g)) count (rec + 1)).

(** The numbers and messages that are printed, from the record at [ptr] on. *)
Fixpoint log_loop (fuel : nat) (ptr : Z) (g : logging_state) : outcome (list (Z * bytes)) :=
  match fuel with
  | O => Err OutOfFuel
  | Datatypes.S fuel =>
      if decide (ptr = log_addr) then Ret []
      else
        rec ← deref (lognodes g !! ptr);
        msg ← deref (messages g !! ptr);
        l ← log_loop fuel (next rec) g;
        Ret ((obj rec, msg) :: l)
  end.

Definition log_print (g : logging_state) : outcome (list (Z * bytes)) :=
  log ← deref (lognodes g !! log_addr);
  log_loop (Datatypes.S (size (lognodes g))) (next log) g.

(** [while(list.next != &list) { rec = rlist_pop_front(&list); free(rec); }] *)
Fixpoint free_loop (fuel : nat) (g : logging_state) : outcome logging_state :=
  match fuel with
  | O => Err OutOfFuel
  | Datatypes.S fuel =>
      l ← deref (lognodes g !! list_addr);
      if decide (next l <> list_addr) then
        '(rec, h) ← rlist_pop_front list_addr (lognodes g);
        free_loop fuel (mkLogging (delete rec h) (delete rec (messages g)) (logcount g) (next_free g))
      else Ret g
  end.

(** [list] is a local variable, which is gone at the end. *)
Definition log_truncate (g : logging_state) : outcome logging_state :=
  let h := (rlnode_init list_addr 0 (lognodes g)).2 in
  h ← rlist_append list_addr log_addr h;
  g ← free_loop (Datatypes.S (size h)) (mkLogging h (messages g) (logcount g) (next_free g));
  Ret (mkLogging (delete list_addr (lognodes g)) (messages g) (logcount g) (next_free g)).

(** *** What the log holds *)

(** The records at the addresses [l], in this order, have the numbers and messages [es]; there is nothing else. *)
Record log_holds (g : logging_state) (l : list Z) (es : list (Z * bytes)) : Prop := {
  lh_list : rlist (lognodes g) log_addr l;
  lh_next : 2 < next_free g;
  lh_nodes : dom (lognodes g) = {[ log_addr ]} ∪ list_to_set l;
  lh_messages : dom (messages g) = list_to_set l;
  lh_entries : Forall2 (fun a e => 2 < a < next_free g /\ obj_of (lognodes g) a = Some e.1 /\ messages g !! a = Some e.2) l es
}.

Section ring_delete.
Context {N K : Type} `{Countable N}.
Implicit Types (h : rlheap N K).

Lemma ring_delete_ne h r n : ring h r -> n ∉ r -> ring (delete n h) r.
Proof.
  intros Hr Hn. eapply ring_mono, Hr. intros x y Hx He. assert (y ∈ r) as Hy by (by eapply ring_edge_closed).
  destruct He as [He1 He2]. unfold edge, load in *. rewrite !lookup_delete_ne by (intros <-; done). done.
Qed.

Lemma frame_dom (l : list N) h h' : frame l h h' -> dom h' = dom h.
Proof.
  intros Hf. apply set_eq. intros n. pose proof (frame_obj _ _ _ Hf n) as Ho. unfold obj_of in Ho.
  rewrite !elem_of_dom. destruct (h !! n), (h' !! n); simpl in Ho; try done; split; by inversion 1.
Qed.
End ring_delete.

Lemma log_init_holds n : 2 < n -> log_holds (log_init (mkLogging ∅ ∅ 0 n)) [] [].
Proof.
  intros Hn. split; cbn; try done.
  apply ring_init.
Qed.

Lemma log_fresh g l es : log_holds g l es -> Forall (fun a => 2 < a < next_free g) l.
Proof. intros Hg. clear -Hg. assert (Forall2 (fun a _ => 2 < a < next_free g) l es) as He by (eapply Forall2_impl; [apply Hg|by intros a e [? _]]).
  revert He. generalize (next_free g). clear. intros n He. induction He; by constructor. Qed.

Lemma log_not_in g l es a : log_holds g l es -> a <= 2 \/ next_free g <= a -> a ∉ l.
Proof. intros Hg Ha Hin. pose proof (log_fresh _ _ _ Hg) as Hf. rewrite Forall_forall in Hf. specialize (Hf _ Hin). lia. Qed.

Lemma log_message_holds g l es msg : log_holds g l es ->
  exists g', log_message msg g = Ret g' /\ logcount g' = u64 (logcount g + 1) /\
    log_holds g' (l ++ [next_free g]) (es ++ [(u64 (logcount g + 1), msg)]).
Proof.
  intros Hg. pose proof Hg as [Hl Hn Hd Hm He]. set (rec := next_free g) in *. set (count := u64 (logcount g + 1)).
  assert (rec ∉ log_addr :: l) as Hrec.
  { intros [->|Hx]%elem_of_cons; [unfold log_addr in *; lia|]. eapply log_not_in; [exact Hg| |exact Hx]. lia. }
  pose proof (ring_insert_ne (lognodes g) (log_addr :: l) rec (RLNode count rec rec) Hl Hrec) as Hl1.
  assert (ring (<[rec := RLNode count rec rec]> (lognodes g)) [rec]) as Hr by apply ring_init.
  destruct (rlist_push_back_spec _ log_addr l rec [] Hl1 Hr ltac:(set_solver)) as (h & E & Hl2 & Hf).
  eexists. split; [unfold log_message; fold rec count; rewrite (bind_eq _ _ _ E); done|]. split; [done|].
  split; cbn [lognodes messages next_free].
  - exact Hl2.
  - lia.
  - rewrite (frame_dom _ _ _ Hf), dom_insert_L, Hd, list_to_set_app_L. set_solver.
  - rewrite dom_insert_L, Hm, list_to_set_app_L. set_solver.
  - apply Forall2_app.
    + eapply Forall2_impl; [exact He|]. intros a e (Ha & Ho & Hmsg). split; [lia|].
      rewrite (frame_obj _ _ _ Hf), lookup_insert_ne by lia. unfold obj_of. by rewrite lookup_insert_ne by lia.
    + constructor; [|constructor]. split; [lia|]. rewrite (frame_obj _ _ _ Hf). unfold obj_of. by rewrite !lookup_insert_eq.
Qed.

Lemma log_loop_holds g l es k t ts fuel : log_holds g l es -> l = k ++ t -> (length t < fuel)%nat ->
  Forall2 (fun a e => 2 < a < next_free g /\ obj_of (lognodes g) a = Some e.1 /\ messages g !! a = Some e.2) t ts ->
  log_loop fuel (hd_or log_addr t) g = Ret ts.
Proof.
  intros Hg. revert k t ts. induction fuel as [|fuel IH]; intros k t ts El Hf Ht; [lia|].
  inversion Ht as [|a e t' ts' (Ha & Ho & Hmsg) Ht']; subst; cbn [log_loop hd_or].
  - by rewrite decide_True.
  - rewrite decide_False by (unfold log_addr; lia).
    destruct (rlist_at _ _ _ _ _ (lh_list _ _ _ Hg)) as (_ & nd & E & Hnx).
    unfold obj_of in Ho. rewrite E in Ho |- *. rewrite Hmsg. cbn [deref]. rewrite !ret_bind, Hnx.
    rewrite (bind_eq _ ts'); [|apply (IH (k ++ [a])); [by rewrite <-app_assoc|simpl in Hf; lia|done]].
    destruct e; by simplify_eq/=.
Qed.

Lemma log_print_holds g l es : log_holds g l es -> log_print g = Ret es.
Proof.
  intros Hg. destruct (rlist_next _ _ _ (lh_list _ _ _ Hg)) as (nd & E & Hn).
  unfold log_print. rewrite E. cbn [deref]. rewrite ret_bind, Hn. eapply (log_loop_holds g l es []); [done|done| |apply Hg].
  pose proof (rlist_fuel _ _ _ (lh_list _ _ _ Hg)). lia.
Qed.

(** Freeing the records of [list], the log being empty. *)
Lemma free_loop_holds fuel : forall g l, (length l < fuel)%nat -> rlist (lognodes g) list_addr l -> rlist (lognodes g) log_addr [] ->
  log_addr ∉ l -> dom (messages g) = list_to_set l -> dom (lognodes g) = {[ log_addr; list_addr ]} ∪ list_to_set l ->
  exists g', free_loop fuel g = Ret g' /\ logcount g' = logcount g /\ next_free g' = next_free g /\ messages g' = ∅ /\
    rlist (lognodes g') log_addr [] /\ dom (lognodes g') = {[ log_addr; list_addr ]}.
Proof.
  induction fuel as [|fuel IH]; intros g l Hf Hl Hlog Hn Hm Hd; [lia|]. cbn [free_loop].
  destruct (rlist_next _ _ _ Hl) as (nd & E & Hnx). rewrite E. cbn [deref]. rewrite ret_bind, Hnx.
  pose proof (ring_NoDup _ _ Hl) as Hnd. destruct l as [|a l]; cbn [hd_or].
  - rewrite decide_False by auto. exists g. do 3 (split; [done|]). split; [by apply dom_empty_inv_L|]. split; [done|]. rewrite Hd. set_solver.
  - apply NoDup_cons in Hnd as [Ha1 Hnd]. apply NoDup_cons in Hnd as [Ha2 _].
    assert (a <> list_addr) by set_solver. rewrite decide_True by done.
    destruct (rlist_pop_front_spec _ _ _ _ Hl) as (h & Ep & H1 & H2 & H3). rewrite (bind_eq _ _ _ Ep).
    assert (log_addr ∉ [list_addr]) by (unfold log_addr, list_addr; set_solver).
    destruct (IH (mkLogging (delete a h) (delete a (messages g)) (logcount g) (next_free g)) l) as (g' & Eg & Hc & Hnf & Hmg & Hr & Hdg);
      cbn [lognodes messages].
    + simpl in Hf. lia.
    + apply ring_delete_ne; [done|set_solver].
    + apply ring_delete_ne; [|set_solver]. apply (frame_ring _ _ _ H3); [done|set_solver].
    + set_solver.
    + rewrite dom_delete_L, Hm. set_solver.
    + rewrite dom_delete_L, (frame_dom _ _ _ H3), Hd. unfold log_addr, list_addr in *. set_solver.
    + exists g'. by rewrite Eg.
Qed.

Lemma log_truncate_holds g l es : log_holds g l es ->
  exists g', log_truncate g = Ret g' /\ logcount g' = logcount g /\ log_holds g' [] [].
Proof.
  intros Hg. pose proof Hg as [Hl Hn Hd Hm He]. unfold log_truncate.
  set (h := (rlnode_init list_addr 0 (lognodes g)).2).
  assert (list_addr ∉ log_addr :: l) as Hla.
  { intros [Hx|Hx]%elem_of_cons; [done|]. eapply log_not_in; [exact Hg| |exact Hx]. unfold list_addr. lia. }
  assert (log_addr ∉ l) by (eapply log_not_in; [exact Hg|unfold log_addr; lia]).
  pose proof (ring_insert_ne (lognodes g) (log_addr :: l) list_addr (RLNode 0 list_addr list_addr) Hl Hla) as Hl1.
  assert (ring h [list_addr]) as Hr by apply ring_init.
  destruct (rlist_append_spec h list_addr [] log_addr l Hr Hl1 ltac:(set_solver)) as (h1 & E & H1 & H2 & Hf).
  rewrite (bind_eq _ _ _ E). simpl in H1.
  destruct (free_loop_holds (Datatypes.S (size h1)) (mkLogging h1 (messages g) (logcount g) (next_free g)) l)
    as (g' & Eg & Hc & Hnf & Hmg & Hrg & Hdg); cbn [lognodes messages]; try done.
  - by apply rlist_fuel in H1.
  - rewrite (frame_dom _ _ _ Hf). unfold h. cbn [rlnode_init snd]. rewrite dom_insert_L, Hd. set_solver.
  - rewrite (bind_eq _ _ _ Eg). eexists. split; [done|]. split; [done|]. split; cbn [lognodes messages next_free].
    + apply ring_delete_ne; [done|]. unfold log_addr, list_addr. set_solver.
    + by rewrite Hnf.
    + rewrite dom_delete_L, Hdg. unfold list_addr, log_addr. set_solver.
    + rewrite Hmg. set_solver.
    + constructor.
Qed.

(** ** The server *)

Record rs_globals := mkGlobals {
  quit : bool; gs_port : Z; listener : Z; listener_socket : Z; active_conn : Z; total_conn : Z; conn_id_counter : Z;
  gs_log : logging_state
}.

Definition set_listener (t : Z) (g : rs_globals) : rs_globals :=
  mkGlobals (quit g) (gs_port g) t (listener_socket g) (active_conn g) (total_conn g) (conn_id_counter g) (gs_log g).
Definition set_listener_socket (s : Z) (g : rs_globals) : rs_globals :=
  mkGlobals (quit g) (gs_port g) (listener g) s (active_conn g) (total_conn g) (conn_id_counter g) (gs_log g).
Definition set_quit (g : rs_globals) : rs_globals :=
  mkGlobals true (gs_port g) (listener g) (listener_socket g) (active_conn g) (total_conn g) (conn_id_counter g) (gs_log g).
Definition set_active (n : Z) (g : rs_globals) : rs_globals :=
  mkGlobals (quit g) (gs_port g) (listener g) (listener_socket g) n (total_conn g) (conn_id_counter g) (gs_log g).
Definition set_total (n : Z) (g : rs_globals) : rs_globals :=
  mkGlobals (quit g) (gs_port g) (listener g) (listener_socket g) (active_conn g) n (conn_id_counter g) (gs_log g).
Definition set_ids (n : Z) (g : rs_globals) : rs_globals :=
  mkGlobals (quit g) (gs_port g) (listener g) (listener_socket g) (active_conn g) (total_conn g) n (gs_log g).
Definition set_log (l : logging_state) (g : rs_globals) : rs_globals :=
  mkGlobals (quit g) (gs_port g) (listener g) (listener_socket g) (active_conn g) (total_conn g) (conn_id_counter g) l.

Section server.
Context {U : Type} (text : Z -> option (list bytes -> prog U)).
(** Where the globals of the server are in the memory, the address of [rsrv_process], and what an [int] holds that
  nobody initialised. *)
Context (globals : U -> rs_globals) (set_globals : rs_globals -> U -> U) (rsrv : Z) (junk : Z).

Definition GS {A} (f : rs_globals -> A) : stmt U A := gets (fun u => f (globals u)).
Definition GS_set (f : rs_globals -> rs_globals) : stmt U unit := puts (fun u => set_globals (f (globals u)) u).

(** An operation on the log, under the mutex; a fault ends the program. *)
Definition on_log {A} (op : logging_state -> outcome (A * logging_state)) : stmt U A := fun k => Local (fun u =>
  match op (gs_log (globals u)) with
  | Ret (a, l) => (set_globals (set_log l (globals u)) u, k a)
  | Err _ => (u, Done (-2))
  end).

Definition add_message (msg : bytes) : stmt U unit := on_log (fun l => l ← log_message msg l; Ret (tt, l)).

Definition client_message (ID : Z) (s : bytes) : bytes := str "Client[" ++ pad 6 (decimal ID) ++ str "]: " ++ s.
Definition aborting (ID : Z) : bytes := str "Cliend[" ++ pad 6 (decimal ID) ++ str "]: error in receiving request, aborting".

(** [finish]: the connection is counted as done. *)
Definition finish : stmt U Z :=
  _ ← GS_set (fun g => set_active (u64 (active_conn g - 1)) g);
  mret 0.

(** What is executed for the request [args]: [rsrv_process] with the socket and the strings of the request. *)
Definition request_argv (sock : Z) (args : bytes) : outcome (list bytes) :=
  argc ← argscount (length args) 0 args;
  '(offs, _) ← argvunpack argc 0 args;
  argv ← deref (mapM (string_at args) offs);
  Ret (str "rsrv_process" :: decimal sock :: argv).

Definition rsrv_client : Task U := fun sock _ => returns_int (
  ID ← modify (fun u => let ID := u64 (conn_id_counter (globals u) + 1) in (set_globals (set_ids ID (globals u)) u, ID));
  _ ← add_message (client_message ID (str "started"));
  '(ok, le) ← recv_message 4 sock 4 [];
  if negb ok then _ ← add_message (aborting ID); finish
  else
    let argl := s32 (of_le le) in
    if decide (0 < argl <= 2048) then
      '(ok, args) ← recv_message (Z.to_nat argl) sock (Z.to_nat argl) [];
      if negb ok then _ ← add_message (aborting ID); finish
      else
        match request_argv sock args with
        | Err _ => trap
        | Ret argv =>
            pid ← Execute text rsrv argv;
            _ ← sc (Close sock);
            r ← issue (WaitChild pid);
            let exitstatus := default junk (status r) in
            _ ← add_message (client_message ID (str "finished with status " ++ decimal exitstatus));
            finish
        end
    else trap).

(** The counters are not under the mutex here. *)
Fixpoint accept_loop (fuel : nat) (lsock port : Z) : stmt U Z :=
  match fuel with
  | O => out_of_fuel
  | Datatypes.S fuel =>
      sock ← sc (Accept lsock);
      if decide (sock = NOFILE) then
        q ← GS quit;
        if (q : bool) then mret 0
        else _ ← add_message (str "listener(port=" ++ decimal port ++ str "): failed to accept!" ++ [10]); accept_loop fuel lsock port
      else
        _ ← GS_set (fun g => set_active (u64 (active_conn g + 1)) g);
        _ ← GS_set (fun g => set_total (u64 (total_conn g + 1)) g);
        t ← sc (CreateThread (Some rsrv_client) sock None);
        _ ← sc (ThreadDetach t);
        accept_loop fuel lsock port
  end.

Definition rsrv_listener_thread (fuel : nat) : Task U := fun port _ => returns_int (
  lsock ← sc (Socket port);
  r ← sc (Listen lsock);
  if decide (r = -1) then _ ← printf (str "Cannot listen to the given port: " ++ decimal port ++ [10]); mret (-1)
  else _ ← GS_set (set_listener_socket lsock); accept_loop fuel lsock port).

(** ** The console *)

Definition print_log : stmt U unit :=
  l ← on_log (fun l => es ← log_print l; Ret (es, l));
  for_each l (fun '(num, msg) => printf (pad 6 (decimal (s32 num)) ++ str ": " ++ msg ++ [10])).

(** [Cond_Wait] when no thread is left that would signal: the server stays there. *)
Definition wait_connections : stmt U unit :=
  n ← GS active_conn;
  if decide (0 < n) then _ ← printf (str "Waiting " ++ decimal n ++ str " connections ..." ++ [10]); out_of_fuel
  else mret tt.

Definition do_quit : stmt U unit :=
  _ ← GS_set set_quit;
  _ ← printf (str "Quitting" ++ [10]);
  s ← GS listener_socket;
  _ ← sc (Close s);
  t ← GS listener;
  _ ← sc (ThreadJoin t);
  _ ← wait_connections;
  on_log (fun l => l ← log_truncate l; Ret (tt, l)).

(** What is printed for a line of the console that does not quit; [s] and [l] look at the globals. *)
Definition console_command (line : bytes) : stmt U unit :=
  if decide (line = str "s" ++ [10]) then
    a ← GS active_conn; t ← GS total_conn;
    printf (str "Connections: active=" ++ pad 4 (decimal a) ++ str " total=" ++ pad 4 (decimal t) ++ [10])
  else if decide (line = str "h" ++ [10]) then
    printf (str "Commands: " ++ [10] ++ str "q: quit the server" ++ [10] ++ str "h: print this help" ++ [10] ++
            str "s: show statistics" ++ [10] ++ str "l: show the log" ++ [10])
  else if decide (line = str "l" ++ [10]) then print_log
  else if decide (line = [10]) then mret tt
  else printf (str "Unknown command: '" ++ line ++ str "'" ++ [10]).

(** [old] is what the buffer of the line holds when [getline] fails. *)
Fixpoint console_loop (fuel : nat) (old : option bytes) : stmt U Z :=
  match fuel with
  | O => out_of_fuel
  | Datatypes.S fuel =>
      _ ← printf (str "Type h for help, or a command: ");
      rc ← getline fuel 0 [];
      match rc, old with
      | GLEof, _ => mret 0
      | GLErr, None => trap
      | GLErr, Some line | GLine line, _ =>
          if decide (line = str "q" ++ [10]) then _ ← do_quit; mret 0
          else _ ← console_command line; console_loop fuel (Some line)
      end
  end.

(** [lsock] is what [listener_socket] holds before the listener sets it; the log's store is empty. *)
Definition initial_globals (lsock : Z) : rs_globals :=
  mkGlobals false REMOTE_SERVER_DEFAULT_PORT 0 lsock 0 0 0 (log_init (mkLogging ∅ ∅ 0 3)).

Definition RemoteServer (lsock : Z) (fuel : nat) : Program := program_of (fun argv =>
  _ ← GS_set (fun _ => initial_globals lsock);
  port ← GS gs_port;
  t ← sc (CreateThread (Some (rsrv_listener_thread fuel)) port None);
  _ ← GS_set (set_listener t);
  console_loop fuel None).
End server.

(** ** A connection

  What a program does with the file [sock], up to its first other call: its reads get [input], its writes make
  [output], and [cuts] says how many bytes each call transfers, at least one and at most what it asks for. *)
Section connection.
Context {U : Type} (sock : Z).









End connection.




Section requests.
Context {U : Type} (text : Z -> option (list bytes -> prog U)).
Context (globals : U -> rs_globals) (set_globals : rs_globals -> U -> U) (rsrv junk : Z).
Context (Hglobals : forall g u, globals (set_globals g u) = g).




End requests.




(** ** Properties *)



(** Adding messages to the log, one after the other. *)
Fixpoint log_messages (ms : list bytes) (g : logging_state) : outcome logging_state :=
  match ms with
  | [] => Ret g
  | m :: ms => g ← log_message m g; log_messages ms g
  end.

(** The entries of the messages [ms], when [n] were logged before. *)
Fixpoint numbered (n : Z) (ms : list bytes) : list (Z * bytes) :=
  match ms with
  | [] => []
  | m :: ms => (u64 (n + 1), m) :: numbered (u64 (n + 1)) ms
  end.

Lemma log_messages_holds ms : forall g l es, log_holds g l es ->
  exists g' l', log_messages ms g = Ret g' /\ log_holds g' l' (es ++ numbered (logcount g) ms).
Proof.
  induction ms as [|m ms IH]; intros g l es Hg; cbn [log_messages numbered].
  - exists g, l. by rewrite app_nil_r.
  - destruct (log_message_holds g l es m Hg) as (g1 & E & Hc & Hg1). rewrite (bind_eq _ _ _ E).
    destruct (IH g1 _ _ Hg1) as (g' & l' & E' & Hg'). exists g', l'. split; [done|]. rewrite Hc, <-app_assoc in Hg'. exact Hg'.
Qed.

(** The log of the server is a list of messages: whatever is logged after [log_init], the log prints the messages
    in order, with their numbers; truncating it frees every record and leaves an empty log, which goes on counting
    where it was. *)
Theorem log_correct ms ms' n : 2 < n ->
  exists g, log_messages ms (log_init (mkLogging ∅ ∅ 0 n)) = Ret g /\ log_print g = Ret (numbered 0 ms) /\
  exists g1, log_truncate g = Ret g1 /\ messages g1 = ∅ /\ dom (lognodes g1) = {[ log_addr ]} /\
  exists g2, log_messages ms' g1 = Ret g2 /\ log_print g2 = Ret (numbered (logcount g) ms').
Proof.
  intros Hn. destruct (log_messages_holds ms _ _ _ (log_init_holds n Hn)) as (g & l & E & Hg).
  exists g. split; [done|]. split; [by eapply log_print_holds|].
  destruct (log_truncate_holds _ _ _ Hg) as (g1 & E1 & Hc & Hg1). exists g1. split; [done|].
  split; [apply dom_empty_inv_L, Hg1|]. split; [rewrite (lh_nodes _ _ _ Hg1); set_solver|].
  destruct (log_messages_holds ms' _ _ _ Hg1) as (g2 & l2 & E2 & Hg2). exists g2. split; [done|].
  rewrite (log_print_holds _ _ _ Hg2). by rewrite Hc.
Qed.

Lemma log_correct_witness : exists g, log_messages [str "one"; str "two"] (log_init (mkLogging ∅ ∅ 0 3)) = Ret g /\
  log_print g = Ret [(1, str "one"); (2, str "two")].
Proof.
  destruct (log_correct [str "one"; str "two"] [] 3) as (g & E & Hp & _); [lia|]. exists g. split; [exact E|]. exact Hp.
Defined.
