(* ===== verification/ExerciseTests.v ===== *)
(** * The tests of the exercises (validate_api.c)

  The tests of threads, pipes and sockets, which are left to be implemented in this kernel: their system calls only
  answer that they failed; and the tests of concurrency that need no clock.  A loop that burns time is left out.
  Variables that nobody initialised hold what the cells of the memory hold, and a [pipe_t] two given values. *)

From Stdlib Require Import String Ascii.
From S2P Require Import Prelude Rlist Iface Sched SchedInv SchedSys Instances Kernel Dev Streams Proc Boot Sys Prog UnitTest Argv Utilities Shell ApiTests.

#[local] Open Scope Z_scope.

(** [ASSERT(call == v)] and [ASSERT(call != v)]. *)
Definition check_eq (c : syscall (Task tmem)) (v : Z) : test unit := r ← sc c; ASSERT (bool_decide (r = v)).
Definition check_ne (c : syscall (Task tmem)) (v : Z) : test unit := r ← sc c; ASSERT (bool_decide (r <> v)).

(** A call whose result is not looked at. *)
Definition call (c : syscall (Task tmem)) : test unit := _ ← sc c; mret tt.

(** A variable, with its value so far. *)
Definition fresh_cell (v : Z) : test Z := a ← alloc 1; _ ← store_cell a v; mret a.

Definition max_fileid : Z := Z.of_nat Kernel.MAX_FILEID.
Definition MAX_PORT : Z := 1023.
Definition SHUTDOWN_READ : Z := 1.

(** ** Threads *)

(** The argument is the address of [flag]. *)
Definition flag_task (flag : Z) : Task tmem := fun _ args => returns_int (
  _ ← ASSERT (bool_decide (pointer_arg args = flag));
  _ ← store_cell (pointer_arg args) 1;
  mret 2).

Definition test_create_join_thread : Task tmem := task_of (
  flag ← fresh_cell 0;
  t ← sc (CreateThread (Some (flag_task flag)) 4 (Some (to_le POINTER flag)));
  _ ← ASSERT (bool_decide (t <> NOTHREAD));
  _ ← check_eq (ThreadJoin t) 0;
  v ← load_cell flag;
  _ ← ASSERT (bool_decide (v = 1));
  mret 0).

Definition fibo_task : Task tmem := task_of (mret 2).

Definition mthread : Task tmem := task_of (
  _ ← for_upto 5 (fun _ => check_ne (CreateThread (Some fibo_task) 0 None) NOTHREAD);
  mret 0).

Definition test_exit_many_threads : Task tmem := task_of (
  _ ← exec_task mthread 0 None;
  _ ← check_ne (WaitChild NOPROC) NOPROC;
  mret 0).

(** ** Pipes *)

Definition Hello : bytes := str "Hello world" ++ [0].

(** [Read(fd, buffer, 12)], which answers [v]: what is in the buffer then. *)
Definition read_12 (fd v : Z) (buffer : bytes) : test bytes :=
  r ← issue (Read fd 12);
  _ ← ASSERT (bool_decide (ret r = v));
  mret (data r ++ drop (length (data r)) buffer).

Definition check_Hello (buffer : bytes) : test unit := ASSERT (bool_decide (string_at buffer 0 = Some (str "Hello world"))).

Definition write_Hello (fd v : Z) : test unit := check_eq (Write fd Hello 12) v.

(** [for(int i=0;i<3;i++) { ASSERT((rc=Read(fd, buffer, 12))==12); ASSERT(strcmp(buffer, "Hello world")==0); }] *)
Fixpoint read_Hellos (n : nat) (fd : Z) (buffer : bytes) : test bytes :=
  match n with
  | O => mret buffer
  | Datatypes.S n => buffer ← read_12 fd 12 buffer; _ ← check_Hello buffer; read_Hellos n fd buffer
  end.

Fixpoint read_ends (n : nat) (fd : Z) (buffer : bytes) : test bytes :=
  match n with
  | O => mret buffer
  | Datatypes.S n => buffer ← read_12 fd 0 buffer; read_ends n fd buffer
  end.

Definition zeros : bytes := replicate 12 0.

Fixpoint producer_loop (fuel : nat) (nbytes : Z) : test unit :=
  if decide (0 < nbytes) then
    match fuel with
    | O => abort_unless false
    | Datatypes.S fuel =>
        let n := if decide (nbytes < 32768) then nbytes else 32768 in
        rc ← sc (Write 1 (replicate (Z.to_nat n) 0) (Z.to_nat n));
        _ ← abort_unless (bool_decide (0 < rc));
        producer_loop fuel (nbytes - rc)
    end
  else mret tt.

Definition int_arg (args : option bytes) : Z := s32 (of_le (default [] args)).

Definition data_producer : Task tmem := fun argl args => returns_int (
  _ ← abort_unless (bool_decide (argl = 4));
  let nbytes := int_arg args in
  _ ← call (Close 0);
  _ ← producer_loop (Z.to_nat nbytes) nbytes;
  _ ← call (Close 1);
  mret 0).

(** Every round but the last reads a byte. *)
Fixpoint consumer_loop (fuel : nat) (count : Z) : test Z :=
  match fuel with
  | O => out_of_fuel
  | Datatypes.S fuel =>
      rc ← sc (Read 0 (Z.to_nat 16384));
      _ ← abort_unless (bool_decide (0 <= rc));
      if decide (rc = 0) then mret count else consumer_loop fuel (s32 (count + rc))
  end.

Definition data_consumer (fuel : nat) : Task tmem := fun argl args => returns_int (
  _ ← abort_unless (bool_decide (argl = 4));
  let nbytes := int_arg args in
  _ ← call (Close 1);
  count ← consumer_loop fuel 0;
  _ ← ASSERT (bool_decide (count = nbytes));
  mret 0).

(** [N] is 10000000 for a single producer and 1000000 for each of ten. *)
Section pipes.
Context (pread pwrite N : Z).

Definition test_pipe_open : Task tmem := task_of (
  _ ← check_eq Pipe 0;
  _ ← for_upto 3 (fun _ => write_Hello pwrite 12);
  _ ← read_Hellos 3 pread zeros;
  mret 0).

Definition test_pipe_fails_on_exhausted_fid : Task tmem := task_of (
  _ ← for_upto (Kernel.MAX_FILEID / 2) (fun _ => check_eq Pipe 0);
  _ ← for_upto (Kernel.MAX_FILEID / 2) (fun _ => check_eq Pipe (-1));
  mret 0).

Definition test_pipe_close_reader : Task tmem := task_of (
  _ ← check_eq Pipe 0;
  _ ← for_upto 3 (fun _ => write_Hello pwrite 12);
  _ ← call (Close pread);
  _ ← for_upto 3 (fun _ => write_Hello pwrite (-1));
  mret 0).

Definition test_pipe_close_writer : Task tmem := task_of (
  _ ← check_eq Pipe 0;
  _ ← for_upto 3 (fun _ => write_Hello pwrite 12);
  buffer ← read_Hellos 3 pread zeros;
  _ ← call (Close pwrite);
  _ ← read_ends 3 pread buffer;
  mret 0).

(** The ends of the pipe become the file ids 0 and 1. *)
Definition pipe_at_01 : test unit :=
  pwrite ← (if decide (pread <> 0) then
              pwrite ← (if decide (pwrite = 0) then
                          fid ← sc OpenNull;
                          _ ← abort_unless (bool_decide (fid <> NOFILE));
                          _ ← call (Dup2 0 fid);
                          mret fid
                        else mret pwrite);
              _ ← call (Dup2 pread 0);
              _ ← call (Close pread);
              mret pwrite
            else mret pwrite);
  if decide (pwrite <> 1) then _ ← call (Dup2 pwrite 1); call (Close pwrite) else mret tt.

Definition single_producer : test Z :=
  r ← exec_task (data_consumer (Z.to_nat N + 1)) 4 (Some (to_le 4 N));
  _ ← ASSERT (bool_decide (r <> NOPROC));
  r ← exec_task data_producer 4 (Some (to_le 4 N));
  _ ← ASSERT (bool_decide (r <> NOPROC));
  _ ← call (Close 0);
  _ ← call (Close 1);
  _ ← call (WaitChild NOPROC);
  _ ← call (WaitChild NOPROC);
  mret 0.

Definition multi_producer : test Z :=
  _ ← for_upto 10 (fun _ =>
    r ← exec_task data_producer 4 (Some (to_le 4 N));
    ASSERT (bool_decide (r <> NOPROC)));
  r ← exec_task (data_consumer (Z.to_nat (10 * N) + 1)) 4 (Some (to_le 4 (10 * N)));
  _ ← ASSERT (bool_decide (r <> NOPROC));
  _ ← call (Close 0);
  _ ← call (Close 1);
  _ ← for_upto 10 (fun _ => call (WaitChild NOPROC));
  _ ← call (WaitChild NOPROC);
  mret 0.

Definition test_pipe_single_producer : Task tmem := task_of (
  _ ← check_eq Pipe 0; _ ← pipe_at_01; single_producer).

Definition test_pipe_multi_producer : Task tmem := task_of (
  _ ← check_eq Pipe 0; _ ← pipe_at_01; multi_producer).
End pipes.

(** ** Sockets *)

Definition accept_thread (lsock sock2 : Z) : Task tmem := task_of (
  s ← sc (Accept lsock);
  _ ← store_cell sock2 s;
  _ ← ASSERT (bool_decide (s <> NOFILE));
  mret 0).

Definition connect_thread (sock1 port : Z) : Task tmem := task_of (
  _ ← check_eq (Connect sock1 port 1000) 0;
  mret 0).

(** [sock2] is the address of the variable. *)
Definition connect_sockets (sock1 lsock sock2 port : Z) : test unit :=
  t1 ← sc (CreateThread (Some (accept_thread lsock sock2)) 0 None);
  t2 ← sc (CreateThread (Some (connect_thread sock1 port)) 0 None);
  _ ← ASSERT (bool_decide (t1 <> NOTHREAD));
  _ ← ASSERT (bool_decide (t2 <> NOTHREAD));
  _ ← check_eq (ThreadJoin t1) 0;
  check_eq (ThreadJoin t2) 0.

Definition check_transfer (from to : Z) : test unit :=
  _ ← write_Hello from 12;
  buffer ← read_12 to 12 zeros;
  check_Hello buffer.

(** [Fid_t srv; connect_sockets(cli, lsock, &srv, 100);] *)
Definition connected (cli lsock : Z) : test Z :=
  srv ← alloc 1;
  _ ← connect_sockets cli lsock srv 100;
  load_cell srv.

(** [lsock = Socket(100); ASSERT(lsock!=NOFILE);] *)
Definition good_socket (port : Z) : test Z :=
  s ← sc (Socket port);
  _ ← ASSERT (bool_decide (s <> NOFILE));
  mret s.

Definition listening_socket : test Z :=
  lsock ← good_socket 100;
  _ ← check_eq (Listen lsock) 0;
  mret lsock.

Definition test_socket_constructor_many_per_port : Task tmem := task_of (
  _ ← for_upto Kernel.MAX_FILEID (fun _ => check_ne (Socket 100) NOFILE);
  mret 0).

Definition test_socket_constructor_out_of_fids : Task tmem := task_of (
  _ ← for_upto Kernel.MAX_FILEID (fun _ => check_ne (Socket 100) NOFILE);
  _ ← for_upto Kernel.MAX_FILEID (fun _ => check_eq (Socket 100) NOFILE);
  mret 0).

Definition test_socket_constructor_illegal_port : Task tmem := task_of (
  _ ← check_ne (Socket NOPORT) NOFILE;
  _ ← check_ne (Socket 1) NOFILE;
  _ ← check_ne (Socket MAX_PORT) NOFILE;
  _ ← check_eq (Socket (NOPORT - 1)) NOFILE;
  _ ← check_eq (Socket (MAX_PORT + 1)) NOFILE;
  _ ← check_eq (Socket (MAX_PORT + 10)) NOFILE;
  mret 0).

Definition test_listen_success : Task tmem := task_of (
  s ← sc (Socket 100);
  _ ← check_eq (Listen s) 0;
  mret 0).

(** The call fails on an id that is not open, on a null stream, and on two that are out of range. *)
Definition fails_on_bad_fid (c : Z -> syscall (Task tmem)) : test Z :=
  _ ← check_eq (c 7) (-1);
  fid ← sc OpenNull;
  _ ← check_eq (c fid) (-1);
  _ ← check_eq (c NOFILE) (-1);
  _ ← check_eq (c max_fileid) (-1);
  mret 0.

Definition test_listen_fails_on_bad_fid : Task tmem := task_of (fails_on_bad_fid Listen).

Definition test_listen_fails_on_NOPORT : Task tmem := task_of (
  s ← sc (Socket NOPORT);
  _ ← check_eq (Listen s) (-1);
  mret 0).

Definition test_listen_fails_on_occupied_port : Task tmem := task_of (
  f ← sc (Socket 100);
  _ ← check_eq (Listen f) 0;
  s ← sc (Socket 100);
  _ ← check_eq (Listen s) (-1);
  _ ← call (Close f);
  s ← sc (Socket 100);
  _ ← check_eq (Listen s) 0;
  mret 0).

Definition test_listen_fails_on_initialized_socket : Task tmem := task_of (
  lsock ← sc (Socket 100);
  _ ← check_eq (Listen lsock) 0;
  _ ← check_eq (Listen lsock) (-1);
  sock0 ← sc (Socket 200);
  sock1 ← connected sock0 lsock;
  _ ← check_eq (Listen sock0) (-1);
  _ ← check_eq (Listen sock1) (-1);
  mret 0).

Definition test_accept_succeds : Task tmem := task_of (
  lsock ← sc (Socket 100);
  _ ← check_eq (Listen lsock) 0;
  cli ← sc (Socket NOPORT);
  _ ← connected cli lsock;
  mret 0).

Definition test_accept_fails_on_bad_fid : Task tmem := task_of (fails_on_bad_fid Accept).

Definition test_accept_fails_on_unbound_socket : Task tmem := task_of (
  s ← sc (Socket 100);
  _ ← check_eq (Accept s) (-1);
  mret 0).

Definition test_accept_fails_on_connected_socket : Task tmem := task_of (
  lsock ← sc (Socket 100);
  _ ← check_eq (Listen lsock) 0;
  cli ← sc (Socket NOPORT);
  srv ← connected cli lsock;
  _ ← check_eq (Accept srv) (-1);
  mret 0).

(** The two loops over the pairs of connections. *)
Definition all_different (cli srv : list Z) : test unit :=
  for_each (imap pair cli) (fun '(i, ci) => for_each (imap pair srv) (fun '(j, sj) =>
    _ ← ASSERT (bool_decide (ci <> sj));
    if decide (i = j) then mret tt
    else
      _ ← ASSERT (bool_decide (srv !! i <> Some sj));
      ASSERT (bool_decide (Some ci <> cli !! j)))).

Definition test_accept_reusable : Task tmem := task_of (
  lsock ← listening_socket;
  pairs ← for_map (seq 0 (Kernel.MAX_FILEID / 2 - 1)) (fun _ =>
    cli ← sc (Socket NOPORT);
    srv ← connected cli lsock;
    mret (cli, srv));
  _ ← all_different (fst <$> pairs) (snd <$> pairs);
  mret 0).

Definition accept_connection (lsock : Z) : Task tmem := task_of (
  _ ← check_eq (Accept lsock) NOFILE;
  mret 0).

Definition test_accept_fails_on_exhausted_fid : Task tmem := task_of (
  lsock ← listening_socket;
  _ ← (if decide (Z.land max_fileid 1 = 1) then call OpenNull else mret tt);
  _ ← for_upto ((Kernel.MAX_FILEID - 1) / 2) (fun _ =>
    cli ← good_socket NOPORT;
    _ ← connected cli lsock;
    mret tt);
  cli ← good_socket NOPORT;
  t ← sc (CreateThread (Some (accept_connection lsock)) 0 None);
  _ ← check_eq (Connect cli 100 1000) (-1);
  _ ← call (ThreadJoin t);
  mret 0).

Definition test_accept_unblocks_on_close : Task tmem := task_of (
  lsock ← listening_socket;
  t ← sc (CreateThread (Some (accept_connection lsock)) 0 None);
  _ ← call (Close lsock);
  _ ← call (ThreadJoin t);
  mret 0).

(** It calls [Accept], as the test of that call does. *)
Definition test_connect_fails_on_bad_fid : Task tmem := task_of (fails_on_bad_fid Accept).

Definition test_connect_fails_on_bad_socket : Task tmem := task_of (
  lsock ← listening_socket;
  _ ← check_eq (Connect lsock 100 1000) (-1);
  cli ← good_socket NOPORT;
  srv ← connected cli lsock;
  _ ← check_eq (Connect cli 100 1000) (-1);
  _ ← check_eq (Connect srv 100 1000) (-1);
  mret 0).

Definition test_connect_fails_on_illegal_port : Task tmem := task_of (
  cli ← sc (Socket 10);
  _ ← check_eq (Connect cli NOPORT 100) (-1);
  _ ← check_eq (Connect cli (MAX_PORT + 1) 100) (-1);
  mret 0).

Definition test_connect_fails_on_non_listened_port : Task tmem := task_of (
  cli ← sc (Socket 10);
  _ ← check_eq (Connect cli 100 100) (-1);
  mret 0).

Definition test_connect_fails_on_timeout : Task tmem := task_of (
  _ ← listening_socket;
  cli ← sc (Socket 10);
  _ ← check_eq (Connect cli 100 100) (-1);
  mret 0).

(** [if(fid!=at) { Dup2(fid,at); Close(fid); }], with and without assertions. *)
Definition move_fid (fid at_ : Z) : test unit :=
  if decide (fid <> at_) then _ ← call (Dup2 fid at_); call (Close fid) else mret tt.
Definition checked_move_fid (fid at_ : Z) : test unit :=
  if decide (fid <> at_) then _ ← check_eq (Dup2 fid at_) 0; check_eq (Close fid) 0 else mret tt.

(** [rounds] is 32768, and 2000 in the last two tests. *)
Section transfers.
Context (rounds : nat).

(** [lsock] is closed when it was moved to 0, and goes on being used. *)
Definition test_socket_small_transfer : Task tmem := task_of (
  lsock ← good_socket 100;
  _ ← move_fid lsock 0;
  sock0 ← good_socket NOPORT;
  _ ← check_eq (Listen lsock) 0;
  sock1 ← connected sock0 lsock;
  _ ← for_upto rounds (fun _ => _ ← check_transfer sock0 sock1; check_transfer sock1 sock0);
  mret 0).

(** A connection of the file ids 0 and 1. *)
Definition socket_at_01 : test unit :=
  fid ← good_socket NOPORT;
  _ ← checked_move_fid fid 0;
  lsock ← good_socket 100;
  _ ← checked_move_fid lsock 2;
  _ ← check_eq (Listen 2) 0;
  srv ← connected 0 2;
  checked_move_fid srv 1.

Definition test_socket_single_producer (N : Z) : Task tmem := task_of (_ ← socket_at_01; single_producer N).
Definition test_socket_multi_producer (N : Z) : Task tmem := task_of (_ ← socket_at_01; multi_producer N).

(** The start of the tests of [ShutDown]: the two ends. *)
Definition warm_connection : test (Z * Z) :=
  lsock ← good_socket 100;
  _ ← move_fid lsock 0;
  _ ← check_eq (Listen lsock) 0;
  cli ← good_socket NOPORT;
  srv ← connected cli lsock;
  _ ← for_upto rounds (fun _ => _ ← check_transfer cli srv; check_transfer srv cli);
  mret (cli, srv).

Definition test_shudown_read : Task tmem := task_of (
  '(cli, srv) ← warm_connection;
  _ ← write_Hello srv 12;
  _ ← call (ShutDown cli SHUTDOWN_READ);
  _ ← read_12 cli (-1) zeros;
  _ ← write_Hello srv (-1);
  _ ← for_upto rounds (fun _ => _ ← write_Hello srv (-1); check_transfer cli srv);
  mret 0).

Definition test_shudown_write : Task tmem := task_of (
  '(cli, srv) ← warm_connection;
  _ ← for_upto 3 (fun _ => write_Hello srv 12);
  _ ← call (ShutDown srv SHUTDOWN_WRITE);
  _ ← write_Hello srv (-1);
  buffer ← read_Hellos 3 cli zeros;
  _ ← for_upto rounds (fun _ => _ ← read_12 cli 0 buffer; check_transfer cli srv);
  mret 0).
End transfers.

(** ** Concurrency *)

(** [get_timestamp], on the cell [ts]. *)
Definition get_timestamp (ts : Z) : test Z :=
  modify (fun u => let v := default 0 (cells u !! ts) in (set_cell ts (u32 (v + 1)) u, v)).

Definition timestamp_child (ts tschild : Z) : Task tmem := task_of (
  t ← get_timestamp ts;
  _ ← store_cell tschild t;
  mret 1).

Definition test_multitask : Task tmem := task_of (
  timestamp ← fresh_cell 0;
  tschild ← alloc 1;
  _ ← exec_task (timestamp_child timestamp tschild) 0 None;
  ts ← get_timestamp timestamp;
  _ ← call (WaitChild NOPROC);
  tc ← load_cell tschild;
  _ ← ASSERT (bool_decide (ts < tc));
  mret 0).

(** The arguments are two pointers. *)
Definition preempted_child (ts : Z) : Task tmem := fun argl args => returns_int (
  _ ← abort_unless (bool_decide (argl = 16));
  let start := of_le (take 8 (default [] args)) in
  let end_ := of_le (drop 8 (default [] args)) in
  t ← get_timestamp ts;
  _ ← store_cell start t;
  t ← get_timestamp ts;
  _ ← store_cell end_ t;
  mret 0).

Definition test_preemption : Task tmem := task_of (
  timestamp ← fresh_cell 0;
  start ← alloc 2;
  end_ ← alloc 2;
  _ ← for_each [0; 1] (fun i =>
    _ ← exec_task (preempted_child timestamp) 16 (Some (to_le 8 (start + i) ++ to_le 8 (end_ + i)));
    mret tt);
  _ ← for_upto 2 (fun _ => call (WaitChild NOPROC));
  _ ← for_each [(0, 1); (1, 0)] (fun '(i, j) =>
    s ← load_cell (start + i);
    e ← load_cell (end_ + j);
    ASSERT (bool_decide (s < e)));
  mret 0).

(** ** Terminals *)

Definition open_at_0 (term : nat) : test unit :=
  f ← sc (OpenTerminal term);
  _ ← ASSERT (bool_decide (f <> NOFILE));
  checked_move_fid f 0.

(** A line of at most [fuel] bytes; [getline] answers their number, or -1. *)
Definition input_line (fuel : nat) : Task tmem := task_of (
  l ← getline fuel 0 [];
  _ ← ASSERT (bool_decide (match l with GLine s => Z.of_nat (length s) | _ => -1 end <> 0));
  mret 0).

Definition test_input_concurrency : Task tmem := task_of (
  _ ← open_at_0 0;
  p0 ← exec_task (input_line 100) 0 None;
  _ ← open_at_0 1;
  p1 ← exec_task (input_line 100) 0 None;
  _ ← sendme 0 (str "Hello ");
  _ ← sendme 1 (str "Hellow world" ++ [10]);
  _ ← check_eq (WaitChild p1) p1;
  _ ← sendme 0 (str " world" ++ [10]);
  _ ← check_eq (WaitChild p0) p0;
  mret 0).

(** ** The suites *)

Definition thread_tests : Test := SUITE_FUNC "thread_tests" [
  boot_test "test_create_join_thread" test_create_join_thread 0;
  boot_test "test_exit_many_threads" test_exit_many_threads 0
]%string.

Definition pipe_tests (pread pwrite N1 N10 : Z) : Test := SUITE_FUNC "pipe_tests" [
  boot_test "test_pipe_open" (test_pipe_open pread pwrite) 0;
  boot_test "test_pipe_fails_on_exhausted_fid" test_pipe_fails_on_exhausted_fid 0;
  boot_test "test_pipe_close_reader" (test_pipe_close_reader pread pwrite) 0;
  boot_test "test_pipe_close_writer" (test_pipe_close_writer pread pwrite) 0;
  boot_test "test_pipe_single_producer" (test_pipe_single_producer pread pwrite N1) 0;
  boot_test "test_pipe_multi_producer" (test_pipe_multi_producer pread pwrite N10) 0
]%string.

Definition socket_tests (rounds : nat) (N1 N10 : Z) : Test := SUITE_FUNC "socket_tests" [
  boot_test "test_socket_constructor_many_per_port" test_socket_constructor_many_per_port 0;
  boot_test "test_socket_constructor_out_of_fids" test_socket_constructor_out_of_fids 0;
  boot_test "test_socket_constructor_illegal_port" test_socket_constructor_illegal_port 0;
  boot_test "test_listen_success" test_listen_success 0;
  boot_test "test_listen_fails_on_bad_fid" test_listen_fails_on_bad_fid 0;
  boot_test "test_listen_fails_on_NOPORT" test_listen_fails_on_NOPORT 0;
  boot_test "test_listen_fails_on_occupied_port" test_listen_fails_on_occupied_port 0;
  boot_test "test_listen_fails_on_initialized_socket" test_listen_fails_on_initialized_socket 0;
  boot_test "test_accept_succeds" test_accept_succeds 0;
  boot_test "test_accept_fails_on_bad_fid" test_accept_fails_on_bad_fid 0;
  boot_test "test_accept_fails_on_unbound_socket" test_accept_fails_on_unbound_socket 0;
  boot_test "test_accept_fails_on_connected_socket" test_accept_fails_on_connected_socket 0;
  boot_test "test_accept_reusable" test_accept_reusable 0;
  boot_test "test_accept_fails_on_exhausted_fid" test_accept_fails_on_exhausted_fid 0;
  boot_test "test_accept_unblocks_on_close" test_accept_unblocks_on_close 0;
  boot_test "test_connect_fails_on_bad_fid" test_connect_fails_on_bad_fid 0;
  boot_test "test_connect_fails_on_bad_socket" test_connect_fails_on_bad_socket 0;
  boot_test "test_connect_fails_on_illegal_port" test_connect_fails_on_illegal_port 0;
  boot_test "test_connect_fails_on_non_listened_port" test_connect_fails_on_non_listened_port 0;
  boot_test "test_connect_fails_on_timeout" test_connect_fails_on_timeout 0;
  boot_test "test_socket_small_transfer" (test_socket_small_transfer rounds) 0;
  boot_test "test_socket_single_producer" (test_socket_single_producer N1) 0;
  boot_test "test_socket_multi_producer" (test_socket_multi_producer N10) 0;
  boot_test "test_shudown_read" (test_shudown_read rounds) 0;
  boot_test "test_shudown_write" (test_shudown_write rounds) 0
]%string.

(** [test_parallelism] and [test_term_input_driver_interrupt] measure time; they are in [ClockTests], and not in these. *)
Definition concurrency_tests : Test := SUITE_FUNC "concurrency_tests" [
  boot_test "test_multitask" test_multitask 0;
  boot_test "test_preemption" test_preemption 0
]%string.

Definition io_tests : Test := SUITE_FUNC "io_tests" [boot_test "test_input_concurrency" test_input_concurrency 2]%string.

Definition dummy_user_test : bool := bool_decide (1 + 1 = 2).
Definition user_tests : Test := SUITE_FUNC "user_tests" [BARE_FUNC "dummy_user_test" dummy_user_test]%string.

Definition all_tests (basic pipes sockets : Test) : Test := SUITE_FUNC "all_tests" [basic; thread_tests; pipes; sockets]%string.

(** ** What passes *)

#[local] Instance wake_in_exercises : WakeOps tid (Sched.sched Z) := sched_wake 0.

Definition run_one (terms : list nat) : Test -> bool :=
  run_test (fun _ : tid => 1) initialize_scheduler (mkSched ∅ ∅ ∅ 0 ∅ 0) 32 2000 [1%nat] terms.

(** The names of the tests of a suite that pass. *)
Definition passing (terms : list nat) (t : Test) : list string :=
  match t with SUITE_FUNC _ suite => test_name <$> filter (fun t => Is_true (run_one terms t)) suite | _ => [] end.

(** Does the machine halt in every test of a suite, whatever the test finds? *)
Definition halts (terms : list nat) (t : Test) : bool :=
  match t with
  | BOOT_FUNC _ boot _ _ =>
      forallb (fun n => match execute_boot (fun _ : tid => 1) initialize_scheduler (mkSched ∅ ∅ ∅ 0 ∅ 0) 32 2000 n boot 0 None with
                        | Ret _ => true | Err _ => false end) terms
  | _ => true
  end.
Definition all_halt (terms : list nat) (t : Test) : bool :=
  match t with SUITE_FUNC _ suite => forallb (halts terms) suite | _ => halts terms t end.

(** Threads, pipes and sockets are not implemented: of their tests exactly those pass that ask for nothing but
    failures, and the machine halts in each of them.  The tests of concurrency pass. *)
Theorem exercises_passing :
  passing [0]%nat thread_tests = [] /\ all_halt [0]%nat thread_tests = true /\
  passing [0]%nat (pipe_tests 5 6 100 10) = [] /\ all_halt [0]%nat (pipe_tests 5 6 100 10) = true /\
  passing [0]%nat (socket_tests 3 100 10) = ["test_listen_fails_on_bad_fid"; "test_listen_fails_on_NOPORT"; "test_accept_fails_on_bad_fid";
    "test_accept_fails_on_unbound_socket"; "test_connect_fails_on_bad_fid"; "test_connect_fails_on_illegal_port"; "test_connect_fails_on_non_listened_port"]%string /\
  all_halt [0]%nat (socket_tests 3 100 10) = true /\
  passing [0]%nat concurrency_tests = ["test_multitask"; "test_preemption"]%string /\
  passing [2]%nat io_tests = ["test_input_concurrency"]%string /\
  run_one [0]%nat user_tests = true.
Proof. vm_compute. repeat split. Qed.

(** ** The program

  [main]: the tests that are available are those of the system and those of the user. *)
Definition validate_main (description : Test -> bytes) (timeout minimum_cores minimum_terminals : Test -> Z) (tty : bool)
    (basic pipes sockets : Test) (run : program_arguments -> Test -> bool) (ks : list key) (m : msg_state) : outcome (option (bytes + list bool)) :=
  let tests := all_tests basic pipes sockets in
  let available := default [] (l ← register_test tests []; register_test user_tests l) in
  run_program description timeout minimum_cores minimum_terminals tty run available tests ks m.
