(* ===== verification/ClockTests.v ===== *)
(** * The tests that measure time (validate_api.c)

  [test_parallelism] and [test_term_input_driver_interrupt].  The clock is an argument: [now n] is what its [n]th reading
  gives, in microseconds, and what the tests compute with it is exact.  The numbers of runs and of processes are
  arguments as well. *)

From Stdlib Require Import String Ascii.
From S2P Require Import Prelude Rlist Iface Sched SchedInv SchedSys Instances Kernel Dev Streams Proc Boot Sys Prog UnitTest Symposium ApiTests ExerciseTests.

#[local] Open Scope Z_scope.

(** [fibo(35)], as [fibo35_ok] shows. *)
Definition fibo35 : Z := 9227465.

Definition compute_child : Task tmem := task_of (mret (if decide (fibo35 mod 3 = 1) then 1 else 0)).

Section clock.
Context (now : Z -> Z).

(** The cell [clock] counts the readings. *)
Definition mark_time (clock : Z) : test Z :=
  modify (fun u => let n := default 0 (cells u !! clock) in (set_cell clock (n + 1) u, now n)).

Definition time_since (clock t0 : Z) : test Z := t1 ← mark_time clock; mret (t1 - t0).

(** The smallest and the largest time so far; the first run sets both. *)
Definition note_time (I : nat) (Trun : Z) (mm : Z * Z) : Z * Z :=
  if decide (I = 0%nat) then (Trun, Trun)
  else (if decide (Trun < mm.1) then Trun else mm.1, if decide (mm.2 < Trun) then Trun else mm.2).

(** ** Input that interrupts *)

Definition input_char : Task tmem := task_of (_ ← check_eq (Read 0 1) 1; mret 0).

(** One run; [n] runs, from the [I]th on. *)
Definition compute_run (clock : Z) : test Z :=
  t0 ← mark_time clock;
  pid ← exec_task compute_child 0 None;
  _ ← ASSERT (bool_decide (pid <> NOPROC));
  _ ← check_eq (WaitChild pid) pid;
  time_since clock t0.

Fixpoint run_times (clock : Z) (n I : nat) (mm : Z * Z) : test (Z * Z) :=
  match n with
  | O => mret mm
  | Datatypes.S n => Trun ← compute_run clock; run_times clock n (Datatypes.S I) (note_time I Trun mm)
  end.

Definition run_with_io (clock : Z) (ntimes nioproc : nat) (mm : Z * Z) : test (Z * Z) :=
  _ ← for_upto nioproc (fun _ => pid ← exec_task input_char 0 None; ASSERT (bool_decide (pid <> NOPROC)));
  mm ← run_times clock ntimes 0 mm;
  _ ← sendme 0 (replicate nioproc 65);
  _ ← for_upto nioproc (fun _ => check_ne (WaitChild NOPROC) NOPROC);
  mret mm.

(** [(T1000-T0)/T0 < 0.1], where a division by zero does not give a number below. *)
Definition fast_enough (T1000 T0 : Z) : bool :=
  if decide (0 < T0) then bool_decide (10 * (T1000 - T0) < T0)
  else if decide (T0 = 0) then bool_decide (T1000 < 0)
  else bool_decide (T0 < 10 * (T1000 - T0)).

Definition test_term_input_driver_interrupt (ntimes nioproc : nat) : Task tmem := task_of (
  clock ← fresh_cell 0;
  fid ← sc (OpenTerminal 0);
  _ ← ASSERT (bool_decide (fid <> NOFILE));
  _ ← (if decide (fid <> 0) then _ ← check_eq (Dup2 fid 0) 0; check_eq (Close fid) 0 else mret tt);
  mm ← run_with_io clock ntimes nioproc (0, 0);
  let T1000 := mm.1 in
  mm ← run_with_io clock ntimes 0 mm;
  let T0 := mm.1 in
  _ ← ASSERT_MSG (fast_enough T1000 T0);
  mret 0).

(** ** Cores in parallel

  The test boots a machine for each run.  How many cores the machine has matters for the time only. *)
Definition run_twice (clock trun : Z) : Task tmem := task_of (
  tstart ← mark_time clock;
  _ ← exec_task compute_child 0 None;
  _ ← exec_task compute_child 0 None;
  _ ← call (WaitChild NOPROC);
  _ ← call (WaitChild NOPROC);
  t ← time_since clock tstart;
  _ ← store_cell trun t;
  mret 0).

(** [fabs(T1/T2 - 2.0) < 0.4] *)
Definition halved (T1 T2 : Z) : bool :=
  if decide (0 < T2) then bool_decide (16 * T2 < 10 * T1 < 24 * T2) else bool_decide (T2 <> 0 /\ 24 * T2 < 10 * T1 < 16 * T2).

Section boots.
Context {T S : Type} `{SpawnOps T S} `{WakeOps T S}.
Context (tid_of : T -> Z) (initialize_scheduler : S -> S) (sched0 : S) (max_proc fuel : nat).

Definition boot_run (task : Task tmem) (u : tmem) : outcome tmem :=
  s ← (Sys.boot initialize_scheduler max_proc max_proc task 0 None sched0 ([] : ttys) u : outcome (sys tmem T S ttys));
  s ← test_run tid_of max_proc fuel s;
  Ret (memory s).

Fixpoint run_boots (clock trun : Z) (n I : nat) (minTrun : Z) (u : tmem) : outcome (Z * tmem) :=
  match n with
  | O => Ret (minTrun, u)
  | Datatypes.S n =>
      u ← boot_run (run_twice clock trun) u;
      run_boots clock trun n (Datatypes.S I) (note_time I (default 0 (cells u !! trun)) (minTrun, minTrun)).1 u
  end.

(** [online] is the number of the host's processors; the test ends at once if there is only one. *)
Definition test_parallelism (online : Z) (ntimes : nat) : outcome bool :=
  if decide (online < 2) then Ret true
  else
    let u := mkTmem false ∅ 10 [] in
    '(T1, u) ← run_boots 8 9 ntimes 0 0 u;
    '(T2, u) ← run_boots 8 9 ntimes 0 0 u;
    Ret (halved T1 T2 && negb (FLAG_FAILURE u)).
End boots.
End clock.

(** ** What the children compute *)

(** Two numbers in a row, without computing any twice. *)
Fixpoint fibo_pair (n : nat) : Z * Z :=
  match n with O => (0, 1) | Datatypes.S n => let '(a, b) := fibo_pair n in (b, u32 (b + a)) end.

Lemma fibo_pair_ok n : fibo_pair n = (fibo n, fibo (Datatypes.S n)).
Proof. induction n as [|n IH]; [done|]. cbn [fibo_pair]. rewrite IH. done. Qed.

Lemma fibo_fast n : fibo n = (fibo_pair n).1.
Proof. by rewrite fibo_pair_ok. Qed.

Lemma fibo35_ok : fibo 35 = fibo35.
Proof. rewrite fibo_fast. vm_compute. reflexivity. Qed.

(** ** What the tests measure *)

(** The time of several runs is the shortest of theirs, and the longest is kept as well. *)
Definition note_all (runs : list Z) (mm : Z * Z) : nat * (Z * Z) :=
  foldl (fun r Trun => (Datatypes.S r.1, note_time r.1 Trun r.2)) (0%nat, mm) runs.

Lemma note_all_shortest Trun runs mm : (note_all (Trun :: runs) mm).2 = (foldl Z.min Trun runs, foldl Z.max Trun runs).
Proof.
  unfold note_all. cbn [foldl fst snd]. assert (note_time 0 Trun mm = (Trun, Trun)) as -> by done.
  assert (forall n lo hi, (foldl (fun r Trun => (Datatypes.S r.1, note_time r.1 Trun r.2)) (Datatypes.S n, (lo, hi)) runs).2 =
    (foldl Z.min lo runs, foldl Z.max hi runs)) as Hall; [|apply Hall].
  induction runs as [|x runs IH]; intros n lo hi; [done|]. cbn [foldl fst snd]. unfold note_time at 2. rewrite decide_False by done. cbn [fst snd].
  rewrite IH. f_equal; f_equal; destruct (decide _); lia.
Qed.

#[local] Instance wake_in_clock_tests : WakeOps tid (Sched.sched Z) := sched_wake 0.

Definition interrupt_test (now : Z -> Z) (nioproc : nat) : outcome bool :=
  execute_boot (fun _ : tid => 1) initialize_scheduler (mkSched ∅ ∅ ∅ 0 ∅ 0) 64 2000 1 (test_term_input_driver_interrupt now 10 nioproc) 0 None.

Definition parallelism_test (now : Z -> Z) (online : Z) : outcome bool :=
  test_parallelism now (fun _ : tid => 1) initialize_scheduler (mkSched ∅ ∅ ∅ 0 ∅ 0) 16 500 online 10.

(** The readers do not keep the other processes from running, they get what is typed, and all of them end: the test
  passes if the runs with readers take no longer, and fails if they take an eighth more. *)
Example interrupt_test_ends :
  interrupt_test (fun n => 80 * n) 50 = Ret true /\
  interrupt_test (fun n => if decide (n < 20) then 90 * n else 80 * n) 50 = Ret false.
Proof. vm_compute. done. Qed.

(** The test of parallelism passes if the second ten runs take half of the time of the first ten, and fails if they take
  as long; on a host with one processor nothing is tested. *)
Example parallelism_test_ends :
  parallelism_test (fun n => if decide (n < 20) then 100 * n else 50 * n) 2 = Ret true /\
  parallelism_test (fun n => 100 * n) 2 = Ret false /\
  parallelism_test (fun n => 100 * n) 1 = Ret true.
Proof. vm_compute. done. Qed.
