(* ===== verification/BiosExamples.v ===== *)
(** * Programs on the bare machine (bios_example1.c to bios_example5.c)

  The boot code of the examples, on the machine of [VmLife]. *)

From Stdlib Require Import String.
From S2P Require Import Prelude Rlist Bios VmLife Kernel Prog.
#[local] Open Scope nat_scope.

(** ** bios_example1.c *)

Module Example1.
Inductive pc := Hello | End.

Definition example1_bootfunc (c : nat) (l : pc) : binstr pc :=
  match l with Hello => BPrint "Hello from core %u" [c] End | End => BReturn end.

Lemma hello_balanced n ports : balanced n ports (fun _ => Hello) example1_bootfunc 0 (fun _ => 0) (fun _ => false).
Proof. split; [by split|]. by intros c [] _. Qed.
End Example1.

(** ** bios_example2.c *)

Module Example2.
Inductive pc := Hello | Sync | Bye | End.

Definition example2_bootfunc (c : nat) (l : pc) : binstr pc :=
  match l with
  | Hello => BPrint "Hello from core %u" [c] Sync
  | Sync => BSync Bye
  | Bye => BPrint "Bye from core %u" [c] End
  | End => BReturn
  end.

Definition syncs_left (l : pc) : nat := match l with Hello | Sync => 1 | _ => 0 end.

Lemma hello_bye_balanced n ports : balanced n ports (fun _ => Hello) example2_bootfunc 1 syncs_left (fun _ => false).
Proof. split; [by split|]. by intros c [] _. Qed.

(** Who is past its greeting has greeted; who has said farewell has passed the barrier. *)
Definition greeted (p : core_place pc) : bool := match p with Booting | AtStart _ | Boot Hello => false | _ => true end.

Record told (m : machine pc) : Prop := {
  to_hello c p : threads m !! c = Some p -> greeted p = true -> Printed "Hello from core %u" [c] ∈ trace m;
  to_bye c : Printed "Bye from core %u" [c] ∈ trace m -> 1 <= generation (core_barrier m)
}.

Lemma by_program_in e (es : list event) : by_program e = true -> e ∈ es <-> e ∈ filter (fun e => by_program e = true) es.
Proof. intros He. rewrite list_elem_of_filter. tauto. Qed.

Lemma told_step n ports m m' : minv n ports 1 syncs_left (fun _ => false) m -> told m -> machine_step (fun _ => Hello) example2_bootfunc m m' -> told m'.
Proof.
  intros I [T1 T2] [a m1 E]. destruct (turn_effect _ _ _ _ _ E) as (Hg & es & He & [[Ht Ho]|(c & p & p' & Hp & Ht & Hm)]).
  - split.
    + intros c p. rewrite Ht, He. intros Hc Hp. apply elem_of_app. left. by eapply T1.
    + intros c. rewrite He, elem_of_app, (by_program_in _ es), Ho by done. intros [Hc|?%not_elem_of_nil]; [|done]. pose proof (T2 c Hc). lia.
  - split.
    + intros d q. rewrite Ht, He, elem_of_app. intros [(<- & <- & _)|[Hne Hd]]%list_lookup_insert_Some Hq; [|left; by eapply T1].
      destruct (greeted p) eqn:Hgp; [left; by eapply T1|]. right. apply by_program_in; [done|].
      destruct p as [|g|[]| | | | | | | | |]; simpl in Hm, Hgp; try done; destruct Hm as [Hm ->]; [..|list_mem].
      * destruct Hm as [-> |[g ->]]; done.
      * destruct Hm as [-> |[g' ->]]; done.
    + intros d. rewrite He, elem_of_app, (by_program_in _ es) by done. intros [Hd|Hd]; [pose proof (T2 d Hd); lia|].
      assert (p = Boot Bye) as ->.
      { destruct p as [|g|[]| | | | | | | | |]; simpl in Hm; try done; destruct Hm as [_ E0]; rewrite E0 in Hd;
          try (by apply not_elem_of_nil in Hd); by apply list_elem_of_singleton in Hd. }
      pose proof (core_of _ _ _ _ _ m c _ I Hp) as Hc. simpl in Hc. lia.
Qed.

(** In the second example no core says farewell before all have greeted. *)
Theorem hello_before_bye n time is_ready m0 m c d : vm_started n 0 time is_ready = Ret m0 -> reach (machine_step (fun _ => Hello) example2_bootfunc) m0 m ->
  d < n -> Printed "Bye from core %u" [c] ∈ trace m -> Printed "Hello from core %u" [d] ∈ trace m.
Proof.
  intros Hs Hr Hd Hc. pose proof (hello_bye_balanced n 0) as Hb. assert (minv n 0 1 syncs_left (fun _ => false) m0) as I0 by (by eapply vm_started_ok).
  assert (minv n 0 1 syncs_left (fun _ => false) m /\ told m) as [I T].
  { eapply (reach_invariant _ (fun m => minv n 0 1 syncs_left (fun _ => false) m /\ told m)); [|exact Hr|].
    - intros m1 m2 [I1 T1] Hst. split; [|by eapply told_step]. eapply machine_reach_inv; [exact Hb|exact I1|]. by eapply reach_step; [apply reach_refl|].
    - split; [done|]. unfold vm_started in Hs. apply bind_Ret in Hs as (v & _ & [= <-]). split; simpl.
      + intros e p [-> _]%lookup_replicate. done.
      + by intros e ?%not_elem_of_nil. }
  assert (exists p, threads m !! d = Some p) as [p Hp] by (apply lookup_lt_is_Some_2; by rewrite (mi_len _ _ _ _ _ _ I)).
  eapply to_hello; [exact T|exact Hp|]. pose proof (to_bye _ T c Hc) as Hg. pose proof (core_of _ _ _ _ _ m d p I Hp) as Hcp.
  destruct p as [|g|[]| | | | | | | | |]; simpl in *; try done; lia.
Qed.

(** Two cores: core 1 is the last to greet, and the first to say farewell. *)
Definition example2 : machine pc :=
  match vm_started 2 0 1000 (fun _ _ => false) with
  | Ret m => m
  | Err _ => mkMachine (mkVm ∅ ∅ ∅ 0 true 0 0 0) [] PicStart (mkBarrier 0 0) (mkBarrier 0 0) []
  end.

Definition farewell : machine pc := machine_run (fun _ => Hello) example2_bootfunc (PicMove quiet :: cores_moves [0; 1; 0; 0; 0; 0; 1; 1; 1]) example2.

Lemma hello_before_bye_witness : Printed "Bye from core %u" [1] ∈ trace farewell /\ Printed "Hello from core %u" [0] ∈ trace farewell.
Proof.
  assert (Printed "Bye from core %u" [1] ∈ trace farewell) as Hb by (apply (list_elem_of_lookup_2 (trace farewell) 2); vm_compute; reflexivity).
  split; [exact Hb|]. apply (hello_before_bye 2 1000 (fun _ _ => false) example2 farewell 1 0); [vm_compute; reflexivity|apply machine_run_reach|lia|exact Hb].
Defined.
End Example2.

(** ** bios_example3.c *)

Module Example3.
Inductive pc := Setting | SetHandler | SetTimer | Announce | Halt | WokeUp | End.

Definition alarm_handler : hdl := "ALARM on core %u".

Definition example3_bootfunc (c : nat) (l : pc) : binstr pc :=
  match l with
  | Setting => BPrint "Core %u setting alarm at %d sec." [c; c + 1] SetHandler
  | SetHandler => BCall (VSetHandler c ALARM (Some alarm_handler)) SetTimer
  | SetTimer => BCall (VSetTimer c (1000000 * Z.of_nat (c + 1)) (mkTime 0 0)) Announce
  | Announce => BPrint "Core %u halting." [c] Halt
  | Halt => BHalt WokeUp
  | WokeUp => BPrint "Core %u woke up" [c] End
  | End => BReturn
  end.

Lemma alarm_balanced n ports : balanced n ports (fun _ => Setting) example3_bootfunc 0 (fun _ => 0) (fun _ => false).
Proof. split; [by split|]. intros c [] _; simpl; rewrite ?bool_decide_true; done. Qed.
End Example3.

(** ** bios_example4.c *)

Module Example4.
Inductive pc := Core | Loop (i : nat) | SetHandler (i : nat) | SetTimer (i : nat) | Sleeping (i : nat) | Usleep (i : nat) | WokeUp (i : nat) | Done | End.

Definition handle_alarm : hdl := "ALARM in core %d".

Definition example4_bootfunc (c : nat) (l : pc) : binstr pc :=
  match l with
  | Core => BPrint "Core %d" [c] (Loop 0)
  | Loop i => BLocal (if decide (i < 3) then SetHandler i else Done)
  | SetHandler i => BCall (VSetHandler c ALARM (if Nat.even i then Some handle_alarm else None)) (SetTimer i)
  | SetTimer i => BCall (VSetTimer c 1000000 (mkTime 0 0)) (Sleeping i)
  | Sleeping i => BPrint "Core %d is sleeping, i=%d" [c; i] (Usleep i)
  | Usleep i => BLocal (WokeUp i)
  | WokeUp i => BPrint "Core %d woke up, i=%d" [c; i] (Loop (S i))
  | Done => BPrint "Finished with core %d" [c] End
  | End => BReturn
  end.

Lemma sleep_balanced n ports : balanced n ports (fun _ => Core) example4_bootfunc 0 (fun _ => 0) (fun _ => false).
Proof. split; [by split|]. intros c [] _; simpl; rewrite ?bool_decide_true; done. Qed.
End Example4.

(** ** bios_example5.c

  A core reads lines from its terminal and repeats them, through a C stream on [read_serial] and [write_serial] with a
  buffer of [bufsz] bytes.  [getline] calls [read_serial] until it has a newline; what is printed is written by
  [write_serial] at [fflush].  The control points have the local variables: the number of lines that are left, the line
  that [getline] has, and the room in the buffer. *)

Module Example5.
Section example5.
Context (bufsz : nat).

(** What follows a [fflush]. *)
Inductive next := GetLine (n : nat) | CheckExit (n : nat) (line : bytes) | Leave.

Inductive pc :=
  | SetTx | SetRx
  | While (n : nat)
  | Put (text : bytes) (k : next)
  | Get (n : nat) (line : bytes) (size : nat)
  | Off (n : nat) (line : bytes) (size : nat)
  | Poll (n : nat) (line : bytes) (size : nat)
  | On (n : nat) (line : bytes) (size : nat) (c : Z)
  | Store (n : nat) (line : bytes) (size : nat) (c : Z)
  | End.

(** The bytes of a buffer as a string of C: up to a zero. *)
Fixpoint up_to_zero (b : bytes) : bytes :=
  match b with [] => [] | x :: b => if decide (x = 0%Z) then [] else x :: up_to_zero b end.

Definition prompt : bytes := str "Type a line: ".
Definition echo (line : bytes) : bytes := str "You typed: " ++ up_to_zero line.
Definition bye : bytes := str "Bye bye" ++ [10%Z].
#[local] Arguments prompt : simpl never.
#[local] Arguments echo _ : simpl never.
#[local] Arguments bye : simpl never.

Definition after_text (k : next) : pc :=
  match k with
  | GetLine n => Get n [] bufsz
  | CheckExit n line => if decide (up_to_zero line = str "exit") then Put bye Leave else While n
  | Leave => End
  end.

Definition write_serial (c : nat) (text : bytes) (k : next) : binstr pc :=
  match text with [] => BLocal (after_text k) | x :: rest => BWrite c x (fun ok => if ok then Put rest k else Put text k) end.

(** The calls of [read_serial] that [getline] makes: [Get] is the head of its loop, [Off] to [On] its busy loop. *)
Definition read_serial (c : nat) (l : pc) : binstr pc :=
  match l with
  | Get n line size =>
      match size with
      | O => BLocal (Get n line bufsz)
      | S _ => BRead c (fun o => match o with Some x => Store n line size x | None => Off n line size end)
      end
  | Off n line size => BDisable (Poll n line size)
  | Poll n line size => BRead c (fun o => match o with Some x => On n line size x | None => Poll n line size end)
  | On n line size x => BEnable (Store n line size x)
  | Store n line size x => BLocal (if decide (x = 10%Z) then Put (echo (line ++ [x])) (CheckExit n (line ++ [x])) else Get n (line ++ [x]) (size - 1))
  | _ => BReturn
  end.

Definition example5_bootfunc (c : nat) (l : pc) : binstr pc :=
  match l with
  | SetTx => BCall (VSerialCore c SERIAL_TX_READY c) SetRx
  | SetRx => BCall (VSerialCore c SERIAL_RX_READY c) (While 3)
  | While n => BLocal (match n with O => Put bye Leave | S n => Put prompt (GetLine n) end)
  | Put text k => write_serial c text k
  | End => BReturn
  | _ => read_serial c l
  end.

Definition interrupts_off (l : pc) : bool := match l with Poll _ _ _ | On _ _ _ _ => true | _ => false end.

Lemma serial_balanced n ports : n <= ports -> balanced n ports (fun _ => SetTx) example5_bootfunc 0 (fun _ => 0) interrupts_off.
Proof.
  intros Hle. split; [by split|]. intros c l Hc. assert (c < ports) as Hp by lia.
  destruct l as [| |m|[|x text] k|m line [|size]|m line size|m line size|m line size x|m line size x|]; simpl; try done;
    rewrite ?(bool_decide_true (c < ports)), ?(bool_decide_true (c < n)), ?bool_decide_true by auto; try done.
  - by destruct m.
  - split; [done|]. by destruct k as [| |]; simpl; [|destruct (decide _)|].
  - split; [done|]. by intros [].
  - split; [done|]. by intros [].
  - split; [done|]. by intros [].
  - by destruct (decide _).
Qed.

(** *** The dialogue

  What is said to somebody who types [input]: the state is the number of lines that are left, if any, the present line
  and what was said. *)
Record dialogue := mkDialogue { lines_left : option nat; line : bytes; said : bytes }.

Definition hear (d : dialogue) (x : Z) : dialogue :=
  match lines_left d with
  | None => d
  | Some n =>
      let line := line d ++ [x] in
      if decide (x = 10%Z) then
        match n with
        | S n => if decide (up_to_zero line = str "exit") then mkDialogue None [] (said d ++ echo line ++ bye)
                 else mkDialogue (Some n) [] (said d ++ echo line ++ prompt)
        | O => mkDialogue None [] (said d ++ echo line ++ bye)
        end
      else mkDialogue (Some n) line (said d)
  end.

Definition dialogue_of (input : bytes) : dialogue := foldl hear (mkDialogue (Some 2) [] prompt) input.

(** The bytes of the terminal [c] in the log. *)
Definition sent_to (c : nat) (es : list event) : bytes := omap (fun e => match e with Sent s x => if decide (s = c) then Some x else None | _ => None end) es.
Definition got_from (c : nat) (es : list event) : bytes := omap (fun e => match e with Got s x => if decide (s = c) then Some x else None | _ => None end) es.

(** What was said is what was sent, with what is still to be sent before the next byte is read. *)
Definition after_flush (k : next) (sent : bytes) : dialogue :=
  match k with
  | GetLine n => mkDialogue (Some n) [] sent
  | CheckExit n line => if decide (up_to_zero line = str "exit") then mkDialogue None [] (sent ++ bye)
      else match n with O => mkDialogue None [] (sent ++ bye) | S n => mkDialogue (Some n) [] (sent ++ prompt) end
  | Leave => mkDialogue None [] sent
  end.

Definition expects (l : pc) (sent : bytes) : dialogue :=
  match l with
  | SetTx | SetRx => mkDialogue (Some 2) [] (sent ++ prompt)
  | While n => match n with O => mkDialogue None [] (sent ++ bye) | S n => mkDialogue (Some n) [] (sent ++ prompt) end
  | Put text k => after_flush k (sent ++ text)
  | Get n line _ | Off n line _ | Poll n line _ => mkDialogue (Some n) line sent
  | On n line _ x | Store n line _ x => hear (mkDialogue (Some n) line sent) x
  | End => mkDialogue None [] sent
  end.

Definition expects_at (p : core_place pc) (sent : bytes) : dialogue :=
  match p with
  | Booting | AtStart _ => expects SetTx sent
  | Boot l | InSync _ l | Halting l | Halted l => expects l sent
  | _ => mkDialogue None [] sent
  end.

Definition in_dialogue (m : machine pc) : Prop := forall c p, threads m !! c = Some p ->
  dialogue_of (got_from c (trace m)) = expects_at p (sent_to c (trace m)).

Lemma omap_filter {A B} (f : A -> option B) (P : A -> Prop) `{!forall x, Decision (P x)} (l : list A) :
  (forall x, ~ P x -> f x = None) -> omap f l = omap f (filter P l).
Proof.
  intros Hf. induction l as [|x l IH]; [done|]. rewrite filter_cons.
  change (omap f (x :: l)) with (match f x with Some y => y :: omap f l | None => omap f l end). rewrite IH.
  destruct (decide (P x)); [done|]. by rewrite Hf.
Qed.

Lemma events_of c es : got_from c es = got_from c (filter (fun e => by_program e = true) es) /\ sent_to c es = sent_to c (filter (fun e => by_program e = true) es).
Proof. split; apply omap_filter; by intros []. Qed.

(** A move of the core keeps it in its dialogue; it logs nothing of the other terminals. *)
Lemma moves_dialogue c p p' es : moves (fun _ => SetTx) example5_bootfunc c p p' es ->
  (forall d, d <> c -> got_from d es = [] /\ sent_to d es = []) /\
  forall dl sent, dl = expects_at p sent -> foldl hear dl (got_from c es) = expects_at p' (sent ++ sent_to c es).
Proof.
  assert (forall sent, sent ++ [] = sent :> bytes) as Hnil by (intros; apply app_nil_r).
  intros Hm. destruct p as [|g|l|g l|l|l| |g| | |g|]; simpl in Hm; try (destruct Hm as [Hm ->]; split; [done|]; intros dl sent ->; simpl; rewrite Hnil).
  - by destruct Hm as [-> |[g ->]].
  - by destruct Hm as [-> |[g' ->]].
  - destruct l as [| |n|[|x text] k|n line [|size]|n line size|n line size|n line size x|n line size x|]; simpl in Hm;
      try (destruct Hm as [-> ->]; split; [done|]; intros dl sent ->; simpl; rewrite ?Hnil).
    + done.
    + done.
    + by destruct n.
    + destruct k as [n|n line|]; simpl; [done| |done]. by destruct (decide _); simpl.
    + destruct Hm as ([] & -> & ->); (split; [|intros dl sent ->; simpl; rewrite ?decide_True by done; rewrite ?Hnil, <- ?app_assoc; done]).
      * intros d Hd. simpl. by rewrite decide_False.
      * done.
    + done.
    + destruct Hm as ([x|] & -> & ->); (split; [|intros dl sent ->; simpl; rewrite ?decide_True by done; rewrite ?Hnil; done]).
      * intros d Hd. simpl. by rewrite decide_False.
      * done.
    + done.
    + destruct Hm as ([x|] & -> & ->); (split; [|intros dl sent ->; simpl; rewrite ?decide_True by done; rewrite ?Hnil; done]).
      * intros d Hd. simpl. by rewrite decide_False.
      * done.
    + done.
    + unfold hear. simpl. destruct (decide (x = 10%Z)); simpl; [|done]. destruct n; simpl; destruct (decide _); by rewrite <- !(app_assoc sent (echo _)).
    + done.
  - by subst p'.
  - by subst p'.
  - by subst p'.
  - destruct p'; done.
  - destruct p'; done.
  - destruct p'; done.
  - destruct p'; done.
  - destruct p'; done.
  - destruct p'; done.
Qed.

Lemma dialogue_step m m' : in_dialogue m -> machine_step (fun _ => SetTx) example5_bootfunc m m' -> in_dialogue m'.
Proof.
  intros I [a m1 E] d q Hq. destruct (turn_effect _ _ _ _ _ E) as (_ & es & He & Hor). unfold got_from, sent_to in *. rewrite He, !omap_app.
  fold (got_from d (trace m)) (got_from d es) (sent_to d (trace m)) (sent_to d es). destruct (events_of d es) as [-> ->].
  unfold dialogue_of. rewrite foldl_app. fold (dialogue_of (got_from d (trace m))). cbv zeta in Hor.
  destruct Hor as [[Ht ->]|(c & p & p' & Hp & Ht & Hm)]; rewrite Ht in Hq.
  - simpl. rewrite app_nil_r. by apply I.
  - destruct (moves_dialogue c p p' _ Hm) as [Ho Hs]. apply list_lookup_insert_Some in Hq as [(<- & <- & _)|[Hne Hd]].
    + apply Hs. by apply I.
    + destruct (Ho d ltac:(congruence)) as [-> ->]. simpl. rewrite app_nil_r. by apply I.
Qed.

Lemma said_expects p sent : exists rest, said (expects_at p sent) = sent ++ rest /\
  match p with Booting | AtStart _ | Boot _ | InSync _ _ | Halting _ | Halted _ => True | _ => rest = [] /\ lines_left (expects_at p sent) = None end.
Proof.
  assert (forall l, exists rest, said (expects l sent) = sent ++ rest) as Hl.
  { intros l. destruct l as [| |[|n]|text k|n line size|n line size|n line size|n line size x|n line size x|]; simpl; try (by eexists);
      try (exists []; by rewrite app_nil_r).
    - destruct k as [n|n line|]; simpl; [by eexists| |by eexists]. destruct (decide _); [|destruct n]; simpl; rewrite <- app_assoc; by eexists.
    - unfold hear. simpl. destruct (decide (x = 10%Z)); [destruct n; [|destruct (decide _)]|]; simpl; try (by eexists). exists []. by rewrite app_nil_r.
    - unfold hear. simpl. destruct (decide (x = 10%Z)); [destruct n; [|destruct (decide _)]|]; simpl; try (by eexists). exists []. by rewrite app_nil_r. }
  destruct p as [|g|l|g l|l|l| |g| | |g|]; simpl; try (destruct (Hl SetTx) as [rest E]; by exists rest); try (destruct (Hl l) as [rest E]; by exists rest);
    exists []; by rewrite app_nil_r.
Qed.
End example5.

(** C33.  Whatever is typed at a terminal, in whichever pieces and however slowly, its core in the fifth example says
  what it should: it sends a part of the dialogue with what it has read so far, and all of it before it ends. *)
Theorem dialogue_correct bufsz cores ports time is_ready m0 m c p : vm_started cores ports time is_ready = Ret m0 ->
  reach (machine_step (fun _ => SetTx) (example5_bootfunc bufsz)) m0 m -> threads m !! c = Some p ->
  exists rest, said (dialogue_of (got_from c (trace m))) = sent_to c (trace m) ++ rest /\
    match p with
    | Booting | AtStart _ | Boot _ | InSync _ _ | Halting _ | Halted _ => True
    | _ => rest = [] /\ lines_left (dialogue_of (got_from c (trace m))) = None
    end.
Proof.
  intros Hs Hr Hp. assert (in_dialogue m) as I.
  { eapply (reach_invariant _ in_dialogue); [|exact Hr|]; [intros m1 m2; apply dialogue_step|].
    unfold vm_started in Hs. apply bind_Ret in Hs as (v & _ & [= <-]). intros d q [-> _]%lookup_replicate. reflexivity. }
  rewrite (I c p Hp). apply said_expects.
Qed.

(** Typing [exit] does not end the program: the line has its newline. *)
Example exit_goes_on : lines_left (dialogue_of (str "exit" ++ [10%Z])) = Some 1.
Proof. reflexivity. Qed.

(** One core, to whom a line is typed, with a pause. *)
Definition example5 : machine pc :=
  match vm_started 1 1 1000 (fun _ _ => false) with
  | Ret m => m
  | Err _ => mkMachine (mkVm ∅ ∅ ∅ 0 true 0 0 0) [] PicStart (mkBarrier 0 0) (mkBarrier 0 0) []
  end.

Definition typed (b : bytes) : list move := b ≫= (fun x => replicate 4 (CoreMove 0 None true) ++ [CoreMove 0 (Some x) true]).
Definition writing (k : nat) : list move := replicate k (CoreMove 0 None true).
Definition session5 : machine pc := machine_run (fun _ => SetTx) (example5_bootfunc 100)
  (PicMove quiet :: writing 20 ++ typed (str "hi" ++ [10%Z]) ++ writing 30) example5.

Example session5_ex : sent_to 0 (trace session5) = str "Type a line: You typed: hi" ++ [10%Z] ++ take 12 prompt.
Proof. vm_compute. reflexivity. Qed.

Lemma dialogue_correct_witness : exists p rest, threads session5 !! 0 = Some p /\
  said (dialogue_of (got_from 0 (trace session5))) = sent_to 0 (trace session5) ++ rest.
Proof.
  destruct (lookup_lt_is_Some_2 (threads session5) 0) as [p Hp]; [apply Nat.ltb_lt; vm_compute; reflexivity|].
  destruct (dialogue_correct 100 1 1 1000 (fun _ _ => false) example5 session5 0 p) as (rest & E & _);
    [vm_compute; reflexivity|apply machine_run_reach|exact Hp|]. exists p, rest. split; [exact Hp|exact E].
Defined.
End Example5.
