(* ===== verification/Console.v ===== *)
(** * The pseudo console and the standalone symposium (console.c, mtask.c)

  Streams on the standard input and output of the host, for a machine without terminals, and the program that boots with
  a symposium.  What the host reads and writes is an argument. *)

From Stdlib Require Import String.
From S2P Require Import Prelude Rlist Lists Iface Sched SchedInv SchedSys Kernel Dev Streams Proc Boot Sys Instances Executor Prog.
From S2P Require Import Argv UnitTest Symposium Utilities Party Shell Host.
#[local] Open Scope nat_scope.

(** ** Streams of the host *)

(** [stdio_read]: a read answers the bytes that it stored, and the error if there was one; an error is printed, unless
  it is an interruption, and the read is made again, into the same buffer. *)
Fixpoint stdio_read (reads : list (bytes * option errno)) : option (bytes * list errno) :=
  match reads with
  | [] => None
  | (buf, None) :: _ => Some (buf, [])
  | (_, Some e) :: reads => '(buf, printed) ← stdio_read reads; Some (buf, if decide (e = EINTR) then printed else e :: printed)
  end.

Definition stdio_write (written : nat) : Z := Z.of_nat written.
Definition stdio_close : Z := 0.

(** What a read gives is what the first read without an error gave: an interrupted read loses what it had stored. *)
Lemma stdio_read_last (reads : list (bytes * option errno)) buf rest : Forall (fun r => is_Some r.2) reads ->
  exists printed, stdio_read (reads ++ (buf, None) :: rest) = Some (buf, printed) /\ EINTR ∉ printed.
Proof.
  induction 1 as [|[b o] reads [e He] Hr (printed & E & Hp)]; [exists []; split; [done|apply not_elem_of_nil]|]. simpl in He. subst o.
  simpl. rewrite E. cbn [mbind option_bind]. eexists. split; [done|]. destruct (decide (e = EINTR)); [done|]. by apply not_elem_of_cons.
Qed.

Example stdio_read_loses : stdio_read [([104%Z], Some EINTR); ([105%Z], None)] = Some ([105%Z], []).
Proof. reflexivity. Qed.

(** ** Streams on file ids (tinyoslib.c)

  What [fidopen] allocates holds the file id, and is found by the functions of the stream; [cookies] are those that are
  allocated.  [memory] and [stream] tell whether [malloc] and [fopencookie] succeed, which is not looked at before
  the results are used. *)
Definition fidopen (fid : Z) (memory stream : bool) (cookies : gmap nat Z) : outcome (nat * gmap nat Z) :=
  if memory && stream then let fidloc := fresh (dom cookies) in Ret (fidloc, <[fidloc := fid]> cookies) else Err BadAccess.

(** The file id that a stream reads or writes. *)
Definition stream_fid (cookie : nat) (cookies : gmap nat Z) : outcome Z := deref (cookies !! cookie).

(** [fclose] calls it; the file id is not closed. *)
Definition tinyos_fid_close (cookie : nat) (cookies : gmap nat Z) : outcome (Z * gmap nat Z) :=
  _ ← deref (cookies !! cookie); Ret (0%Z, delete cookie cookies).

Definition get_std_stream (fid : Z) (memory stream : bool) (cookies : gmap nat Z) : outcome (nat * gmap nat Z) := fidopen fid memory stream cookies.

(** A stream is on its file id, whatever other streams are opened and closed, and closing it frees what was allocated. *)
Lemma fidopen_close fid cookies c cookies' : fidopen fid true true cookies = Ret (c, cookies') ->
  stream_fid c cookies' = Ret fid /\ tinyos_fid_close c cookies' = Ret (0%Z, cookies) /\
  (forall d v, stream_fid d cookies = Ret v -> stream_fid d cookies' = Ret v /\ d <> c).
Proof.
  unfold fidopen. cbn [andb]. intros [= <- <-]. set (c := fresh (dom cookies)).
  assert (cookies !! c = None) as Hc by (apply not_elem_of_dom, is_fresh).
  unfold stream_fid, tinyos_fid_close. rewrite lookup_insert_eq. cbn [deref]. rewrite ret_bind.
  split; [done|]. split; [by rewrite delete_insert_id|]. intros d v E. assert (d <> c) by (intros ->; by rewrite Hc in E).
  by rewrite lookup_insert_ne.
Qed.

(** ** The console *)

Section console.
Context {Task T S B : Type} `{SerialOps B}.
Implicit Types (k : kernel Task T S B) (pc : PCB Task T) (cur : nat) (hold : nat -> list nat) (ffl : list nat).

(** The blocks that become the standard streams: their [streamfunc] is [__stdio_ops]. *)
Definition tinyos_pseudo_console cur k : outcome (list nat * kernel Task T S B) :=
  '(r, k) ← FCB_reserve 2 cur k;
  match r with
  | Some ([0; 1], fcb) => Ret (fcb, k)
  | _ => Err Fatal
  end.

(** The ids of the console are free. *)
Definition std_free pc : Prop := FIDT pc !! 0 = Some None /\ FIDT pc !! 1 = Some None.

Lemma free_01 (l : list (option nat)) : take 2 (free_ids 0 l) = [0; 1] <-> l !! 0 = Some None /\ l !! 1 = Some None.
Proof.
  assert (forall l i, (forall j, j ∈ free_ids i l -> i <= j)) as Hge by (intros l' i j Hj; by apply free_ids_lookup in Hj as [? _]).
  assert (forall l i j rest, free_ids i l = j :: rest -> i <= j) as Hhd by (intros l' i j rest E; apply (Hge l' i); rewrite E; by left).
  destruct l as [|[f|] l]; simpl.
  - split; [done|by intros []].
  - split; [|by intros []]. intros E. destruct (free_ids 1 l) as [|j rest] eqn:Ef; [done|]. pose proof (Hhd l 1 j rest Ef). simpl in E.
    injection E as E _. lia.
  - destruct l as [|[f|] l]; simpl; [split; [done|by intros []]|..|done].
    split; [|by intros []]. intros E. destruct (free_ids 2 l) as [|j rest] eqn:Ef; [done|]. pose proof (Hhd l 2 j rest Ef). simpl in E.
    injection E as E. lia.
Qed.

(** The pseudo console is there exactly if the file ids 0 and 1 of the caller are free and two blocks are: then
  they, and no other id, are two new blocks; otherwise the machine stops. *)
Lemma pseudo_console_correct n hold k cur pc ffl : files_ok n hold k -> PT k !! cur = Some pc ->
  fcbs_ok (refs n (uses hold k)) ffl k -> streams_ok (refs n (uses hold k)) ffl k ->
  if decide (std_free pc /\ 2 <= length ffl) then
    exists a b k', tinyos_pseudo_console cur k = Ret ([a; b], k') /\ take 2 ffl = [a; b] /\ a <> b /\
      PT k' = <[cur := set_FIDT (<[1 := Some b]> (<[0 := Some a]> (FIDT pc))) pc]> (PT k) /\ same_streams (FT k) (FT k')
  else tinyos_pseudo_console cur k = Err Fatal.
Proof.
  intros F Hp K Hs. destruct (reserve_ok n hold k cur pc 2 ffl F Hp K Hs) as (m & h & Hss & Hres). unfold tinyos_pseudo_console.
  pose proof (free_01 (FIDT pc)) as Hfree. pose proof (length_take (free_ids 0 (FIDT pc)) 2) as Hlen.
  destruct (decide (std_free pc /\ 2 <= length ffl)) as [[Hstd Hl]|Hno].
  - apply Hfree in Hstd as Ht. rewrite Ht in Hlen. cbn [length] in Hlen. rewrite decide_True in Hres by (split; [lia|done]).
    destruct Hres as (-> & Hk & _). rewrite ret_bind, Ht. destruct ffl as [|a [|b ffl]]; simpl in Hl; [lia..|].
    exists a, b. eexists. split; [done|]. split; [done|]. split.
    + pose proof (ffl_nodup _ _ _ K) as [Hn _]%NoDup_cons. intros ->. apply Hn. by left.
    + split; [done|exact Hss].
  - destruct (decide (2 <= length (free_ids 0 (FIDT pc)) /\ 2 <= length ffl)) as [[H1 H2]|H1].
    + destruct Hres as (-> & _). rewrite ret_bind. assert (take 2 (free_ids 0 (FIDT pc)) <> [0; 1]) as Hne by (intros E; apply Hno; split; [by apply Hfree|done]).
      destruct (take 2 (free_ids 0 (FIDT pc))) as [|[|i] [|[|[|j]] [|? ?]]]; done.
    + destruct Hres as [-> _]. done.
Qed.
End console.

(** ** Programs that boot *)

Section boot_programs.
Context {U : Type} (text : Z -> option (list bytes -> prog U)).

(** [tinyos_pseudo_console] is not a system call: [console] stands for its call. *)
Context (console : stmt U unit).

Definition open_std (fid : Z) : stmt U unit :=
  fd ← sc (OpenTerminal 0);
  if decide (fd <> NOFILE /\ fd <> fid) then _ ← sc (Dup2 fd fid); _ ← sc (Close fd); mret tt else mret tt.

(** [task] is [SymposiumOfProcesses]; [Party] has its steps. *)
Definition boot_symposium (task : Task U) (fuel : nat) : Task U := fun argl args => returns_int (
  n ← sc GetTerminalDevices;
  _ ← (if decide (0 < n)%Z then _ ← open_std 0; open_std 1 else console);
  _ ← sc (Exec (Some task) argl args);
  _ ← sc (Close 0);
  _ ← sc (Close 1);
  _ ← wait_all fuel;
  mret 0%Z).

(** [boot_shell] without terminals, when there is one shell. *)
Definition boot_shell_console (fuel : nat) : Task U := fun argl args => returns_int (
  match getprog_byname (str "sh") with
  | None => trap
  | Some shprog =>
      _ ← sc (Close 0);
      _ ← sc (Close 1);
      _ ← console;
      _ ← Execute_command text shprog [str "sh"];
      _ ← wait_all fuel;
      mret 0%Z
  end).

(** The symposium whose philosophers are threads. *)
Definition SymposiumOfThreads (PhilosopherThread : Task U) (argl : Z) (symp : symposium_t) : stmt U Z :=
  if decide (argl <> sizeof_symposium_t \/ sy_N symp < 0)%Z then trap
  else
    let N := Z.to_nat (sy_N symp) in
    thread ← for_map (seq 0 N) (fun i => sc (CreateThread (Some PhilosopherThread) (Z.of_nat i) None));
    _ ← for_each thread (fun t => _ ← sc (ThreadJoin t); mret tt);
    mret 0%Z.

Definition Symposium_thr (log_phi : Z -> Z) (junk : Z) (PhilosopherThread : Task U) : Program := program_of (fun argv => checkargs 2 argv (
  SymposiumOfThreads PhilosopherThread sizeof_symposium_t (symp_argproc log_phi junk argv))).
End boot_programs.

(** ** The command lines *)

(** [None]: the usage is printed, and the program ends. *)
Definition mtask_main (log_phi : Z -> Z) (argv : list bytes) : option (Z * Z * symposium_t) :=
  if decide (length argv = 5) then
    let ncores := u32 (getint 1 argv) in
    let nterm := u32 (getint 2 argv) in
    let nphil := getint 3 argv in
    let bites := getint 4 argv in
    if decide (nphil <= 0 \/ Z.of_nat MAX_PROC < nphil)%Z then None
    else if decide (bites <= 0)%Z then None
    else Some (ncores, nterm, adjust_symposium log_phi (mkSymposium nphil bites 0 0) 0 0)
  else None.

Definition shell_main (argv : list bytes) : option (Z * Z) :=
  if decide (length argv = 3) then Some (u32 (getint 1 argv), u32 (getint 2 argv)) else None.

(** What [mtask] boots with is a symposium whose philosophers think and eat without a division by zero. *)
Lemma mtask_symposium_sound log_phi argv ncores nterm symp rnd :
  mtask_main log_phi argv = Some (ncores, nterm, symp) -> (0 <= rnd)%Z ->
  (forall x, -1000 <= log_phi x <= 1000)%Z ->
  (exists p, party_start sizeof_symposium_t symp = Ret p) /\ ~ no_choice (sy_fmin symp) (sy_fmax symp) /\ (0 < sy_N symp <= Z.of_nat MAX_PROC)%Z /\ (0 < sy_bites symp)%Z /\
  exists n, fiborand rnd (sy_fmin symp) (sy_fmax symp) = Some n /\ (sy_fmin symp <= n <= sy_fmax symp)%Z.
Proof.
  intros E Hr Hlog. unfold mtask_main in E.
  destruct (decide (length argv = 5)); [|done]. destruct (decide _) as [|Hn] in E; [done|]. destruct (decide _) as [|Hb] in E; [done|].
  injection E as _ _ <-. unfold adjust_symposium, party_start. cbn [sy_N sy_bites sy_fmin sy_fmax]. rewrite decide_False by lia.
  split; [by eexists|].
  pose proof (Hlog (s32 (s32 (2 * getint 3 argv) * getint 4 argv))) as Hx. set (x := log_phi _) in *. clearbody x. unfold FBASE, FGAP.
  rewrite (s32_small (35 + 0)), (s32_small (35 + 0 - x)), (s32_small (35 + 0 - x + 10)), (s32_small (35 + 0 - x + 10 + 0)) by lia.
  destruct (fiborand_range rnd (35 - x) (35 - x + 10)) as (n & En & Hle); [lia..|].
  replace (35 + 0 - x)%Z with (35 - x)%Z by lia. replace (35 - x + 10 + 0)%Z with (35 - x + 10)%Z by lia.
  split; [|split; [lia|split; [lia|by exists n]]]. intros Hno. unfold fiborand in En. by rewrite decide_True in En.
Qed.

(** ** Booting with a terminal *)

#[local] Instance wake_in_console : WakeOps tid (Sched.sched Z) := sched_wake 0.

(** A machine with one terminal that boots with the given task: what is on the screen, and whether it has halted. *)
Definition booted_with (task : Task unit) (argl : Z) (args : option bytes) : outcome (list bytes * bool) :=
  s ← (Sys.boot initialize_scheduler 16 16 task argl args (mkSched ∅ ∅ ∅ 0%Z ∅ 0%Z) [mkTty [] []] tt
       : outcome (sys unit tid (Sched.sched Z) ttys));
  s ← run (fun _ : tid => 1%Z) 1000 16 s;
  Ret (screen <$> (ports (kern s) : list tty), bool_decide (threads s = ∅)).

Definition guest : Task unit := fun argl args => returns_int (_ ← printf (default [] args); mret 0%Z).

(** The task of the symposium has its arguments and the terminal, and the machine halts when it has ended. *)
Example symposium_boots :
  booted_with (boot_symposium (mret tt) guest 100) 5 (Some (str "phils")) = Ret ([str "phils"], true).
Proof. vm_compute. reflexivity. Qed.

(** No philosopher of [symp_thr] starts: nothing is printed, and the program returns 0. *)
Example threads_symposium_silent :
  booted_with (boot_symposium (mret tt) (fun _ _ => Symposium_thr (fun _ => 10%Z) 0%Z guest [str "symp_thr"; str "5"; str "5"]) 100) 0 None =
  Ret ([[]], true).
Proof. vm_compute. reflexivity. Qed.
